(* ===== verification/_CoqProject ===== *)
-Q . S2P
Prelude.v
RustStr.v
Config.v
Http.v
Atomics.v
Rpc.v
RouteTable.v
Routing.v
Balancing.v
Signin.v
Proxy.v
Forwarding.v
Upstream.v
Auth.v
Handler.v
Certs.v
Grpc.v
Watching.v
System.v
InFlight.v
Server.v
Serving.v
GoLib.v
Sha256.v
Model.v
GoFmt.v
Annotations.v
Targets.v
Snapshots.v
Building.v
Reconciling.v
Translate.v
Hub.v
Distribution.v
Draining.v
ControlPlane.v
EndToEnd.v
IngressTls.v
Fleet.v
Gateway.v
Identity.v
Startup.v
