(* ===== verification/Prelude.v ===== *)
(** * Argon: a verification development

    Argon is an ingress controller. A control plane written in Go
    (src/images/controlplane) turns the Kubernetes configuration into snapshots
    and streams them over gRPC; the data plane, written in Rust
    (src/images/dataplane/src), installs every snapshot and proxies HTTP requests
    accordingly. This library is a shallow embedding of both: functions are
    Gallina functions, shared mutable state is passed explicitly (a state monad
    for the handler, step functions for what runs concurrently), errors and
    panics are values of sum and option types, and integers are [Z] with every
    wrap-around written out.

    ** The data plane and its model

    - A snapshot (argon.config.rs, the prost messages) is a record of Config.v; the
      client and server stubs of the same file are Rpc.v.
    - The route table (snapshot.rs) is RouteTable.v: [new] builds per-host rule
      lists, sorted by [rule_cmp], and the cluster map; [choose_route] and
      [get_endpoint] look up in them. The per-endpoint counters and the
      round-robin cursors are [Arc<AtomicUsize>] in the code; here they are
      locations of a store (Atomics.v), so that tables, requests in flight and
      later tables share or do not share them as the code does. Routing.v and
      Balancing.v hold the specifications and theorems.
    - The request path (proxy.rs) is Signin.v (percent-encoding and the sign-in
      redirect) and Proxy.v (everything else, up to [proxy_handler]). Its state is
      a [World]: the store and the log of requests sent. What peers answer is a
      parameter, [Network], that may depend on the whole log. Forwarding.v
      (attempts and retries), Upstream.v (headers and URI of the forwarded
      request), Auth.v (external auth) and Handler.v (the handler as a whole) hold
      the theorems.
    - Server certificates (certs.rs) are Certs.v.
    - The configuration watcher (grpc.rs) is Grpc.v: the manager task and the
      certificate watcher task as step functions ([mstep], [wstep]) over shared
      cells, one step per await or access of shared state; [run] executes a
      schedule. Watching.v holds its theorems.
    - Requests in flight together with the watcher are System.v: [sstep]
      interleaves requests (the pieces of [proxy_handler] between its accesses of
      shared state), aborted requests and watcher steps; the read lock on the
      table excludes the watcher's write. InFlight.v holds its theorems.
    - The process (main.rs, client_pool.rs, utils.rs) is Server.v: settings, client
      pool, admin endpoint, listeners and the shutdown of [main]. Serving.v holds
      its theorems.

    ** The control plane and its model

    - The structs of internal/model and the API objects the code reads are Model.v.
      Pointers carry their address, because the code compares and prints them;
      a nil pointer is [None].
    - Annotations (internal/controller/utils.go) are Annotations.v, services,
      EndpointSlices and TLS Secrets to targets (utils.go and [parseEndpoints] of
      ingress_controller.go) are Targets.v, and targets to snapshots, with [Sort],
      the version and [Reconcile], are Snapshots.v. Building.v has the facts about
      the builder and Reconciling.v the theorems.
    - The message of a snapshot ([toPbSnapshot] of internal/grpc/server.go) is
      Translate.v.
    - The hub (internal/grpc/hub.go) and the [Watch] calls of server.go are Hub.v, a
      step function [hstep] over watchers, channels and the broadcast under way.
      Distribution.v holds its theorems. ControlPlane.v joins reconciler and hub
      ([cpstep]), as cmd/main.go does.
    - EndToEnd.v follows Ingresses through snapshots, messages and tables to
      requests, and IngressTls.v the certificates of the Ingresses.
    - Fleet.v is the deployment as one system: [fstep] interleaves the control plane
      ([cpstep]) with any number of data planes ([sstep]), connected by the streams
      of their [Watch] calls. A stream carries messages in order, each once, and
      loses what is under way when the call ends; calls may end at any time.
    - The certificates of the configuration stream (internal/grpc/certs.go,
      [NewServer] and [buildDNSSANs] of server.go, secrets_controller.go) are
      Identity.v.
    - [main] of cmd/main.go, from the flags to the running manager, is Startup.v: a
      program that logs its calls of controller-runtime and may exit or dereference
      nil. [RunGRPC] of server.go with its graceful stop is Draining.v, over the
      hub.
    - The controller for the Gateway API (gateway_controller.go, resolver.go,
      model/gw_snapshot.go), which [main] does not set up, is Gateway.v.

    ** The languages

    Prelude.v has the machine integers, the stable sort of [slice::sort_by],
    reachability, the state monad, tactics and hints. Strings (RustStr.v) are
    sequences of code points with a UTF-8 byte view, for both languages. GoLib.v
    has what is used of Go's library ([strings], [strconv], [sort], [hex], the
    order of maps), GoFmt.v the [%v] and [%+v] verbs, and Sha256.v the hash.

    Third-party code is a parameter with its documented behaviour as laws: [Http]
    and [HttpLaws] (crates http and hyper, Http.v), [Tonic] and [TonicLaws] (Rpc.v),
    [Rustls] (PEM and keys, Certs.v), [Tokio] and [TokioLaws] ([Notify] and
    [CancellationToken], Grpc.v), the iteration order of the [DashMap] of counters
    ([iterates], Balancing.v), the Kubernetes client ([Client] and [client_laws]),
    YAML, PEM and X.509 parsing ([Libs], Model.v), certificate creation ([Pki] and
    [PkiLaws], Identity.v), the answers of controller-runtime to [main] ([Env],
    Startup.v), and addresses, DNS and lists of the Gateway API ([GatewayLibs],
    Gateway.v). Go leaves the order of maps and the algorithm of
    [sort.Slice] open, so they are parameters too ([Go.ranges], [GoSort] and
    [GoSortLaws], GoLib.v). Each has a concrete instance that the witnesses
    evaluate.

    ** What the theorems show

    - End to end: a request is routed to the most specific path of the Ingresses
      for its host; a routed request is given an endpoint; and in every run of the
      control plane with any number of data planes that endpoint is a ready address
      of the service behind the Ingress path, as one of the reconciliations read
      it. A data plane on a live stream catches up with the current snapshot, one
      that lost its stream does so after reconnecting, both within a bounded number
      of steps, and one that has caught up routes by the current Ingresses.
      Certificates come from Secrets that Ingresses name in their own namespace,
      and are served for the hosts they list.
    - Snapshots: everything in a broadcast snapshot is backed by the cluster,
      nothing usable is left out, snapshots are well formed, and without conflicts
      they do not depend on map order or sorting algorithm; the reconciler
      broadcasts exactly the changes of version, and so misses changes that print
      alike.
    - Hub, for every interleaving: streams carry the broadcasts in order; the
      newest one can always be delivered unless it was dropped at a full channel,
      and then it is not sent at all; reconciler and hub together refine the hub
      fed with the reconciler's broadcasts.
    - Identities: both sides of the configuration stream accept each other, exactly
      while the certificates are valid. Stubs: the client reaches the method the
      server dispatches to.
    - Start and stop of the control plane: nothing is started before everything is
      set up in order, its servers are as hardened as the flags say, and [RunGRPC]
      returns exactly when the streams of its data planes have ended.
    - Gateway API: no gateway is ever converted, since its routes are read into a
      nil pointer, and routes are indexed under keys that are not looked up.
    - Annotations: comma-separated lists equal their reference definition and
      round-trip, and what the data plane normalises again is unchanged.
    - Routing: the indexed lookup equals a scan of the snapshot for the earliest
      most specific rule, with the fall-back to the catch-all host; a cluster name
      denotes the last usable cluster of that name; normalisation of lists.
    - Balancing: counters are private and fresh; round robin is fair; least
      connections picks a minimal counter; selection is total.
    - Handler: nothing reaches an endpoint without a route and, where configured,
      the consent of the auth service; the number of upstream requests is
      bounded; counters are balanced; answers carry no hop-by-hop headers; each
      failure has its status; forwarded requests have the right headers and URI;
      only clusters that opt out skip certificate verification.
    - Sign-in: percent-encoding round-trips, and the template passes equal one
      simultaneous substitution for variable-free values.
    - Server certificates: resolution refines a direct reading of the bundles, also
      while the map is replaced.
    - Watcher, for every schedule: the cells hold what was received last, the
      backoff is exponential and capped, readiness means a stream was opened, a
      certificate rotation is never missed, and shutdown terminates.
    - Concurrency, for every interleaving: a counter equals the number of
      requests holding it, least connections sees the real load, requests are
      routed by a received snapshot, and an uninterrupted request is
      [proxy_handler].
    - Process: settings, probes, listeners, and the order of shutdown.

    Some theorems pin down behaviour that differs from what the code or its
    documentation intends. In the data plane: upper-case cluster and SNI names are
    never found, the URI host is not lower-cased, the cookie check accepts a
    suffix, readiness precedes the first snapshot, the first stream is always
    reopened, a table update resets the load counters, finished connection tasks
    accumulate, a failed bind goes unnoticed, and zero threads are a panic. In the
    control plane: a snapshot that finds a full channel is lost, a graceful stop
    waits for the data planes, a server name that is not in ASCII is a crash,
    versions depend on addresses (unchanged
    configurations are broadcast again, changed auth settings may not be),
    conflicting paths are resolved by the sorting algorithm, timeouts are not
    clamped, and the spelling of the balancing algorithm matters.

    ** Bounds and fuel

    Most recursion is structural. [Str.decimal_go] (and [Str.hex_go]) have fuel for
    the digits of a number, the binary size of the number plus one, shown to be
    enough by [parse_decimal]. The blocks of a padded message (Sha256.v) have its
    length as fuel, enough by [blocks_concat]. The attempt
    loop recurses on the attempts left, at most [retries]. Step functions need no
    fuel: [run], [srun], [listener_run], [hrun], [cprun], [grun] and [frun] recurse
    on the schedule. Counters and [usize] are 64 bits wide (the data plane is built for
    64-bit targets) and wrap; ports are 16 bits; timeouts are the 64-bit
    truncation of the 32-bit setting. In the control plane [int] is 64 bits wide
    and conversions to [int32] wrap; the ids of connections are counted without
    wrapping. The end-to-end routing theorem is for paths shorter than a million
    bytes ([short_paths]), the factor between path types in a priority.

    ** What is not modelled

    Logging; the bytes on the wire, TLS handshakes and connection pooling (hyper,
    rustls, tonic, grpc-go); the streaming of bodies, which the proxy passes on
    unread; real time, which only appears as the label of a sleep or timeout and
    as the clock readings of the control plane; the texts of third-party errors
    (parameters); the inside of controller-runtime (the manager, its caches and
    work queues, the metrics and web hook servers) and the registration of
    controllers with it; the generated Go code of the messages, whose Rust
    counterpart is Config.v; and the build script, tests and deployment files. *)

From stdpp Require Import base gmap list sorting relations.
From Stdlib Require Import ZArith Lia.

(** ** Scope, hint database and tactics *)

Declare Scope argon_scope.
Delimit Scope argon_scope with argon.
Open Scope argon_scope.

Create HintDb argon.
Create Rewrite HintDb argon.

(** Case analysis on every [match]/[if] in sight, with contradictory branches
    closed and equations substituted. *)
Ltac crush_match := repeat (case_match; simplify_eq/=); try done.

(** Introduce, unfold nothing, and split a conjunction goal completely. *)
Ltac split_all := repeat match goal with |- _ ∧ _ => split end.

(** Decide a closed decidable proposition by evaluation. *)
Ltac decide_compute := refine (proj1 (bool_decide_eq_true _) _); vm_compute; reflexivity.

(** ** Machine integers

    Values of a machine type are [Z]; each cast writes its wrap-around out.
    The data plane is built for 64-bit targets, so [usize] is 64 bits wide. *)

Module Int.
Open Scope Z_scope.

Definition u16_modulus : Z := 2 ^ 16.
Definition u64_modulus : Z := 2 ^ 64.
Definition usize_modulus : Z := 2 ^ 64.

(** [x as u16], [x as u64], [x as usize]: two's-complement truncation. *)
Definition as_u16 (z : Z) : Z := z mod u16_modulus.
Definition as_u64 (z : Z) : Z := z mod u64_modulus.
Definition as_usize (z : Z) : Z := z mod usize_modulus.

(** [AtomicUsize::fetch_add]/[fetch_sub] wrap around on overflow. *)
Definition wrapping_add (a b : Z) : Z := (a + b) mod usize_modulus.
Definition wrapping_sub (a b : Z) : Z := (a - b) mod usize_modulus.

(** [u64::saturating_mul]. *)
Definition saturating_mul_u64 (a b : Z) : Z := Z.min (a * b) (u64_modulus - 1).

Definition is_i32 (z : Z) : Prop := - 2 ^ 31 <= z < 2 ^ 31.
Definition is_usize (z : Z) : Prop := 0 <= z < usize_modulus.

Lemma wrapping_add_range a b : is_usize (wrapping_add a b).
Proof. apply Z.mod_pos_bound. reflexivity. Qed.

Lemma wrapping_sub_range a b : is_usize (wrapping_sub a b).
Proof. apply Z.mod_pos_bound. reflexivity. Qed.

Lemma wrapping_add_small a b :
  0 <= a -> 0 <= b -> a + b < usize_modulus -> wrapping_add a b = a + b.
Proof. intros. apply Z.mod_small. lia. Qed.

Lemma wrapping_sub_small a b :
  0 <= b <= a -> a < usize_modulus -> wrapping_sub a b = a - b.
Proof. intros. apply Z.mod_small. lia. Qed.

(** A [fetch_sub] undoes the [fetch_add] of the same amount, also when one of
    the two wrapped. *)
Lemma wrapping_add_sub a b : is_usize a -> wrapping_sub (wrapping_add a b) b = a.
Proof.
  intros Ha. unfold wrapping_sub, wrapping_add.
  rewrite Zminus_mod_idemp_l, Z.add_simpl_r. by apply Z.mod_small.
Qed.

Lemma as_u16_small z : 0 <= z < 2 ^ 16 -> as_u16 z = z.
Proof. intros. by apply Z.mod_small. Qed.

Lemma as_u64_small z : 0 <= z < 2 ^ 64 -> as_u64 z = z.
Proof. intros. by apply Z.mod_small. Qed.

Close Scope Z_scope.
End Int.

#[export] Hint Resolve Int.wrapping_add_range Int.wrapping_sub_range : argon.

(** ** Generic list lemmas *)

Section list_lemmas.
Context {A : Type}.

(** [Iterator::find]: the first element that satisfies the predicate. *)
Fixpoint find_first (p : A -> bool) (l : list A) : option A :=
  match l with
  | [] => None
  | x :: l => if p x then Some x else find_first p l
  end.

Lemma find_first_head p l : find_first p l = head (base.filter (fun x => p x = true) l).
Proof.
  induction l as [|x l IH]; [done|]. simpl. rewrite filter_cons.
  destruct (p x) eqn:E; [by rewrite decide_True|].
  by rewrite decide_False by congruence.
Qed.

Lemma find_first_Some p l x : find_first p l = Some x -> x ∈ l /\ p x = true.
Proof.
  induction l as [|y l IH]; [done|]. simpl. destruct (p y) eqn:E.
  - intros [= ->]. split; [by left|done].
  - intros [??]%IH. split; [by right|done].
Qed.

Lemma find_first_None p l : find_first p l = None <-> Forall (fun x => p x = false) l.
Proof.
  induction l as [|y l IH]; simpl; [split; auto|].
  rewrite Forall_cons. destruct (p y); naive_solver.
Qed.

Lemma Forall_filter_sub (P Q : A -> Prop) `{!forall x, Decision (Q x)} l :
  Forall P l -> Forall P (base.filter Q l).
Proof. rewrite !Forall_forall. intros Hl x [_ Hx]%list_elem_of_filter. by apply Hl. Qed.

Lemma filter_none (P : A -> Prop) `{!forall x, Decision (P x)} l :
  (forall x, x ∈ l -> ~ P x) -> base.filter P l = [].
Proof.
  induction l as [|x l IH]; intros Hl; [done|]. rewrite filter_cons, decide_False.
  - apply IH. intros y Hy. apply Hl. by right.
  - apply Hl. by left.
Qed.

Lemma filter_all (P : A -> Prop) `{!forall x, Decision (P x)} (l : list A) :
  (forall x, x ∈ l -> P x) -> base.filter P l = l.
Proof.
  induction l as [|x l IH]; intros Hl; [done|].
  rewrite filter_cons, decide_True by (apply Hl; by left).
  f_equal. apply IH. intros y Hy. apply Hl. by right.
Qed.

Lemma mapM_snoc {B C} (f : B -> option C) l x :
  mapM f (l ++ [x]) = k ← mapM f l; y ← f x; Some (k ++ [y]).
Proof.
  induction l as [|z l IH]; simpl; [by destruct (f x)|].
  destruct (f z); simpl; [|done]. rewrite IH. destruct (mapM f l); simpl; [|done]. by destruct (f x).
Qed.

Lemma last_mapM {B C} (f : B -> option C) l k x :
  mapM f l = Some k -> last l = Some x -> exists y, f x = Some y /\ last k = Some y.
Proof.
  intros Hm%mapM_Some Hl. apply last_Some in Hl as [l' ->].
  apply Forall2_app_inv_l in Hm as (k1 & k2 & _ & Hk & ->).
  apply Forall2_cons_inv_l in Hk as (y & k3 & Hy & Hnil & ->). apply Forall2_nil_inv_l in Hnil as ->.
  exists y. split; [done|]. apply last_snoc.
Qed.

Lemma omap_nil_iff {B} (f : A -> option B) (l : list A) :
  omap f l = [] <-> forall x, x ∈ l -> f x = None.
Proof.
  induction l as [|x l IH]; simpl; [split; [intros _ x Hx; by apply not_elem_of_nil in Hx|done]|].
  setoid_rewrite elem_of_cons. destruct (f x) eqn:E; [|naive_solver].
  split; [done|]. intros Hl. by rewrite Hl in E by by left.
Qed.

End list_lemmas.

(** ** [slice::sort_by]: a stable sort

    The standard library documents [sort_by] as stable; for a total preorder
    that determines its result, so the model is the stable insertion sort. *)

Module Sort.
Section sort.
Context {A : Type} (cmp : A -> A -> comparison).

Fixpoint insert_by (x : A) (l : list A) : list A :=
  match l with
  | [] => [x]
  | y :: l' =>
      match cmp x y with
      | Gt => y :: insert_by x l'
      | _ => x :: y :: l'
      end
  end.

Fixpoint sort_by (l : list A) : list A :=
  match l with
  | [] => []
  | x :: l' => insert_by x (sort_by l')
  end.

(** [Iterator::min_by]: the first of the least elements. *)
Fixpoint first_min (l : list A) : option A :=
  match l with
  | [] => None
  | x :: l' =>
      match first_min l' with
      | None => Some x
      | Some y => match cmp x y with Gt => Some y | _ => Some x end
      end
  end.

Definition le (x y : A) : Prop := cmp x y <> Gt.

#[global] Instance le_dec x y : Decision (le x y).
Proof. unfold le. destruct (cmp x y); (left; discriminate) || (right; tauto). Defined.

(** A comparison function that is a total preorder, which is what [sort_by]
    requires of its argument. *)
Class TotalOrder : Prop := {
  cmp_swap x y : cmp y x = CompOpp (cmp x y);
  le_trans x y z : le x y -> le y z -> le x z;
}.

Lemma insert_by_perm x l : insert_by x l ≡ₚ x :: l.
Proof.
  induction l as [|y l IH]; [done|]. simpl. destruct (cmp x y); [done..|].
  rewrite IH. apply Permutation_swap.
Qed.

Lemma sort_by_perm l : sort_by l ≡ₚ l.
Proof. induction l as [|x l IH]; [done|]. simpl. by rewrite insert_by_perm, IH. Qed.

Context {Hcmp : TotalOrder}.

Lemma le_refl x : le x x.
Proof. pose proof (cmp_swap x x). unfold le. destruct (cmp x x); simpl in *; congruence. Qed.

Lemma gt_le x y : cmp x y = Gt -> le y x.
Proof. unfold le. rewrite (cmp_swap x y). by intros ->. Qed.

Lemma insert_by_sorted x l : StronglySorted le l -> StronglySorted le (insert_by x l).
Proof.
  induction 1 as [|y l Hl IH Hy]; simpl; [repeat constructor|].
  destruct (cmp x y) eqn:E.
  1,2: assert (le x y) by (unfold le; congruence);
       constructor; [by constructor|]; constructor; [done|];
       eapply Forall_impl; [exact Hy|]; intros z ?; by apply le_trans with y.
  constructor; [done|]. rewrite insert_by_perm. constructor; [by apply gt_le|done].
Qed.

Lemma sort_by_sorted l : StronglySorted le (sort_by l).
Proof. induction l; simpl; [constructor|by apply insert_by_sorted]. Qed.

Lemma insert_by_le_all x l : Forall (le x) l -> insert_by x l = x :: l.
Proof.
  intros Hall. destruct l as [|y l]; [done|]. simpl.
  apply Forall_cons_1 in Hall as [Hxy _]. unfold le in Hxy. by destruct (cmp x y).
Qed.

Lemma filter_insert_by (P : A -> Prop) `{!forall x, Decision (P x)} x l :
  StronglySorted le l ->
  base.filter P (insert_by x l)
  = if decide (P x) then insert_by x (base.filter P l) else base.filter P l.
Proof.
  induction 1 as [|y l Hl IH Hy]; simpl.
  { rewrite filter_cons, filter_nil. done. }
  destruct (cmp x y) eqn:E.
  3: { rewrite !filter_cons, IH. repeat case_decide; simpl; rewrite ?E; done. }
  1,2: rewrite filter_cons; case_decide; [|done];
       rewrite insert_by_le_all; [done|];
       assert (le x y) by (unfold le; congruence);
       apply Forall_filter_sub; constructor; [done|];
       eapply Forall_impl; [exact Hy|]; intros z ?; by apply le_trans with y.
Qed.

(** Stability: sorting commutes with restricting to any subset. *)
Lemma filter_sort_by (P : A -> Prop) `{!forall x, Decision (P x)} l :
  base.filter P (sort_by l) = sort_by (base.filter P l).
Proof.
  induction l as [|x l IH]; [done|]. simpl.
  rewrite filter_insert_by by apply sort_by_sorted.
  rewrite filter_cons, IH. by case_decide.
Qed.

Lemma head_sort_by l : head (sort_by l) = first_min l.
Proof.
  induction l as [|x l IH]; [done|]. simpl. rewrite <-IH.
  destruct (sort_by l) as [|y l']; [done|]. simpl. by destruct (cmp x y).
Qed.

Lemma find_first_sort_by p l :
  find_first p (sort_by l) = first_min (base.filter (fun x => p x = true) l).
Proof. by rewrite find_first_head, filter_sort_by, head_sort_by. Qed.

Lemma first_min_Some l x :
  first_min l = Some x -> x ∈ l /\ Forall (le x) l.
Proof.
  revert x. induction l as [|y l IH]; [done|]. intros x. simpl.
  destruct (first_min l) as [z|] eqn:E.
  - destruct (IH z eq_refl) as [Hz Hall]. destruct (cmp y z) eqn:Ey; intros [= <-].
    3: { split; [by right|]. constructor; [by apply gt_le|done]. }
    all: split; [by left|]; constructor; [apply le_refl|];
         assert (le y z) by (unfold le; congruence);
         eapply Forall_impl; [exact Hall|]; intros w ?; by apply le_trans with z.
  - intros [= <-]. destruct l as [|w l].
    + split; [by left|]. constructor; [apply le_refl|constructor].
    + simpl in E. destruct (first_min l); [destruct (cmp w a)|]; done.
Qed.

Lemma first_min_None l : first_min l = None <-> l = [].
Proof.
  split; [|by intros ->]. destruct l as [|x l]; [done|]. simpl.
  destruct (first_min l) as [y|]; [destruct (cmp x y)|]; done.
Qed.

(** Everything before the chosen element is strictly greater than it: ties are
    broken in favour of the earliest. *)
Lemma first_min_first l1 x l2 :
  first_min (l1 ++ x :: l2) = Some x -> x ∉ l1 -> Forall (fun y => cmp y x = Gt) l1.
Proof.
  induction l1 as [|y l1 IH]; [constructor|]. simpl.
  destruct (first_min (l1 ++ x :: l2)) as [z|] eqn:E.
  - destruct (cmp y z) eqn:Eyz; intros [= ->] Hx.
    1,2: by destruct Hx; left.
    constructor; [done|]. apply IH; [done|]. intros ?. apply Hx. by right.
  - apply first_min_None in E. by destruct l1.
Qed.

End sort.

(** Comparisons by an integer key, and [Ordering::then]: lexicographic
    combination of two comparisons. *)
Definition by_key {A} (f : A -> Z) (x y : A) : comparison := Z.compare (f x) (f y).
Definition then_ (o1 o2 : comparison) : comparison :=
  match o1 with Eq => o2 | _ => o1 end.

Lemma by_key_total {A} (f : A -> Z) : TotalOrder (by_key f).
Proof.
  unfold by_key. split; [intros; apply Z.compare_antisym|].
  intros x y z. unfold le. rewrite !Z.compare_le_iff. lia.
Qed.

Lemma lex_total {A} (c1 c2 : A -> A -> comparison) :
  TotalOrder c1 -> TotalOrder c2 -> TotalOrder (fun x y => then_ (c1 x y) (c2 x y)).
Proof.
  intros T1 T2. split.
  - intros x y. rewrite (cmp_swap c1 x y), (cmp_swap c2 x y). by destruct (c1 x y).
  - intros x y z. pose proof (le_trans c1 x y z). pose proof (le_trans c1 y z x).
    pose proof (le_trans c1 z x y). pose proof (le_trans c2 x y z).
    pose proof (cmp_swap c1 x y). pose proof (cmp_swap c1 y z). pose proof (cmp_swap c1 x z).
    unfold le, then_ in *.
    destruct (c1 x y), (c1 y z), (c1 x z); simpl in *; intuition congruence.
Qed.

Lemma le_key_min {A} (f : A -> Z) x y : le (by_key f) x y <-> (f x <= f y)%Z.
Proof. apply Z.compare_le_iff. Qed.

End Sort.

(** ** Transition systems: reachability and invariants *)

Section transition_system.
Context {S : Type} (init : S -> Prop) (step : S -> S -> Prop).

Inductive reachable : S -> Prop :=
  | reachable_init s : init s -> reachable s
  | reachable_step s s' : reachable s -> step s s' -> reachable s'.

Lemma invariant_reachable (I : S -> Prop) :
  (forall s, init s -> I s) ->
  (forall s s', reachable s -> I s -> step s s' -> I s') ->
  forall s, reachable s -> I s.
Proof. intros H0 Hs s Hr. induction Hr; eauto. Qed.

End transition_system.

(** ** A state monad for code that mutates shared state *)

Definition state (W A : Type) : Type := W -> A * W.

#[global] Instance state_ret {W} : MRet (state W) := fun A x w => (x, w).
#[global] Instance state_bind {W} : MBind (state W) :=
  fun A B f m w => let '(x, w') := m w in f x w'.
