(* ===== verification/RustStr.v ===== *)
(** Rust strings. A [&str] is a sequence of Unicode scalar values; [rstr] keeps
    the code points, and the byte view ([len], [as_bytes]) is their UTF-8
    encoding. The operations are the ones of [core::str] and [core::num] the
    data plane uses; ASCII patterns are one byte per character, so searching
    and slicing by characters or by bytes is the same thing for them. *)

From stdpp Require Import base gmap list strings.
From Stdlib Require Import Ascii NArith ZArith Lia ZifyBool ZifyN.
From S2P Require Import Prelude.

Abbreviation rstr := (list N).

(** A string literal of the source (all of them are ASCII). *)
Definition str (s : string) : rstr := map N_of_ascii (String.list_ascii_of_string s).

Module Str.
Open Scope N_scope.

Definition is_empty (s : rstr) : bool := match s with [] => true | _ => false end.

(** [char::is_whitespace]: the code points with the Unicode property White_Space. *)
Definition is_whitespace (c : N) : bool :=
  ((9 <=? c) && (c <=? 13)) || (c =? 32) || (c =? 133) || (c =? 160) || (c =? 5760)
  || ((8192 <=? c) && (c <=? 8202)) || (c =? 8232) || (c =? 8233) || (c =? 8239)
  || (c =? 8287) || (c =? 12288).

(** [str::trim]. *)
Fixpoint drop_while (p : N -> bool) (s : rstr) : rstr :=
  match s with
  | [] => []
  | c :: s' => if p c then drop_while p s' else s
  end.

Definition trim_end_by (p : N -> bool) (s : rstr) : rstr := rev (drop_while p (rev s)).
Definition trim (s : rstr) : rstr := trim_end_by is_whitespace (drop_while is_whitespace s).

(** [str::trim_end_matches] with a [char] pattern. *)
Definition trim_end_matches (c : N) (s : rstr) : rstr := trim_end_by (N.eqb c) s.

(** [str::to_ascii_lowercase], [str::eq_ignore_ascii_case]. *)
Definition lower_char (c : N) : N := if (65 <=? c) && (c <=? 90) then c + 32 else c.
Definition to_ascii_lowercase (s : rstr) : rstr := map lower_char s.
Definition eq_ignore_ascii_case (a b : rstr) : bool :=
  bool_decide (to_ascii_lowercase a = to_ascii_lowercase b).

(** [str::starts_with] with a [&str] pattern. *)
Fixpoint starts_with (s p : rstr) : bool :=
  match p, s with
  | [], _ => true
  | c :: p', d :: s' => (c =? d) && starts_with s' p'
  | _ :: _, [] => false
  end.

(** [str::contains] with a [&str] pattern. *)
Fixpoint contains (s p : rstr) : bool :=
  starts_with s p || match s with [] => false | _ :: s' => contains s' p end.

(** [str::find] with a [char] pattern: the position of the first occurrence. *)
Fixpoint find (s : rstr) (c : N) : option nat :=
  match s with
  | [] => None
  | d :: s' => if d =? c then Some O else S <$> find s' c
  end.

(** [str::replace] with a [&str] pattern: the occurrences are the leftmost
    non-overlapping ones; [skip] counts the characters of the occurrence being
    replaced that are still to be passed over. *)
Fixpoint replace_go (p by_ : rstr) (skip : nat) (s : rstr) : rstr :=
  match s with
  | [] => []
  | c :: s' =>
      match skip with
      | S k => replace_go p by_ k s'
      | O => if starts_with s p
             then by_ ++ replace_go p by_ (pred (length p)) s'
             else c :: replace_go p by_ O s'
      end
  end.

(** The empty pattern matches at every character boundary. *)
Definition replace (s p by_ : rstr) : rstr :=
  match p with
  | [] => by_ ++ flat_map (fun c => c :: by_) s
  | _ :: _ => replace_go p by_ O s
  end.

(** UTF-8: [str::as_bytes] and [str::len]. *)
Definition char_bytes (c : N) : list N :=
  if c <? 128 then [c]
  else if c <? 2048 then [192 + c / 64; 128 + c mod 64]
  else if c <? 65536 then [224 + c / 4096; 128 + (c / 64) mod 64; 128 + c mod 64]
  else [240 + c / 262144; 128 + (c / 4096) mod 64; 128 + (c / 64) mod 64; 128 + c mod 64].

Definition as_bytes (s : rstr) : list N := flat_map char_bytes s.
Definition len (s : rstr) : nat := length (as_bytes s).

(** [Display] of an unsigned integer: its decimal digits, most significant
    first. [fuel] bounds the number of digits; the binary size of the number is
    more than enough. *)
Fixpoint decimal_go (fuel : nat) (n : N) (acc : rstr) : rstr :=
  match fuel with
  | O => acc
  | S fuel' => if n <? 10 then (48 + n) :: acc
               else decimal_go fuel' (n / 10) ((48 + n mod 10) :: acc)
  end.
Definition decimal (n : N) : rstr := decimal_go (S (N.size_nat n)) n [].

(** [Display] of a signed integer. *)
Definition display_Z (z : Z) : rstr :=
  if (z <? 0)%Z then 45 :: decimal (Z.to_N (- z)) else decimal (Z.to_N z).

(** [Debug] of a string: quoted, with quotes, backslashes and control characters
    escaped. [plain] is the Unicode table of the non-ASCII characters that are
    printed as they are. *)
Fixpoint hex_go (fuel : nat) (n : N) (acc : rstr) : rstr :=
  match fuel with
  | O => acc
  | S fuel' =>
      let d := n mod 16 in
      let acc := (if d <? 10 then 48 + d else 87 + d) :: acc in
      if n <? 16 then acc else hex_go fuel' (n / 16) acc
  end.
Definition escape_debug (plain : N -> bool) (c : N) : rstr :=
  if c =? 0 then [92; 48]
  else if c =? 9 then [92; 116]
  else if c =? 10 then [92; 110]
  else if c =? 13 then [92; 114]
  else if c =? 34 then [92; 34]
  else if c =? 92 then [92; 92]
  else if (if c <? 128 then (32 <=? c) && (c <=? 126) else plain c) then [c]
  else [92; 117; 123] ++ hex_go (S (N.size_nat c)) c [] ++ [125].
Definition debug (plain : N -> bool) (s : rstr) : rstr :=
  [34] ++ flat_map (escape_debug plain) s ++ [34].

(** [str::parse::<uN>]: an optional leading plus sign, then at least one digit;
    an overflow of the type is an error. *)
Definition digit (c : N) : option N := if (48 <=? c) && (c <=? 57) then Some (c - 48) else None.

Fixpoint parse_digits (max : N) (acc : N) (s : rstr) : option N :=
  match s with
  | [] => Some acc
  | c :: s' =>
      match digit c with
      | None => None
      | Some d => let acc' := acc * 10 + d in
                  if acc' <=? max then parse_digits max acc' s' else None
      end
  end.

Definition parse_unsigned (max : N) (s : rstr) : option N :=
  match s with
  | [] => None
  | [c] => if (c =? 43) then None else parse_digits max 0 s
  | c :: s' => if c =? 43 then parse_digits max 0 s' else parse_digits max 0 s
  end.

Close Scope N_scope.
End Str.

(** ** Facts about the operations *)

Section facts.
Open Scope N_scope.

Lemma lower_char_idemp c : Str.lower_char (Str.lower_char c) = Str.lower_char c.
Proof.
  unfold Str.lower_char at 2 3. destruct ((65 <=? c) && (c <=? 90)) eqn:E;
    unfold Str.lower_char; [|by rewrite E].
  destruct ((65 <=? c + 32) && (c + 32 <=? 90)) eqn:E'; lia.
Qed.

Lemma lowercase_idemp s :
  Str.to_ascii_lowercase (Str.to_ascii_lowercase s) = Str.to_ascii_lowercase s.
Proof.
  unfold Str.to_ascii_lowercase. rewrite map_map. apply map_ext, lower_char_idemp.
Qed.

Lemma starts_with_spec s p : Str.starts_with s p = true <-> exists k, s = p ++ k.
Proof.
  revert s. induction p as [|c p IH]; intros s; simpl.
  { split; [by exists s|]. by destruct s. }
  destruct s as [|d s]; [split; [done|by intros [k ?]]|].
  simpl. rewrite andb_true_iff, N.eqb_eq, IH. naive_solver.
Qed.

Lemma starts_with_app p k : Str.starts_with (p ++ k) p = true.
Proof. apply starts_with_spec. by exists k. Qed.

Lemma starts_with_head_ne c d s p : c <> d -> Str.starts_with (d :: s) (c :: p) = false.
Proof. intros ?. simpl. by rewrite (proj2 (N.eqb_neq c d)). Qed.

Lemma contains_spec s p : Str.contains s p = true <-> exists a b, s = a ++ p ++ b.
Proof.
  induction s as [|c s IH]; cbn [Str.contains].
  - rewrite orb_false_r, starts_with_spec. split.
    + intros [k ?]. by exists [], k.
    + intros (a & b & Hab). symmetry in Hab. apply app_nil in Hab as [-> Hb].
      exists b. by rewrite Hb.
  - rewrite orb_true_iff, starts_with_spec, IH. split.
    + intros [[k Hk]|(a & b & ->)]; [by exists [], k|by exists (c :: a), b].
    + intros ([|d a] & b & Hab); simplify_eq/=; [left|right]; eauto.
Qed.

Lemma find_spec s c i :
  Str.find s c = Some i <->
  exists a b, s = a ++ c :: b /\ length a = i /\ c ∉ a.
Proof.
  revert i. induction s as [|d s IH]; intros i; simpl.
  { split; [done|]. intros ([] & ? & ? & _); done. }
  destruct (N.eqb_spec d c) as [->|Hne].
  - split.
    + intros [= <-]. exists [], s. split_and!; [done..|apply not_elem_of_nil].
    + intros ([|e a] & b & Hab & Hl & Hn); simplify_eq/=; [done|].
      destruct Hn. by left.
  - rewrite fmap_Some. setoid_rewrite IH. split.
    + intros (j & (a & b & -> & <- & Hn) & ->). exists (d :: a), b.
      split_and!; [done..|]. rewrite elem_of_cons. naive_solver.
    + intros ([|e a] & b & Hab & Hl & Hn); simplify_eq/=.
      rewrite elem_of_cons in Hn. exists (length a). naive_solver.
Qed.

Lemma find_None s c : Str.find s c = None <-> c ∉ s.
Proof.
  induction s as [|d s IH]; simpl; [split; [intros _; apply not_elem_of_nil|done]|].
  rewrite elem_of_cons. destruct (N.eqb_spec d c) as [->|?]; [naive_solver|].
  rewrite fmap_None, IH. naive_solver.
Qed.

(** *** [trim] *)

Lemma drop_while_idemp p s : Str.drop_while p (Str.drop_while p s) = Str.drop_while p s.
Proof.
  induction s as [|c s IH]; [done|]. simpl. destruct (p c) eqn:E; [done|].
  simpl. by rewrite E.
Qed.

Lemma drop_while_suffix p s : exists k, s = k ++ Str.drop_while p s /\ Forall (fun c => p c = true) k.
Proof.
  induction s as [|c s (k & Hk & Hp)]; simpl; [by exists []|].
  destruct (p c) eqn:E.
  - exists (c :: k). split; [by rewrite Hk at 1|by constructor].
  - by exists [].
Qed.

Lemma drop_while_head p s c k : Str.drop_while p s = c :: k -> p c = false.
Proof. induction s as [|d s IH]; simpl; [done|]. destruct (p d) eqn:E; naive_solver. Qed.

Lemma drop_while_id p s :
  match s with [] => True | c :: _ => p c = false end -> Str.drop_while p s = s.
Proof. destruct s as [|c s]; [done|]. simpl. by intros ->. Qed.

Lemma trim_end_by_last p s c k : Str.trim_end_by p s = k ++ [c] -> p c = false.
Proof.
  unfold Str.trim_end_by. intros H. apply (f_equal (@rev N)) in H.
  rewrite rev_involutive, rev_app_distr in H. simpl in H. by eapply drop_while_head.
Qed.

Lemma trim_end_by_prefix p s : exists k, s = Str.trim_end_by p s ++ k /\ Forall (fun c => p c = true) k.
Proof.
  unfold Str.trim_end_by. destruct (drop_while_suffix p (rev s)) as (k & Hk & Hp).
  exists (rev k). split.
  - apply (f_equal (@rev N)) in Hk. by rewrite rev_involutive, rev_app_distr in Hk.
  - rewrite Forall_forall in *. intros x Hx. apply Hp.
    rewrite list_elem_of_In in *. by apply in_rev.
Qed.

Lemma trim_end_by_idemp p s : Str.trim_end_by p (Str.trim_end_by p s) = Str.trim_end_by p s.
Proof. unfold Str.trim_end_by. by rewrite rev_involutive, drop_while_idemp. Qed.

Lemma trim_idemp s : Str.trim (Str.trim s) = Str.trim s.
Proof.
  unfold Str.trim. set (t := Str.drop_while _ s).
  assert (Str.drop_while Str.is_whitespace (Str.trim_end_by Str.is_whitespace t)
          = Str.trim_end_by Str.is_whitespace t) as ->; [|apply trim_end_by_idemp].
  apply drop_while_id.
  destruct (trim_end_by_prefix Str.is_whitespace t) as (k & Hk & _).
  destruct (Str.trim_end_by Str.is_whitespace t) as [|c u] eqn:E; [done|].
  eapply (drop_while_head _ s). subst t. rewrite Hk. done.
Qed.

(** *** Decimal numbers *)

Lemma digit_of d : d < 10 -> Str.digit (48 + d) = Some d.
Proof.
  intros Hd. unfold Str.digit. replace ((48 <=? 48 + d) && (48 + d <=? 57)) with true by lia.
  f_equal. lia.
Qed.

Lemma parse_decimal_go max fuel n acc :
  n <= max -> n < 2 ^ N.of_nat fuel ->
  Str.parse_digits max 0 (Str.decimal_go (S fuel) n acc) = Str.parse_digits max n acc.
Proof.
  revert n acc. induction fuel as [|fuel IH]; intros n acc Hmax Hn.
  - simpl in Hn. assert (n = 0) as -> by lia.
    change (Str.parse_digits max 0 ((48 + 0) :: acc) = Str.parse_digits max 0 acc).
    cbn [Str.parse_digits]. rewrite digit_of by lia. cbn zeta.
    by replace (0 * 10 + 0 <=? max) with true by lia.
  - cbn [Str.decimal_go]. destruct (N.ltb_spec n 10) as [Hlt|Hge].
    + cbn [Str.parse_digits]. rewrite digit_of by done. cbn zeta. rewrite N.mul_0_l, N.add_0_l.
      by replace (n <=? max) with true by lia.
    + change (Str.parse_digits max 0 (Str.decimal_go (S fuel) (n / 10) ((48 + n mod 10) :: acc))
              = Str.parse_digits max n acc).
      pose proof (N.div_mod n 10). pose proof (N.mod_lt n 10).
      rewrite IH.
      * cbn [Str.parse_digits]. rewrite digit_of by lia. cbn zeta.
        replace (n / 10 * 10 + n mod 10) with n by lia. by replace (n <=? max) with true by lia.
      * lia.
      * rewrite Nat2N.inj_succ, N.pow_succ_r' in Hn. lia.
Qed.

Lemma decimal_go_head fuel n acc :
  (0 < fuel)%nat -> n < 2 ^ N.of_nat fuel ->
  exists d k, Str.decimal_go fuel n acc = (48 + d) :: k /\ d < 10.
Proof.
  revert n acc. induction fuel as [|fuel IH]; intros n acc Hf Hn; [lia|]. cbn [Str.decimal_go].
  destruct (N.ltb_spec n 10) as [Hlt|Hge]; [by exists n, acc|].
  pose proof (N.div_mod n 10). pose proof (N.mod_lt n 10).
  rewrite Nat2N.inj_succ, N.pow_succ_r' in Hn. apply IH; [|lia].
  destruct fuel; [simpl in Hn; lia|lia].
Qed.

Lemma size_nat_gt n : n < 2 ^ N.of_nat (N.size_nat n).
Proof.
  destruct n as [|p]; [done|]. simpl. induction p as [p IH|p IH|]; cbn [Pos.size_nat]; [| |done];
    rewrite Nat2N.inj_succ, N.pow_succ_r'; lia.
Qed.

(** [n.to_string().parse()] is [n], for every number the type holds. *)
Lemma parse_decimal max n : n <= max -> Str.parse_unsigned max (Str.decimal n) = Some n.
Proof.
  intros Hmax. pose proof (size_nat_gt n) as Hs.
  assert (Str.parse_digits max 0 (Str.decimal n) = Some n) as Hp
    by (unfold Str.decimal; by rewrite parse_decimal_go).
  destruct (decimal_go_head (S (N.size_nat n)) n []) as (d & k & Hd & Hlt); [lia| |].
  { rewrite Nat2N.inj_succ, N.pow_succ_r'. lia. }
  unfold Str.decimal in *. rewrite Hd in *. unfold Str.parse_unsigned.
  assert ((48 + d =? 43) = false) as -> by lia. by destruct k.
Qed.

Lemma parse_digits_max max acc s n : acc <= max -> Str.parse_digits max acc s = Some n -> n <= max.
Proof.
  revert acc. induction s as [|c s IH]; intros acc Ha; simpl; [by intros [= <-]|].
  destruct (Str.digit c) as [d|]; [|done]. destruct (N.leb_spec (acc * 10 + d) max); [|done].
  by apply IH.
Qed.

Lemma parse_unsigned_max max s n : Str.parse_unsigned max s = Some n -> n <= max.
Proof.
  unfold Str.parse_unsigned. intros Hp. repeat case_match; try done;
    (eapply (parse_digits_max _ 0); [lia|exact Hp]).
Qed.

End facts.

#[export] Hint Rewrite lowercase_idemp lower_char_idemp trim_idemp starts_with_app : argon.
