(* ===== verification/Config.v ===== *)
(** The configuration messages the control plane streams to the data plane:
    the prost-generated structs of src/images/dataplane/src/argon.config.rs.
    [i32]/[i64] fields are [Z], [bytes] fields are lists of byte values, and
    every field is present (proto3 defaults), except [auth], which is optional. *)

From stdpp Require Import base gmap list strings.
From Stdlib Require Import ZArith NArith.
From S2P Require Import Prelude RustStr.

Record WatchRequest := { wr_node_id : rstr }.

Record Endpoint := {
  ep_address : rstr;
  ep_port : Z;
  ep_weight : Z;
  ep_zone : rstr;
  ep_region : rstr;
}.

Record HeaderRewrite := {
  hr_name : rstr;
  hr_mode : rstr;
  hr_value : rstr;
}.

Record AuthConfig := {
  ac_url : rstr;
  ac_signin : rstr;
  ac_response_headers : list rstr;
  ac_skip_paths : list rstr;
  ac_cookie_name : rstr;
}.

Record Cluster := {
  cl_name : rstr;
  cl_lb_policy : rstr;
  cl_endpoints : list Endpoint;
  cl_timeout_ms : Z;
  cl_retries : Z;
  cl_backend_protocol : rstr;
  cl_request_headers : list HeaderRewrite;
  cl_backend_tls_insecure_skip_verify : bool;
  cl_auth : option AuthConfig;
}.

Record Route := {
  rt_host : rstr;
  rt_path : rstr;
  rt_path_type : rstr;
  rt_cluster : rstr;
  rt_priority : Z;
}.

Record ServerTlsBundle := {
  tls_name : rstr;
  tls_sni : list rstr;
  tls_cert_pem : list N;
  tls_key_pem : list N;
  tls_not_after_unix : Z;
  tls_version : rstr;
}.

Record Snapshot := {
  sn_version : rstr;
  sn_controller_id : rstr;
  sn_ingress_class_name : rstr;
  sn_generated_at_unix_sec : Z;
  sn_resource_versions : gmap rstr rstr;
  sn_routes : list Route;
  sn_clusters : list Cluster;
  sn_server_tls : list ServerTlsBundle;
}.

(** [Snapshot::default()]. *)
Definition snapshot_default : Snapshot := {|
  sn_version := [];
  sn_controller_id := [];
  sn_ingress_class_name := [];
  sn_generated_at_unix_sec := 0;
  sn_resource_versions := ∅;
  sn_routes := [];
  sn_clusters := [];
  sn_server_tls := [];
|}.

#[export] Instance Endpoint_eq_dec : EqDecision Endpoint.
Proof. solve_decision. Defined.
#[export] Instance HeaderRewrite_eq_dec : EqDecision HeaderRewrite.
Proof. solve_decision. Defined.
#[export] Instance AuthConfig_eq_dec : EqDecision AuthConfig.
Proof. solve_decision. Defined.
#[export] Instance Cluster_eq_dec : EqDecision Cluster.
Proof. solve_decision. Defined.
#[export] Instance Route_eq_dec : EqDecision Route.
Proof. solve_decision. Defined.
#[export] Instance ServerTlsBundle_eq_dec : EqDecision ServerTlsBundle.
Proof. solve_decision. Defined.
#[export] Instance Snapshot_eq_dec : EqDecision Snapshot.
Proof. solve_decision. Defined.
