(* ===== verification/Http.v ===== *)
(** The interface of the third-party HTTP types (crates [http] and [hyper]) the
    proxy is written against. Their code is not part of the repository, so it
    is a parameter of the model: [Http] lists the types and operations the
    proxy calls, and [HttpLaws] states the documented behaviour the proxy
    relies on. [SimpleHttp] is a small concrete implementation; it satisfies
    the laws and is what the witnesses evaluate. *)

From stdpp Require Import base gmap list strings.
From Stdlib Require Import ZArith NArith.
From S2P Require Import Prelude RustStr.

(** [http::Version], and [http::Method]/[http::StatusCode] by the token and the
    number they stand for. *)
Inductive Version := HTTP_09 | HTTP_10 | HTTP_11 | HTTP_2 | HTTP_3.
Abbreviation Method := rstr (only parsing).
Abbreviation StatusCode := Z (only parsing).

#[global] Instance Version_eq_dec : EqDecision Version.
Proof. solve_decision. Defined.

(** [http::uri::Parts]. *)
Record Parts (Scheme Authority PathAndQuery : Type) := mk_parts {
  parts_scheme : option Scheme;
  parts_authority : option Authority;
  parts_path_and_query : option PathAndQuery;
}.
Arguments mk_parts {_ _ _} _ _ _.
Arguments parts_scheme {_ _ _} _.
Arguments parts_authority {_ _ _} _.
Arguments parts_path_and_query {_ _ _} _.

Class Http := {
  (** [HeaderName], [HeaderValue] *)
  HeaderName : Type;
  HeaderName_eq_dec :: EqDecision HeaderName;
  HeaderValue : Type;
  hn_from_bytes : list N -> option HeaderName;
  hn_from_static : rstr -> HeaderName;
  hn_as_str : HeaderName -> rstr;
  hv_from_str : rstr -> option HeaderValue;
  hv_from_static : rstr -> HeaderValue;
  hv_to_str : HeaderValue -> option rstr;
  (** [HeaderMap] *)
  HeaderMap : Type;
  hm_new : HeaderMap;
  hm_get_all : HeaderMap -> HeaderName -> list HeaderValue;
  hm_insert : HeaderMap -> HeaderName -> HeaderValue -> HeaderMap;
  hm_append : HeaderMap -> HeaderName -> HeaderValue -> HeaderMap;
  hm_remove : HeaderMap -> HeaderName -> HeaderMap;
  (** [Uri] and its parts *)
  Uri : Type;
  Scheme : Type;
  Authority : Type;
  PathAndQuery : Type;
  scheme_http : Scheme;
  scheme_https : Scheme;
  authority_from_str : rstr -> option Authority;
  authority_host : Authority -> rstr;
  pq_from_static : rstr -> PathAndQuery;
  pq_as_str : PathAndQuery -> rstr;
  uri_from_str : rstr -> option Uri;
  uri_path : Uri -> rstr;
  uri_host : Uri -> option rstr;
  uri_into_parts : Uri -> Parts Scheme Authority PathAndQuery;
  uri_from_parts : Parts Scheme Authority PathAndQuery -> option Uri;
  uri_debug : Uri -> rstr;
  status_display : StatusCode -> rstr;
  (** [hyper::body::Incoming], and the errors of a request and of its timeout,
      each with the text it is formatted to *)
  Incoming : Type;
  body_is_end_stream : Incoming -> bool;
  ClientError : Type;
  client_error_display : ClientError -> rstr;
  client_error_debug : ClientError -> rstr;
  Elapsed : Type;
  elapsed_display : Elapsed -> rstr;
  (** the Unicode table of [{:?}]: which non-ASCII characters are printed as
      they are *)
  char_plain : N -> bool;
}.

(** [{:?}] of a string. *)
Definition str_debug `{Http} (s : rstr) : rstr := Str.debug char_plain s.

(** [HeaderMap::get] returns the first value of the name, [contains_key] says
    whether there is one, and [Uri::path_and_query] is the part of that name. *)
Definition hm_get `{Http} (h : HeaderMap) (n : HeaderName) : option HeaderValue :=
  head (hm_get_all h n).
Definition hm_contains_key `{Http} (h : HeaderMap) (n : HeaderName) : bool :=
  match hm_get_all h n with [] => false | _ => true end.
Definition uri_path_and_query `{Http} (u : Uri) : option PathAndQuery :=
  parts_path_and_query (uri_into_parts u).

(** The characters of a header name in its normalised (lower-case) form. *)
Definition is_lower_token_char (c : N) : bool :=
  ((97 <=? c) && (c <=? 122) || (48 <=? c) && (c <=? 57) || (c =? 45))%N.
Definition is_lower_token (s : rstr) : bool :=
  negb (Str.is_empty s) && forallb is_lower_token_char s.

Class HttpLaws (H : Http) : Prop := {
  hm_get_all_new n : hm_get_all hm_new n = [];
  hm_get_all_insert h n v m :
    hm_get_all (hm_insert h n v) m = if decide (m = n) then [v] else hm_get_all h m;
  hm_get_all_append h n v m :
    hm_get_all (hm_append h n v) m
    = if decide (m = n) then hm_get_all h m ++ [v] else hm_get_all h m;
  hm_get_all_remove h n m :
    hm_get_all (hm_remove h n) m = if decide (m = n) then [] else hm_get_all h m;
  hn_as_str_static s : is_lower_token s = true -> hn_as_str (hn_from_static s) = s;
  hv_to_str_static s : is_lower_token s = true -> hv_to_str (hv_from_static s) = Some s;
  hv_from_to_str s v : hv_from_str s = Some v -> hv_to_str v = Some s;
  pq_as_str_slash : pq_as_str (pq_from_static (str "/")) = str "/";
  uri_into_from_parts p u : uri_from_parts p = Some u -> uri_into_parts u = p;
  uri_from_full_parts s a q : is_Some (uri_from_parts (mk_parts (Some s) (Some a) (Some q)));
}.

Section derived.
Context `{HL : HttpLaws}.

Lemma hm_get_insert h n v m :
  hm_get (hm_insert h n v) m = if decide (m = n) then Some v else hm_get h m.
Proof. unfold hm_get. rewrite hm_get_all_insert. by case_decide. Qed.

Lemma hm_get_remove h n m :
  hm_get (hm_remove h n) m = if decide (m = n) then None else hm_get h m.
Proof. unfold hm_get. rewrite hm_get_all_remove. by case_decide. Qed.

Lemma hm_get_None h n : hm_get h n = None <-> hm_get_all h n = [].
Proof. unfold hm_get. by destruct (hm_get_all h n). Qed.

Lemma hm_contains_key_false h n : hm_contains_key h n = false <-> hm_get_all h n = [].
Proof. unfold hm_contains_key. by destruct (hm_get_all h n). Qed.

(** Distinct static names are distinct header names. *)
Lemma hn_static_ne a b :
  is_lower_token a = true -> is_lower_token b = true -> a <> b ->
  hn_from_static a <> hn_from_static b.
Proof. intros Ha Hb Hne Heq. apply Hne. by rewrite <-(hn_as_str_static a), Heq, hn_as_str_static. Qed.

End derived.

#[export] Hint Rewrite @hm_get_all_new @hm_get_all_insert @hm_get_all_append @hm_get_all_remove
  @hm_get_insert @hm_get_remove using typeclasses eauto : argon.

(** ** A concrete implementation

    Names are lower-cased token strings, values are visible-ASCII strings, a
    map is the list of its entries in insertion order, and a URI is the
    triple of its parts. *)

Module SimpleHttp.

Definition is_token_char (c : N) : bool :=
  (is_lower_token_char c || (65 <=? c) && (c <=? 90) || (c =? 95) || (c =? 46))%N.
Definition is_visible (c : N) : bool := ((32 <=? c) && (c <=? 126))%N.

Definition name_from_bytes (s : list N) : option rstr :=
  if negb (Str.is_empty s) && forallb is_token_char s
  then Some (Str.to_ascii_lowercase s) else None.
Definition value_from_str (s : rstr) : option rstr :=
  if forallb is_visible s then Some s else None.

Abbreviation hmap := (list (rstr * rstr)).
Definition get_all (h : hmap) (n : rstr) : list rstr :=
  (base.filter (fun e => e.1 = n) h).*2.
Definition remove (h : hmap) (n : rstr) : hmap := base.filter (fun e => e.1 <> n) h.

(** [host:port] or [host]; an authority is kept as its text. *)
Fixpoint before (c : N) (s : rstr) : rstr :=
  match s with [] => [] | d :: s' => if (d =? c)%N then [] else d :: before c s' end.
Definition auth_from_str (s : rstr) : option rstr :=
  if negb (Str.is_empty s) && forallb (fun c => is_visible c && negb (c =? 47)%N && negb (c =? 32)%N) s
  then Some s else None.

Abbreviation uri := (Parts rstr rstr rstr).
(** [scheme://authority/path] or an origin-form path. *)
Definition parse_uri (s : rstr) : option uri :=
  if forallb (fun c => is_visible c && negb (c =? 32)%N) s then
    match Str.starts_with s (str "http://"), Str.starts_with s (str "/") with
    | true, _ =>
        let r := drop 7 s in
        let a := before 47 r in
        let q := drop (length a) r in
        a ← auth_from_str a;
        Some (mk_parts (Some (str "http")) (Some a)
                (Some (if Str.is_empty q then str "/" else q)))
    | false, true => Some (mk_parts None None (Some s))
    | false, false => None
    end
  else None.

Definition from_parts (p : uri) : option uri :=
  match p with
  | mk_parts (Some _) (Some _) (Some _) => Some p
  | mk_parts None None (Some _) => Some p
  | _ => None
  end.

End SimpleHttp.

Definition simple_http : Http := {|
  HeaderName := rstr;
  HeaderValue := rstr;
  hn_from_bytes := SimpleHttp.name_from_bytes;
  hn_from_static s := s;
  hn_as_str n := n;
  hv_from_str := SimpleHttp.value_from_str;
  hv_from_static s := s;
  hv_to_str v := if forallb SimpleHttp.is_visible v then Some v else None;
  HeaderMap := list (rstr * rstr);
  hm_new := [];
  hm_get_all := SimpleHttp.get_all;
  hm_insert h n v := SimpleHttp.remove h n ++ [(n, v)];
  hm_append h n v := h ++ [(n, v)];
  hm_remove := SimpleHttp.remove;
  Uri := Parts rstr rstr rstr;
  Scheme := rstr;
  Authority := rstr;
  PathAndQuery := rstr;
  scheme_http := str "http";
  scheme_https := str "https";
  authority_from_str := SimpleHttp.auth_from_str;
  authority_host := SimpleHttp.before 58;
  pq_from_static s := s;
  pq_as_str q := q;
  uri_from_str := SimpleHttp.parse_uri;
  uri_path u := SimpleHttp.before 63 (default (str "/") (parts_path_and_query u));
  uri_host u := SimpleHttp.before 58 <$> parts_authority u;
  uri_into_parts u := u;
  uri_from_parts := SimpleHttp.from_parts;
  uri_debug u := default [] (parts_path_and_query u);
  status_display z := Str.display_Z z;
  Incoming := list N;
  body_is_end_stream := Str.is_empty;
  ClientError := rstr;
  client_error_display e := e;
  client_error_debug e := e;
  Elapsed := unit;
  elapsed_display _ := str "deadline has elapsed";
  char_plain _ := true;
|}.

Section simple_laws.
Import SimpleHttp.

Lemma get_all_app h1 h2 n : get_all (h1 ++ h2) n = get_all h1 n ++ get_all h2 n.
Proof. unfold get_all. by rewrite filter_app, fmap_app. Qed.

Lemma get_all_singleton n v m : get_all [(n, v)] m = if decide (m = n) then [v] else [].
Proof. unfold get_all. rewrite filter_cons. simpl. repeat case_decide; naive_solver. Qed.

Lemma get_all_remove h n m : get_all (remove h n) m = if decide (m = n) then [] else get_all h m.
Proof.
  unfold get_all, remove. induction h as [|[k v] h IH]; simpl; [by case_decide|].
  rewrite (filter_cons _ (k, v)). simpl.
  destruct (decide (k ≠ n)); rewrite ?filter_cons; simpl; repeat case_decide; naive_solver congruence.
Qed.

Lemma lower_token_visible s : is_lower_token s = true -> forallb is_visible s = true.
Proof.
  unfold is_lower_token. rewrite andb_true_iff. intros [_ Hs]. rewrite forallb_forall in *.
  intros c Hc. specialize (Hs c Hc). unfold is_lower_token_char, is_visible in *.
  rewrite ?orb_true_iff, ?andb_true_iff, ?N.leb_le, ?N.eqb_eq in *. lia.
Qed.

#[export] Instance simple_http_laws : HttpLaws simple_http.
Proof.
  split; simpl.
  - done.
  - intros h n v m. rewrite get_all_app, get_all_remove, get_all_singleton.
    case_decide; [done|]. apply app_nil_r.
  - intros h n v m. rewrite get_all_app, get_all_singleton.
    case_decide; [done|]. apply app_nil_r.
  - apply get_all_remove.
  - done.
  - intros s Hs. by rewrite lower_token_visible.
  - unfold value_from_str. intros s v. destruct (forallb _ s) eqn:E; [|done].
    intros [= <-]. by rewrite E.
  - done.
  - intros [[] [] []] u; simpl; naive_solver.
  - intros. by eexists.
Qed.

End simple_laws.
