(* ===== verification/Atomics.v ===== *)
(** The store of shared atomic counters. An [Arc<AtomicUsize>] is a location of
    the store: cloning the [Arc] copies the location, so every holder sees the
    same counter. *)

From stdpp Require Import base gmap list.
From Stdlib Require Import ZArith Lia.
From S2P Require Import Prelude.

Abbreviation loc := nat (only parsing).

Record heap := mk_heap { heap_cells : gmap loc Z; heap_next : loc }.

Module Atomic.

(** [Arc::new(AtomicUsize::new(v))] *)
Definition new (v : Z) : state heap loc := fun h =>
  (heap_next h, mk_heap (<[heap_next h := v]> (heap_cells h)) (S (heap_next h))).

Definition read (h : heap) (l : loc) : Z := default 0%Z (heap_cells h !! l).
Definition write (l : loc) (v : Z) (h : heap) : heap :=
  mk_heap (<[l := v]> (heap_cells h)) (heap_next h).

(** [load(Relaxed)], [fetch_add(n, Relaxed)] and [fetch_sub(n, Relaxed)]; the
    last two return the previous value. *)
Definition load (l : loc) : state heap Z := fun h => (read h l, h).
Definition fetch_add (l : loc) (n : Z) : state heap Z := fun h =>
  (read h l, write l (Int.wrapping_add (read h l) n) h).
Definition fetch_sub (l : loc) (n : Z) : state heap Z := fun h =>
  (read h l, write l (Int.wrapping_sub (read h l) n) h).

(** Every allocated location is below the next free one, and every counter is a
    [usize]. *)
Definition wf (h : heap) : Prop :=
  forall l v, heap_cells h !! l = Some v -> l < heap_next h /\ Int.is_usize v.

End Atomic.

Definition heap_empty : heap := mk_heap ∅ 0.

Section facts.

Lemma heap_empty_wf : Atomic.wf heap_empty.
Proof. intros l v. simpl. by rewrite lookup_empty. Qed.

Lemma read_usize h l : Atomic.wf h -> Int.is_usize (Atomic.read h l).
Proof.
  intros Hwf. unfold Atomic.read. destruct (heap_cells h !! l) as [v|] eqn:E; simpl.
  - by eapply Hwf.
  - split; [done|reflexivity].
Qed.

Lemma read_write h l l' v :
  Atomic.read (Atomic.write l v h) l' = if decide (l' = l) then v else Atomic.read h l'.
Proof.
  unfold Atomic.read. simpl. case_decide; subst; [by rewrite lookup_insert_eq|].
  by rewrite lookup_insert_ne.
Qed.

Lemma read_write_eq h l v : Atomic.read (Atomic.write l v h) l = v.
Proof. rewrite read_write. by rewrite decide_True. Qed.

Lemma read_write_ne h l l' v : l' <> l -> Atomic.read (Atomic.write l v h) l' = Atomic.read h l'.
Proof. intros. rewrite read_write. by rewrite decide_False. Qed.

Lemma write_wf h l v :
  Atomic.wf h -> l < heap_next h -> Int.is_usize v -> Atomic.wf (Atomic.write l v h).
Proof.
  intros Hwf Hl Hv l' v'. simpl. destruct (decide (l' = l)) as [->|Hne].
  - rewrite lookup_insert_eq. by intros [= <-].
  - rewrite lookup_insert_ne by done. apply Hwf.
Qed.

Lemma new_wf h v : Atomic.wf h -> Int.is_usize v -> Atomic.wf (Atomic.new v h).2.
Proof.
  intros Hwf Hv l v'. simpl. destruct (decide (l = heap_next h)) as [->|Hne].
  - rewrite lookup_insert_eq. intros [= <-]. split; [lia|done].
  - rewrite lookup_insert_ne by done. intros [??]%Hwf. split; [lia|done].
Qed.

End facts.

#[export] Hint Resolve read_usize write_wf new_wf heap_empty_wf : argon.
#[export] Hint Rewrite read_write_eq : argon.
