(* ===== verification/Rpc.v ===== *)
(** The generated gRPC stubs: the modules config_discovery_client and
    config_discovery_server of src/images/dataplane/src/argon.config.rs. The
    data plane opens its configuration stream through the client stub; the server
    stub dispatches by path. tonic and http are the parameter [Tonic]. *)

From stdpp Require Import base gmap list strings.
From Stdlib Require Import NArith ZArith.
From S2P Require Import Prelude RustStr Config.

(** An HTTP request as far as the stubs look at it, and the response. *)
Record HttpRequest (B : Type) := { hq_path : rstr; hq_body : B }.
Arguments hq_path {B}.
Arguments hq_body {B}.
Record HttpResponse (B : Type) := { hp_headers : gmap rstr rstr; hp_body : B }.
Arguments hp_headers {B}.
Arguments hp_body {B}.

(** A message with its [GrpcMethod] extension. *)
Record GrpcRequest (M : Type) := { gq_message : M; gq_method : option (rstr * rstr) }.
Arguments gq_message {M}.
Arguments gq_method {M}.

(** The settings of a generated server. *)
Record GrpcConfig (E : Type) := {
  gc_accept_compression : E;
  gc_send_compression : E;
  gc_max_decoding : option Z;
  gc_max_encoding : option Z;
}.
Arguments gc_accept_compression {E}.
Arguments gc_send_compression {E}.
Arguments gc_max_decoding {E}.
Arguments gc_max_encoding {E}.

Class Tonic := {
  Transport : Type;
  Uri_ : Type;
  Interceptor : Type;
  intercepted : Transport -> Interceptor -> Transport;
  TransportError : Type;
  (** [Endpoint::new(dst)?.connect().await] *)
  endpoint_connect : rstr -> Transport + TransportError;
  CompressionEncoding : Type;
  EnabledCompressionEncodings : Type;
  encodings_default : EnabledCompressionEncodings;
  enable : CompressionEncoding -> EnabledCompressionEncodings -> EnabledCompressionEncodings;
  (** [tonic::client::Grpc] *)
  Grpc_ : Type;
  grpc_new : Transport -> Grpc_;
  grpc_with_origin : Transport -> Uri_ -> Grpc_;
  grpc_send_compressed : CompressionEncoding -> Grpc_ -> Grpc_;
  grpc_accept_compressed : CompressionEncoding -> Grpc_ -> Grpc_;
  grpc_max_decoding_message_size : Z -> Grpc_ -> Grpc_;
  grpc_max_encoding_message_size : Z -> Grpc_ -> Grpc_;
  (** [ready().await]: the text of the error, if any *)
  grpc_ready : Grpc_ -> option rstr;
  Body : Type;
  Status : Type;
  status_unknown : rstr -> Status;
  StreamOf : Type;
  (** [server_streaming] of the client: the HTTP request it sends, and what it
      makes of the answer *)
  grpc_request : Grpc_ -> GrpcRequest WatchRequest -> rstr -> HttpRequest Body;
  grpc_answer : Grpc_ -> HttpResponse Body -> StreamOf + Status;
  (** what the peer of the transport answers *)
  transport_send : Grpc_ -> HttpRequest Body -> HttpResponse Body;
  (** [server_streaming] of the server: runs the method on the decoded request *)
  grpc_serve : GrpcConfig EnabledCompressionEncodings ->
    (GrpcRequest WatchRequest -> StreamOf + Status) -> HttpRequest Body -> HttpResponse Body;
  empty_body_ : Body;
  (** [InterceptedService]: a service behind an interceptor *)
  intercepted_call : Interceptor -> (HttpRequest Body -> HttpResponse Body) ->
    HttpRequest Body -> HttpResponse Body;
}.

(** Documented behaviour: the request goes to the path of the method, and the server
    runs the method on the message the client sent. *)
Class TonicLaws (TC : Tonic) : Prop := {
  grpc_request_path g req path : hq_path (grpc_request g req path) = path;
  grpc_serve_decodes cfg method method' g req path :
    (forall req', gq_message req' = gq_message req -> method req' = method' req') ->
    grpc_serve cfg method (grpc_request g req path) = grpc_serve cfg method' (grpc_request g req path);
  (** an interceptor rejects a request, or passes it on to the same path *)
  intercepted_spec i req :
    (exists resp, forall svc, intercepted_call i svc req = resp) \/
    exists req', hq_path req' = hq_path req /\ forall svc, intercepted_call i svc req = svc req';
}.

Section stubs.
Context {TC : Tonic}.

Definition WATCH_PATH : rstr := str "/argon.config.ConfigDiscovery/Watch".
Definition SERVICE_NAME : rstr := str "argon.config.ConfigDiscovery".

(** ** The client *)

Record ConfigDiscoveryClient := mk_client { cd_inner : Grpc_ }.

Definition client_connect (dst : rstr) : ConfigDiscoveryClient + TransportError :=
  match endpoint_connect dst with
  | inl conn => inl (mk_client (grpc_new conn))
  | inr e => inr e
  end.
Definition client_new (inner : Transport) : ConfigDiscoveryClient := mk_client (grpc_new inner).
Definition client_with_origin (inner : Transport) (origin : Uri_) : ConfigDiscoveryClient :=
  mk_client (grpc_with_origin inner origin).
Definition client_with_interceptor (inner : Transport) (interceptor : Interceptor)
    : ConfigDiscoveryClient := client_new (intercepted inner interceptor).

(** The builder methods. *)
Definition client_send_compressed (encoding : CompressionEncoding) (c : ConfigDiscoveryClient) :=
  mk_client (grpc_send_compressed encoding (cd_inner c)).
Definition client_accept_compressed (encoding : CompressionEncoding) (c : ConfigDiscoveryClient) :=
  mk_client (grpc_accept_compressed encoding (cd_inner c)).
Definition client_max_decoding_message_size (limit : Z) (c : ConfigDiscoveryClient) :=
  mk_client (grpc_max_decoding_message_size limit (cd_inner c)).
Definition client_max_encoding_message_size (limit : Z) (c : ConfigDiscoveryClient) :=
  mk_client (grpc_max_encoding_message_size limit (cd_inner c)).

(** The request [watch] hands to [server_streaming]. *)
Definition watch_request (message : WatchRequest) : GrpcRequest WatchRequest := {|
  gq_message := message; gq_method := Some (str "argon.config.ConfigDiscovery", str "Watch") |}.

Definition client_watch (c : ConfigDiscoveryClient) (message : WatchRequest) : StreamOf + Status :=
  match grpc_ready (cd_inner c) with
  | Some e => inr (status_unknown (str "Service was not ready: " ++ e))
  | None =>
      grpc_answer (cd_inner c)
        (transport_send (cd_inner c) (grpc_request (cd_inner c) (watch_request message) WATCH_PATH))
  end.

(** ** The server *)

(** The trait [ConfigDiscovery]. *)
Record ConfigDiscovery := { cd_watch : GrpcRequest WatchRequest -> StreamOf + Status }.

Record ConfigDiscoveryServer := mk_server {
  sv_inner : ConfigDiscovery;
  sv_accept_compression_encodings : EnabledCompressionEncodings;
  sv_send_compression_encodings : EnabledCompressionEncodings;
  sv_max_decoding_message_size : option Z;
  sv_max_encoding_message_size : option Z;
}.

Definition server_from_arc (inner : ConfigDiscovery) : ConfigDiscoveryServer :=
  mk_server inner encodings_default encodings_default None None.
Definition server_new (inner : ConfigDiscovery) : ConfigDiscoveryServer := server_from_arc inner.

Definition server_accept_compressed (encoding : CompressionEncoding) (s : ConfigDiscoveryServer) :=
  mk_server (sv_inner s) (enable encoding (sv_accept_compression_encodings s))
    (sv_send_compression_encodings s) (sv_max_decoding_message_size s) (sv_max_encoding_message_size s).
Definition server_send_compressed (encoding : CompressionEncoding) (s : ConfigDiscoveryServer) :=
  mk_server (sv_inner s) (sv_accept_compression_encodings s)
    (enable encoding (sv_send_compression_encodings s))
    (sv_max_decoding_message_size s) (sv_max_encoding_message_size s).
Definition server_max_decoding_message_size (limit : Z) (s : ConfigDiscoveryServer) :=
  mk_server (sv_inner s) (sv_accept_compression_encodings s) (sv_send_compression_encodings s)
    (Some limit) (sv_max_encoding_message_size s).
Definition server_max_encoding_message_size (limit : Z) (s : ConfigDiscoveryServer) :=
  mk_server (sv_inner s) (sv_accept_compression_encodings s) (sv_send_compression_encodings s)
    (sv_max_decoding_message_size s) (Some limit).
Definition server_clone (s : ConfigDiscoveryServer) : ConfigDiscoveryServer :=
  mk_server (sv_inner s) (sv_accept_compression_encodings s) (sv_send_compression_encodings s)
    (sv_max_decoding_message_size s) (sv_max_encoding_message_size s).

(** [tonic::Code::Unimplemented as i32] *)
Definition code_unimplemented : Z := 12.

Definition unimplemented : HttpResponse Body := {|
  hp_headers := <[str "content-type" := str "application/grpc"]>
                  (<[str "grpc-status" := Str.display_Z code_unimplemented]> ∅);
  hp_body := empty_body_ |}.

Definition server_call (s : ConfigDiscoveryServer) (req : HttpRequest Body) : HttpResponse Body :=
  if decide (hq_path req = WATCH_PATH) then
    grpc_serve {| gc_accept_compression := sv_accept_compression_encodings s;
                  gc_send_compression := sv_send_compression_encodings s;
                  gc_max_decoding := sv_max_decoding_message_size s;
                  gc_max_encoding := sv_max_encoding_message_size s |}
      (cd_watch (sv_inner s)) req
  else unimplemented.

(** [poll_ready] of the service: always ready, and without an error. *)
Definition server_poll_ready (s : ConfigDiscoveryServer) : option (unit + Empty_set) := Some (inl tt).

Definition server_with_interceptor (inner : ConfigDiscovery) (interceptor : Interceptor)
    (req : HttpRequest Body) : HttpResponse Body :=
  intercepted_call interceptor (server_call (server_new inner)) req.

(** The settings of a server, and servers made from an implementation by builder
    methods and clones. *)
Inductive configured (inner : ConfigDiscovery) : ConfigDiscoveryServer -> Prop :=
  | configured_new : configured inner (server_new inner)
  | configured_accept e s : configured inner s -> configured inner (server_accept_compressed e s)
  | configured_send e s : configured inner s -> configured inner (server_send_compressed e s)
  | configured_decoding n s : configured inner s -> configured inner (server_max_decoding_message_size n s)
  | configured_encoding n s : configured inner s -> configured inner (server_max_encoding_message_size n s)
  | configured_clone s : configured inner s -> configured inner (server_clone s).

Lemma configured_inner inner s : configured inner s -> sv_inner s = inner.
Proof. induction 1; done. Qed.

(** Behind an interceptor, too, only requests for the path of [Watch] reach the
    implementation. *)
Lemma intercepted_dispatch {TL : TonicLaws TC} inner inner' i req :
  hq_path req <> WATCH_PATH ->
  server_with_interceptor inner i req = server_with_interceptor inner' i req.
Proof.
  intros Hp. unfold server_with_interceptor.
  destruct (intercepted_spec i req) as [(resp & Hr)|(req' & Hq & Hr)]; rewrite !Hr; [done|].
  unfold server_call. by rewrite !decide_False by congruence.
Qed.

End stubs.

(** ** Properties *)

(** The client stub talks to the method the server stub dispatches to: when the
    transport leads to a server made from an implementation, with whatever
    settings, a [watch] of a ready client is answered by running the
    implementation's [watch] on the message sent; a request for any other path
    never reaches the implementation and is answered with the status
    Unimplemented; and a client that is not ready reports an error without
    sending anything. *)
Theorem watch_dispatch (TC : Tonic) (TL : TonicLaws TC) (inner : ConfigDiscovery)
    (s : ConfigDiscoveryServer) (c : ConfigDiscoveryClient) (message : WatchRequest)
    (r : StreamOf + Status) :
  configured inner s -> transport_send (cd_inner c) = server_call s ->
  (forall req, gq_message req = message -> cd_watch inner req = r) ->
  (grpc_ready (cd_inner c) = None ->
   exists cfg, client_watch c message
     = grpc_answer (cd_inner c)
         (grpc_serve cfg (fun _ => r) (grpc_request (cd_inner c) (watch_request message) WATCH_PATH))) /\
  (forall e, grpc_ready (cd_inner c) = Some e ->
   client_watch c message = inr (status_unknown (str "Service was not ready: " ++ e))) /\
  (forall req, hq_path req <> WATCH_PATH ->
   server_call s req = unimplemented /\
   hp_headers (server_call s req) !! str "grpc-status" = Some (str "12")).
Proof.
  intros Hs Ht Hr. unfold client_watch. split_and!.
  - intros ->. rewrite Ht. unfold server_call. rewrite decide_True by apply grpc_request_path.
    rewrite (configured_inner _ _ Hs). eexists. f_equal.
    apply grpc_serve_decodes. intros req' Hreq. by apply Hr.
  - intros e ->. done.
  - intros req Hp. unfold server_call. rewrite decide_False by done. done.
Qed.

(** ** A small instance, used by the witness *)

Module RpcDemo.

Inductive body := BRequest (m : WatchRequest) | BAnswer (a : rstr + rstr) | BEmpty.

Definition tonic : Tonic := {|
  Transport := HttpRequest body -> HttpResponse body; Uri_ := unit;
  Interceptor := unit; intercepted := fun t _ => t;
  TransportError := rstr; endpoint_connect := fun _ => inr (str "unreachable");
  CompressionEncoding := rstr; EnabledCompressionEncodings := list rstr; encodings_default := [];
  enable := cons;
  Grpc_ := HttpRequest body -> HttpResponse body; grpc_new := fun t => t;
  grpc_with_origin := fun t _ => t;
  grpc_send_compressed := fun _ g => g; grpc_accept_compressed := fun _ g => g;
  grpc_max_decoding_message_size := fun _ g => g; grpc_max_encoding_message_size := fun _ g => g;
  grpc_ready := fun _ => None;
  Body := body; Status := rstr; status_unknown := fun s => s; StreamOf := rstr;
  grpc_request := fun _ req path => {| hq_path := path; hq_body := BRequest (gq_message req) |};
  grpc_answer := fun _ resp => match hp_body resp with BAnswer a => a | _ => inr (str "no answer") end;
  transport_send := fun g req => g req;
  grpc_serve := fun _ method req =>
    match hq_body req with
    | BRequest m => {| hp_headers := ∅; hp_body := BAnswer (method {| gq_message := m; gq_method := None |}) |}
    | _ => {| hp_headers := ∅; hp_body := BEmpty |}
    end;
  empty_body_ := BEmpty; intercepted_call := fun _ svc req => svc req |}.

Lemma tonic_laws : TonicLaws tonic.
Proof.
  split; [done| |].
  - intros cfg m m' g req path Hm. simpl. by rewrite Hm.
  - intros i req. right. by exists req.
Qed.

#[local] Existing Instance tonic.

Definition service : ConfigDiscovery := {| cd_watch := fun req => inl (wr_node_id (gq_message req)) |}.
Definition server : ConfigDiscoveryServer :=
  server_clone (server_max_decoding_message_size 1024 (server_new service)).
Definition client : ConfigDiscoveryClient := client_new (server_call server).

End RpcDemo.

Lemma watch_dispatch_witness :
  (exists cfg, @client_watch RpcDemo.tonic RpcDemo.client {| wr_node_id := str "node-1" |}
    = @grpc_answer RpcDemo.tonic (cd_inner RpcDemo.client)
        (@grpc_serve RpcDemo.tonic cfg (fun _ => inl (str "node-1"))
           (@grpc_request RpcDemo.tonic (cd_inner RpcDemo.client)
              (watch_request {| wr_node_id := str "node-1" |}) WATCH_PATH))) /\
  @client_watch RpcDemo.tonic RpcDemo.client {| wr_node_id := str "node-1" |} = inl (str "node-1").
Proof.
  destruct (watch_dispatch RpcDemo.tonic RpcDemo.tonic_laws RpcDemo.service RpcDemo.server
    RpcDemo.client {| wr_node_id := str "node-1" |} (inl (str "node-1"))) as [Hw _].
  - apply configured_clone, configured_decoding, configured_new.
  - reflexivity.
  - intros req Hreq. simpl. rewrite Hreq. reflexivity.
  - split; [apply Hw; reflexivity|vm_compute; reflexivity].
Defined.
