(* ===== verification/RouteTable.v ===== *)
(** The in-memory route table: src/images/dataplane/src/snapshot.rs. A snapshot
    of the control plane is turned into a [RouteTable]; requests are matched
    against its host buckets and balanced over the endpoints of its clusters.
    The round-robin cursor and the per-endpoint connection counters are shared
    atomics, so construction and balancing run in the counter store. *)

From stdpp Require Import base gmap list strings sorting.
From Stdlib Require Import ZArith NArith Lia.
From S2P Require Import Prelude RustStr Config Http Atomics.

(** ** Data *)

Inductive PathType := Prefix | Exact.

#[global] Instance PathType_eq_dec : EqDecision PathType.
Proof. solve_decision. Defined.

Definition PathType_parse (s : rstr) : option PathType :=
  if decide (s = str "Prefix") then Some Prefix
  else if decide (s = str "Exact") then Some Exact
  else None.

Record RouteRule := {
  rr_path : rstr;
  rr_path_type : PathType;
  rr_cluster : rstr;
  rr_priority : Z;
}.

#[global] Instance RouteRule_eq_dec : EqDecision RouteRule.
Proof. solve_decision. Defined.

Record EndpointKey := {
  ek_address : rstr;
  ek_port : Z;
  ek_index : nat;
}.

#[global] Instance EndpointKey_eq_dec : EqDecision EndpointKey.
Proof. solve_decision. Defined.
#[global] Instance EndpointKey_countable : Countable EndpointKey.
Proof.
  apply (inj_countable' (fun k => (ek_address k, ek_port k, ek_index k))
    (fun '(a, p, i) => {| ek_address := a; ek_port := p; ek_index := i |})).
  by intros [].
Defined.

(** [counter] is the shared in-flight counter of the endpoint. *)
Record SelectedEndpoint := {
  se_endpoint : Endpoint;
  se_counter : option loc;
}.

Inductive LBPolicy := RoundRobin | LeastConn.

Definition LBPolicy_parse (s : rstr) : option LBPolicy :=
  if decide (s = str "RoundRobin") then Some RoundRobin
  else if decide (s = str "LeastConn") then Some LeastConn
  else None.

Inductive BackendProtocol := H1 | H2 | H1Ssl | H2Ssl.

Definition BackendProtocol_parse (s : rstr) : option BackendProtocol :=
  if decide (s = str "h1") then Some H1
  else if decide (s = str "h2") then Some H2
  else if decide (s = str "h1-ssl") then Some H1Ssl
  else if decide (s = str "h2-ssl") then Some H2Ssl
  else None.

Inductive HeaderRewriteMode := Set_ | Append | Remove.

#[global] Instance HeaderRewriteMode_eq_dec : EqDecision HeaderRewriteMode.
Proof. solve_decision. Defined.

Definition HeaderRewriteMode_parse (mode : rstr) : option HeaderRewriteMode :=
  let m := Str.to_ascii_lowercase mode in
  if decide (m = str "set") then Some Set_
  else if decide (m = str "append") then Some Append
  else if decide (m = str "remove") then Some Remove
  else None.

Record AuthConfigDex := {
  ad_url : option rstr;
  ad_signin : option rstr;
  ad_response_headers : list rstr;
  ad_skip_paths : list rstr;
  ad_cookie_name : option rstr;
}.

Record HeaderRewriteRule `{Http} := {
  hw_name : HeaderName;
  hw_value : option rstr;
  hw_mode : HeaderRewriteMode;
}.

Record ClusterRule `{Http} := {
  cr_name : rstr;
  cr_lb_policy : LBPolicy;
  cr_endpoints : list Endpoint;
  cr_timeout_ms : Z;
  cr_retries : Z;
  cr_backend_protocol : BackendProtocol;
  cr_request_headers : list HeaderRewriteRule;
  cr_backend_tls_insecure_skip_verify : bool;
  cr_rr_cursor : loc;
  cr_least_conn_cursor : gmap EndpointKey loc;
  cr_auth : option AuthConfigDex;
}.

Record RouteTable `{Http} := {
  tb_version : rstr;
  tb_routes_by_host : gmap rstr (list RouteRule);
  tb_clusters : gmap rstr ClusterRule;
}.

(** [RouteTable::default()] *)
Definition route_table_default `{Http} : RouteTable := {|
  tb_version := [];
  tb_routes_by_host := ∅;
  tb_clusters := ∅;
|}.

(** ** External auth settings *)

(** [normalize_list]: trim, drop empties, drop case-insensitive duplicates. *)
Fixpoint normalize_go (out items : list rstr) : list rstr :=
  match items with
  | [] => out
  | s :: items' =>
      let v := Str.trim s in
      if Str.is_empty v then normalize_go out items'
      else if existsb (fun x => Str.eq_ignore_ascii_case x v) out
      then normalize_go out items'
      else normalize_go (out ++ [v]) items'
  end.
Definition normalize_list (items : list rstr) : list rstr := normalize_go [] items.

(** [if s.trim().is_empty() { None } else { Some(s.clone()) }] *)
Definition non_blank (s : rstr) : option rstr :=
  if Str.is_empty (Str.trim s) then None else Some s.

Definition from_pb (pb : AuthConfig) : AuthConfigDex := {|
  ad_url := non_blank (ac_url pb);
  ad_signin := non_blank (ac_signin pb);
  ad_response_headers := normalize_list (ac_response_headers pb);
  ad_skip_paths := normalize_list (ac_skip_paths pb);
  ad_cookie_name := non_blank (ac_cookie_name pb);
|}.

Definition list_is_empty {A} (l : list A) : bool := match l with [] => true | _ => false end.

Definition build_auth_runtime (auth : option AuthConfig) : option AuthConfigDex :=
  match auth with
  | None => None
  | Some pb =>
      let has_any := negb (Str.is_empty (Str.trim (ac_url pb)))
        || negb (Str.is_empty (Str.trim (ac_signin pb)))
        || negb (list_is_empty (ac_response_headers pb))
        || negb (list_is_empty (ac_skip_paths pb))
        || negb (Str.is_empty (Str.trim (ac_cookie_name pb))) in
      if has_any then Some (from_pb pb) else None
  end.

(** ** Construction and lookup *)

Section table.
Context `{Http}.

(** One iteration of the loop of [build_header_rewrites]; [None] is [continue]. *)
Definition header_rewrite_rule (item : HeaderRewrite) : option HeaderRewriteRule :=
  let name := Str.trim (hr_name item) in
  if Str.is_empty name then None else
  match HeaderRewriteMode_parse (hr_mode item) with
  | None => None
  | Some mode =>
      let value := match mode with Remove => None | _ => Some (hr_value item) end in
      match hn_from_bytes (Str.as_bytes name) with
      | None => None
      | Some header_name =>
          Some {| hw_name := header_name; hw_value := value; hw_mode := mode |}
      end
  end.

Definition build_header_rewrites (items : list HeaderRewrite) : list HeaderRewriteRule :=
  omap header_rewrite_rule items.

Definition from_endpoint (index : nat) (endpoint : Endpoint) : EndpointKey := {|
  ek_address := ep_address endpoint;
  ek_port := ep_port endpoint;
  ek_index := index;
|}.

Fixpoint build_map_go (index : nat) (endpoints : list Endpoint) (counters : gmap EndpointKey loc)
    : state heap (gmap EndpointKey loc) :=
  match endpoints with
  | [] => mret counters
  | endpoint :: endpoints' =>
      l ← Atomic.new 0;
      build_map_go (S index) endpoints' (<[from_endpoint index endpoint := l]> counters)
  end.
Definition build_map (endpoints : list Endpoint) : state heap (gmap EndpointKey loc) :=
  build_map_go 0 endpoints ∅.

(** The first loop of [RouteTable::new]: one iteration per cluster. *)
Fixpoint build_clusters (cs : list Cluster) (clusters : gmap rstr ClusterRule)
    : state heap (gmap rstr ClusterRule) :=
  match cs with
  | [] => mret clusters
  | cluster :: cs' =>
      let bp := default H1 (BackendProtocol_parse (cl_backend_protocol cluster)) in
      match LBPolicy_parse (cl_lb_policy cluster) with
      | None => build_clusters cs' clusters
      | Some lb =>
          counters ← build_map (cl_endpoints cluster);
          rr_cursor ← Atomic.new 0;
          build_clusters cs' (<[Str.to_ascii_lowercase (cl_name cluster) := {|
            cr_name := [];
            cr_lb_policy := lb;
            cr_endpoints := cl_endpoints cluster;
            cr_timeout_ms := cl_timeout_ms cluster;
            cr_retries := cl_retries cluster;
            cr_backend_protocol := bp;
            cr_request_headers := build_header_rewrites (cl_request_headers cluster);
            cr_backend_tls_insecure_skip_verify := cl_backend_tls_insecure_skip_verify cluster;
            cr_rr_cursor := rr_cursor;
            cr_least_conn_cursor := counters;
            cr_auth := build_auth_runtime (cl_auth cluster);
          |}]> clusters)
      end
  end.

(** The second loop of [RouteTable::new]: routes are grouped by lower-cased
    host, in snapshot order; a route with an unknown path type is dropped. *)
Fixpoint build_buckets (rs : list Route) (buckets : gmap rstr (list RouteRule))
    : gmap rstr (list RouteRule) :=
  match rs with
  | [] => buckets
  | r :: rs' =>
      match PathType_parse (rt_path_type r) with
      | None => build_buckets rs' buckets
      | Some pt =>
          let host := Str.to_ascii_lowercase (rt_host r) in
          let rule := {| rr_path := rt_path r; rr_path_type := pt;
                         rr_cluster := rt_cluster r; rr_priority := rt_priority r |} in
          build_buckets rs' (<[host := default [] (buckets !! host) ++ [rule]]> buckets)
      end
  end.

(** The comparison of the bucket sort. *)
Definition rule_cmp (a b : RouteRule) : comparison :=
  Sort.then_ (Sort.then_ (Z.compare (rr_priority b) (rr_priority a))
                         (Nat.compare (Str.len (rr_path b)) (Str.len (rr_path a))))
    (match rr_path_type a, rr_path_type b with
     | Exact, Prefix => Lt
     | Prefix, Exact => Gt
     | _, _ => Eq
     end).

Definition new (snapshot : Snapshot) : state heap RouteTable :=
  clusters ← build_clusters (sn_clusters snapshot) ∅;
  let buckets := build_buckets (sn_routes snapshot) ∅ in
  let routes_by_host := Sort.sort_by rule_cmp <$> buckets in
  mret {| tb_version := sn_version snapshot;
          tb_routes_by_host := routes_by_host;
          tb_clusters := clusters |}.

Definition rule_matches (path : rstr) (r : RouteRule) : bool :=
  match rr_path_type r with
  | Exact => bool_decide (rr_path r = path)
  | Prefix => Str.starts_with path (rr_path r)
  end.

Definition match_in_bucket (rules : list RouteRule) (path : rstr) : option RouteRule :=
  find_first (rule_matches path) rules.

Definition choose_route (t : RouteTable) (host path : rstr) : option RouteRule :=
  let in_bucket h :=
    match tb_routes_by_host t !! h with
    | Some rules => match_in_bucket rules path
    | None => None
    end in
  match in_bucket host with
  | Some rule => Some rule
  | None => in_bucket (str "")
  end.

(** ** Load balancing *)

Definition counter_for_index (cluster : ClusterRule) (idx : nat) : option loc :=
  match cr_endpoints cluster !! idx with
  | None => None
  | Some endpoint => cr_least_conn_cursor cluster !! from_endpoint idx endpoint
  end.

(** [cluster.endpoints[idx]] panics out of range; [rr_select_total] shows
    that the [None] of that lookup is never taken. *)
Definition round_robin (cluster : ClusterRule) : state heap (option SelectedEndpoint) :=
  let len := length (cr_endpoints cluster) in
  if decide (len = 0) then mret None else
  cursor ← Atomic.fetch_add (cr_rr_cursor cluster) 1;
  let idx := Z.to_nat (cursor mod Z.of_nat len) in
  mret (endpoint ← cr_endpoints cluster !! idx;
        Some {| se_endpoint := endpoint; se_counter := counter_for_index cluster idx |}).

(** The iteration order of the [DashMap] is not specified: [iter] lists its
    entries in some order. *)
Definition least_conn (iter : gmap EndpointKey loc -> list (EndpointKey * loc))
    (cluster : ClusterRule) : state heap (option SelectedEndpoint) :=
  if decide (length (cr_endpoints cluster) = 0) then mret None else
  fun h =>
    match Sort.first_min (Sort.by_key (fun e => Atomic.read h e.2))
            (iter (cr_least_conn_cursor cluster)) with
    | Some (key, counter) =>
        match cr_endpoints cluster !! ek_index key with
        | Some endpoint =>
            (Some {| se_endpoint := endpoint; se_counter := Some counter |}, h)
        | None => round_robin cluster h
        end
    | None => round_robin cluster h
    end.

Definition get_endpoint (iter : gmap EndpointKey loc -> list (EndpointKey * loc))
    (t : RouteTable) (cluster_name : rstr) : state heap (option SelectedEndpoint) :=
  match tb_clusters t !! cluster_name with
  | None => mret None
  | Some cluster =>
      match cr_lb_policy cluster with
      | RoundRobin => round_robin cluster
      | LeastConn => least_conn iter cluster
      end
  end.

Definition get_cluster_rules (t : RouteTable) (cluster_name : rstr) : option ClusterRule :=
  tb_clusters t !! cluster_name.

End table.
