(* ===== verification/Routing.v ===== *)
(** What routing does: the table built from a snapshot answers every lookup as
    the snapshot itself prescribes. The specification looks at the whole
    snapshot on each request; the table is the index that makes the same
    decision with one hash lookup and one scan of a sorted bucket. *)

From stdpp Require Import base gmap list strings sorting.
From Stdlib Require Import ZArith NArith Lia.
From S2P Require Import Prelude RustStr Config Http Atomics RouteTable.

(** ** The bucket order is a total preorder *)

Definition path_type_rank (r : RouteRule) : Z :=
  match rr_path_type r with Exact => 0 | Prefix => 1 end.

Lemma rule_cmp_lex a b :
  rule_cmp a b =
  Sort.then_ (Sort.then_ (Sort.by_key (fun r => - rr_priority r)%Z a b)
                         (Sort.by_key (fun r => - Z.of_nat (Str.len (rr_path r)))%Z a b))
    (Sort.by_key path_type_rank a b).
Proof.
  unfold rule_cmp, Sort.by_key, path_type_rank. f_equal.
  - by rewrite !Z.compare_opp, Nat2Z.inj_compare.
  - by destruct (rr_path_type a), (rr_path_type b).
Qed.

#[export] Instance rule_cmp_total : Sort.TotalOrder rule_cmp.
Proof.
  assert (Sort.TotalOrder (fun a b =>
    Sort.then_ (Sort.then_ (Sort.by_key (fun r => - rr_priority r)%Z a b)
                         (Sort.by_key (fun r => - Z.of_nat (Str.len (rr_path r)))%Z a b))
    (Sort.by_key path_type_rank a b))) as [Hs Ht].
  { apply (Sort.lex_total (fun a b => Sort.then_ _ _)); [apply Sort.lex_total|];
      apply Sort.by_key_total. }
  split.
  - intros x y. rewrite !rule_cmp_lex. apply Hs.
  - intros x y z. unfold Sort.le. rewrite !rule_cmp_lex. apply Ht.
Qed.

(** [r] is at least as specific as [r']: higher priority, then longer path,
    then exact before prefix. *)
Definition preferred (r r' : RouteRule) : Prop :=
  (rr_priority r' < rr_priority r)%Z \/
  (rr_priority r' = rr_priority r /\
    (Str.len (rr_path r') < Str.len (rr_path r) \/
     (Str.len (rr_path r') = Str.len (rr_path r) /\
        (rr_path_type r = Exact \/ rr_path_type r' = Prefix)))).

Lemma rule_cmp_preferred r r' : Sort.le rule_cmp r r' <-> preferred r r'.
Proof.
  unfold Sort.le, rule_cmp, preferred, Sort.then_.
  destruct (Z.compare_spec (rr_priority r') (rr_priority r)),
    (Nat.compare_spec (Str.len (rr_path r')) (Str.len (rr_path r))),
    (rr_path_type r), (rr_path_type r'); split; intros; try done; try lia; intuition (lia || congruence).
Qed.

(** ** Specification: the rules a snapshot has for a host *)

Definition rule_of_route (r : Route) : option RouteRule :=
  pt ← PathType_parse (rt_path_type r);
  Some {| rr_path := rt_path r; rr_path_type := pt;
          rr_cluster := rt_cluster r; rr_priority := rt_priority r |}.

Definition rules_for (rs : list Route) (host : rstr) : list RouteRule :=
  omap rule_of_route (base.filter (fun r => Str.to_ascii_lowercase (rt_host r) = host) rs).

(** The earliest of the most specific rules of the host that match the path. *)
Definition best_rule (rs : list Route) (host path : rstr) : option RouteRule :=
  Sort.first_min rule_cmp (base.filter (fun r => rule_matches path r = true) (rules_for rs host)).

Lemma rules_for_cons r rs host :
  rules_for (r :: rs) host =
  if decide (Str.to_ascii_lowercase (rt_host r) = host)
  then option_list (rule_of_route r) ++ rules_for rs host
  else rules_for rs host.
Proof.
  unfold rules_for. rewrite filter_cons. case_decide; [|done]. simpl.
  by destruct (rule_of_route r).
Qed.

Lemma build_buckets_lookup rs b host :
  build_buckets rs b !! host =
  match rules_for rs host with
  | [] => b !! host
  | l => Some (default [] (b !! host) ++ l)
  end.
Proof.
  revert b. induction rs as [|r rs IH]; intros b; [done|]. simpl.
  rewrite rules_for_cons. unfold rule_of_route.
  destruct (PathType_parse _) as [pt|]; simpl; rewrite IH; [|by case_decide].
  case_decide as Hd; subst; [|by rewrite !lookup_insert_ne].
  rewrite lookup_insert_eq. simpl. destruct (rules_for rs _); by rewrite <-?app_assoc.
Qed.

Section routing.
Context `{Http}.

Lemma new_routes snap h :
  tb_routes_by_host (new snap h).1 = Sort.sort_by rule_cmp <$> build_buckets (sn_routes snap) ∅.
Proof. unfold new, mbind, state_bind. by destruct (build_clusters _ _ _). Qed.

Lemma new_bucket snap h host :
  tb_routes_by_host (new snap h).1 !! host =
  match rules_for (sn_routes snap) host with
  | [] => None
  | l => Some (Sort.sort_by rule_cmp l)
  end.
Proof.
  rewrite new_routes, lookup_fmap, build_buckets_lookup, lookup_empty.
  by destruct (rules_for _ _).
Qed.

Lemma new_match_in_bucket snap h host path :
  match tb_routes_by_host (new snap h).1 !! host with
  | Some rules => match_in_bucket rules path
  | None => None
  end = best_rule (sn_routes snap) host path.
Proof.
  rewrite new_bucket. unfold best_rule, match_in_bucket.
  destruct (rules_for _ _) as [|r l]; [done|].
  by rewrite Sort.find_first_sort_by by apply rule_cmp_total.
Qed.

(** The routing decision of the table, as a function of the snapshot. *)
Lemma choose_route_new snap h host path :
  choose_route (new snap h).1 host path =
  match best_rule (sn_routes snap) host path with
  | Some rule => Some rule
  | None => best_rule (sn_routes snap) (str "") path
  end.
Proof. unfold choose_route. by rewrite !new_match_in_bucket. Qed.

Lemma elem_of_rules_for rs host r :
  r ∈ rules_for rs host <->
  exists route, route ∈ rs /\ Str.to_ascii_lowercase (rt_host route) = host
                /\ rule_of_route route = Some r.
Proof. unfold rules_for. rewrite list_elem_of_omap. setoid_rewrite list_elem_of_filter. naive_solver. Qed.

Lemma best_rule_Some rs host path r :
  best_rule rs host path = Some r ->
  r ∈ rules_for rs host /\ rule_matches path r = true /\
  forall r', r' ∈ rules_for rs host -> rule_matches path r' = true -> preferred r r'.
Proof.
  intros [Hin Hall]%Sort.first_min_Some; [|apply rule_cmp_total].
  apply list_elem_of_filter in Hin as [Hm Hin]. split_and!; [done..|].
  intros r' Hr' Hm'. apply rule_cmp_preferred.
  rewrite Forall_forall in Hall. apply Hall. by apply list_elem_of_filter.
Qed.

Lemma best_rule_None rs host path :
  best_rule rs host path = None <->
  forall r, r ∈ rules_for rs host -> rule_matches path r = false.
Proof.
  unfold best_rule. rewrite Sort.first_min_None. split.
  - intros Hnil r Hr. apply not_true_iff_false. intros Hm.
    assert (r ∈ base.filter (fun r => rule_matches path r = true) (rules_for rs host)) as Hf
      by by apply list_elem_of_filter.
    rewrite Hnil in Hf. by apply not_elem_of_nil in Hf.
  - intros Hall. destruct (base.filter _ _) as [|r l] eqn:E; [done|].
    assert (r ∈ r :: l) as Hr by by left.
    rewrite <-E in Hr. apply list_elem_of_filter in Hr as [Hm Hr]. by rewrite Hall in Hm.
Qed.

(** Buckets are keyed by lower-cased hosts only. *)
Lemma rules_for_not_lower rs host :
  Str.to_ascii_lowercase host <> host -> rules_for rs host = [].
Proof.
  intros Hne. induction rs as [|r rs IH]; [done|].
  rewrite rules_for_cons, decide_False; [done|].
  intros <-. apply Hne, lowercase_idemp.
Qed.

Lemma best_rule_not_lower rs host path :
  Str.to_ascii_lowercase host <> host -> best_rule rs host path = None.
Proof. intros Hne. unfold best_rule. by rewrite rules_for_not_lower. Qed.

(** ** Clusters *)

(** The rule [cr] carries the settings of the snapshot's cluster [c]. *)
Record cluster_agrees (c : Cluster) (cr : ClusterRule) : Prop := {
  agrees_lb : LBPolicy_parse (cl_lb_policy c) = Some (cr_lb_policy cr);
  agrees_endpoints : cr_endpoints cr = cl_endpoints c;
  agrees_timeout : cr_timeout_ms cr = cl_timeout_ms c;
  agrees_retries : cr_retries cr = cl_retries c;
  agrees_protocol :
    cr_backend_protocol cr = default H1 (BackendProtocol_parse (cl_backend_protocol c));
  agrees_headers : cr_request_headers cr = build_header_rewrites (cl_request_headers c);
  agrees_skip_verify :
    cr_backend_tls_insecure_skip_verify cr = cl_backend_tls_insecure_skip_verify c;
  agrees_auth : cr_auth cr = build_auth_runtime (cl_auth c);
}.

(** The cluster of a snapshot that a (lower-case) name denotes: the last one of
    that name, ignoring case, whose balancing policy is known. *)
Definition cluster_named (name : rstr) (c : Cluster) : Prop :=
  Str.to_ascii_lowercase (cl_name c) = name /\ is_Some (LBPolicy_parse (cl_lb_policy c)).
#[global] Instance cluster_named_dec name c : Decision (cluster_named name c).
Proof. unfold cluster_named. apply _. Defined.
Definition find_cluster (cs : list Cluster) (name : rstr) : option Cluster :=
  last (base.filter (cluster_named name) cs).

Definition lookup_agrees (o : option Cluster) (r : option ClusterRule) : Prop :=
  match o, r with
  | Some c, Some cr => cluster_agrees c cr
  | None, None => True
  | _, _ => False
  end.

Lemma build_clusters_lookup cs m h name :
  match find_cluster cs name with
  | Some c => lookup_agrees (Some c) ((build_clusters cs m h).1 !! name)
  | None => (build_clusters cs m h).1 !! name = m !! name
  end.
Proof.
  revert m h. induction cs as [|c cs IH]; intros m h; [done|]. simpl.
  unfold find_cluster. rewrite filter_cons.
  destruct (LBPolicy_parse (cl_lb_policy c)) as [lb|] eqn:Elb.
  - unfold mbind, state_bind. destruct (build_map _ h) as [counters h1]. simpl.
    match goal with |- context [build_clusters cs ?m' ?h'] => specialize (IH m' h') end.
    unfold find_cluster in IH. case_decide as Hd.
    + rewrite last_cons. destruct (last _); [done|]. rewrite IH.
      destruct Hd as [<- _]. rewrite lookup_insert_eq. by split.
    + destruct (last _); [done|]. rewrite IH, lookup_insert_ne; [done|].
      intros <-. apply Hd. by split.
  - rewrite decide_False; [apply IH|]. unfold cluster_named. rewrite Elb.
    by intros [_ [??]].
Qed.

Lemma new_clusters snap h :
  tb_clusters (new snap h).1 = (build_clusters (sn_clusters snap) ∅ h).1.
Proof. unfold new, mbind, state_bind. by destruct (build_clusters _ _ _). Qed.

Lemma new_cluster_lookup snap h name :
  lookup_agrees (find_cluster (sn_clusters snap) name) (get_cluster_rules (new snap h).1 name).
Proof.
  unfold get_cluster_rules. rewrite new_clusters.
  pose proof (build_clusters_lookup (sn_clusters snap) ∅ h name) as Hl.
  destruct (find_cluster _ name); [done|]. by rewrite Hl, lookup_empty.
Qed.

(** Every cluster of the table stems from a cluster of the snapshot. *)
Lemma new_cluster_source snap h name cr :
  tb_clusters (new snap h).1 !! name = Some cr ->
  exists c, c ∈ sn_clusters snap /\ cluster_agrees c cr.
Proof.
  intros Hcr. pose proof (new_cluster_lookup snap h name) as Hl.
  unfold get_cluster_rules in Hl. rewrite Hcr in Hl. unfold find_cluster in Hl.
  destruct (last _) as [c|] eqn:Ec; [|done]. exists c. split; [|done].
  apply last_Some_elem_of, list_elem_of_filter in Ec. by destruct Ec.
Qed.

Lemma find_cluster_not_lower cs name :
  Str.to_ascii_lowercase name <> name -> find_cluster cs name = None.
Proof.
  intros Hne. unfold find_cluster. apply last_None.
  induction cs as [|c cs IH]; [done|]. rewrite filter_cons, decide_False; [done|].
  intros [<- _]. apply Hne, lowercase_idemp.
Qed.

Lemma get_cluster_rules_not_lower snap h name :
  Str.to_ascii_lowercase name <> name -> get_cluster_rules (new snap h).1 name = None.
Proof.
  intros Hne. pose proof (new_cluster_lookup snap h name) as Hl.
  rewrite find_cluster_not_lower in Hl by done. by destruct (get_cluster_rules _ _).
Qed.

End routing.

(** ** Lists of the auth settings *)

Definition is_normal (v : rstr) : Prop := Str.trim v = v /\ v <> [].

Lemma existsb_ignore_case out v :
  existsb (fun x => Str.eq_ignore_ascii_case x v) out = true <->
  Str.to_ascii_lowercase v ∈ Str.to_ascii_lowercase <$> out.
Proof.
  rewrite existsb_exists, list_elem_of_fmap. unfold Str.eq_ignore_ascii_case.
  setoid_rewrite bool_decide_eq_true. setoid_rewrite <-list_elem_of_In. naive_solver.
Qed.

Lemma normalize_go_spec out items :
  Forall is_normal out -> NoDup (Str.to_ascii_lowercase <$> out) ->
  exists added,
    normalize_go out items = out ++ added /\
    added `sublist_of` (Str.trim <$> items) /\
    Forall is_normal (out ++ added) /\
    NoDup (Str.to_ascii_lowercase <$> (out ++ added)) /\
    forall s, s ∈ items -> Str.trim s <> [] ->
      Str.to_ascii_lowercase (Str.trim s) ∈ Str.to_ascii_lowercase <$> (out ++ added).
Proof.
  revert out. induction items as [|s items IH]; intros out Hn Hd; simpl.
  { exists []. rewrite app_nil_r. split_and!; [done..|by constructor|done|done|].
    intros s Hs. by apply not_elem_of_nil in Hs. }
  destruct (Str.trim s) as [|c v] eqn:Etrim; cbn [Str.is_empty].
  { destruct (IH out Hn Hd) as (added & ? & ? & ? & ? & Hcov). exists added.
    split_and!; [done|by constructor|done..|].
    intros s' [->|Hs']%elem_of_cons; [done|by apply Hcov]. }
  destruct (existsb _ out) eqn:Eex.
  { destruct (IH out Hn Hd) as (added & ? & ? & ? & ? & Hcov). exists added.
    split_and!; [done|by constructor|done..|].
    intros s' [->|Hs']%elem_of_cons; [|by apply Hcov]. intros _. rewrite Etrim.
    apply existsb_ignore_case in Eex. rewrite fmap_app. set_solver. }
  destruct (IH (out ++ [c :: v])) as (added & Heq & Hsub & Hnorm & Hnodup & Hcov).
  { rewrite Forall_app, Forall_singleton. split; [done|]. split; [|done].
    by rewrite <-Etrim, trim_idemp. }
  { rewrite fmap_app. apply NoDup_app. split_and!; [done| |apply NoDup_singleton].
    intros x Hx Hx'. apply list_elem_of_singleton in Hx' as ->.
    apply not_true_iff_false in Eex. apply Eex. by apply existsb_ignore_case. }
  exists ((c :: v) :: added). rewrite <-!app_assoc in *. simpl in *.
  split_and!; [done|by constructor|done..|].
  intros s' [->|Hs']%elem_of_cons; [|by apply Hcov]. intros _.
  rewrite Etrim, fmap_app. set_solver.
Qed.

Lemma normalize_go_id out items :
  Forall is_normal items -> NoDup (Str.to_ascii_lowercase <$> (out ++ items)) ->
  normalize_go out items = out ++ items.
Proof.
  revert out. induction items as [|s items IH]; intros out Hn Hd; simpl; [by rewrite app_nil_r|].
  apply Forall_cons in Hn as [[Htrim Hne] Hn]. rewrite Htrim.
  destruct s as [|c s]; [done|]. cbn [Str.is_empty].
  destruct (existsb _ out) eqn:Eex.
  - apply existsb_ignore_case in Eex. rewrite fmap_app in Hd.
    apply NoDup_app in Hd as (_ & Hd & _). destruct (Hd _ Eex). by left.
  - rewrite IH; rewrite <-?app_assoc; done.
Qed.

(** ** Properties *)


(** A chosen rule comes from a route of the snapshot for that host (or, if
    no rule of the host matches, of the empty host), matches the path, and is
    preferred to every other matching rule of the same host: higher priority,
    then longer path, then exact before prefix. *)
Theorem choose_route_most_specific `{Http} (snap : Snapshot) (h : heap) (host path : rstr)
    (r : RouteRule) :
  choose_route (new snap h).1 host path = Some r ->
  exists host',
    (host' = host \/ (host' = str "" /\
       forall r', r' ∈ rules_for (sn_routes snap) host -> rule_matches path r' = false)) /\
    (exists route, route ∈ sn_routes snap /\ Str.to_ascii_lowercase (rt_host route) = host'
                   /\ rule_of_route route = Some r) /\
    rule_matches path r = true /\
    forall r', r' ∈ rules_for (sn_routes snap) host' -> rule_matches path r' = true ->
      preferred r r'.
Proof.
  rewrite choose_route_new. setoid_rewrite <-elem_of_rules_for.
  destruct (best_rule _ host path) as [r'|] eqn:E.
  - intros [= <-]. exists host. split; [by left|by apply best_rule_Some].
  - intros Hb. exists (str ""). split; [|by apply best_rule_Some].
    right. split; [done|]. by apply best_rule_None.
Qed.

(** A request is left unrouted exactly when no route of its host and no
    catch-all route (empty host) matches its path. *)
Theorem choose_route_none_iff `{Http} (snap : Snapshot) (h : heap) (host path : rstr) :
  choose_route (new snap h).1 host path = None <->
  forall route r,
    route ∈ sn_routes snap -> rule_of_route route = Some r -> rule_matches path r = true ->
    Str.to_ascii_lowercase (rt_host route) <> host /\
    Str.to_ascii_lowercase (rt_host route) <> str "".
Proof.
  rewrite choose_route_new. trans (best_rule (sn_routes snap) host path = None /\
    best_rule (sn_routes snap) (str "") path = None).
  { destruct (best_rule _ host path); naive_solver. }
  rewrite !best_rule_None. setoid_rewrite elem_of_rules_for. split.
  - intros [Hh Hd] route r Hin Hr Hm. split; intros He;
      [specialize (Hh r)|specialize (Hd r)]; rewrite Hm in *; naive_solver.
  - intros Hall. split; intros r (route & Hin & He & Hr); apply not_true_iff_false;
      intros Hm; destruct (Hall route r Hin Hr Hm); done.
Qed.

(** Looking a cluster up by name yields the settings of the last cluster of
    the snapshot whose name equals it up to ASCII case and whose balancing
    policy is known, and nothing when there is none. *)
Theorem cluster_lookup_last_wins `{Http} (snap : Snapshot) (h : heap) (name : rstr) :
  lookup_agrees (find_cluster (sn_clusters snap) name) (get_cluster_rules (new snap h).1 name).
Proof. apply new_cluster_lookup. Qed.

(** Clusters are stored under their lower-cased names but looked up under
    the name as written in the route: a name with an upper-case ASCII letter
    is never found, whatever the snapshot contains. *)
Theorem upper_case_cluster_unreachable `{Http} (snap : Snapshot) (h : heap) (name : rstr) :
  Str.to_ascii_lowercase name <> name ->
  get_cluster_rules (new snap h).1 name = None.
Proof. apply get_cluster_rules_not_lower. Qed.

(** The lists of the auth settings are normalised: every entry is trimmed
    and non-empty, entries are pairwise different up to ASCII case, they keep
    the order of the input, and every non-blank input is represented. *)
Theorem normalize_list_spec (items : list rstr) :
  let out := normalize_list items in
  Forall is_normal out /\
  NoDup (Str.to_ascii_lowercase <$> out) /\
  out `sublist_of` (Str.trim <$> items) /\
  (forall s, s ∈ items -> Str.trim s <> [] ->
     exists v, v ∈ out /\ Str.eq_ignore_ascii_case v (Str.trim s) = true) /\
  normalize_list out = out.
Proof.
  destruct (normalize_go_spec [] items) as (out & Heq & Hsub & Hn & Hd & Hcov);
    [constructor|apply NoDup_nil_2|].
  unfold normalize_list. rewrite Heq. simpl in *. split_and!; [done..| |by apply normalize_go_id].
  intros s Hs Hne. specialize (Hcov s Hs Hne). apply list_elem_of_fmap in Hcov as (v & Hv & Hin).
  exists v. split; [done|]. by apply bool_decide_eq_true.
Qed.

(** ** A concrete configuration, used by the witnesses *)

Module Demo.

Definition route (host path pt cluster : string) (prio : Z) : Route := {|
  rt_host := str host; rt_path := str path; rt_path_type := str pt;
  rt_cluster := str cluster; rt_priority := prio |}.
Definition endpoint (address : string) (port : Z) : Endpoint := {|
  ep_address := str address; ep_port := port; ep_weight := 1; ep_zone := []; ep_region := [] |}.
Definition cluster (name lb bp : string) (eps : list Endpoint) (retries : Z)
    (hs : list HeaderRewrite) (auth : option AuthConfig) : Cluster := {|
  cl_name := str name; cl_lb_policy := str lb; cl_endpoints := eps;
  cl_timeout_ms := 3000; cl_retries := retries; cl_backend_protocol := str bp;
  cl_request_headers := hs; cl_backend_tls_insecure_skip_verify := false; cl_auth := auth |}.

Definition auth : AuthConfig := {|
  ac_url := str "http://auth:4180/oauth2/auth";
  ac_signin := str "http://$host/oauth2/start?rd=$escaped_request_uri";
  ac_response_headers := [str " X-Auth-Request-User "; str "x-auth-request-user"];
  ac_skip_paths := [str "/oauth2/"];
  ac_cookie_name := str "_oauth2_proxy" |}.

Definition snapshot : Snapshot := {|
  sn_version := str "v1"; sn_controller_id := []; sn_ingress_class_name := [];
  sn_generated_at_unix_sec := 0; sn_resource_versions := ∅;
  sn_routes := [
    route "demo.local" "/" "Prefix" "demo.local|/" 2000001;
    route "Demo.local" "/api" "Prefix" "demo.local|/api" 2000004;
    route "demo.local" "/Api" "Prefix" "demo.local|/Api" 2000004;
    route "demo.local" "/api" "Exact" "demo.local|/exact" 3000004;
    route "" "/fallback" "Prefix" "demo.local|/" 2000009;
    route "demo.local" "/re" "Regex" "demo.local|/" 5000000 ];
  sn_clusters := [
    cluster "demo.local|/Api" "RoundRobin" "h1" [endpoint "10.0.3.1" 80] 1 [] None;
    cluster "demo.local|/" "RoundRobin" "h1"
      [endpoint "10.0.0.1" 80; endpoint "10.0.0.2" 8080; endpoint "10.0.0.3" 8080] 3
      [{| hr_name := str "X-Debug"; hr_mode := str "Set"; hr_value := str "1" |}] None;
    cluster "demo.local|/api" "LeastConn" "h2-ssl"
      [endpoint "10.0.1.1" 8443; endpoint "10.0.1.2" 8443] 1 [] (Some auth);
    cluster "demo.local|/exact" "RoundRobin" "h1" [] 1 [] None;
    cluster "demo.local|/weird" "Random" "h1" [endpoint "10.0.2.1" 80] 1 [] None ];
  sn_server_tls := [] |}.

Definition table : @RouteTable simple_http := (@new simple_http snapshot heap_empty).1.
Definition heap0 : heap := (@new simple_http snapshot heap_empty).2.

End Demo.

Lemma choose_route_most_specific_witness :
  exists r host',
    choose_route (@new simple_http Demo.snapshot heap_empty).1 (str "demo.local") (str "/api") = Some r /\
    rr_cluster r = str "demo.local|/exact" /\
    (host' = str "demo.local" \/ (host' = str "" /\
       forall r', r' ∈ rules_for (sn_routes Demo.snapshot) (str "demo.local") ->
         rule_matches (str "/api") r' = false)) /\
    rule_matches (str "/api") r = true.
Proof.
  destruct (@choose_route_most_specific simple_http Demo.snapshot heap_empty
    (str "demo.local") (str "/api")
    {| rr_path := str "/api"; rr_path_type := Exact;
       rr_cluster := str "demo.local|/exact"; rr_priority := 3000004 |})
    as (host' & Hh & _ & Hm & _); [vm_compute; reflexivity|].
  eexists _, host'. split; [vm_compute; reflexivity|]. split; [reflexivity|]. split; [exact Hh|exact Hm].
Defined.

Lemma upper_case_cluster_unreachable_witness :
  Str.to_ascii_lowercase (str "demo.local|/Api") <> str "demo.local|/Api" /\
  get_cluster_rules (@new simple_http Demo.snapshot heap_empty).1 (str "demo.local|/Api") = None.
Proof.
  split; [vm_compute; discriminate|].
  apply upper_case_cluster_unreachable. vm_compute. discriminate.
Defined.
