(* ===== verification/Balancing.v ===== *)
(** What load balancing does: the counters of a table are its own, round robin
    serves the endpoints in turn, and least-connections picks an endpoint with
    the fewest requests in flight. *)

From stdpp Require Import base gmap list strings sorting.
From Stdlib Require Import ZArith NArith Lia.
From S2P Require Import Prelude RustStr Config Http Atomics RouteTable Routing.

Section balancing.
Context `{Http}.

(** ** Allocation of the counters *)

(** [h'] is [h] with zeroed counters allocated up to its next location. *)
Definition extends (h h' : heap) : Prop :=
  heap_next h <= heap_next h' /\
  (forall l, l < heap_next h -> heap_cells h' !! l = heap_cells h !! l) /\
  (forall l, heap_next h <= l < heap_next h' -> heap_cells h' !! l = Some 0%Z).

Lemma extends_refl h : extends h h.
Proof. split_and!; [done..|]. lia. Qed.

Lemma extends_trans h1 h2 h3 : extends h1 h2 -> extends h2 h3 -> extends h1 h3.
Proof.
  intros (Hn & Ho & Hz) (Hn' & Ho' & Hz'). split_and!; [lia| |].
  - intros l Hl. rewrite Ho' by lia. by apply Ho.
  - intros l Hl. destruct (decide (l < heap_next h2)); [|apply Hz'; lia].
    rewrite Ho' by done. apply Hz. lia.
Qed.

Lemma extends_new h : extends h (Atomic.new 0 h).2.
Proof.
  split_and!; simpl; [lia| |].
  - intros l Hl. rewrite lookup_insert_ne; [done|lia].
  - intros l Hl. replace l with (heap_next h) by lia. apply lookup_insert_eq.
Qed.

Lemma extends_wf h h' : Atomic.wf h -> extends h h' ->
  (forall l v, heap_cells h' !! l = Some v -> l < heap_next h') -> Atomic.wf h'.
Proof.
  intros Hwf (Hn & Ho & Hz) Hdom l v Hl. split; [by eapply Hdom|].
  destruct (decide (l < heap_next h)).
  - eapply Hwf. by rewrite <-Ho.
  - rewrite Hz in Hl; [|split; [lia|by eapply Hdom]]. simplify_eq. by split.
Qed.

(** The counter map of a cluster whose block of counters starts at [b]: the
    endpoint at index [i] owns location [b + i]. *)
Definition counters_at (b lo : nat) (eps : list Endpoint) (m : gmap EndpointKey loc) : Prop :=
  forall k l, m !! k = Some l <->
    exists e, eps !! (ek_index k - lo) = Some e /\ lo <= ek_index k /\
      k = from_endpoint (ek_index k) e /\ l = b + (ek_index k - lo).

Lemma build_map_go_spec lo eps acc h :
  (forall k l, acc !! k = Some l -> ek_index k < lo) ->
  let '(m, h') := build_map_go lo eps acc h in
  extends h h' /\ heap_next h' = heap_next h + length eps /\
  (forall k l, m !! k = Some l <->
     acc !! k = Some l \/
     exists e, eps !! (ek_index k - lo) = Some e /\ lo <= ek_index k /\
       k = from_endpoint (ek_index k) e /\ l = heap_next h + (ek_index k - lo)).
Proof.
  revert lo acc h. induction eps as [|e eps IH]; intros lo acc h Hacc; simpl.
  { split_and!; [apply extends_refl|lia|]. intros k l. rewrite lookup_nil. naive_solver. }
  unfold mbind, state_bind. cbn [Atomic.new].
  set (h1 := mk_heap _ _). set (acc' := <[_ := _]> acc).
  specialize (IH (S lo) acc' h1). destruct (build_map_go (S lo) eps acc' h1) as [m h'].
  destruct IH as (Hext & Hnext & Hm).
  { intros k l. unfold acc'. destruct (decide (from_endpoint lo e = k)) as [<-|Hne].
    - simpl. lia.
    - rewrite lookup_insert_ne by done. intros ?%Hacc. lia. }
  split_and!.
  - eapply extends_trans; [|exact Hext]. apply (extends_new h).
  - rewrite Hnext. simpl. lia.
  - intros k l. rewrite Hm. unfold acc'. simpl.
    destruct (decide (from_endpoint lo e = k)) as [<-|Hne].
    + rewrite lookup_insert_eq. simpl. rewrite Nat.sub_diag. simpl.
      assert (acc !! from_endpoint lo e = None) as ->.
      { destruct (acc !! _) eqn:E; [|done]. apply Hacc in E. simpl in E. lia. }
      split.
      * intros [[= <-]|(? & ? & ? & _)]; [|lia]. right. exists e. split_and!; try done; lia.
      * intros [?|(e' & ? & ? & ? & ->)]; [done|]. left. f_equal. lia.
    + rewrite lookup_insert_ne by done. split.
      * intros [?|(e' & He & ? & ? & ->)]; [by left|]. right. exists e'.
        replace (ek_index k - lo) with (S (ek_index k - S lo)) by lia. simpl.
        split_and!; try done; lia.
      * intros [?|(e' & He & ? & Hk & ->)]; [by left|]. right. exists e'.
        destruct (decide (ek_index k = lo)) as [Heq|?].
        { destruct Hne. rewrite Heq, Nat.sub_diag in He. simpl in He. injection He as ->.
          by rewrite Hk, Heq. }
        replace (ek_index k - lo) with (S (ek_index k - S lo)) in * by lia. simpl in He.
        split_and!; try done; lia.
Qed.

Lemma build_map_spec eps h :
  let '(m, h') := build_map eps h in
  extends h h' /\ heap_next h' = heap_next h + length eps /\
  counters_at (heap_next h) 0 eps m.
Proof.
  pose proof (build_map_go_spec 0 eps ∅ h) as Hs. unfold build_map.
  destruct (build_map_go 0 eps ∅ h) as [m h']. destruct Hs as (He & Hn & Hm); [by intros ??; rewrite lookup_empty|].
  split_and!; [done..|]. intros k l. rewrite Hm, lookup_empty. naive_solver.
Qed.

(** A cluster's block: one counter per endpoint, then the round-robin cursor. *)
Definition cluster_block (cr : ClusterRule) (b : nat) : Prop :=
  counters_at b 0 (cr_endpoints cr) (cr_least_conn_cursor cr) /\
  cr_rr_cursor cr = b + length (cr_endpoints cr).

(** The blocks of the clusters of [m] are disjoint and lie in [lo, hi). *)
Definition blocks_disjoint (lo hi : nat) (m : gmap rstr ClusterRule) : Prop :=
  exists base : rstr -> nat,
    (forall n cr, m !! n = Some cr ->
       cluster_block cr (base n) /\ lo <= base n /\ base n + length (cr_endpoints cr) < hi) /\
    (forall n1 n2 cr1 cr2, m !! n1 = Some cr1 -> m !! n2 = Some cr2 -> n1 <> n2 ->
       base n1 + length (cr_endpoints cr1) < base n2 \/
       base n2 + length (cr_endpoints cr2) < base n1).

Lemma blocks_disjoint_insert lo hi m n cr b hi' :
  blocks_disjoint lo hi m -> cluster_block cr b -> lo <= b -> hi <= b ->
  b + length (cr_endpoints cr) < hi' -> hi <= hi' ->
  blocks_disjoint lo hi' (<[n := cr]> m).
Proof.
  intros (base & Hb & Hd) Hcr Hlo Hhi Hlt Hle.
  exists (fun n' => if decide (n' = n) then b else base n'). split.
  - intros n' cr' Hn'. destruct (decide (n' = n)) as [->|Hne].
    + rewrite lookup_insert_eq in Hn'. by simplify_eq.
    + rewrite lookup_insert_ne in Hn' by done. destruct (Hb _ _ Hn') as (? & ? & ?).
      split_and!; [done|done|lia].
  - intros n1 n2 cr1 cr2 H1 H2 Hne.
    destruct (decide (n1 = n)) as [->|?], (decide (n2 = n)) as [->|?];
      rewrite ?lookup_insert_eq, ?lookup_insert_ne in H1 by done;
      rewrite ?lookup_insert_eq, ?lookup_insert_ne in H2 by done; simplify_eq.
    + destruct (Hb _ _ H2) as (_ & _ & ?). lia.
    + destruct (Hb _ _ H1) as (_ & _ & ?). lia.
    + by apply Hd.
Qed.

Lemma build_clusters_blocks cs m h lo :
  blocks_disjoint lo (heap_next h) m -> lo <= heap_next h ->
  let '(m', h') := build_clusters cs m h in
  extends h h' /\ blocks_disjoint lo (heap_next h') m'.
Proof.
  revert m h. induction cs as [|c cs IH]; intros m h Hm Hlo; simpl.
  { split; [apply extends_refl|done]. }
  destruct (LBPolicy_parse (cl_lb_policy c)) as [lb|]; [|by apply IH].
  unfold mbind, state_bind. pose proof (build_map_spec (cl_endpoints c) h) as Hbm.
  destruct (build_map (cl_endpoints c) h) as [counters h1]. destruct Hbm as (He & Hn & Hc).
  cbn [Atomic.new]. pose proof (extends_new h1) as He2. cbn in He2.
  match goal with |- context [build_clusters cs ?m' ?h'] => specialize (IH m' h') end.
  destruct (build_clusters cs _ _) as [m' h']. simpl in IH.
  destruct IH as [He3 Hd]; [|simpl; lia|].
  - eapply (blocks_disjoint_insert _ _ _ _ _ (heap_next h)); [exact Hm| |lia..| |]; simpl; [|lia|lia].
    split; [done|]. simpl. lia.
  - split; [|done]. eapply extends_trans; [exact He|]. eapply extends_trans; [exact He2|exact He3].
Qed.

Lemma new_blocks snap h :
  extends h (new snap h).2 /\
  blocks_disjoint (heap_next h) (heap_next (new snap h).2) (tb_clusters (new snap h).1).
Proof.
  pose proof (build_clusters_blocks (sn_clusters snap) ∅ h (heap_next h)) as Hb.
  unfold new, mbind, state_bind. destruct (build_clusters _ _ _) as [m h']. simpl.
  apply Hb; [|lia]. exists (fun _ => 0). split; [intros n cr Hn|intros n1 n2 cr1 cr2 Hn];
    by rewrite lookup_empty in Hn.
Qed.

Lemma build_map_go_wf lo eps acc h : Atomic.wf h -> Atomic.wf (build_map_go lo eps acc h).2.
Proof.
  revert lo acc h. induction eps as [|e eps IH]; intros lo acc h Hwf; [done|].
  apply IH. by apply (new_wf h 0).
Qed.

Lemma build_clusters_wf cs m h : Atomic.wf h -> Atomic.wf (build_clusters cs m h).2.
Proof.
  revert m h. induction cs as [|c cs IH]; intros m h Hwf; [done|]. simpl.
  destruct (LBPolicy_parse (cl_lb_policy c)) as [lb|]; [|by apply IH].
  unfold mbind, state_bind. pose proof (build_map_go_wf 0 (cl_endpoints c) ∅ h Hwf) as Hb.
  unfold build_map. destruct (build_map_go 0 _ ∅ h) as [counters h1]. simpl in *.
  apply IH. by apply (new_wf h1 0).
Qed.

Lemma new_heap_wf snap h : Atomic.wf h -> Atomic.wf (new snap h).2.
Proof.
  intros Hwf. pose proof (build_clusters_wf (sn_clusters snap) ∅ h Hwf) as Hb.
  unfold new, mbind, state_bind. by destruct (build_clusters _ _ _).
Qed.

(** ** Selection *)

Lemma counter_for_index_block cr b i e :
  cluster_block cr b -> cr_endpoints cr !! i = Some e -> counter_for_index cr i = Some (b + i).
Proof.
  intros [Hc _] Hi. unfold counter_for_index. rewrite Hi. apply Hc. exists e. simpl.
  rewrite Nat.sub_0_r. split_and!; [done|lia|done|done].
Qed.

Lemma round_robin_empty cr h : cr_endpoints cr = [] -> round_robin cr h = (None, h).
Proof. unfold round_robin. by intros ->. Qed.

(** The endpoint a cursor value designates. *)
Definition rr_select (cr : ClusterRule) (cursor : Z) : option SelectedEndpoint :=
  let idx := Z.to_nat (cursor mod Z.of_nat (length (cr_endpoints cr))) in
  endpoint ← cr_endpoints cr !! idx;
  Some {| se_endpoint := endpoint; se_counter := counter_for_index cr idx |}.

Lemma round_robin_eq cr h :
  cr_endpoints cr <> [] ->
  round_robin cr h =
  (rr_select cr (Atomic.read h (cr_rr_cursor cr)),
   Atomic.write (cr_rr_cursor cr) (Int.wrapping_add (Atomic.read h (cr_rr_cursor cr)) 1) h).
Proof. intros Hne. unfold round_robin. rewrite decide_False; [done|]. by destruct (cr_endpoints cr). Qed.

Lemma rr_select_total cr c :
  cr_endpoints cr <> [] ->
  exists i e, cr_endpoints cr !! i = Some e /\
    rr_select cr c = Some {| se_endpoint := e; se_counter := counter_for_index cr i |} /\
    i = Z.to_nat (c mod Z.of_nat (length (cr_endpoints cr))).
Proof.
  intros Hne. unfold rr_select.
  set (i := Z.to_nat (c mod Z.of_nat (length (cr_endpoints cr)))).
  assert (0 < length (cr_endpoints cr)) by (destruct (cr_endpoints cr); simpl; [done|lia]).
  destruct (lookup_lt_is_Some_2 (cr_endpoints cr) i) as [e He].
  { pose proof (Z.mod_pos_bound c (Z.of_nat (length (cr_endpoints cr)))). lia. }
  exists i, e. rewrite He. done.
Qed.

(** [n] consecutive requests to the cluster. *)
Fixpoint take_turns (n : nat) (cr : ClusterRule) : state heap (list (option SelectedEndpoint)) :=
  match n with
  | 0 => mret []
  | S n' => s ← round_robin cr; rest ← take_turns n' cr; mret (s :: rest)
  end.

(** The endpoints they were served by. *)
Definition served (n : nat) (cr : ClusterRule) (h : heap) : list (option Endpoint) :=
  map (option_map se_endpoint) (take_turns n cr h).1.

Definition turn (eps : list Endpoint) (j : nat) : option Endpoint := eps !! (j mod length eps).

Lemma rr_select_turn cr c :
  option_map se_endpoint (rr_select cr (Z.of_nat c)) = turn (cr_endpoints cr) c.
Proof.
  unfold rr_select, turn. rewrite <-Nat2Z.inj_mod, Nat2Z.id.
  by destruct (cr_endpoints cr !! _).
Qed.

Lemma take_turns_spec n cr h c :
  cr_endpoints cr <> [] -> Atomic.read h (cr_rr_cursor cr) = Z.of_nat c ->
  (Z.of_nat (c + n) <= Int.usize_modulus)%Z ->
  served n cr h = turn (cr_endpoints cr) <$> seq c n.
Proof.
  intros Hne. unfold served. revert h c. induction n as [|n IH]; intros h c Hc Hmax; [done|].
  simpl. unfold mbind, state_bind. rewrite round_robin_eq by done.
  destruct (decide (n = 0)) as [->|Hn].
  { simpl. by rewrite Hc, rr_select_turn. }
  match goal with |- context [take_turns n cr ?h'] => specialize (IH h' (S c)) end.
  destruct (take_turns n cr _) as [rest h'] eqn:E. simpl. f_equal.
  - by rewrite Hc, rr_select_turn.
  - apply IH; [|lia]. rewrite read_write_eq, Hc, Int.wrapping_add_small; lia.
Qed.

Lemma turn_round eps s : turn eps <$> seq s (length eps) ≡ₚ Some <$> eps.
Proof.
  induction s as [|s IH].
  - apply reflexive_eq, list_eq. intros i. rewrite !list_lookup_fmap.
    destruct (decide (i < length eps)) as [Hi|Hi].
    + rewrite lookup_seq_lt by done. simpl. unfold turn. rewrite Nat.mod_small by done.
      destruct (lookup_lt_is_Some_2 eps i Hi) as [e ->]. done.
    + rewrite lookup_seq_ge by lia. by rewrite lookup_ge_None_2 by lia.
  - rewrite <-IH. destruct (length eps) as [|n] eqn:El; [done|].
    rewrite seq_S, fmap_app. simpl. rewrite Permutation_app_comm. simpl.
    replace (turn eps (S (s + n))) with (turn eps s); [done|].
    unfold turn. rewrite El. replace (S (s + n)) with (s + 1 * S n) by lia.
    by rewrite Nat.Div0.mod_add.
Qed.

Lemma turn_rounds eps s k :
  turn eps <$> seq s (k * length eps) ≡ₚ Some <$> concat (replicate k eps).
Proof.
  revert s. induction k as [|k IH]; intros s; [done|]. simpl.
  by rewrite seq_app, !fmap_app, turn_round, IH.
Qed.

(** ** Least connections *)

(** [iter] lists the entries of the counter map in some order. *)
Definition iterates (iter : gmap EndpointKey loc -> list (EndpointKey * loc)) : Prop :=
  forall m, iter m ≡ₚ map_to_list m.

Lemma least_conn_spec iter cr b h :
  iterates iter -> cluster_block cr b -> cr_endpoints cr <> [] ->
  exists i e, cr_endpoints cr !! i = Some e /\
    least_conn iter cr h
      = (Some {| se_endpoint := e; se_counter := counter_for_index cr i |}, h) /\
    counter_for_index cr i = Some (b + i) /\
    forall j e', cr_endpoints cr !! j = Some e' -> (Atomic.read h (b + i) <= Atomic.read h (b + j))%Z.
Proof.
  intros Hiter Hb Hne. unfold least_conn.
  rewrite decide_False by (by destruct (cr_endpoints cr)).
  set (m := cr_least_conn_cursor cr).
  set (f := fun e : EndpointKey * loc => Atomic.read h e.2).
  assert (forall k l, (k, l) ∈ iter m <-> m !! k = Some l) as Hel.
  { intros k l. rewrite (Hiter m). apply elem_of_map_to_list. }
  assert (forall j e', cr_endpoints cr !! j = Some e' -> (from_endpoint j e', b + j) ∈ iter m) as Hall.
  { intros j e' Hj. apply Hel. pose proof (counter_for_index_block cr b j e' Hb Hj) as Hcj.
    unfold counter_for_index in Hcj. by rewrite Hj in Hcj. }
  destruct (Sort.first_min (Sort.by_key f) (iter m)) as [[k l]|] eqn:E.
  - apply Sort.first_min_Some in E as [Hin Hmin]; [|apply Sort.by_key_total].
    apply Hel, (proj1 Hb) in Hin as (e & He & _ & Hk & Hl). rewrite Nat.sub_0_r in He, Hl.
    exists (ek_index k), e. rewrite He. subst l.
    rewrite (counter_for_index_block cr b _ e Hb He). split_and!; [done..|].
    intros j e' Hj. rewrite Forall_forall in Hmin.
    apply (proj1 (Sort.le_key_min f (k, b + ek_index k) (from_endpoint j e', b + j))).
    by apply Hmin, Hall.
  - apply Sort.first_min_None in E. destruct (cr_endpoints cr) as [|e eps] eqn:Ee; [done|].
    specialize (Hall 0 e eq_refl). rewrite E in Hall. by apply not_elem_of_nil in Hall.
Qed.

End balancing.

(** ** Properties *)

Lemma new_cluster_block `{Http} snap h name cr :
  tb_clusters (new snap h).1 !! name = Some cr ->
  exists b, cluster_block cr b /\ heap_next h <= b /\
    b + length (cr_endpoints cr) < heap_next (new snap h).2.
Proof.
  intros Hcr. destruct (new_blocks snap h) as [_ (base & Hb & _)].
  exists (base name). by apply Hb.
Qed.

(** An endpoint's counter is never a round-robin cursor. *)
Lemma new_counter_not_cursor `{Http} snap h n cr i l n' cr' :
  tb_clusters (new snap h).1 !! n = Some cr -> counter_for_index cr i = Some l ->
  tb_clusters (new snap h).1 !! n' = Some cr' -> l <> cr_rr_cursor cr'.
Proof.
  intros Hn Hl Hn'. destruct (new_blocks snap h) as [_ (base & Hb & Hd)].
  destruct (Hb n cr Hn) as (Hblk & _), (Hb n' cr' Hn') as ([_ Hcur] & _).
  destruct (cr_endpoints cr !! i) as [e|] eqn:Ei.
  2: { unfold counter_for_index in Hl. by rewrite Ei in Hl. }
  rewrite (counter_for_index_block _ _ _ _ Hblk Ei) in Hl. injection Hl as <-.
  apply lookup_lt_Some in Ei. rewrite Hcur. destruct (decide (n = n')) as [<-|Hne].
  - simplify_eq. lia.
  - destruct (Hd n n' cr cr' Hn Hn' Hne); lia.
Qed.

(** C32. Building a table gives every endpoint of every cluster a counter of its
    own: it is freshly allocated and zero, two different endpoints never share
    one (also across clusters), and the counters of earlier tables, which
    requests in flight still hold, are left as they were. *)
Theorem new_counters_private `{Http} (snap : Snapshot) (h : heap) :
  let t := (new snap h).1 in
  let h' := (new snap h).2 in
  (forall n cr i e, tb_clusters t !! n = Some cr -> cr_endpoints cr !! i = Some e ->
     exists l, counter_for_index cr i = Some l /\ heap_next h <= l < heap_next h' /\
       Atomic.read h' l = 0%Z) /\
  (forall n1 n2 cr1 cr2 i1 i2 e1 e2 l,
     tb_clusters t !! n1 = Some cr1 -> tb_clusters t !! n2 = Some cr2 ->
     cr_endpoints cr1 !! i1 = Some e1 -> cr_endpoints cr2 !! i2 = Some e2 ->
     counter_for_index cr1 i1 = Some l -> counter_for_index cr2 i2 = Some l ->
     n1 = n2 /\ i1 = i2) /\
  (forall l, l < heap_next h -> Atomic.read h' l = Atomic.read h l).
Proof.
  simpl. destruct (new_blocks snap h) as [(_ & Hold & Hzero) (base & Hb & Hd)]. split_and!.
  - intros n cr i e Hn Hi. destruct (Hb n cr Hn) as (Hblk & Hlo & Hhi).
    apply lookup_lt_Some in Hi as Hlt. exists (base n + i).
    split_and!; [by eapply counter_for_index_block|lia|lia|].
    unfold Atomic.read. by rewrite Hzero by lia.
  - intros n1 n2 cr1 cr2 i1 i2 e1 e2 l Hn1 Hn2 Hi1 Hi2.
    destruct (Hb n1 cr1 Hn1) as (Hblk1 & _), (Hb n2 cr2 Hn2) as (Hblk2 & _).
    rewrite (counter_for_index_block _ _ _ _ Hblk1 Hi1).
    rewrite (counter_for_index_block _ _ _ _ Hblk2 Hi2). intros [= <-] [= Heq].
    apply lookup_lt_Some in Hi1, Hi2. destruct (decide (n1 = n2)) as [->|Hne].
    + split; [done|lia].
    + destruct (Hd n1 n2 cr1 cr2 Hn1 Hn2 Hne); lia.
  - intros l Hl. unfold Atomic.read. by rewrite Hold.
Qed.

(** C31. Round robin is fair: as long as the cursor does not wrap, any [k] full
    rounds of consecutive requests serve every endpoint exactly [k] times,
    wherever the cursor started. *)
Theorem round_robin_fair `{Http} (cr : ClusterRule) (h : heap) (c k : nat) :
  cr_endpoints cr <> [] ->
  Atomic.read h (cr_rr_cursor cr) = Z.of_nat c ->
  (Z.of_nat (c + k * length (cr_endpoints cr)) <= Int.usize_modulus)%Z ->
  served (k * length (cr_endpoints cr)) cr h ≡ₚ Some <$> concat (replicate k (cr_endpoints cr)).
Proof.
  intros Hne Hc Hmax. rewrite (take_turns_spec _ cr h c) by done. apply turn_rounds.
Qed.

(** Least-connections selects an endpoint whose in-flight counter is
    minimal among the cluster's endpoints, whatever order the counters are
    visited in, hands out that endpoint's own counter, and changes nothing. *)
Theorem least_conn_minimal `{Http} (snap : Snapshot) (h0 h : heap) (name : rstr)
    (cr : ClusterRule) iter :
  tb_clusters (new snap h0).1 !! name = Some cr ->
  cr_endpoints cr <> [] ->
  iterates iter ->
  exists i e l, cr_endpoints cr !! i = Some e /\
    least_conn iter cr h = (Some {| se_endpoint := e; se_counter := Some l |}, h) /\
    counter_for_index cr i = Some l /\
    forall j l', counter_for_index cr j = Some l' -> (Atomic.read h l <= Atomic.read h l')%Z.
Proof.
  intros Hcr Hne Hiter. destruct (new_cluster_block _ _ _ _ Hcr) as (b & Hblk & _).
  destruct (least_conn_spec iter cr b h Hiter Hblk Hne) as (i & e & He & Heq & Hci & Hmin).
  exists i, e, (b + i). rewrite Heq, Hci. split_and!; [done..|].
  intros j l' Hj. destruct (cr_endpoints cr !! j) as [e'|] eqn:Ej.
  - rewrite (counter_for_index_block cr b j e' Hblk Ej) in Hj. simplify_eq. by eapply Hmin.
  - unfold counter_for_index in Hj. by rewrite Ej in Hj.
Qed.

Lemma get_endpoint_cases `{Http} (snap : Snapshot) (h0 h : heap) (name : rstr) iter :
  iterates iter ->
  match tb_clusters (new snap h0).1 !! name with
  | None => get_endpoint iter (new snap h0).1 name h = (None, h)
  | Some cr =>
      if decide (cr_endpoints cr = []) then get_endpoint iter (new snap h0).1 name h = (None, h)
      else exists i e l, cr_endpoints cr !! i = Some e /\ counter_for_index cr i = Some l /\
             (get_endpoint iter (new snap h0).1 name h).1
             = Some {| se_endpoint := e; se_counter := Some l |}
  end.
Proof.
  intros Hiter. unfold get_endpoint.
  destruct (tb_clusters (new snap h0).1 !! name) as [cr|] eqn:Ecr; [|done].
  destruct (new_cluster_block _ _ _ _ Ecr) as (b & Hblk & _). case_decide as Hd.
  { destruct (cr_lb_policy cr); unfold least_conn, round_robin; by rewrite Hd. }
  destruct (cr_lb_policy cr).
  - rewrite round_robin_eq by done. simpl.
    destruct (rr_select_total cr (Atomic.read h (cr_rr_cursor cr)) Hd) as (i & e & He & Hs & _).
    exists i, e, (b + i). rewrite Hs, (counter_for_index_block _ _ _ _ Hblk He). done.
  - destruct (least_conn_spec iter cr b h Hiter Hblk Hd) as (i & e & He & Heq & Hci & _).
    exists i, e, (b + i). by rewrite Heq, Hci.
Qed.

(** On a table built from a snapshot, selecting an endpoint succeeds exactly
    when the cluster exists and has endpoints; the selected endpoint belongs to
    the cluster and always comes with its own counter, so every request in
    flight is counted. *)
Theorem get_endpoint_total `{Http} (snap : Snapshot) (h0 h : heap) (name : rstr) iter :
  iterates iter ->
  match tb_clusters (new snap h0).1 !! name with
  | None => get_endpoint iter (new snap h0).1 name h = (None, h)
  | Some cr =>
      if decide (cr_endpoints cr = []) then get_endpoint iter (new snap h0).1 name h = (None, h)
      else exists i e l, cr_endpoints cr !! i = Some e /\ counter_for_index cr i = Some l /\
             (get_endpoint iter (new snap h0).1 name h).1
             = Some {| se_endpoint := e; se_counter := Some l |}
  end.
Proof. apply get_endpoint_cases. Qed.

(** ** Witnesses *)

Definition demo_cluster : @ClusterRule simple_http :=
  default {| cr_name := []; cr_lb_policy := RoundRobin; cr_endpoints := []; cr_timeout_ms := 0;
             cr_retries := 0; cr_backend_protocol := H1; cr_request_headers := [];
             cr_backend_tls_insecure_skip_verify := false; cr_rr_cursor := 0;
             cr_least_conn_cursor := ∅; cr_auth := None |}
    (tb_clusters Demo.table !! str "demo.local|/api").

Lemma round_robin_fair_witness :
  served (3 * length (cr_endpoints demo_cluster)) demo_cluster Demo.heap0
    ≡ₚ Some <$> concat (replicate 3 (cr_endpoints demo_cluster)).
Proof.
  apply (round_robin_fair demo_cluster Demo.heap0 0 3).
  - vm_compute. discriminate.
  - vm_compute. reflexivity.
  - vm_compute. discriminate.
Defined.

Lemma least_conn_minimal_witness :
  exists i e l, cr_endpoints demo_cluster !! i = Some e /\
    least_conn map_to_list demo_cluster Demo.heap0
      = (Some {| se_endpoint := e; se_counter := Some l |}, Demo.heap0) /\
    counter_for_index demo_cluster i = Some l /\
    forall j l', counter_for_index demo_cluster j = Some l' ->
      (Atomic.read Demo.heap0 l <= Atomic.read Demo.heap0 l')%Z.
Proof.
  apply (@least_conn_minimal simple_http Demo.snapshot heap_empty Demo.heap0
    (str "demo.local|/api") demo_cluster map_to_list).
  - vm_compute. reflexivity.
  - vm_compute. discriminate.
  - intros m. reflexivity.
Defined.

Lemma get_endpoint_total_witness :
  exists i e l, cr_endpoints demo_cluster !! i = Some e /\
    counter_for_index demo_cluster i = Some l /\
    (get_endpoint map_to_list (@new simple_http Demo.snapshot heap_empty).1
       (str "demo.local|/api") Demo.heap0).1
    = Some {| se_endpoint := e; se_counter := Some l |}.
Proof.
  assert (Hi : iterates map_to_list) by (intros m; reflexivity).
  pose proof (@get_endpoint_total simple_http Demo.snapshot heap_empty Demo.heap0
    (str "demo.local|/api") map_to_list Hi) as Hw.
  replace (tb_clusters (@new simple_http Demo.snapshot heap_empty).1 !! str "demo.local|/api")
    with (Some demo_cluster) in Hw by (vm_compute; reflexivity).
  destruct (decide (cr_endpoints demo_cluster = [])) as [Hbad|_] in Hw.
  - vm_compute in Hbad. discriminate Hbad.
  - exact Hw.
Defined.
