(* ===== verification/Signin.v ===== *)
(** The sign-in redirect of the external-auth flow: [percent_encode] and
    [build_signin_location] of src/images/dataplane/src/proxy.rs. *)

From stdpp Require Import base gmap list strings.
From Stdlib Require Import ZArith NArith Lia ZifyBool ZifyN.
From S2P Require Import Prelude RustStr Http.

(** ** Model *)

Definition UNRESERVED : list N :=
  str "ABCDEFGHIJKLMNOPQRSTUVWXYZabcdefghijklmnopqrstuvwxyz0123456789-._~".

Definition is_unreserved (b : N) : bool := existsb (N.eqb b) UNRESERVED.

(** One upper-case hexadecimal digit. *)
Definition hex_digit (d : N) : N := (if d <? 10 then 48 + d else 55 + d)%N.

(** [format!("{:02X}", b)] *)
Definition hex2 (b : N) : rstr := [hex_digit (b / 16); hex_digit (b mod 16)]%N.

Definition encode_byte (b : N) : rstr :=
  if is_unreserved b then [b] else 37%N :: hex2 b.

Definition percent_encode (input : rstr) : rstr := flat_map encode_byte (Str.as_bytes input).

Definition scheme_str (frontend_is_tls : bool) : rstr :=
  if frontend_is_tls then str "https" else str "http".

Definition path_q_of `{Http} (uri : Uri) : rstr :=
  match uri_path_and_query uri with Some pq => pq_as_str pq | None => str "/" end.

Definition build_signin_location `{Http} (signin_tmpl host : rstr) (uri : Uri)
    (frontend_is_tls : bool) : rstr :=
  let scheme := scheme_str frontend_is_tls in
  let path_q := path_q_of uri in
  let escaped := percent_encode path_q in
  let out := Str.replace signin_tmpl (str "$host") host in
  let out := Str.replace out (str "$escaped_request_uri") escaped in
  let out := Str.replace out (str "$scheme") scheme in
  out.

(** ** Percent-encoding *)

#[local] Ltac Zify.zify_post_hook ::= Z.div_mod_to_equations.

(** The reference decoder. *)
Definition unhex (c : N) : option N :=
  (if (48 <=? c) && (c <=? 57) then Some (c - 48)
   else if (65 <=? c) && (c <=? 70) then Some (c - 55) else None)%N.

Fixpoint percent_decode (s : rstr) : option (list N) :=
  match s with
  | [] => Some []
  | 37%N :: a :: b :: s' =>
      x ← unhex a; y ← unhex b; r ← percent_decode s'; Some ((x * 16 + y)%N :: r)
  | 37%N :: _ => None
  | c :: s' => r ← percent_decode s'; Some (c :: r)
  end.

Lemma unhex_hex_digit d : (d < 16)%N -> unhex (hex_digit d) = Some d.
Proof.
  intros Hd. unfold unhex, hex_digit. destruct (N.ltb_spec d 10).
  - replace ((48 <=? 48 + d) && (48 + d <=? 57))%N with true by lia. f_equal. lia.
  - replace ((48 <=? 55 + d) && (55 + d <=? 57))%N with false by lia.
    replace ((65 <=? 55 + d) && (55 + d <=? 70))%N with true by lia. f_equal. lia.
Qed.

Lemma is_unreserved_spec b : is_unreserved b = true <-> b ∈ UNRESERVED.
Proof.
  unfold is_unreserved. rewrite existsb_exists, list_elem_of_In. split.
  - intros (x & Hx & Heq%N.eqb_eq). by subst.
  - intros Hb. exists b. split; [done|apply N.eqb_refl].
Qed.

Lemma unreserved_not_percent b : is_unreserved b = true -> b <> 37%N.
Proof. by intros Hb ->. Qed.

Lemma percent_decode_plain c s :
  c <> 37%N -> percent_decode (c :: s) = (r ← percent_decode s; Some (c :: r)).
Proof. intros Hc. simpl. destruct c as [|p]; [done|]. do 6 (destruct p as [p|p|]; try done). Qed.

Lemma percent_decode_escape x y s :
  percent_decode (37%N :: x :: y :: s)
  = (a ← unhex x; b ← unhex y; r ← percent_decode s; Some ((a * 16 + b)%N :: r)).
Proof. done. Qed.

Lemma percent_decode_encode_byte b s :
  (b < 256)%N -> percent_decode (encode_byte b ++ s) = (r ← percent_decode s; Some (b :: r)).
Proof.
  intros Hb. unfold encode_byte. destruct (is_unreserved b) eqn:Eb.
  - apply percent_decode_plain. by apply unreserved_not_percent.
  - unfold hex2. cbn [app]. rewrite percent_decode_escape.
    rewrite !unhex_hex_digit by lia.
    cbn. by replace (b / 16 * 16 + b mod 16)%N with b by lia.
Qed.

(** *** UTF-8 *)

Definition is_scalar (c : N) : Prop := (c < 1114112)%N.

Lemma char_bytes_range c : is_scalar c -> Forall (fun b => b < 256)%N (Str.char_bytes c).
Proof.
  unfold is_scalar, Str.char_bytes. intros Hc.
  repeat case_match; repeat constructor; lia.
Qed.

Lemma char_bytes_prefix_inj c1 c2 s1 s2 :
  is_scalar c1 -> is_scalar c2 ->
  Str.char_bytes c1 ++ s1 = Str.char_bytes c2 ++ s2 -> c1 = c2 /\ s1 = s2.
Proof.
  unfold is_scalar, Str.char_bytes. intros H1 H2.
  destruct (N.ltb_spec c1 128), (N.ltb_spec c2 128);
    try destruct (N.ltb_spec c1 2048); try destruct (N.ltb_spec c2 2048);
    try destruct (N.ltb_spec c1 65536); try destruct (N.ltb_spec c2 65536);
    cbn [app]; intros Heq; simplify_eq; try lia; split; try done; lia.
Qed.

Lemma as_bytes_range s : Forall is_scalar s -> Forall (fun b => b < 256)%N (Str.as_bytes s).
Proof.
  unfold Str.as_bytes. induction 1 as [|c s Hc Hs IH]; simpl; [constructor|].
  apply Forall_app. split; [by apply char_bytes_range|done].
Qed.

Lemma as_bytes_inj s1 s2 :
  Forall is_scalar s1 -> Forall is_scalar s2 -> Str.as_bytes s1 = Str.as_bytes s2 -> s1 = s2.
Proof.
  intros Hs1. revert s2. induction Hs1 as [|c1 s1 H1 Hs1 IH]; intros s2 Hs2 Heq.
  - destruct s2 as [|c2 s2]; [done|]. exfalso. revert Heq. unfold Str.as_bytes. simpl.
    unfold Str.char_bytes. repeat case_match; done.
  - destruct Hs2 as [|c2 s2 H2 Hs2].
    { exfalso. revert Heq. unfold Str.as_bytes. simpl. unfold Str.char_bytes. repeat case_match; done. }
    apply char_bytes_prefix_inj in Heq as [-> Heq]; [|done..]. f_equal. by apply IH.
Qed.

Lemma percent_decode_encode s :
  Forall is_scalar s -> percent_decode (percent_encode s) = Some (Str.as_bytes s).
Proof.
  intros Hs%as_bytes_range. unfold percent_encode.
  induction Hs as [|b bs Hb Hbs IH]; [done|]. cbn [flat_map].
  by rewrite percent_decode_encode_byte, IH.
Qed.

Lemma hex_digit_unreserved d : (d < 16)%N -> is_unreserved (hex_digit d) = true.
Proof.
  intros Hd. assert (forallb (fun n => is_unreserved (hex_digit (N.of_nat n))) (seq 0 16) = true)
    as Hall by done.
  rewrite forallb_forall in Hall. rewrite <-(N2Nat.id d). apply Hall, in_seq. lia.
Qed.

Lemma encode_byte_alphabet b c : c ∈ encode_byte b -> c = 37%N \/ is_unreserved c = true \/ (255 < b)%N.
Proof.
  unfold encode_byte. destruct (is_unreserved b) eqn:Eb.
  - intros ->%list_elem_of_singleton. auto.
  - destruct (decide (255 < b)%N); [auto|].
    intros [->|Hc]%elem_of_cons; [auto|]. right; left.
    assert (exists d, (d < 16)%N /\ c = hex_digit d) as (d & Hd & ->).
    { apply elem_of_cons in Hc as [->|Hc]; [exists (b / 16)%N; split; [lia|done]|].
      apply list_elem_of_singleton in Hc as ->. exists (b mod 16)%N. split; [lia|done]. }
    by apply hex_digit_unreserved.
Qed.

Lemma percent_encode_alphabet s c :
  Forall is_scalar s -> c ∈ percent_encode s -> c = 37%N \/ is_unreserved c = true.
Proof.
  intros Hs%as_bytes_range. unfold percent_encode. rewrite list_elem_of_In, in_flat_map.
  intros (b & Hb & Hc). rewrite <-list_elem_of_In in Hb, Hc. rewrite Forall_forall in Hs.
  specialize (Hs b Hb). destruct (encode_byte_alphabet b c Hc) as [?|[?|?]]; [by left|by right|lia].
Qed.

(** ** The sign-in template *)

(** A template as its author means it: literal text without dollar signs, and
    the three documented variables. *)
Inductive signin_var := VHost | VEscapedUri | VScheme.
Inductive piece := Lit (t : rstr) | Var (v : signin_var).

#[global] Instance signin_var_eq_dec : EqDecision signin_var.
Proof. solve_decision. Defined.

Definition var_name (v : signin_var) : rstr :=
  match v with
  | VHost => str "host"
  | VEscapedUri => str "escaped_request_uri"
  | VScheme => str "scheme"
  end.

Definition dollar : N := 36.

(** The template's text, and what it stands for under an assignment. *)
Definition show_piece (p : piece) : rstr :=
  match p with Lit t => t | Var v => dollar :: var_name v end.
Definition show_template (ps : list piece) : rstr := flat_map show_piece ps.

Definition render_piece (env : signin_var -> rstr) (p : piece) : rstr :=
  match p with Lit t => t | Var v => env v end.
Definition render (env : signin_var -> rstr) (ps : list piece) : rstr :=
  flat_map (render_piece env) ps.

Definition literal_ok (p : piece) : Prop :=
  match p with Lit t => dollar ∉ t | Var _ => True end.

(** Substituting one variable by text. *)
Definition subst_piece (v : signin_var) (text : rstr) (p : piece) : piece :=
  match p with
  | Lit t => Lit t
  | Var v' => if decide (v' = v) then Lit text else Var v'
  end.

Section replace.
Context (b by_ : rstr).

Lemma replace_go_skip t s k :
  Str.replace_go (dollar :: b) by_ (length t + k) (t ++ s) = Str.replace_go (dollar :: b) by_ k s.
Proof. induction t as [|c t IH]; [done|]. apply IH. Qed.

Lemma replace_go_text t s :
  dollar ∉ t ->
  Str.replace_go (dollar :: b) by_ 0 (t ++ s) = t ++ Str.replace_go (dollar :: b) by_ 0 s.
Proof.
  induction t as [|c t IH]; intros Hd; [done|]. rewrite not_elem_of_cons in Hd.
  cbn [app Str.replace_go]. rewrite starts_with_head_ne by tauto. f_equal. apply IH. tauto.
Qed.

Lemma replace_go_hit s :
  Str.replace_go (dollar :: b) by_ 0 ((dollar :: b) ++ s) = by_ ++ Str.replace_go (dollar :: b) by_ 0 s.
Proof.
  pose proof (starts_with_app (dollar :: b) s) as Hs. cbn [app] in Hs.
  cbn [app Str.replace_go]. rewrite Hs. f_equal.
  cbn [length Nat.pred]. rewrite <-(Nat.add_0_r (length b)). apply replace_go_skip.
Qed.

Lemma replace_go_miss n s :
  dollar ∉ n -> (forall k, Str.starts_with (n ++ k) b = false) ->
  Str.replace_go (dollar :: b) by_ 0 ((dollar :: n) ++ s)
  = (dollar :: n) ++ Str.replace_go (dollar :: b) by_ 0 s.
Proof.
  intros Hd Hn. cbn [app Str.replace_go].
  replace (Str.starts_with (dollar :: n ++ s) (dollar :: b)) with false
    by (simpl; by rewrite Hn).
  f_equal. by apply replace_go_text.
Qed.

End replace.

Lemma var_name_no_dollar v : dollar ∉ var_name v.
Proof. destruct v; decide_compute. Qed.

Lemma var_name_distinct v v' k : v' <> v -> Str.starts_with (var_name v' ++ k) (var_name v) = false.
Proof. by destruct v, v'. Qed.

Lemma replace_template v text ps :
  Forall literal_ok ps ->
  Str.replace (show_template ps) (dollar :: var_name v) text
  = show_template (subst_piece v text <$> ps).
Proof.
  unfold Str.replace, show_template. induction 1 as [|p ps Hp Hps IH]; [done|].
  rewrite fmap_cons. cbn [flat_map]. rewrite <-IH.
  destruct p as [t|v']; cbn [subst_piece]; [by apply replace_go_text|].
  case_decide as Hd; subst; [apply replace_go_hit|].
  apply (replace_go_miss (var_name v) text (var_name v')).
  - apply var_name_no_dollar.
  - intros k. by apply var_name_distinct.
Qed.

Lemma subst_literal_ok v text ps :
  dollar ∉ text -> Forall literal_ok ps -> Forall literal_ok (subst_piece v text <$> ps).
Proof.
  intros Ht Hps. rewrite Forall_fmap. eapply Forall_impl; [exact Hps|].
  intros [t|v'] Hp; simpl; [done|]. by case_decide.
Qed.

Lemma percent_encode_no_dollar s : dollar ∉ percent_encode s.
Proof.
  unfold percent_encode. rewrite list_elem_of_In, in_flat_map. intros (b & _ & Hc).
  rewrite <-list_elem_of_In in Hc. unfold encode_byte in Hc. destruct (is_unreserved b) eqn:Eb.
  - apply list_elem_of_singleton in Hc as <-. done.
  - unfold hex2, hex_digit, dollar in Hc. rewrite !elem_of_cons in Hc.
    destruct Hc as [?|[Hc|[Hc|Hc]]]; [done|destruct (_ <? _)%N; lia..|by apply not_elem_of_nil in Hc].
Qed.

Lemma scheme_str_no_dollar tls : dollar ∉ scheme_str tls.
Proof. destruct tls; decide_compute. Qed.

(** ** Properties *)

(** The values the documentation gives to the template variables. *)
Definition signin_env `{Http} (host : rstr) (uri : Uri) (tls : bool) (v : signin_var) : rstr :=
  match v with
  | VHost => host
  | VEscapedUri => percent_encode (path_q_of uri)
  | VScheme => scheme_str tls
  end.

(** C37. Percent-encoding loses nothing: decoding the encoded text gives back the
    UTF-8 bytes of the input, different inputs have different encodings, and
    the encoded text consists of unreserved characters and percent signs
    only, so it can stand in a query parameter. *)
Theorem percent_encode_roundtrip (s : rstr) :
  Forall is_scalar s ->
  percent_decode (percent_encode s) = Some (Str.as_bytes s) /\
  (forall s', Forall is_scalar s' -> percent_encode s' = percent_encode s -> s' = s) /\
  (forall c, c ∈ percent_encode s -> c = 37%N \/ is_unreserved c = true).
Proof.
  intros Hs. split_and!.
  - by apply percent_decode_encode.
  - intros s' Hs' Heq. apply as_bytes_inj; [done..|].
    apply (inj Some). by rewrite <-!percent_decode_encode, Heq.
  - intros c. by apply percent_encode_alphabet.
Qed.

(** The three successive textual replacements render a template exactly as
    one simultaneous substitution of the documented variables would, for any
    template whose dollar signs all start a variable and any host without a
    dollar sign. *)
Theorem signin_location_renders `{Http} (ps : list piece) (host : rstr) (uri : Uri) (tls : bool) :
  Forall literal_ok ps -> dollar ∉ host ->
  build_signin_location (show_template ps) host uri tls
  = render (signin_env host uri tls) ps.
Proof.
  intros Hps Hh. unfold build_signin_location.
  rewrite (replace_template VHost) by done.
  rewrite (replace_template VEscapedUri) by by apply subst_literal_ok.
  rewrite (replace_template VScheme)
    by (apply subst_literal_ok; [apply percent_encode_no_dollar|by apply subst_literal_ok]).
  unfold show_template, render. clear Hps.
  induction ps as [|p ps IH]; [done|]. rewrite !fmap_cons. cbn [flat_map]. rewrite IH.
  by destruct p as [t|[]].
Qed.

(** Without the hypothesis on the host the substitutions interfere: a host that
    spells a variable is expanded a second time. *)
Theorem signin_host_expanded_again :
  @build_signin_location simple_http (show_template [Lit (str "http://"); Var VHost; Lit (str "/")])
    (str "$scheme") (mk_parts None None (Some (str "/"))) true
  = str "http://https/".
Proof. vm_compute. reflexivity. Qed.

Lemma percent_encode_roundtrip_witness :
  percent_encode (str "/a b?x=1") = str "%2Fa%20b%3Fx%3D1" /\
  percent_decode (percent_encode (str "/a b?x=1")) = Some (Str.as_bytes (str "/a b?x=1")).
Proof.
  split; [vm_compute; reflexivity|].
  apply (percent_encode_roundtrip (str "/a b?x=1")).
  repeat (constructor; [reflexivity|]). constructor.
Defined.

Lemma signin_location_renders_witness :
  @build_signin_location simple_http (str "http://$host/oauth2/start?rd=$escaped_request_uri")
    (str "echo.local") (mk_parts None None (Some (str "/a?b"))) false
  = str "http://echo.local/oauth2/start?rd=%2Fa%3Fb".
Proof.
  change (str "http://$host/oauth2/start?rd=$escaped_request_uri")
    with (show_template [Lit (str "http://"); Var VHost; Lit (str "/oauth2/start?rd="); Var VEscapedUri]).
  rewrite signin_location_renders.
  - vm_compute. reflexivity.
  - repeat (constructor; [first [exact I | decide_compute]|]).
    constructor.
  - decide_compute.
Defined.
