(* ===== verification/Proxy.v ===== *)
(** The request path: src/images/dataplane/src/proxy.rs. One request is
    handled by [proxy_handler]: find its host, route, cluster and endpoint,
    ask the external auth service if the cluster has one, rewrite the request
    for the endpoint, send it (with retries), and pass the response back.

    The code runs in a [World]: the store of shared counters and the log of
    the requests sent over the network. What the network answers is a
    parameter ([Network]); it may depend on everything sent before. *)

From stdpp Require Import base gmap list strings.
From Stdlib Require Import ZArith NArith Lia.
From S2P Require Import Prelude RustStr Config Http Atomics RouteTable Signin.

(** ** Requests, responses, effects *)

Section types.
Context `{Http}.

(** [BoxBody<Bytes, hyper::Error>]: a body received from a peer, or bytes made
    here ([Full]). *)
Inductive BoxBody :=
  | BodyIncoming (b : Incoming)
  | BodyFull (bytes : list N).

Record Request (B : Type) := mk_request {
  rq_method : Method;
  rq_uri : Uri;
  rq_version : Version;
  rq_headers : HeaderMap;
  rq_body : B;
  (** the [FrontendTls] extension the listener attaches *)
  rq_frontend_tls : option bool;
}.

Record Response (B : Type) := mk_response {
  rs_status : StatusCode;
  rs_version : Version;
  rs_headers : HeaderMap;
  rs_body : B;
}.

(** The two clients of the pool: [connector] verifies certificates,
    [connector_insecure] does not. *)
Inductive ClientKind := Connector | ConnectorInsecure.

Inductive UpstreamOutcome :=
  | UpOk (resp : Response Incoming)
  | UpErr (e : ClientError)
  | UpTimeout (e : Elapsed).

Inductive event :=
  | EvAuth (client : ClientKind) (req : Request BoxBody)
  | EvUpstream (client : ClientKind) (timeout_ms : Z) (req : Request BoxBody).

Record World := mk_world { w_heap : heap; w_log : list event }.

(** What the peers answer, given everything sent so far. *)
Record Network := {
  auth_net : list event -> ClientKind -> Request BoxBody -> Response Incoming + ClientError;
  upstream_net : list event -> ClientKind -> Z -> Request BoxBody -> UpstreamOutcome;
}.

End types.

Arguments mk_request {_ _} _ _ _ _ _ _.
Arguments rq_method {_ _} _.
Arguments rq_uri {_ _} _.
Arguments rq_version {_ _} _.
Arguments rq_headers {_ _} _.
Arguments rq_body {_ _} _.
Arguments rq_frontend_tls {_ _} _.
Arguments mk_response {_ _} _ _ _ _.
Arguments rs_status {_ _} _.
Arguments rs_version {_ _} _.
Arguments rs_headers {_ _} _.
Arguments rs_body {_ _} _.

(** [match e { Ok(x) => x, Err(resp) => return Ok(resp) }] *)
Notation "'let?' x ':=' e 'in' k" :=
  (match e with inl x => k | inr resp => mret resp end)
  (at level 10, x name, e at level 100, k at level 200) : argon_scope.

Section proxy.
Context `{Http}.

Definition set_headers {B} (r : Request B) (h : HeaderMap) : Request B :=
  mk_request (rq_method r) (rq_uri r) (rq_version r) h (rq_body r) (rq_frontend_tls r).
Definition set_uri {B} (r : Request B) (u : Uri) : Request B :=
  mk_request (rq_method r) u (rq_version r) (rq_headers r) (rq_body r) (rq_frontend_tls r).
Definition set_version {B} (r : Request B) (v : Version) : Request B :=
  mk_request (rq_method r) (rq_uri r) v (rq_headers r) (rq_body r) (rq_frontend_tls r).
Definition map_body {B C} (f : B -> C) (r : Request B) : Request C :=
  mk_request (rq_method r) (rq_uri r) (rq_version r) (rq_headers r) (f (rq_body r)) (rq_frontend_tls r).

(** Counter operations and network requests as effects on the world. *)
Definition on_heap {A} (m : state heap A) : state World A := fun w =>
  let '(x, h') := m (w_heap w) in (x, mk_world h' (w_log w)).

Definition send_auth (net : Network) (client : ClientKind) (req : Request BoxBody)
    : state World (Response Incoming + ClientError) := fun w =>
  (auth_net net (w_log w) client req, mk_world (w_heap w) (w_log w ++ [EvAuth client req])).

(** [client.request(request).timeout(timeout)] *)
Definition send_upstream (net : Network) (client : ClientKind) (timeout_ms : Z)
    (req : Request BoxBody) : state World UpstreamOutcome := fun w =>
  (upstream_net net (w_log w) client timeout_ms req,
   mk_world (w_heap w) (w_log w ++ [EvUpstream client timeout_ms req])).

(** ** Header names *)

Definition CONNECTION := hn_from_static (str "connection").
Definition PROXY_AUTHENTICATE := hn_from_static (str "proxy-authenticate").
Definition PROXY_AUTHORIZATION := hn_from_static (str "proxy-authorization").
Definition TE := hn_from_static (str "te").
Definition TRAILER := hn_from_static (str "trailer").
Definition TRANSFER_ENCODING := hn_from_static (str "transfer-encoding").
Definition UPGRADE := hn_from_static (str "upgrade").
Definition PROXY_CONNECTION := hn_from_static (str "proxy-connection").
Definition KEEP_ALIVE := hn_from_static (str "keep-alive").
Definition COOKIE := hn_from_static (str "cookie").
Definition AUTHORIZATION := hn_from_static (str "authorization").
Definition LOCATION := hn_from_static (str "location").
Definition CONTENT_TYPE := hn_from_static (str "content-type").
Definition HOST := hn_from_static (str "host").
Definition X_FORWARDED_PROTO := hn_from_static (str "x-forwarded-proto").
Definition X_FORWARDED_HOST := hn_from_static (str "x-forwarded-host").
Definition X_FORWARDED_URI := hn_from_static (str "x-forwarded-uri").
Definition X_ORIGINAL_URI := hn_from_static (str "x-original-uri").
Definition X_AUTH_REQUEST_REDIRECT := hn_from_static (str "x-auth-request-redirect").

Definition HOP_HEADERS_REF : list HeaderName :=
  [CONNECTION; PROXY_AUTHENTICATE; PROXY_AUTHORIZATION; TE; TRAILER; TRANSFER_ENCODING;
   UPGRADE; PROXY_CONNECTION; KEEP_ALIVE].

(** ** Responses made by the proxy *)

Definition text (status : StatusCode) (s : rstr) : Response BoxBody :=
  mk_response status HTTP_11
    (hm_append hm_new CONTENT_TYPE (hv_from_static (str "text/plain; charset=utf-8")))
    (BodyFull (Str.as_bytes s)).

Definition redirect (status : StatusCode) (location : rstr) : Response BoxBody :=
  let headers := match hv_from_str location with
                 | Some loc => hm_insert hm_new LOCATION loc
                 | None => hm_new
                 end in
  mk_response status HTTP_11 headers (BodyFull (Str.as_bytes (str "redirect"))).

(** ** Headers *)

Definition remove_hop_headers (headers : HeaderMap) : HeaderMap :=
  fold_left hm_remove HOP_HEADERS_REF headers.

(** [if let Ok(v) = HeaderValue::from_str(s) { headers.insert(name, v); }] *)
Definition insert_str (headers : HeaderMap) (name : HeaderName) (s : rstr) : HeaderMap :=
  match hv_from_str s with
  | Some v => hm_insert headers name v
  | None => headers
  end.

Definition add_forward_headers (h : HeaderMap) (frontend_is_tls : bool) (original_host : rstr)
    : HeaderMap :=
  let h := hm_insert h X_FORWARDED_PROTO (hv_from_static (scheme_str frontend_is_tls)) in
  if negb (hm_contains_key h X_FORWARDED_HOST)
  then insert_str h X_FORWARDED_HOST original_host
  else h.

(** One iteration of [apply_header_rewrites]. *)
Definition apply_header_rewrite (headers : HeaderMap) (rule : HeaderRewriteRule) : HeaderMap :=
  match hw_mode rule with
  | Remove => hm_remove headers (hw_name rule)
  | Set_ | Append =>
      match hw_value rule with
      | None => headers
      | Some value =>
          match hv_from_str value with
          | Some header_value =>
              match hw_mode rule with
              | Set_ => hm_insert headers (hw_name rule) header_value
              | _ => hm_append headers (hw_name rule) header_value
              end
          | None => headers
          end
      end
  end.

Definition apply_header_rewrites (headers : HeaderMap) (rewrites : list HeaderRewriteRule)
    : HeaderMap :=
  fold_left apply_header_rewrite rewrites headers.

(** ** Host, route, cluster, endpoint *)

Definition extract_host (req : Request Incoming) : rstr + Response BoxBody :=
  match hm_get (rq_headers req) HOST with
  | Some h =>
      match hv_to_str h with
      | Some s =>
          if negb (Str.is_empty s) then
            match authority_from_str (Str.trim s) with
            | Some a => inl (Str.trim_end_matches 46 (Str.to_ascii_lowercase (authority_host a)))
            | None => inr (text 400 (str "Invalid Host header"))
            end
          else inr (text 400 (str "Invalid Host header"))
      | None => inr (text 400 (str "Invalid Host header"))
      end
  | None =>
      match uri_host (rq_uri req) with
      | Some h => inl h
      | None => inr (text 400 (str "Missing Host"))
      end
  end.

Definition resolve_route (t : RouteTable) (host path : rstr) : RouteRule + Response BoxBody :=
  match choose_route t host path with
  | Some rule => inl rule
  | None => inr (text 404 (str "route not found"))
  end.

Definition resolve_cluster (t : RouteTable) (rule : RouteRule) : ClusterRule + Response BoxBody :=
  match get_cluster_rules t (rr_cluster rule) with
  | Some cluster => inl cluster
  | None => inr (text 404 (str "cluster rules not found"))
  end.

Definition resolve_endpoint (iter : gmap EndpointKey loc -> list (EndpointKey * loc))
    (t : RouteTable) (rule : RouteRule) : state heap (SelectedEndpoint + Response BoxBody) :=
  e ← get_endpoint iter t (rr_cluster rule);
  mret match e with
       | Some endpoint => inl endpoint
       | None => inr (text 502 (str "endpoint not found"))
       end.

(** ** The in-flight counter guard *)

Definition guard_new (counter : option loc) : state heap unit :=
  match counter with
  | Some c => _ ← Atomic.fetch_add c 1; mret tt
  | None => mret tt
  end.

Definition guard_drop (counter : option loc) : state heap unit :=
  match counter with
  | Some c => _ ← Atomic.fetch_sub c 1; mret tt
  | None => mret tt
  end.

(** The guard lives until the end of the function, whatever path leaves it. *)
Definition with_guard {A} (counter : option loc) (body : state World A) : state World A :=
  _ ← on_heap (guard_new counter);
  r ← body;
  _ ← on_heap (guard_drop counter);
  mret r.

(** ** External auth *)

Definition is_success (status : StatusCode) : bool := (200 <=? status)%Z && (status <=? 299)%Z.

Definition client_for (insecure_skip_verify : bool) : ClientKind :=
  if insecure_skip_verify then ConnectorInsecure else Connector.

(** Copy the first value of a header from one map to another, if present. *)
Definition copy_header (from to : HeaderMap) (name : HeaderName) : HeaderMap :=
  match hm_get from name with
  | Some v => hm_insert to name v
  | None => to
  end.

Definition build_auth_request (original_req : Request Incoming) (auth_uri : Uri)
    (original_host : rstr) (frontend_is_tls : bool) : Request BoxBody :=
  let headers := hm_new in
  let headers := copy_header (rq_headers original_req) headers COOKIE in
  let headers := copy_header (rq_headers original_req) headers AUTHORIZATION in
  let scheme := scheme_str frontend_is_tls in
  let path_q := path_q_of (rq_uri original_req) in
  let redirect_url := scheme ++ str "://" ++ original_host ++ path_q in
  let headers := hm_insert headers X_FORWARDED_PROTO (hv_from_static scheme) in
  let headers := insert_str headers X_FORWARDED_HOST original_host in
  let headers := insert_str headers X_FORWARDED_URI path_q in
  let headers := insert_str headers X_ORIGINAL_URI path_q in
  let headers := insert_str headers X_AUTH_REQUEST_REDIRECT redirect_url in
  mk_request (str "GET") auth_uri HTTP_11 headers (BodyFull []) None.

Definition skips_auth (auth : AuthConfigDex) (path : rstr) : bool :=
  existsb (fun p => Str.starts_with path p) (ad_skip_paths auth).

(** The redirect-first check on the session cookie: [Some] is the early return. *)
Definition cookie_redirect (req : Request Incoming) (auth : AuthConfigDex) (host : rstr)
    (frontend_is_tls : bool) : option (Response BoxBody) :=
  match ad_cookie_name auth with
  | None => None
  | Some cookie_name =>
      match hm_get (rq_headers req) COOKIE with
      | Some cookies_val =>
          match hv_to_str cookies_val with
          | Some cookies =>
              let needle := cookie_name ++ str "=" in
              if negb (Str.contains cookies needle) then
                match ad_signin auth with
                | Some signin =>
                    Some (redirect 302 (build_signin_location signin host (rq_uri req) frontend_is_tls))
                | None => None
                end
              else None
          | None => None
          end
      | None =>
          match ad_signin auth with
          | Some signin =>
              Some (redirect 302 (build_signin_location signin host (rq_uri req) frontend_is_tls))
          | None => None
          end
      end
  end.

(** Copy the configured headers of the auth response into the request. *)
Definition copy_auth_header (auth_headers headers : HeaderMap) (name : rstr) : HeaderMap :=
  match hn_from_bytes (Str.as_bytes name) with
  | Some hn => copy_header auth_headers headers hn
  | None => headers
  end.
Definition copy_auth_headers (names : list rstr) (auth_headers headers : HeaderMap) : HeaderMap :=
  fold_left (copy_auth_header auth_headers) names headers.

(** [inl] is the (updated) request that may go on, [inr] the response that ends
    the handling. *)
Definition perform_auth_if_needed (net : Network) (req : Request Incoming) (auth : AuthConfigDex)
    (host : rstr) (frontend_is_tls insecure_skip_verify : bool)
    : state World (Request Incoming + Response BoxBody) :=
  if skips_auth auth (uri_path (rq_uri req)) then mret (inl req) else
  match cookie_redirect req auth host frontend_is_tls with
  | Some resp => mret (inr resp)
  | None =>
      match ad_url auth with
      | None =>
          mret (inr (text 502 (str "Authorization URL not found for: " ++ uri_debug (rq_uri req))))
      | Some auth_url =>
          match uri_from_str auth_url with
          | None => mret (inr (text 502 (str "Invalid authorization URL: " ++ auth_url)))
          | Some uri =>
              let auth_req := build_auth_request req uri host frontend_is_tls in
              r ← send_auth net (client_for insecure_skip_verify) auth_req;
              mret match r with
              | inr e =>
                  inr (text 502 (str "Authorization subrequest failed: " ++ str_debug auth_url
                                 ++ str " : " ++ client_error_debug e))
              | inl auth_resp =>
                  let status := rs_status auth_resp in
                  if is_success status then
                    inl (set_headers req (copy_auth_headers (ad_response_headers auth)
                           (rs_headers auth_resp) (rq_headers req)))
                  else if (status =? 401)%Z || (status =? 403)%Z then
                    match ad_signin auth with
                    | Some signin =>
                        inr (redirect 302
                               (build_signin_location signin host (rq_uri req) frontend_is_tls))
                    | None => inr (text 401 (str "unauthorized"))
                    end
                  else inr (text 502 (str "authorization service returned " ++ status_display status))
              end
          end
      end
  end.

(** ** The request to the endpoint *)

Definition is_tls_protocol (proto : BackendProtocol) : bool :=
  match proto with H1Ssl | H2Ssl => true | _ => false end.

Definition handle_req_upstream (req : Request Incoming) (original_host upstream_host : rstr)
    (upstream_port : Z) (proto : BackendProtocol) (frontend_is_tls : bool) : Request Incoming :=
  let parts := uri_into_parts (rq_uri req) in
  let is_tls := is_tls_protocol proto in
  let scheme := Some (if is_tls then scheme_https else scheme_http) in
  let req := set_version req
    match proto with H2 | H2Ssl => HTTP_2 | _ => HTTP_11 end in
  let req := set_headers req (remove_hop_headers (rq_headers req)) in
  let default_port := (if is_tls then 443 else 80)%Z in
  let auth := if (upstream_port =? default_port)%Z
              then authority_from_str upstream_host
              else authority_from_str (upstream_host ++ str ":" ++ Str.display_Z upstream_port) in
  let authority := match auth with Some a => Some a | None => parts_authority parts end in
  let path_and_query := match parts_path_and_query parts with
                        | None => Some (pq_from_static (str "/"))
                        | pq => pq
                        end in
  let req := set_headers req (insert_str (rq_headers req) HOST original_host) in
  let req := set_headers req
    (add_forward_headers (rq_headers req) frontend_is_tls original_host) in
  match uri_from_parts (mk_parts scheme authority path_and_query) with
  | Some new_uri => set_uri req new_uri
  | None => req
  end.

Record RequestSnapshot := {
  rqs_method : Method;
  rqs_uri : Uri;
  rqs_version : Version;
  rqs_headers : HeaderMap;
  rqs_body_is_reusable : bool;
}.

Definition capture (req : Request Incoming) : RequestSnapshot := {|
  rqs_method := rq_method req;
  rqs_uri := rq_uri req;
  rqs_version := rq_version req;
  rqs_headers := rq_headers req;
  rqs_body_is_reusable := body_is_end_stream (rq_body req);
|}.

Definition build_retry_request (snapshot : RequestSnapshot) : Request BoxBody :=
  mk_request (rqs_method snapshot) (rqs_uri snapshot) (rqs_version snapshot)
    (rqs_headers snapshot) (BodyFull []) None.

(** The texts of a failed attempt. *)
Definition attempt_error (addr : rstr) (o : UpstreamOutcome) : rstr :=
  match o with
  | UpOk _ => []
  | UpErr e => str "Upstream connector error (" ++ client_error_display e ++ str "): " ++ str_debug addr
  | UpTimeout e => str "Upstream connector timeout (" ++ elapsed_display e ++ str "): " ++ str_debug addr
  end.

(** The loop [for attempt in 0..retries], with [n] attempts still to go. *)
Fixpoint forward_loop (net : Network) (client : ClientKind) (timeout_ms : Z) (retries : nat)
    (snapshot : RequestSnapshot) (addr : rstr) (n : nat)
    (first_request : option (Request BoxBody)) (last_err : option rstr)
    : state World (option (Response Incoming) * option rstr) :=
  match n with
  | 0 => mret (None, last_err)
  | S n' =>
      let attempt := retries - n in
      let request := match first_request with
                     | Some req => Some req
                     | None => if rqs_body_is_reusable snapshot
                               then Some (build_retry_request snapshot) else None
                     end in
      match request with
      | None => mret (None, last_err)
      | Some request =>
          o ← send_upstream net client timeout_ms request;
          match o with
          | UpOk resp => mret (Some resp, last_err)
          | _ =>
              let last_err := Some (attempt_error addr o) in
              if decide (attempt + 1 = retries) then mret (None, last_err)
              else forward_loop net client timeout_ms retries snapshot addr n' None last_err
          end
      end
  end.

Definition forward_to_upstream (net : Network) (initial_request : Request BoxBody)
    (client : ClientKind) (timeout_ms : Z) (retries : nat) (snapshot : RequestSnapshot)
    (addr : rstr) : state World (Response Incoming + rstr) :=
  r ← forward_loop net client timeout_ms retries snapshot addr retries (Some initial_request) None;
  mret match r with
       | (Some resp, _) => inl resp
       | (None, Some err) => inr err
       | (None, None) => inr (str "Upstream connector timed out: " ++ str_debug addr)
       end.

(** ** The handler *)

(** Everything after the endpoint was selected and the guard taken. *)
Definition handle_selected (net : Network) (req : Request Incoming) (host : rstr)
    (frontend_is_tls : bool) (cluster_rules : ClusterRule) (ep : Endpoint)
    : state World (Response BoxBody) :=
  authed ← match cr_auth cluster_rules with
           | Some auth =>
               perform_auth_if_needed net req auth host frontend_is_tls
                 (cr_backend_tls_insecure_skip_verify cluster_rules)
           | None => mret (inl req)
           end;
  let? req := authed in
  let req := handle_req_upstream req host (ep_address ep) (Int.as_u16 (ep_port ep))
               (cr_backend_protocol cluster_rules) frontend_is_tls in
  let req := if negb (list_is_empty (cr_request_headers cluster_rules))
             then set_headers req (apply_header_rewrites (rq_headers req)
                                     (cr_request_headers cluster_rules))
             else req in
  let request_snapshot := capture req in
  let initial_request := map_body BodyIncoming req in
  let addr := ep_address ep ++ str ":" ++ Str.display_Z (ep_port ep) in
  let timeout := Int.as_u64 (cr_timeout_ms cluster_rules) in
  let client := client_for (cr_backend_tls_insecure_skip_verify cluster_rules) in
  let retries := Z.to_nat (Int.as_usize (Z.max (cr_retries cluster_rules) 1)) in
  r ← forward_to_upstream net initial_request client timeout retries request_snapshot addr;
  mret match r with
       | inr err => text 502 err
       | inl resp =>
           mk_response (rs_status resp) (rs_version resp) (remove_hop_headers (rs_headers resp))
             (BodyIncoming (rs_body resp))
       end.

Definition proxy_handler (net : Network)
    (iter : gmap EndpointKey loc -> list (EndpointKey * loc))
    (route_table : RouteTable) (req : Request Incoming) : state World (Response BoxBody) :=
  let frontend_is_tls := default false (rq_frontend_tls req) in
  let? host := extract_host req in
  let path := uri_path (rq_uri req) in
  let? rule := resolve_route route_table host path in
  let? cluster_rules := resolve_cluster route_table rule in
  selection ← on_heap (resolve_endpoint iter route_table rule);
  let? selected := selection in
  with_guard (se_counter selected)
    (handle_selected net req host frontend_is_tls cluster_rules (se_endpoint selected)).

End proxy.
