(* ===== verification/Forwarding.v ===== *)
(** Sending the request upstream: how many attempts [forward_to_upstream] makes,
    what each of them sends, and what the caller gets. *)

From stdpp Require Import base gmap list strings.
From Stdlib Require Import ZArith NArith Lia.
From S2P Require Import Prelude RustStr Config Http Atomics RouteTable Signin Proxy.

Section forwarding.
Context `{Http} (net : Network) (client : ClientKind) (timeout_ms : Z)
  (initial : Request BoxBody) (snapshot : RequestSnapshot) (addr : rstr).

(** ** Specification: the sequence of attempts *)

(** What attempt [i] sends: the client's request first, then copies without a
    body made from the captured snapshot. *)
Definition nth_request (i : nat) : Request BoxBody :=
  match i with 0 => initial | S _ => build_retry_request snapshot end.

Definition sends (n : nat) : list event :=
  (fun i => EvUpstream client timeout_ms (nth_request i)) <$> seq 0 n.

(** What attempt [i] is answered when the log was [log] at the start. *)
Definition outcome (log : list event) (i : nat) : UpstreamOutcome :=
  upstream_net net (log ++ sends i) client timeout_ms (nth_request i).

Definition failed (o : UpstreamOutcome) : bool :=
  match o with UpOk _ => false | _ => true end.

(** Without a reusable body only the first attempt can be made. *)
Definition max_attempts (retries : nat) : nat :=
  if rqs_body_is_reusable snapshot then retries else 1.

Lemma sends_S n : sends (S n) = sends n ++ [EvUpstream client timeout_ms (nth_request n)].
Proof. unfold sends. by rewrite seq_S, fmap_app. Qed.

(** ** The loop *)

(** The state after [k] attempts. *)
Definition after (log : list event) (h : heap) (k : nat) : World := mk_world h (log ++ sends k).

Lemma send_nth log h k :
  send_upstream net client timeout_ms (nth_request k) (after log h k)
  = (outcome log k, after log h (S k)).
Proof. unfold send_upstream, outcome, after. simpl. by rewrite sends_S, app_assoc. Qed.

(** The result of a run of the loop that ends with attempt [m - 1]. *)
Definition loop_result (log : list event) (r : option (Response Incoming) * option rstr)
    (limit m : nat) : Prop :=
  match outcome log (m - 1) with
  | UpOk resp => r.1 = Some resp
  | o => m = limit /\ r = (None, Some (attempt_error addr o))
  end.

Lemma forward_loop_retry retries log h k n last_err :
  rqs_body_is_reusable snapshot = true -> 1 <= k -> 1 <= n -> k + n = retries ->
  exists m r, k < m <= retries /\
    forward_loop net client timeout_ms retries snapshot addr n None last_err (after log h k)
      = (r, after log h m) /\
    (forall i, k <= i < m - 1 -> failed (outcome log i) = true) /\
    loop_result log r retries m.
Proof.
  intros Hreuse. revert k last_err. induction n as [|n IH]; intros k last_err Hk Hn Hkn; [lia|].
  assert (build_retry_request snapshot = nth_request k) as Hnth by (destruct k; [lia|done]).
  cbn [forward_loop]. rewrite Hreuse, Hnth. unfold mbind, state_bind. rewrite send_nth.
  unfold loop_result. destruct (outcome log k) as [resp|e|e] eqn:Eo.
  { exists (S k), (Some resp, last_err). replace (S k - 1) with k by lia.
    rewrite Eo. split_and!; [lia|lia|done|lia|done]. }
  all: case_decide as Hlast.
  1,3: exists (S k), (None, Some (attempt_error addr (outcome log k)));
       replace (S k - 1) with k by lia; rewrite Eo; split_and!; [lia|lia|done|lia|lia|done].
  all: destruct (IH (S k) (Some (attempt_error addr (outcome log k)))) as (m & r & Hm & Heq & Hf & Hr);
       [lia..|]; rewrite Eo in Heq; exists m, r; split_and!; [lia|lia|exact Heq| |exact Hr];
       intros i Hi; destruct (decide (i = k)) as [->|?]; [by rewrite Eo|apply Hf; lia].
Qed.

Lemma forward_loop_spec retries log h :
  1 <= retries ->
  exists m r, 1 <= m <= max_attempts retries /\
    forward_loop net client timeout_ms retries snapshot addr retries (Some initial) None
      (after log h 0) = (r, after log h m) /\
    (forall i, i < m - 1 -> failed (outcome log i) = true) /\
    loop_result log r (max_attempts retries) m.
Proof.
  intros Hr. destruct retries as [|n]; [lia|]. cbn [forward_loop].
  change initial with (nth_request 0). unfold mbind, state_bind. rewrite send_nth.
  unfold loop_result, max_attempts. destruct (outcome log 0) as [resp|e|e] eqn:Eo.
  { exists 1, (Some resp, None). cbn [Nat.sub]. rewrite Eo.
    destruct (rqs_body_is_reusable snapshot); split_and!; lia || done. }
  all: destruct (rqs_body_is_reusable snapshot) eqn:Hreuse; case_decide as Hlast;
    try (exists 1, (None, Some (attempt_error addr (outcome log 0))); cbn [Nat.sub]; rewrite Eo;
         split_and!; (lia || done)).
  all: try (destruct (forward_loop_retry (S n) log h 1 n (Some (attempt_error addr (outcome log 0))))
         as (m & r & Hm & Heq & Hf & Hres); [done|lia..|]; rewrite Eo in Heq;
       exists m, r; split_and!; [lia|lia|exact Heq| |exact Hres];
       intros i Hi; destruct (decide (i = 0)) as [->|?]; [by rewrite Eo|apply Hf; lia]).
  all: exists 1, (None, Some (attempt_error addr (outcome log 0))); cbn [Nat.sub]; rewrite Eo;
    destruct n as [|n]; [lia|]; cbn [forward_loop]; rewrite Hreuse; split_and!; (lia || done).
Qed.

(** What the caller of [forward_to_upstream] gets. *)
Definition forward_result (log : list event) (r : Response Incoming + rstr) (limit m : nat) : Prop :=
  match outcome log (m - 1) with
  | UpOk resp => r = inl resp
  | o => m = limit /\ r = inr (attempt_error addr o)
  end.

Lemma forward_to_upstream_spec retries w :
  1 <= retries ->
  exists m r, 1 <= m <= max_attempts retries /\
    forward_to_upstream net initial client timeout_ms retries snapshot addr w
      = (r, mk_world (w_heap w) (w_log w ++ sends m)) /\
    (forall i, i < m - 1 -> failed (outcome (w_log w) i) = true) /\
    forward_result (w_log w) r (max_attempts retries) m.
Proof.
  intros Hr. destruct w as [h log].
  destruct (forward_loop_spec retries log h Hr) as (m & r & Hm & Heq & Hf & Hres).
  assert (after log h 0 = mk_world h log) as H0
    by (unfold after, sends; simpl; by rewrite app_nil_r).
  rewrite H0 in Heq. unfold forward_to_upstream, mbind, state_bind. rewrite Heq.
  exists m. unfold loop_result, forward_result in *. simpl in *.
  destruct (outcome log (m - 1)) as [resp|e|e].
  - destruct r as [r1 r2]. simpl in Hres. subst r1. eexists. split_and!; try done; lia.
  - destruct Hres as [-> ->]. eexists. split_and!; try done; lia.
  - destruct Hres as [-> ->]. eexists. split_and!; try done; lia.
Qed.

End forwarding.

(** ** Properties *)

(** C24. Forwarding makes at least one and at most [max_attempts] attempts (the
    configured number when the body is already fully read, one otherwise). It
    sends the client's request first and copies of it afterwards, stops at the
    first answer, returns that answer, and otherwise reports the error of the
    last attempt; it never gives up early. *)
Theorem forward_attempts `{Http} (net : Network) (client : ClientKind) (timeout_ms : Z)
    (initial : Request BoxBody) (snapshot : RequestSnapshot) (addr : rstr) (retries : nat) (w : World) :
  1 <= retries ->
  exists m r, 1 <= m <= max_attempts snapshot retries /\
    forward_to_upstream net initial client timeout_ms retries snapshot addr w
      = (r, mk_world (w_heap w) (w_log w ++ sends client timeout_ms initial snapshot m)) /\
    (forall i, i < m - 1 ->
       failed (outcome net client timeout_ms initial snapshot (w_log w) i) = true) /\
    match outcome net client timeout_ms initial snapshot (w_log w) (m - 1) with
    | UpOk resp => r = inl resp
    | o => m = max_attempts snapshot retries /\ r = inr (attempt_error addr o)
    end.
Proof. apply forward_to_upstream_spec. Qed.

(** If one of the allowed attempts is answered, the client gets the answer
    of the first such attempt: a transient failure before it is not seen. *)
Theorem forward_first_success `{Http} (net : Network) (client : ClientKind) (timeout_ms : Z)
    (initial : Request BoxBody) (snapshot : RequestSnapshot) (addr : rstr) (retries : nat)
    (w : World) (i : nat) (resp : Response Incoming) :
  1 <= retries ->
  i < max_attempts snapshot retries ->
  (forall j, j < i -> failed (outcome net client timeout_ms initial snapshot (w_log w) j) = true) ->
  outcome net client timeout_ms initial snapshot (w_log w) i = UpOk resp ->
  forward_to_upstream net initial client timeout_ms retries snapshot addr w
  = (inl resp, mk_world (w_heap w) (w_log w ++ sends client timeout_ms initial snapshot (S i))).
Proof.
  intros Hr Hi Hbefore Hok.
  destruct (forward_to_upstream_spec net client timeout_ms initial snapshot addr retries w Hr)
    as (m & r & Hm & Heq & Hf & Hres). rewrite Heq. unfold forward_result in Hres.
  destruct (decide (m = S i)) as [->|Hne].
  { replace (S i - 1) with i in Hres by lia. rewrite Hok in Hres. by subst r. }
  exfalso. destruct (decide (m <= i)).
  - specialize (Hbefore (m - 1) ltac:(lia)).
    destruct (outcome _ _ _ _ _ _ (m - 1)); [done|destruct Hres; lia..].
  - specialize (Hf i ltac:(lia)). by rewrite Hok in Hf.
Qed.

(** ** Witnesses: an upstream that refuses twice, then answers *)

Module FlakyDemo.
#[local] Existing Instance simple_http.
Definition headers : HeaderMap := [].
Definition uri : Uri := mk_parts (Some (str "http")) (Some (str "10.0.0.1")) (Some (str "/")).
Definition answer : Response Incoming := mk_response 200%Z HTTP_11 headers (str "hello").
Definition net : Network := {|
  auth_net := fun _ _ _ => inr (str "no auth service");
  upstream_net := fun log _ _ _ =>
    if decide (length log < 2) then UpErr (str "refused") else UpOk answer;
|}.
Definition request : Request BoxBody :=
  mk_request (str "GET") uri HTTP_11 headers (BodyIncoming []) (Some false).
Definition snapshot : RequestSnapshot := {|
  rqs_method := str "GET"; rqs_uri := uri; rqs_version := HTTP_11; rqs_headers := headers;
  rqs_body_is_reusable := true |}.
Definition world : World := mk_world heap_empty [].
End FlakyDemo.

Lemma forward_attempts_witness :
  (@forward_to_upstream simple_http FlakyDemo.net FlakyDemo.request Connector 3000 3
     FlakyDemo.snapshot (str "10.0.0.1:80") FlakyDemo.world).1 = inl FlakyDemo.answer /\
  exists m r, 1 <= m <= 3 /\
    @forward_to_upstream simple_http FlakyDemo.net FlakyDemo.request Connector 3000 3
       FlakyDemo.snapshot (str "10.0.0.1:80") FlakyDemo.world
    = (r, mk_world heap_empty (sends Connector 3000 FlakyDemo.request FlakyDemo.snapshot m)).
Proof.
  split; [vm_compute; reflexivity|].
  destruct (@forward_attempts simple_http FlakyDemo.net Connector 3000 FlakyDemo.request
    FlakyDemo.snapshot (str "10.0.0.1:80") 3 FlakyDemo.world) as (m & r & Hm & Heq & _).
  { lia. }
  exists m, r. split; [exact Hm|exact Heq].
Defined.

Lemma forward_first_success_witness :
  @forward_to_upstream simple_http FlakyDemo.net FlakyDemo.request Connector 3000 5
    FlakyDemo.snapshot (str "10.0.0.1:80") FlakyDemo.world
  = (inl FlakyDemo.answer,
     mk_world heap_empty (sends Connector 3000 FlakyDemo.request FlakyDemo.snapshot 3)).
Proof.
  apply (@forward_first_success simple_http FlakyDemo.net Connector 3000 FlakyDemo.request
    FlakyDemo.snapshot (str "10.0.0.1:80") 5 FlakyDemo.world 2 FlakyDemo.answer).
  - lia.
  - vm_compute. lia.
  - intros j Hj. destruct j as [|[|j]]; [vm_compute; reflexivity|vm_compute; reflexivity|lia].
  - vm_compute. reflexivity.
Defined.
