(* ===== verification/Upstream.v ===== *)
(** The request an endpoint receives: hop-by-hop headers, forwarding headers,
    header rewrites and the new URI. The facts hold for every implementation of
    the HTTP types that satisfies [HttpLaws]. *)

From stdpp Require Import base gmap list strings.
From Stdlib Require Import ZArith NArith Lia.
From S2P Require Import Prelude RustStr Config Http Atomics RouteTable Signin Proxy.

Section headers.
Context `{HL : HttpLaws}.

(** Two header-name constants are different because their texts are. *)
Ltac names_differ := apply hn_static_ne; [reflexivity|reflexivity|decide_compute].

Lemma fold_remove_get_all ns h n :
  hm_get_all (fold_left hm_remove ns h) n = if decide (n ∈ ns) then [] else hm_get_all h n.
Proof.
  revert h. induction ns as [|m ns IH]; intros h; [done|].
  cbn [fold_left]. rewrite IH, hm_get_all_remove. repeat case_decide; try done; set_solver.
Qed.

Lemma remove_hop_get_all h n :
  hm_get_all (remove_hop_headers h) n
  = if decide (n ∈ HOP_HEADERS_REF) then [] else hm_get_all h n.
Proof. apply fold_remove_get_all. Qed.

Lemma hop_ne n s : n ∈ HOP_HEADERS_REF -> is_lower_token s = true ->
  s ∉ [str "connection"; str "proxy-authenticate"; str "proxy-authorization"; str "te";
       str "trailer"; str "transfer-encoding"; str "upgrade"; str "proxy-connection";
       str "keep-alive"] ->
  n <> hn_from_static s.
Proof.
  unfold HOP_HEADERS_REF. rewrite !elem_of_cons, elem_of_nil. intros Hn Hs Hnot.
  destruct_or?; subst n; try done; intros Heq; apply (f_equal hn_as_str) in Heq;
    rewrite (hn_as_str_static s) in Heq by done;
    unfold CONNECTION, PROXY_AUTHENTICATE, PROXY_AUTHORIZATION, TE, TRAILER, TRANSFER_ENCODING,
      UPGRADE, PROXY_CONNECTION, KEEP_ALIVE in Heq;
    rewrite hn_as_str_static in Heq by reflexivity; apply Hnot; rewrite <-Heq; set_solver.
Qed.

Lemma hop_not_host n : n ∈ HOP_HEADERS_REF -> n <> HOST.
Proof. intros Hn. apply hop_ne; [done|reflexivity|decide_compute]. Qed.
Lemma hop_not_proto n : n ∈ HOP_HEADERS_REF -> n <> X_FORWARDED_PROTO.
Proof. intros Hn. apply hop_ne; [done|reflexivity|decide_compute]. Qed.
Lemma hop_not_fhost n : n ∈ HOP_HEADERS_REF -> n <> X_FORWARDED_HOST.
Proof. intros Hn. apply hop_ne; [done|reflexivity|decide_compute]. Qed.

Lemma host_ne_proto : HOST <> X_FORWARDED_PROTO.
Proof. names_differ. Qed.
Lemma host_ne_fhost : HOST <> X_FORWARDED_HOST.
Proof. names_differ. Qed.
Lemma proto_ne_fhost : X_FORWARDED_PROTO <> X_FORWARDED_HOST.
Proof. names_differ. Qed.

Lemma insert_str_get_all h n s m :
  hm_get_all (insert_str h n s) m
  = match hv_from_str s with
    | Some v => if decide (m = n) then [v] else hm_get_all h m
    | None => hm_get_all h m
    end.
Proof. unfold insert_str. destruct (hv_from_str s); [apply hm_get_all_insert|done]. Qed.

Lemma add_forward_get_all h tls host n :
  hm_get_all (add_forward_headers h tls host) n =
  if decide (n = X_FORWARDED_PROTO) then [hv_from_static (scheme_str tls)]
  else if decide (n = X_FORWARDED_HOST /\ hm_get_all h X_FORWARDED_HOST = [])
  then option_list (hv_from_str host)
  else hm_get_all h n.
Proof.
  pose proof proto_ne_fhost as Hpf. unfold add_forward_headers.
  set (h1 := hm_insert h _ _).
  assert (hm_get_all h1 X_FORWARDED_HOST = hm_get_all h X_FORWARDED_HOST) as Hh1.
  { unfold h1. rewrite hm_get_all_insert, decide_False; congruence. }
  destruct (hm_contains_key h1 X_FORWARDED_HOST) eqn:Ec; cbn [negb].
  - assert (hm_get_all h X_FORWARDED_HOST <> []).
    { rewrite <-Hh1. intros Hnil%hm_contains_key_false. congruence. }
    unfold h1. rewrite hm_get_all_insert. case_decide; [done|].
    rewrite decide_False; naive_solver.
  - apply hm_contains_key_false in Ec. rewrite insert_str_get_all. rewrite Hh1 in Ec.
    destruct (hv_from_str host) as [v|] eqn:Ev; simpl.
    + case_decide as Hd; subst.
      * rewrite decide_False by congruence. by rewrite decide_True by done.
      * unfold h1. rewrite hm_get_all_insert. case_decide; [done|].
        by rewrite decide_False by naive_solver.
    + unfold h1. rewrite hm_get_all_insert. case_decide; [done|].
      case_decide as Hd; [|done]. destruct Hd as [-> ->]. done.
Qed.

(** ** [handle_req_upstream] *)

Definition upstream_headers (h : HeaderMap) (host : rstr) (tls : bool) : HeaderMap :=
  add_forward_headers (insert_str (remove_hop_headers h) HOST host) tls host.

Definition upstream_authority (host : rstr) (port : Z) (proto : BackendProtocol) : option Authority :=
  if (port =? (if is_tls_protocol proto then 443 else 80))%Z
  then authority_from_str host
  else authority_from_str (host ++ str ":" ++ Str.display_Z port).

Lemma handle_req_upstream_headers req host uhost port proto tls :
  rq_headers (handle_req_upstream req host uhost port proto tls)
  = upstream_headers (rq_headers req) host tls.
Proof. unfold handle_req_upstream. simpl. by destruct (uri_from_parts _). Qed.

Lemma handle_req_upstream_kept req host uhost port proto tls :
  let req' := handle_req_upstream req host uhost port proto tls in
  rq_method req' = rq_method req /\ rq_body req' = rq_body req /\
  rq_version req' = match proto with H2 | H2Ssl => HTTP_2 | _ => HTTP_11 end.
Proof. unfold handle_req_upstream. simpl. by destruct (uri_from_parts _). Qed.

Lemma handle_req_upstream_uri req host uhost port proto tls a :
  upstream_authority uhost port proto = Some a ->
  uri_into_parts (rq_uri (handle_req_upstream req host uhost port proto tls))
  = mk_parts (Some (if is_tls_protocol proto then scheme_https else scheme_http)) (Some a)
      (Some (default (pq_from_static (str "/")) (uri_path_and_query (rq_uri req)))).
Proof.
  intros Ha. unfold handle_req_upstream. cbn zeta. fold (upstream_authority uhost port proto).
  rewrite Ha. unfold uri_path_and_query.
  destruct (parts_path_and_query (uri_into_parts (rq_uri req))) as [q|]; simpl;
    match goal with |- context [uri_from_parts (mk_parts ?s (Some ?a) (Some ?q))] =>
      destruct (uri_from_full_parts (default scheme_http s) a q) as [u Hu] end;
    simpl in Hu; rewrite Hu; simpl; by apply uri_into_from_parts.
Qed.

Lemma upstream_headers_hop h host tls n :
  n ∈ HOP_HEADERS_REF -> hm_get_all (upstream_headers h host tls) n = [].
Proof.
  intros Hn. unfold upstream_headers.
  pose proof (hop_not_host n Hn). pose proof (hop_not_proto n Hn). pose proof (hop_not_fhost n Hn).
  rewrite add_forward_get_all, decide_False, decide_False by naive_solver.
  rewrite insert_str_get_all, remove_hop_get_all, !decide_True by done.
  destruct (hv_from_str host); [by rewrite decide_False|done].
Qed.

Lemma upstream_headers_proto h host tls :
  hm_get_all (upstream_headers h host tls) X_FORWARDED_PROTO = [hv_from_static (scheme_str tls)].
Proof. unfold upstream_headers. rewrite add_forward_get_all. by rewrite decide_True. Qed.

Lemma upstream_headers_host h host tls v :
  hv_from_str host = Some v -> hm_get_all (upstream_headers h host tls) HOST = [v].
Proof.
  intros Hv. unfold upstream_headers. pose proof host_ne_proto. pose proof host_ne_fhost.
  rewrite add_forward_get_all, !decide_False by naive_solver.
  rewrite insert_str_get_all, Hv. by rewrite decide_True.
Qed.

Lemma upstream_headers_other h host tls n :
  n ∉ HOP_HEADERS_REF -> n <> HOST -> n <> X_FORWARDED_PROTO -> n <> X_FORWARDED_HOST ->
  hm_get_all (upstream_headers h host tls) n = hm_get_all h n.
Proof.
  intros Hh Hhost Hp Hf. unfold upstream_headers.
  rewrite add_forward_get_all, !decide_False by naive_solver.
  rewrite insert_str_get_all, remove_hop_get_all, decide_False by done.
  destruct (hv_from_str host); [by rewrite decide_False|done].
Qed.

(** A client-supplied [x-forwarded-host] survives; otherwise the host is set. *)
Lemma upstream_headers_fhost h host tls :
  hm_get_all (upstream_headers h host tls) X_FORWARDED_HOST
  = match hm_get_all h X_FORWARDED_HOST with
    | [] => option_list (hv_from_str host)
    | vs => vs
    end.
Proof.
  pose proof proto_ne_fhost as Hpf. pose proof host_ne_fhost as Hhf.
  assert (X_FORWARDED_HOST ∉ HOP_HEADERS_REF) as Hhop by by intros ?%hop_not_fhost.
  assert (hm_get_all (insert_str (remove_hop_headers h) HOST host) X_FORWARDED_HOST
          = hm_get_all h X_FORWARDED_HOST) as Heq.
  { rewrite insert_str_get_all, remove_hop_get_all, decide_False by done.
    destruct (hv_from_str host); [by rewrite decide_False by congruence|done]. }
  unfold upstream_headers. rewrite add_forward_get_all, decide_False by congruence. rewrite Heq.
  destruct (hm_get_all h X_FORWARDED_HOST); [by rewrite decide_True|by rewrite decide_False by naive_solver].
Qed.

(** ** Header rewrites *)

(** The effect of one rule on the values of the header it names. *)
Definition rewrite_values (rule : HeaderRewriteRule) (vs : list HeaderValue) : list HeaderValue :=
  match hw_mode rule, hw_value rule ≫= hv_from_str with
  | Remove, _ => []
  | Set_, Some v => [v]
  | Append, Some v => vs ++ [v]
  | _, None => vs
  end.

Lemma apply_header_rewrite_get_all h rule n :
  hm_get_all (apply_header_rewrite h rule) n
  = if decide (n = hw_name rule) then rewrite_values rule (hm_get_all h n) else hm_get_all h n.
Proof.
  unfold apply_header_rewrite, rewrite_values.
  destruct (hw_mode rule), (hw_value rule) as [s|]; simpl; try destruct (hv_from_str s); simpl;
    rewrite ?hm_get_all_remove, ?hm_get_all_insert, ?hm_get_all_append; by case_decide.
Qed.

Lemma apply_header_rewrites_get_all h rules n :
  hm_get_all (apply_header_rewrites h rules) n
  = fold_left (fun vs rule => rewrite_values rule vs)
      (base.filter (fun rule => hw_name rule = n) rules) (hm_get_all h n).
Proof.
  unfold apply_header_rewrites. revert h. induction rules as [|r rules IH]; intros h; [done|].
  simpl. rewrite IH, apply_header_rewrite_get_all, filter_cons.
  destruct (decide (hw_name r = n)) as [<-|Hne]; [by rewrite decide_True|].
  by rewrite decide_False by congruence.
Qed.

End headers.

(** ** Properties *)


(** When the endpoint's address forms an authority, the forwarded URI points
    at it: TLS protocols give the https scheme and the others http, the port is
    spelled out unless it is the scheme's default, the path and query are the
    client's, and the HTTP version is the one of the protocol. *)
Theorem upstream_uri_targets_endpoint (H : Http) (HL : HttpLaws H) (req : Request Incoming)
    (host uhost : rstr) (port : Z) (proto : BackendProtocol) (tls : bool) (a : Authority) :
  authority_from_str (if (port =? (if is_tls_protocol proto then 443 else 80))%Z then uhost
                      else uhost ++ str ":" ++ Str.display_Z port) = Some a ->
  let req' := handle_req_upstream req host uhost port proto tls in
  uri_into_parts (rq_uri req')
    = mk_parts (Some (if is_tls_protocol proto then scheme_https else scheme_http)) (Some a)
        (Some (default (pq_from_static (str "/")) (uri_path_and_query (rq_uri req)))) /\
  rq_version req' = match proto with H2 | H2Ssl => HTTP_2 | _ => HTTP_11 end.
Proof.
  intros Ha. split; [|apply handle_req_upstream_kept].
  apply handle_req_upstream_uri. unfold upstream_authority. by destruct (_ =? _)%Z.
Qed.

(** Header rewrites act per header and in configuration order: the values of
    a header after all rules are what the rules naming it make of its previous
    values (set replaces all, append adds one, remove deletes), and a rule
    whose value is not a legal header value changes nothing. *)
Theorem header_rewrites_per_header (H : Http) (HL : HttpLaws H) (headers : HeaderMap)
    (rules : list HeaderRewriteRule) (n : HeaderName) :
  hm_get_all (apply_header_rewrites headers rules) n
  = fold_left (fun vs rule => rewrite_values rule vs)
      (base.filter (fun rule => hw_name rule = n) rules) (hm_get_all headers n).
Proof. apply apply_header_rewrites_get_all. Qed.

(** ** Witnesses *)

Module RequestDemo.
#[local] Existing Instance simple_http.
Definition headers : HeaderMap :=
  [(str "host", str "Demo.local:8080"); (str "connection", str "close");
   (str "x-forwarded-proto", str "https"); (str "x-debug", str "0");
   (str "cookie", str "a=1; x_oauth2_proxy=2")].
Definition request (path : string) : Request Incoming :=
  mk_request (str "GET") (mk_parts None None (Some (str path))) HTTP_11 headers [] (Some false).
Definition rules : list HeaderRewriteRule :=
  [{| hw_name := str "x-debug"; hw_value := Some (str "1"); hw_mode := Set_ |};
   {| hw_name := str "x-debug"; hw_value := Some (str "2"); hw_mode := Append |};
   {| hw_name := str "cookie"; hw_value := None; hw_mode := Remove |}].
Definition auth_headers : HeaderMap := [(str "x-debug", str "alice")].
End RequestDemo.


Lemma upstream_uri_targets_endpoint_witness :
  uri_into_parts (rq_uri (@handle_req_upstream simple_http (RequestDemo.request "/a?b")
    (str "demo.local") (str "10.0.0.1") 8080 H2Ssl false))
  = mk_parts (Some (str "https")) (Some (str "10.0.0.1:8080")) (Some (str "/a?b")).
Proof.
  destruct (upstream_uri_targets_endpoint simple_http simple_http_laws (RequestDemo.request "/a?b")
    (str "demo.local") (str "10.0.0.1") 8080 H2Ssl false (str "10.0.0.1:8080")) as [Huri _].
  { vm_compute. reflexivity. }
  exact Huri.
Defined.

Lemma header_rewrites_per_header_witness :
  @hm_get_all simple_http (apply_header_rewrites RequestDemo.headers RequestDemo.rules) (str "x-debug")
  = [str "1"; str "2"].
Proof.
  rewrite (header_rewrites_per_header simple_http simple_http_laws RequestDemo.headers
    RequestDemo.rules (str "x-debug")).
  vm_compute. reflexivity.
Defined.
