(* ===== verification/Auth.v ===== *)
(** External auth: when [perform_auth_if_needed] lets a request through, what it
    adds to it, and how it answers otherwise. *)

From stdpp Require Import base gmap list strings.
From Stdlib Require Import ZArith NArith Lia.
From S2P Require Import Prelude RustStr Config Http Atomics RouteTable Signin Proxy Upstream.

Section auth.
Context `{Http} (net : Network).

(** The decision of the auth service: [u] is the service's parsed URL, and the
    subrequest made from [req] was answered by [resp] with a 2xx status. *)
Definition auth_granted (log : list event) (req : Request Incoming) (auth : AuthConfigDex)
    (host : rstr) (tls insecure : bool) (u : Uri) (resp : Response Incoming) : Prop :=
  (exists url, ad_url auth = Some url /\ uri_from_str url = Some u) /\
  auth_net net log (client_for insecure) (build_auth_request req u host tls) = inl resp /\
  is_success (rs_status resp) = true.

(** A response that ends the handling of a request at the auth stage. *)
Definition auth_refusal (resp : Response BoxBody) : Prop :=
  rs_status resp = 302%Z \/ rs_status resp = 401%Z \/ rs_status resp = 502%Z.

Lemma perform_auth_cases req auth host tls insecure w r w' :
  perform_auth_if_needed net req auth host tls insecure w = (r, w') ->
  (exists u resp, r = inl (set_headers req (copy_auth_headers (ad_response_headers auth)
                     (rs_headers resp) (rq_headers req))) /\
     skips_auth auth (uri_path (rq_uri req)) = false /\
     cookie_redirect req auth host tls = None /\
     auth_granted (w_log w) req auth host tls insecure u resp /\
     w' = mk_world (w_heap w)
            (w_log w ++ [EvAuth (client_for insecure) (build_auth_request req u host tls)])) \/
  (r = inl req /\ skips_auth auth (uri_path (rq_uri req)) = true /\ w' = w) \/
  (exists resp, r = inr resp /\ auth_refusal resp /\ w_heap w' = w_heap w /\
     (w_log w' = w_log w \/ exists a, w_log w' = w_log w ++ [EvAuth (client_for insecure) a])).
Proof.
  unfold perform_auth_if_needed, auth_refusal. destruct (skips_auth _ _) eqn:Eskip.
  { intros [= <- <-]. auto. }
  destruct (cookie_redirect req auth host tls) as [resp|] eqn:Ecookie.
  { intros [= <- <-]. right; right. exists resp. split_and!; [done| |done|by left]. left.
    unfold cookie_redirect in Ecookie. repeat case_match; simplify_eq; done. }
  destruct (ad_url auth) as [url|] eqn:Eurl.
  2: { intros [= <- <-]. right; right. eexists. split_and!; [done|by right; right|done|by left]. }
  destruct (uri_from_str url) as [u|] eqn:Eu.
  2: { intros [= <- <-]. right; right. eexists. split_and!; [done|by right; right|done|by left]. }
  unfold mbind, state_bind, send_auth. cbn. intros [= <- <-].
  destruct (auth_net net (w_log w) (client_for insecure) _) as [resp|e] eqn:Enet.
  2: { right; right. eexists. split_and!; [done|by right; right|done|right; by eexists]. }
  destruct (is_success (rs_status resp)) eqn:Eok.
  - left. exists u, resp. split_and!; [done..| |done]. unfold auth_granted. naive_solver.
  - right; right. destruct (_ || _); [destruct (ad_signin auth)|];
      eexists; (split_and!; [done|simpl; auto|done|right; by eexists]).
Qed.

End auth.

(** ** The headers copied from the auth response *)

Section copy.
Context `{HL : HttpLaws}.

(** The header [n] is one of the configured names. *)
Definition names_header (names : list rstr) (n : HeaderName) : Prop :=
  exists s, s ∈ names /\ hn_from_bytes (Str.as_bytes s) = Some n.

Lemma copy_header_get_all from to n m :
  hm_get_all (copy_header from to n) m
  = match hm_get from n with
    | Some v => if decide (m = n) then [v] else hm_get_all to m
    | None => hm_get_all to m
    end.
Proof. unfold copy_header. destruct (hm_get from n); [apply hm_get_all_insert|done]. Qed.

Lemma copy_auth_header_get_all from to s m :
  hm_get_all (copy_auth_header from to s) m
  = if decide (hn_from_bytes (Str.as_bytes s) = Some m)
    then match hm_get from m with Some v => [v] | None => hm_get_all to m end
    else hm_get_all to m.
Proof.
  unfold copy_auth_header. destruct (hn_from_bytes (Str.as_bytes s)) as [hn|].
  - rewrite copy_header_get_all. case_decide as Hd; simplify_eq.
    + by rewrite decide_True.
    + rewrite (decide_False (P := Some hn = Some m)) by congruence. by destruct (hm_get from hn).
  - by case_decide.
Qed.

Lemma copy_auth_headers_get_all names from to n :
  (names_header names n ->
     hm_get_all (copy_auth_headers names from to) n
     = match hm_get from n with Some v => [v] | None => hm_get_all to n end) /\
  (~ names_header names n ->
     hm_get_all (copy_auth_headers names from to) n = hm_get_all to n).
Proof.
  unfold copy_auth_headers, names_header. revert to.
  induction names as [|s names IH]; intros to; cbn [fold_left].
  { split; [|done]. intros (s & Hs & _). by apply not_elem_of_nil in Hs. }
  destruct (IH (copy_auth_header from to s)) as [IH1 IH2].
  rewrite copy_auth_header_get_all in IH1, IH2.
  destruct (decide (Exists (fun s' => hn_from_bytes (Str.as_bytes s') = Some n) names)) as [He|He];
    rewrite Exists_exists in He.
  - rewrite IH1 by naive_solver. split; [intros _|intros Hn].
    + destruct (hm_get from n); [done|by case_decide].
    + destruct Hn. destruct He as (s' & ? & ?). exists s'. split; [by right|done].
  - rewrite IH2 by naive_solver. split; [intros (s' & Hs' & Heq)|intros Hn].
    + apply elem_of_cons in Hs' as [->|Hs']; [by rewrite decide_True|naive_solver].
    + rewrite decide_False; [done|]. intros ?. apply Hn. exists s. split; [by left|done].
Qed.

End copy.

(** ** Properties *)


(** After a granted auth decision the upstream request has, for each
    configured header, the auth service's value if it sent one; where it sent
    none the client's own values remain, and all other headers are untouched. *)
Theorem auth_headers_copied (H : Http) (HL : HttpLaws H) (names : list rstr)
    (auth_headers headers : HeaderMap) (n : HeaderName) :
  (names_header names n ->
     hm_get_all (copy_auth_headers names auth_headers headers) n
     = match hm_get auth_headers n with Some v => [v] | None => hm_get_all headers n end) /\
  (~ names_header names n ->
     hm_get_all (copy_auth_headers names auth_headers headers) n = hm_get_all headers n).
Proof. apply copy_auth_headers_get_all. Qed.

(** The cookie check is a substring test: a different cookie whose name ends in
    the configured one passes it. *)
Theorem cookie_check_accepts_suffix :
  @cookie_redirect simple_http (RequestDemo.request "/a")
    {| ad_url := None; ad_signin := Some (str "/login"); ad_response_headers := [];
       ad_skip_paths := []; ad_cookie_name := Some (str "_oauth2_proxy") |}
    (str "demo.local") false = None.
Proof. vm_compute. reflexivity. Qed.

(** Skip prefixes are compared case-sensitively, but their list is deduplicated
    ignoring case: the second of two prefixes that differ in case is lost. *)
Theorem skip_prefix_lost_by_case :
  let auth := from_pb {| ac_url := []; ac_signin := []; ac_response_headers := [];
                         ac_skip_paths := [str "/Public"; str "/public"]; ac_cookie_name := [] |} in
  skips_auth auth (str "/Public/a") = true /\ skips_auth auth (str "/public/a") = false.
Proof. vm_compute. split; reflexivity. Qed.

Lemma auth_headers_copied_witness :
  @hm_get_all simple_http
    (copy_auth_headers [str "X-Debug"] RequestDemo.auth_headers RequestDemo.headers)
    (str "x-debug") = [str "alice"].
Proof.
  destruct (auth_headers_copied simple_http simple_http_laws [str "X-Debug"]
    RequestDemo.auth_headers RequestDemo.headers (str "x-debug")) as [Hc _].
  rewrite Hc.
  - vm_compute. reflexivity.
  - exists (str "X-Debug"). split; [left|vm_compute; reflexivity].
Defined.
