(* ===== verification/Handler.v ===== *)
(** The request handler as a whole: which requests reach an endpoint, what is
    answered otherwise, and that the shared counters are left balanced. *)

From stdpp Require Import base gmap list strings.
From Stdlib Require Import ZArith NArith Lia ZifyBool.
From S2P Require Import Prelude RustStr Config Http Atomics RouteTable Routing Balancing Signin Proxy Forwarding Upstream Auth.

Section handler.
Context `{Http} (net : Network) (iter : gmap EndpointKey loc -> list (EndpointKey * loc)).

(** ** The stages of [handle_selected] *)

Definition authorise (req : Request Incoming) (host : rstr) (tls : bool) (cr : ClusterRule)
    : state World (Request Incoming + Response BoxBody) :=
  match cr_auth cr with
  | Some auth =>
      perform_auth_if_needed net req auth host tls (cr_backend_tls_insecure_skip_verify cr)
  | None => mret (inl req)
  end.

(** The request that goes to the endpoint. *)
Definition upstream_request (req : Request Incoming) (host : rstr) (tls : bool)
    (cr : ClusterRule) (ep : Endpoint) : Request Incoming :=
  let req := handle_req_upstream req host (ep_address ep) (Int.as_u16 (ep_port ep))
               (cr_backend_protocol cr) tls in
  if negb (list_is_empty (cr_request_headers cr))
  then set_headers req (apply_header_rewrites (rq_headers req) (cr_request_headers cr))
  else req.

Definition attempts (cr : ClusterRule) : nat :=
  Z.to_nat (Int.as_usize (Z.max (cr_retries cr) 1)).

Definition finish (r : Response Incoming + rstr) : Response BoxBody :=
  match r with
  | inr err => text 502 err
  | inl resp =>
      mk_response (rs_status resp) (rs_version resp) (remove_hop_headers (rs_headers resp))
        (BodyIncoming (rs_body resp))
  end.

Definition forward_selected (req : Request Incoming) (host : rstr) (tls : bool)
    (cr : ClusterRule) (ep : Endpoint) : state World (Response Incoming + rstr) :=
  let up := upstream_request req host tls cr ep in
  forward_to_upstream net (map_body BodyIncoming up)
    (client_for (cr_backend_tls_insecure_skip_verify cr))
    (Int.as_u64 (cr_timeout_ms cr)) (attempts cr) (capture up)
    (ep_address ep ++ str ":" ++ Str.display_Z (ep_port ep)).

Lemma handle_selected_stages req host tls cr ep w :
  handle_selected net req host tls cr ep w =
  match authorise req host tls cr w with
  | (inr resp, w1) => (resp, w1)
  | (inl req', w1) =>
      let '(r, w2) := forward_selected req' host tls cr ep w1 in (finish r, w2)
  end.
Proof.
  unfold handle_selected, mbind at 1, state_bind at 1. fold (authorise req host tls cr).
  destruct (authorise req host tls cr w) as [[req'|resp] w1]; [|done].
  unfold forward_selected, mbind, state_bind, upstream_request. cbn zeta.
  by destruct (forward_to_upstream _ _ _ _ _ _ _ _) as [[resp|err] w2].
Qed.

(** The stages of [proxy_handler] up to the endpoint. *)
Definition resolve (t : RouteTable) (req : Request Incoming)
    : (rstr * RouteRule * ClusterRule) + Response BoxBody :=
  match extract_host req with
  | inr resp => inr resp
  | inl host =>
      match resolve_route t host (uri_path (rq_uri req)) with
      | inr resp => inr resp
      | inl rule =>
          match resolve_cluster t rule with
          | inr resp => inr resp
          | inl cr => inl (host, rule, cr)
          end
      end
  end.

Definition frontend_tls (req : Request Incoming) : bool := default false (rq_frontend_tls req).

Lemma proxy_handler_stages t req w :
  proxy_handler net iter t req w =
  match resolve t req with
  | inr resp => (resp, w)
  | inl (host, rule, cr) =>
      match get_endpoint iter t (rr_cluster rule) (w_heap w) with
      | (None, h) => (text 502 (str "endpoint not found"), mk_world h (w_log w))
      | (Some sel, h) =>
          with_guard (se_counter sel)
            (handle_selected net req host (frontend_tls req) cr (se_endpoint sel))
            (mk_world h (w_log w))
      end
  end.
Proof.
  unfold proxy_handler, resolve. destruct (extract_host req) as [host|resp]; [|done].
  destruct (resolve_route t host _) as [rule|resp]; [|done].
  destruct (resolve_cluster t rule) as [cr|resp]; [|done].
  unfold mbind, state_bind, on_heap, resolve_endpoint, mbind, state_bind.
  by destruct (get_endpoint iter t (rr_cluster rule) (w_heap w)) as [[sel|] h].
Qed.

Lemma resolve_inl t req host rule cr :
  resolve t req = inl (host, rule, cr) ->
  extract_host req = inl host /\ choose_route t host (uri_path (rq_uri req)) = Some rule /\
  get_cluster_rules t (rr_cluster rule) = Some cr.
Proof.
  unfold resolve, resolve_route, resolve_cluster.
  destruct (extract_host req) as [host'|]; [|done].
  destruct (choose_route t host' _) as [rule'|] eqn:Er; [|done].
  destruct (get_cluster_rules t (rr_cluster rule')) as [cr'|] eqn:Ec; [|done].
  intros [= <- <- <-]. done.
Qed.

(** ** Effects of the stages *)

Definition is_upstream (e : event) : bool :=
  match e with EvUpstream _ _ _ => true | EvAuth _ _ => false end.

Lemma authorise_effect req host tls cr w r w' :
  authorise req host tls cr w = (r, w') ->
  w_heap w' = w_heap w /\
  exists evs, w_log w' = w_log w ++ evs /\ Forall (fun e => is_upstream e = false) evs.
Proof.
  unfold authorise. destruct (cr_auth cr) as [auth|].
  - intros Hp. pose proof (perform_auth_cases _ _ _ _ _ _ _ _ _ Hp) as [(u & resp & _ & _ & _ & _ & ->)|
      [(_ & _ & ->)|(resp & _ & _ & Hh & [Hl|[a Hl]])]].
    + split; [done|]. eexists. split; [done|]. by repeat constructor.
    + split; [done|]. exists []. rewrite app_nil_r. split; [done|constructor].
    + split; [done|]. exists []. rewrite app_nil_r. split; [done|constructor].
    + split; [done|]. eexists. split; [done|]. by repeat constructor.
  - intros [= <- <-]. split; [done|]. exists []. rewrite app_nil_r. split; [done|constructor].
Qed.

(** A forwarding run sends some initial segment of the attempt sequence. *)
Lemma forward_effect initial client timeout_ms retries snapshot addr w :
  exists m r, m <= max_attempts snapshot retries /\
    forward_to_upstream net initial client timeout_ms retries snapshot addr w
    = (r, mk_world (w_heap w) (w_log w ++ sends client timeout_ms initial snapshot m)).
Proof.
  destruct retries as [|retries].
  - exists 0, (inr (str "Upstream connector timed out: " ++ str_debug addr)).
    unfold sends. simpl. rewrite app_nil_r. destruct w. split; [lia|done].
  - destruct (forward_to_upstream_spec net client timeout_ms initial snapshot addr (S retries) w)
      as (m & r & Hm & Heq & _); [lia|]. exists m, r. split; [lia|done].
Qed.

Lemma forward_selected_effect req host tls cr ep w :
  exists m r, m <= max_attempts (capture (upstream_request req host tls cr ep)) (attempts cr) /\
    forward_selected req host tls cr ep w
    = (r, mk_world (w_heap w) (w_log w ++ sends
            (client_for (cr_backend_tls_insecure_skip_verify cr)) (Int.as_u64 (cr_timeout_ms cr))
            (map_body BodyIncoming (upstream_request req host tls cr ep))
            (capture (upstream_request req host tls cr ep)) m)).
Proof. apply forward_effect. Qed.

Lemma handle_selected_heap req host tls cr ep w :
  w_heap (handle_selected net req host tls cr ep w).2 = w_heap w.
Proof.
  rewrite handle_selected_stages. destruct (authorise req host tls cr w) as [r w1] eqn:Ea.
  apply authorise_effect in Ea as [Hh _]. destruct r as [req'|resp]; [|done].
  destruct (forward_selected_effect req' host tls cr ep w1) as (m & r & _ & ->). done.
Qed.

Lemma with_guard_log {A} c (body : state World A) w :
  w_log (with_guard c body w).2
  = w_log (body (mk_world (guard_new c (w_heap w)).2 (w_log w))).2.
Proof.
  unfold with_guard, mbind, state_bind, on_heap. destruct (guard_new c (w_heap w)) as [[] h1]. simpl.
  destruct (body _) as [x w2]. simpl. by destruct (guard_drop c (w_heap w2)).
Qed.

Lemma with_guard_result {A} c (body : state World A) w :
  (with_guard c body w).1 = (body (mk_world (guard_new c (w_heap w)).2 (w_log w))).1.
Proof.
  unfold with_guard, mbind, state_bind, on_heap. destruct (guard_new c (w_heap w)) as [[] h1]. simpl.
  destruct (body _) as [x w2]. simpl. by destruct (guard_drop c (w_heap w2)).
Qed.

(** The guard's increment and decrement cancel when the body leaves the counters
    alone. *)
Lemma with_guard_read {A} c (body : state World A) w l :
  (forall w0, w_heap (body w0).2 = w_heap w0) -> Int.is_usize (Atomic.read (w_heap w) l) ->
  Atomic.read (w_heap (with_guard c body w).2) l = Atomic.read (w_heap w) l.
Proof.
  intros Hbody Hl. unfold with_guard, mbind, state_bind, on_heap.
  destruct c as [c|]; simpl.
  - match goal with |- context [body ?w0] => pose proof (Hbody w0) as Hb; destruct (body w0) as [x w2] end.
    simpl in *. rewrite Hb. rewrite !read_write. repeat case_decide; subst; try done.
    by apply Int.wrapping_add_sub.
  - match goal with |- context [body ?w0] => pose proof (Hbody w0) as Hb; destruct (body w0) as [x w2] end.
    simpl in *. by rewrite Hb.
Qed.

Lemma get_endpoint_read t name h l :
  (forall n cr, tb_clusters t !! n = Some cr -> l <> cr_rr_cursor cr) ->
  Atomic.read (get_endpoint iter t name h).2 l = Atomic.read h l.
Proof.
  intros Hl. unfold get_endpoint. destruct (tb_clusters t !! name) as [cr|] eqn:Ecr; [|done].
  assert (Atomic.read (round_robin cr h).2 l = Atomic.read h l) as Hrr.
  { destruct (decide (cr_endpoints cr = [])) as [He|He]; [by rewrite round_robin_empty|].
    rewrite round_robin_eq by done. simpl. apply read_write_ne. by eapply Hl. }
  destruct (cr_lb_policy cr); [done|]. unfold least_conn. case_decide; [done|].
  destruct (Sort.first_min _ _) as [[k c]|]; [|done]. by destruct (cr_endpoints cr !! _).
Qed.

End handler.

(** ** The traffic of one request *)

Section traffic.
Context `{Http} (net : Network) (iter : gmap EndpointKey loc -> list (EndpointKey * loc)).

(** The upstream part of a log. *)
Definition upstream_events (evs : list event) : list event :=
  base.filter (fun e => is_upstream e = true) evs.

Lemma upstream_events_none evs :
  Forall (fun e => is_upstream e = false) evs -> upstream_events evs = [].
Proof.
  unfold upstream_events. induction 1 as [|e evs He Hevs IH]; [done|].
  rewrite filter_cons, decide_False; [done|congruence].
Qed.

Lemma upstream_events_sends client tmo initial snap m :
  upstream_events (sends client tmo initial snap m) = sends client tmo initial snap m.
Proof.
  unfold upstream_events, sends. induction (seq 0 m) as [|i l IH]; [done|].
  rewrite !fmap_cons, filter_cons, decide_True by done. by rewrite IH.
Qed.

(** What one handled request adds to the log: the events of the auth stage, then
    an initial segment of the attempt sequence of an authorised request. *)
Definition traffic_ok (t : RouteTable) (req : Request Incoming) (log evs : list event) : Prop :=
  upstream_events evs = [] \/
  exists host rule cr ep req' up m w,
    extract_host req = inl host /\
    choose_route t host (uri_path (rq_uri req)) = Some rule /\
    get_cluster_rules t (rr_cluster rule) = Some cr /\
    ep ∈ cr_endpoints cr /\
    w_log w = log /\
    (authorise net req host (frontend_tls req) cr w).1 = inl req' /\
    up = upstream_request req' host (frontend_tls req) cr ep /\
    1 <= m <= max_attempts (capture up) (attempts cr) /\
    upstream_events evs
    = sends (client_for (cr_backend_tls_insecure_skip_verify cr)) (Int.as_u64 (cr_timeout_ms cr))
        (map_body BodyIncoming up) (capture up) m.

Lemma get_endpoint_member t name cr h sel h' :
  get_cluster_rules t name = Some cr -> get_endpoint iter t name h = (Some sel, h') ->
  se_endpoint sel ∈ cr_endpoints cr.
Proof.
  unfold get_cluster_rules, get_endpoint. intros ->.
  assert (forall h2, round_robin cr h = (Some sel, h2) -> se_endpoint sel ∈ cr_endpoints cr) as Hrr.
  { intros h2 Heq. destruct (decide (cr_endpoints cr = [])) as [He|He].
    { by rewrite round_robin_empty in Heq. }
    rewrite round_robin_eq in Heq by done.
    destruct (rr_select_total cr (Atomic.read h (cr_rr_cursor cr)) He) as (i & e & Hi & Hs & _).
    rewrite Hs in Heq. injection Heq as <- _. simpl. by eapply list_elem_of_lookup_2. }
  destruct (cr_lb_policy cr); [apply Hrr|]. unfold least_conn. case_decide; [done|].
  destruct (Sort.first_min _ _) as [[k c]|]; [|apply Hrr].
  destruct (cr_endpoints cr !! _) as [e|] eqn:Ee; [|apply Hrr].
  intros [= <- _]. simpl. by eapply list_elem_of_lookup_2.
Qed.

Lemma proxy_handler_traffic t req w :
  exists evs, w_log (proxy_handler net iter t req w).2 = w_log w ++ evs /\
    traffic_ok t req (w_log w) evs.
Proof.
  rewrite proxy_handler_stages. destruct (resolve t req) as [[[host rule] cr]|resp] eqn:Er.
  2: { exists []. simpl. rewrite app_nil_r. split; [done|by left]. }
  apply resolve_inl in Er as (Hhost & Hroute & Hcr).
  destruct (get_endpoint iter t (rr_cluster rule) (w_heap w)) as [[sel|] h] eqn:Ege.
  2: { exists []. simpl. rewrite app_nil_r. split; [done|by left]. }
  rewrite with_guard_log. simpl. set (w0 := mk_world _ (w_log w)).
  rewrite handle_selected_stages.
  destruct (authorise net req host (frontend_tls req) cr w0) as [r w1] eqn:Ea.
  pose proof (authorise_effect _ _ _ _ _ _ _ _ Ea) as (_ & evs1 & Hlog1 & Hevs1).
  destruct r as [req'|resp].
  2: { exists evs1. simpl. split; [done|]. left. by apply upstream_events_none. }
  destruct (forward_selected_effect net req' host (frontend_tls req) cr (se_endpoint sel) w1)
    as (m & r & Hm & ->). simpl.
  exists (evs1 ++ sends (client_for (cr_backend_tls_insecure_skip_verify cr))
    (Int.as_u64 (cr_timeout_ms cr))
    (map_body BodyIncoming (upstream_request req' host (frontend_tls req) cr (se_endpoint sel)))
    (capture (upstream_request req' host (frontend_tls req) cr (se_endpoint sel))) m).
  split; [by rewrite Hlog1, app_assoc|].
  unfold traffic_ok, upstream_events. rewrite filter_app.
  fold (upstream_events evs1). rewrite upstream_events_none by done. simpl.
  fold (upstream_events (sends (client_for (cr_backend_tls_insecure_skip_verify cr))
    (Int.as_u64 (cr_timeout_ms cr))
    (map_body BodyIncoming (upstream_request req' host (frontend_tls req) cr (se_endpoint sel)))
    (capture (upstream_request req' host (frontend_tls req) cr (se_endpoint sel))) m)).
  rewrite upstream_events_sends. destruct m as [|m]; [by left|]. right.
  exists host, rule, cr, (se_endpoint sel), req', (upstream_request req' host (frontend_tls req) cr (se_endpoint sel)), (S m), w0.
  split_and!; try done; [by eapply get_endpoint_member|by rewrite Ea|lia].
Qed.

(** The response headers of every answer of the proxy. *)
Context {HL : HttpLaws H}.

Definition hop_free (h : HeaderMap) : Prop := forall n, n ∈ HOP_HEADERS_REF -> hm_get_all h n = [].

Lemma text_hop_free status s : hop_free (rs_headers (text status s)).
Proof.
  intros n Hn. simpl. rewrite hm_get_all_append, hm_get_all_new. rewrite decide_False; [done|].
  apply hop_ne; [done|reflexivity|decide_compute].
Qed.

Lemma redirect_hop_free status l : hop_free (rs_headers (redirect status l)).
Proof.
  intros n Hn. unfold redirect. destruct (hv_from_str l); simpl; [|apply hm_get_all_new].
  rewrite hm_get_all_insert, hm_get_all_new. rewrite decide_False; [done|].
  apply hop_ne; [done|reflexivity|decide_compute].
Qed.

Lemma finish_hop_free r : hop_free (rs_headers (finish r)).
Proof.
  destruct r as [resp|err]; [|apply text_hop_free].
  intros n Hn. simpl. rewrite remove_hop_get_all. by rewrite decide_True.
Qed.

Lemma authorise_hop_free req host tls cr w resp w' :
  authorise net req host tls cr w = (inr resp, w') -> hop_free (rs_headers resp).
Proof.
  unfold authorise. destruct (cr_auth cr) as [auth|]; [|done].
  unfold perform_auth_if_needed, cookie_redirect, mbind, state_bind, send_auth.
  repeat case_match; simplify_eq/=; try done; intros Heq; injection Heq as Heq _;
    rewrite <-Heq; (apply text_hop_free || apply redirect_hop_free).
Qed.

Lemma proxy_handler_hop_free t req w : hop_free (rs_headers (proxy_handler net iter t req w).1).
Proof.
  rewrite proxy_handler_stages. destruct (resolve t req) as [[[host rule] cr]|resp] eqn:Er.
  - destruct (get_endpoint iter t (rr_cluster rule) (w_heap w)) as [[sel|] h]; [|apply text_hop_free].
    rewrite with_guard_result, handle_selected_stages.
    destruct (authorise net req host (frontend_tls req) cr _) as [[req'|resp] w1] eqn:Ea.
    + destruct (forward_selected _ _ _ _ _ _ _) as [r w2]. apply finish_hop_free.
    + by eapply authorise_hop_free.
  - unfold resolve, extract_host, resolve_route, resolve_cluster in Er.
    repeat case_match; simplify_eq; apply text_hop_free.
Qed.

End traffic.

(** ** Properties *)

Lemma authorise_inl `{Http} net req host tls cr w req' w' :
  authorise net req host tls cr w = (inl req', w') ->
  rq_body req' = rq_body req /\
  forall auth, cr_auth cr = Some auth ->
    skips_auth auth (uri_path (rq_uri req)) = true \/
    exists u resp, auth_granted net (w_log w) req auth host tls
                     (cr_backend_tls_insecure_skip_verify cr) u resp.
Proof.
  unfold authorise. destruct (cr_auth cr) as [auth|].
  - intros [(u & resp & Heq & _ & _ & Hg & _)|[(Heq & Hs & _)|(resp & Heq & _)]]%perform_auth_cases;
      simplify_eq; (split; [done|]); intros auth' [= <-]; eauto.
  - intros [= <- <-]. by split.
Qed.

(** C6. End-to-end safety of the request path: whatever the network answers, a
    request sent to an endpoint belongs to a client request that was matched by
    a route whose cluster exists, goes to an endpoint of that cluster, and, if
    the cluster has external auth, is on a skipped path or was granted by the
    auth service. *)
Theorem upstream_only_when_authorised `{Http} (net : Network) iter (t : RouteTable)
    (req : Request Incoming) (w : World) :
  exists evs, w_log (proxy_handler net iter t req w).2 = w_log w ++ evs /\
    (upstream_events evs = [] \/
     exists host rule cr ep,
       extract_host req = inl host /\
       choose_route t host (uri_path (rq_uri req)) = Some rule /\
       get_cluster_rules t (rr_cluster rule) = Some cr /\
       ep ∈ cr_endpoints cr /\
       forall auth, cr_auth cr = Some auth ->
         skips_auth auth (uri_path (rq_uri req)) = true \/
         exists u resp, auth_granted net (w_log w) req auth host (frontend_tls req)
                          (cr_backend_tls_insecure_skip_verify cr) u resp).
Proof.
  destruct (proxy_handler_traffic net iter t req w) as (evs & Hlog & Htr).
  exists evs. split; [done|]. destruct Htr as [?|Htr]; [by left|]. right.
  destruct Htr as (host & rule & cr & ep & req' & up & m & w0 & ? & ? & ? & ? & Hw & Ha & _).
  exists host, rule, cr, ep. split_and!; [done..|].
  destruct (authorise net req host (frontend_tls req) cr w0) as [r w1] eqn:Ea. simpl in Ha. subst r.
  rewrite <-Hw. eapply authorise_inl, Ea.
Qed.

Lemma attempts_i32 `{Http} cr : Int.is_i32 (cr_retries cr) -> attempts cr = Z.to_nat (Z.max (cr_retries cr) 1).
Proof.
  intros [Hlo Hhi]. unfold attempts, Int.as_usize. rewrite Z.mod_small; [done|].
  unfold Int.usize_modulus. lia.
Qed.

Lemma upstream_request_body `{Http} req host tls cr ep :
  rq_body (upstream_request req host tls cr ep) = rq_body req.
Proof.
  pose proof (handle_req_upstream_kept req host (ep_address ep) (Int.as_u16 (ep_port ep))
    (cr_backend_protocol cr) tls) as (_ & Hb & _).
  unfold upstream_request. by destruct (negb _).
Qed.

(** One client request causes at most as many upstream requests as the
    cluster's retries setting (at least one), and at most one when its body has
    not been fully read. *)
Theorem upstream_attempts_bounded `{Http} (net : Network) iter (t : RouteTable)
    (req : Request Incoming) (w : World) (bound : Z) :
  (forall n cr, tb_clusters t !! n = Some cr ->
     Int.is_i32 (cr_retries cr) /\ (Z.max (cr_retries cr) 1 <= bound)%Z) ->
  exists evs, w_log (proxy_handler net iter t req w).2 = w_log w ++ evs /\
    (Z.of_nat (length (upstream_events evs)) <= Z.max bound 0)%Z /\
    (body_is_end_stream (rq_body req) = false -> length (upstream_events evs) <= 1).
Proof.
  intros Hb. destruct (proxy_handler_traffic net iter t req w) as (evs & Hlog & Htr).
  exists evs. split; [done|].
  destruct Htr as [->|(host & rule & cr & ep & req' & up & m & w0 & _ & _ & Hcr & _ & _ & Ha & -> & Hm & ->)].
  { simpl. lia. }
  destruct (authorise net req host (frontend_tls req) cr w0) as [r w1] eqn:Ea. simpl in Ha. subst r.
  apply authorise_inl in Ea as [Hbody _]. destruct (Hb _ _ Hcr) as [Hi32 Hbound].
  unfold sends. rewrite length_fmap, length_seq. unfold max_attempts, capture in Hm. simpl in Hm.
  rewrite upstream_request_body, Hbody, attempts_i32 in Hm by done.
  destruct (body_is_end_stream (rq_body req)); split; lia || intros; lia || done.
Qed.

Lemma proxy_handler_read `{Http} net iter t req w l :
  Atomic.wf (w_heap w) ->
  (forall n cr, tb_clusters t !! n = Some cr -> l <> cr_rr_cursor cr) ->
  Atomic.read (w_heap (proxy_handler net iter t req w).2) l = Atomic.read (w_heap w) l.
Proof.
  intros Hwf Hl. rewrite proxy_handler_stages.
  destruct (resolve t req) as [[[host rule] cr]|resp]; [|done].
  pose proof (get_endpoint_read iter t (rr_cluster rule) (w_heap w) l Hl) as Hr.
  destruct (get_endpoint iter t (rr_cluster rule) (w_heap w)) as [[sel|] h]; simpl in Hr; [|done].
  rewrite with_guard_read; [done|intros; apply handle_selected_heap|].
  simpl. rewrite Hr. by apply read_usize.
Qed.

(** In-flight accounting is balanced: once a request has been handled, on
    whatever path, the connection counter of every endpoint of the table has
    the value it had before. *)
Theorem handler_counters_balanced `{Http} (net : Network) iter (snap : Snapshot) (h0 : heap)
    (req : Request Incoming) (w : World) (n : rstr) (cr : ClusterRule) (i : nat) (l : loc) :
  Atomic.wf (w_heap w) ->
  tb_clusters (new snap h0).1 !! n = Some cr ->
  counter_for_index cr i = Some l ->
  Atomic.read (w_heap (proxy_handler net iter (new snap h0).1 req w).2) l
  = Atomic.read (w_heap w) l.
Proof.
  intros Hwf Hn Hl. apply proxy_handler_read; [done|].
  intros n' cr' Hn'. exact (new_counter_not_cursor snap h0 n cr i l n' cr' Hn Hl Hn').
Qed.

(** No answer of the proxy, its own or a forwarded one, carries a hop-by-hop
    header. *)
Theorem responses_hop_free (H : Http) (HL : HttpLaws H) (net : Network) iter (t : RouteTable)
    (req : Request Incoming) (w : World) (n : HeaderName) :
  n ∈ HOP_HEADERS_REF -> hm_get_all (rs_headers (proxy_handler net iter t req w).1) n = [].
Proof. intros Hn. by apply (proxy_handler_hop_free net iter t req w). Qed.

(** C38. A request that cannot be resolved is answered without any traffic and
    without touching a counter: 400 without a usable host, 404 without a route
    or without its cluster, 502 for a cluster without endpoints. *)
Theorem unresolved_requests_rejected `{Http} (net : Network) iter (t : RouteTable)
    (req : Request Incoming) (w : World) :
  match extract_host req with
  | inr resp => proxy_handler net iter t req w = (resp, w) /\ rs_status resp = 400%Z
  | inl host =>
      match choose_route t host (uri_path (rq_uri req)) with
      | None => proxy_handler net iter t req w = (text 404 (str "route not found"), w)
      | Some rule =>
          match get_cluster_rules t (rr_cluster rule) with
          | None => proxy_handler net iter t req w = (text 404 (str "cluster rules not found"), w)
          | Some cr =>
              cr_endpoints cr = [] ->
              proxy_handler net iter t req w = (text 502 (str "endpoint not found"), w)
          end
      end
  end.
Proof.
  rewrite proxy_handler_stages. unfold resolve, resolve_route, resolve_cluster.
  destruct (extract_host req) as [host|resp] eqn:Eh.
  - destruct (choose_route t host _) as [rule|]; [|done].
    destruct (get_cluster_rules t (rr_cluster rule)) as [cr|] eqn:Ecr; [|done].
    intros He. unfold get_endpoint. unfold get_cluster_rules in Ecr. rewrite Ecr.
    destruct w as [h log]. destruct (cr_lb_policy cr); simpl.
    + by rewrite round_robin_empty.
    + unfold least_conn. by rewrite He.
  - split; [done|]. unfold extract_host in Eh. repeat case_match; simplify_eq; done.
Qed.

(** Consequence for the control plane's naming scheme: a route whose cluster
    name contains an upper-case ASCII letter (such as the path part of
    "host|/Api") answers every request with 404, even when the snapshot
    defines that cluster. *)
Theorem upper_case_cluster_answers_404 `{Http} (net : Network) iter (snap : Snapshot) (h : heap)
    (req : Request Incoming) (w : World) (host : rstr) (rule : RouteRule) :
  extract_host req = inl host ->
  choose_route (new snap h).1 host (uri_path (rq_uri req)) = Some rule ->
  Str.to_ascii_lowercase (rr_cluster rule) <> rr_cluster rule ->
  proxy_handler net iter (new snap h).1 req w = (text 404 (str "cluster rules not found"), w).
Proof.
  intros Hhost Hroute Hcase. rewrite proxy_handler_stages.
  unfold resolve, resolve_route, resolve_cluster. rewrite Hhost, Hroute.
  by rewrite get_cluster_rules_not_lower.
Qed.

(** The host taken from the URI (requests without a Host header, as HTTP/2
    clients send them) is not lower-cased: with an upper-case letter in it, no
    route of the host is found and only catch-all routes can serve it. *)
Theorem uri_host_case_not_folded `{Http} (net : Network) iter (snap : Snapshot) (h : heap)
    (req : Request Incoming) (w : World) (host : rstr) :
  hm_get (rq_headers req) HOST = None ->
  uri_host (rq_uri req) = Some host ->
  Str.to_ascii_lowercase host <> host ->
  best_rule (sn_routes snap) (str "") (uri_path (rq_uri req)) = None ->
  proxy_handler net iter (new snap h).1 req w = (text 404 (str "route not found"), w).
Proof.
  intros Hh Hu Hcase Hb. rewrite proxy_handler_stages. unfold resolve, extract_host, resolve_route.
  rewrite Hh, Hu, choose_route_new, best_rule_not_lower by done. by rewrite Hb.
Qed.

Lemma forward_all_fail `{Http} net client tmo initial snapshot addr retries w :
  1 <= retries ->
  (forall log c tm r, failed (upstream_net net log c tm r) = true) ->
  exists err, (forward_to_upstream net initial client tmo retries snapshot addr w).1 = inr err.
Proof.
  intros Hr Hfail.
  destruct (forward_to_upstream_spec net client tmo initial snapshot addr retries w Hr)
    as (m & r & _ & -> & _ & Hres). unfold forward_result in Hres. simpl.
  assert (failed (outcome net client tmo initial snapshot (w_log w) (m - 1)) = true) as Hf
    by apply Hfail.
  destruct (outcome _ _ _ _ _ _ (m - 1)); [done|destruct Hres as [_ ->]; by eexists..].
Qed.

(** When the endpoint answers no attempt (timeouts included), the client gets
    a 502; a timeout is not told apart by its status. *)
Theorem unanswered_request_is_502 `{Http} (net : Network) iter (t : RouteTable)
    (req : Request Incoming) (w : World) (host : rstr) (rule : RouteRule) (cr : ClusterRule) :
  extract_host req = inl host ->
  choose_route t host (uri_path (rq_uri req)) = Some rule ->
  get_cluster_rules t (rr_cluster rule) = Some cr ->
  cr_auth cr = None ->
  Int.is_i32 (cr_retries cr) ->
  (forall log c tm r, failed (upstream_net net log c tm r) = true) ->
  rs_status (proxy_handler net iter t req w).1 = 502%Z.
Proof.
  intros Hhost Hroute Hcr Hauth Hi32 Hfail. rewrite proxy_handler_stages.
  unfold resolve, resolve_route, resolve_cluster. rewrite Hhost, Hroute, Hcr.
  destruct (get_endpoint _ _ _ _) as [[sel|] h]; [|done].
  rewrite with_guard_result, handle_selected_stages. unfold authorise. rewrite Hauth. cbn.
  unfold forward_selected.
  match goal with |- context [forward_to_upstream net ?a ?b ?c ?d ?e ?f ?g] =>
    destruct (forward_all_fail net b c a e f d g) as [err Herr]; [|done|];
      [rewrite attempts_i32 by done; lia|];
    destruct (forward_to_upstream net a b c d e f g) as [r w2] end.
  simpl in Herr. by subst r.
Qed.

(** ** Witnesses: requests against the demo configuration *)

Module HandlerDemo.
#[local] Existing Instance simple_http.
Definition ok_response : Response Incoming := mk_response 200%Z HTTP_11 RequestDemo.headers (str "hi").
Definition granting_net : Network := {|
  auth_net := fun _ _ _ => inl ok_response;
  upstream_net := fun _ _ _ _ => UpOk ok_response |}.
Definition silent_net : Network := {|
  auth_net := fun _ _ _ => inr (str "unreachable");
  upstream_net := fun _ _ _ _ => UpTimeout tt |}.
Definition world : World := mk_world Demo.heap0 [].
Definition iter : gmap EndpointKey loc -> list (EndpointKey * loc) := map_to_list.
Definition h2_request (host path : string) : Request Incoming :=
  mk_request (str "GET") (mk_parts (Some (str "https")) (Some (str host)) (Some (str path)))
    HTTP_2 [] [] (Some true).
End HandlerDemo.

Lemma demo_clusters_bounded n (cr : @ClusterRule simple_http) :
  tb_clusters (@new simple_http Demo.snapshot heap_empty).1 !! n = Some cr ->
  Int.is_i32 (cr_retries cr) /\ (Z.max (cr_retries cr) 1 <= 3)%Z.
Proof.
  intros (c & Hc & Hagree)%new_cluster_source. rewrite (agrees_retries _ _ Hagree).
  cut (Forall (fun c => (1 <=? cl_retries c) && (cl_retries c <=? 3) = true)%Z (sn_clusters Demo.snapshot)).
  { rewrite Forall_forall. intros Hall. specialize (Hall c Hc). unfold Int.is_i32. lia. }
  repeat constructor.
Qed.

Lemma upstream_attempts_bounded_witness :
  exists evs, w_log (@proxy_handler simple_http HandlerDemo.silent_net HandlerDemo.iter (@new simple_http Demo.snapshot heap_empty).1
                       (RequestDemo.request "/x") HandlerDemo.world).2 = evs /\
    (Z.of_nat (length (upstream_events evs)) <= 3)%Z.
Proof.
  destruct (@upstream_attempts_bounded simple_http HandlerDemo.silent_net HandlerDemo.iter
    (@new simple_http Demo.snapshot heap_empty).1 (RequestDemo.request "/x") HandlerDemo.world 3) as (evs & Hlog & Hlen & _).
  - intros n cr Hn. exact (demo_clusters_bounded n cr Hn).
  - exists evs. split; [exact Hlog|exact Hlen].
Defined.

Lemma handler_counters_balanced_witness :
  exists l, counter_for_index demo_cluster 1 = Some l /\
    Atomic.read (w_heap (@proxy_handler simple_http HandlerDemo.granting_net HandlerDemo.iter
      (@new simple_http Demo.snapshot heap_empty).1 (RequestDemo.request "/api/x") HandlerDemo.world).2) l
    = Atomic.read Demo.heap0 l.
Proof.
  eexists. split; [vm_compute; reflexivity|].
  apply (@handler_counters_balanced simple_http HandlerDemo.granting_net HandlerDemo.iter
    Demo.snapshot heap_empty (RequestDemo.request "/api/x") HandlerDemo.world
    (str "demo.local|/api") demo_cluster 1).
  - apply new_heap_wf, heap_empty_wf.
  - vm_compute. reflexivity.
  - vm_compute. reflexivity.
Defined.

Lemma responses_hop_free_witness :
  @hm_get_all simple_http (rs_headers (@proxy_handler simple_http HandlerDemo.granting_net
    HandlerDemo.iter Demo.table (RequestDemo.request "/x") HandlerDemo.world).1) (@CONNECTION simple_http)
  = [].
Proof.
  apply (responses_hop_free simple_http simple_http_laws HandlerDemo.granting_net HandlerDemo.iter
    Demo.table (RequestDemo.request "/x") HandlerDemo.world). left.
Defined.

Lemma unresolved_requests_rejected_witness :
  @proxy_handler simple_http HandlerDemo.granting_net HandlerDemo.iter Demo.table
    (RequestDemo.request "/api") HandlerDemo.world
  = (@text simple_http 502 (str "endpoint not found"), HandlerDemo.world).
Proof.
  pose proof (@unresolved_requests_rejected simple_http HandlerDemo.granting_net HandlerDemo.iter
    Demo.table (RequestDemo.request "/api") HandlerDemo.world) as Hw.
  vm_compute in Hw. vm_compute. apply Hw. reflexivity.
Defined.

Lemma upper_case_cluster_answers_404_witness :
  @proxy_handler simple_http HandlerDemo.granting_net HandlerDemo.iter
    (@new simple_http Demo.snapshot heap_empty).1 (RequestDemo.request "/Api/x") HandlerDemo.world
  = (@text simple_http 404 (str "cluster rules not found"), HandlerDemo.world).
Proof.
  apply (@upper_case_cluster_answers_404 simple_http HandlerDemo.granting_net HandlerDemo.iter
    Demo.snapshot heap_empty (RequestDemo.request "/Api/x") HandlerDemo.world (str "demo.local")
    {| rr_path := str "/Api"; rr_path_type := Prefix; rr_cluster := str "demo.local|/Api";
       rr_priority := 2000004 |}).
  - vm_compute. reflexivity.
  - vm_compute. reflexivity.
  - vm_compute. discriminate.
Defined.

Lemma uri_host_case_not_folded_witness :
  @proxy_handler simple_http HandlerDemo.granting_net HandlerDemo.iter
    (@new simple_http Demo.snapshot heap_empty).1 (HandlerDemo.h2_request "Demo.local" "/x")
    HandlerDemo.world
  = (@text simple_http 404 (str "route not found"), HandlerDemo.world) /\
  rs_status (@proxy_handler simple_http HandlerDemo.granting_net HandlerDemo.iter
    (@new simple_http Demo.snapshot heap_empty).1 (HandlerDemo.h2_request "demo.local" "/x")
    HandlerDemo.world).1 = 200%Z.
Proof.
  split; [|vm_compute; reflexivity].
  apply (@uri_host_case_not_folded simple_http HandlerDemo.granting_net HandlerDemo.iter
    Demo.snapshot heap_empty (HandlerDemo.h2_request "Demo.local" "/x") HandlerDemo.world
    (str "Demo.local")).
  - vm_compute. reflexivity.
  - vm_compute. reflexivity.
  - vm_compute. discriminate.
  - vm_compute. reflexivity.
Defined.

Definition demo_root_cluster : @ClusterRule simple_http :=
  default demo_cluster (tb_clusters Demo.table !! str "demo.local|/").

Lemma unanswered_request_is_502_witness :
  rs_status (@proxy_handler simple_http HandlerDemo.silent_net HandlerDemo.iter Demo.table
    (RequestDemo.request "/x") HandlerDemo.world).1 = 502%Z.
Proof.
  apply (@unanswered_request_is_502 simple_http HandlerDemo.silent_net HandlerDemo.iter Demo.table
    (RequestDemo.request "/x") HandlerDemo.world (str "demo.local")
    {| rr_path := str "/"; rr_path_type := Prefix; rr_cluster := str "demo.local|/";
       rr_priority := 2000001 |} demo_root_cluster).
  - vm_compute. reflexivity.
  - vm_compute. reflexivity.
  - vm_compute. reflexivity.
  - vm_compute. reflexivity.
  - vm_compute. split; [discriminate|reflexivity].
  - intros log c tm r. reflexivity.
Defined.
