(* ===== verification/Certs.v ===== *)
(** Server certificates: src/images/dataplane/src/certs.rs. A snapshot carries
    TLS bundles (a PEM chain, a PEM key and the host names they serve);
    [certificates_from_snap] turns them into a map from host names to certified
    keys, and [DynResolver] picks from it by the name the TLS client asks for.

    PEM parsing and key handling are rustls code and enter through the class
    [Rustls]. *)

From stdpp Require Import base gmap list strings.
From Stdlib Require Import ZArith NArith Lia.
From S2P Require Import Prelude RustStr Config.

(** ** The rustls interface *)

(** [rustls_pemfile::Item]: the kinds of PEM blocks the code tells apart. *)
Inductive Item (Der : Type) :=
  | X509Certificate (d : Der)
  | Pkcs8Key (d : Der)
  | Pkcs1Key (d : Der)
  | Sec1Key (d : Der)
  | OtherItem (d : Der).
Arguments X509Certificate {_} _.
Arguments Pkcs8Key {_} _.
Arguments Pkcs1Key {_} _.
Arguments Sec1Key {_} _.
Arguments OtherItem {_} _.

Class Rustls := {
  Der : Type;
  PrivateKeyDer : Type;
  SigningKey : Type;
  (** [rustls_pemfile::read_all] and [read_one]; [None] is an error *)
  read_all : list N -> list (option (Item Der));
  read_one : list N -> option (option (Item Der));
  key_from_pkcs8 : Der -> PrivateKeyDer;
  key_from_pkcs1 : Der -> PrivateKeyDer;
  key_from_sec1 : Der -> PrivateKeyDer;
  (** [any_supported_type]; [None] is an error *)
  any_supported_type : PrivateKeyDer -> option SigningKey;
  (** [rcgen::generate_simple_self_signed]: the certificate and its PKCS#8 key *)
  generate_simple_self_signed : list rstr -> option (Der * Der);
}.

Section certs.
Context `{Rustls}.

(** [CertifiedKey::new(chain, key)] *)
Record CertifiedKey := { ck_cert : list Der; ck_key : SigningKey }.

Abbreviation CertMap := (gmap rstr CertifiedKey).

(** ** From bundles to the map *)

(** The loop over [read_all]: certificates are kept, other blocks and broken
    ones are skipped. *)
Definition chain_der (cert_pem : list N) : list Der :=
  omap (fun item => match item with
                    | Some (X509Certificate cert) => Some cert
                    | Some _ => None
                    | None => None
                    end) (read_all cert_pem).

Definition key_der (key_pem : list N) : option PrivateKeyDer :=
  match read_one key_pem with
  | Some (Some (Pkcs8Key der)) => Some (key_from_pkcs8 der)
  | Some (Some (Pkcs1Key der)) => Some (key_from_pkcs1 der)
  | Some (Some (Sec1Key der)) => Some (key_from_sec1 der)
  | Some (Some _) => None
  | Some None => None
  | None => None
  end.

(** The certified key of one bundle; [None] is a [continue]. *)
Definition bundle_key (sni : ServerTlsBundle) : option CertifiedKey :=
  match chain_der (tls_cert_pem sni) with
  | [] => None
  | chain =>
      match key_der (tls_key_pem sni) with
      | None => None
      | Some key_der =>
          match any_supported_type key_der with
          | None => None
          | Some signing_key => Some {| ck_cert := chain; ck_key := signing_key |}
          end
      end
  end.

(** One iteration of the loop over [snapshot.server_tls]. *)
Definition insert_bundle (map : CertMap) (sni : ServerTlsBundle) : CertMap :=
  match bundle_key sni with
  | None => map
  | Some ck => fold_left (fun map host => <[host := ck]> map) (tls_sni sni) map
  end.

Definition certificates_from_snap (snapshot : Snapshot) : CertMap :=
  fold_left insert_bundle (sn_server_tls snapshot) ∅.

(** ** Resolution *)

Definition wildcard (name : rstr) : option rstr :=
  match Str.find name 46 with
  | Some pos => Some (str "*." ++ drop (pos + 1) name)
  | None => None
  end.

(** [DynResolver::resolve]. The map is loaded twice, before each lookup, and may
    be replaced in between: [map1] and [map2] are what the two loads return. *)
Definition resolve_loads (map1 map2 : CertMap) (default_cert : CertifiedKey)
    (server_name : option rstr) : option CertifiedKey :=
  match server_name with
  | None => None
  | Some n =>
      let name := Str.to_ascii_lowercase n in
      match map1 !! name with
      | Some v => Some v
      | None =>
          match wildcard name with
          | Some star =>
              match map2 !! star with
              | Some v => Some v
              | None => Some default_cert
              end
          | None => Some default_cert
          end
      end
  end.

Record DynResolver := { dr_map : CertMap; dr_default : CertifiedKey }.

(** Resolution without a concurrent update. *)
Definition resolve_cert (r : DynResolver) (server_name : option rstr) : option CertifiedKey :=
  resolve_loads (dr_map r) (dr_map r) (dr_default r) server_name.

Definition make_dummy_cert : option CertifiedKey :=
  match generate_simple_self_signed
          [str "hello.world.example"; str "localhost"; str "echo.local"] with
  | None => None
  | Some (cert_der, key_bytes) =>
      match any_supported_type (key_from_pkcs8 key_bytes) with
      | None => None
      | Some signing_key => Some {| ck_cert := [cert_der]; ck_key := signing_key |}
      end
  end.

(** ** Specification *)

(** The certificate a list of bundles gives a host name: that of the last usable
    bundle that lists the name. *)
Definition cert_for (bundles : list ServerTlsBundle) (name : rstr) : option CertifiedKey :=
  last (omap (fun b => if decide (name ∈ tls_sni b) then bundle_key b else None) bundles).

Lemma insert_hosts_lookup (ck : CertifiedKey) (hosts : list rstr) (m : CertMap) (name : rstr) :
  fold_left (fun (map : CertMap) host => <[host := ck]> map) hosts m !! name
  = if decide (name ∈ hosts) then Some ck else m !! name.
Proof.
  revert m. induction hosts as [|host hosts IH]; intros m; cbn [fold_left].
  { rewrite decide_False; [done|]. apply not_elem_of_nil. }
  rewrite IH. destruct (decide (name ∈ hosts)) as [Hin|Hin].
  { rewrite decide_True; [done|by right]. }
  destruct (decide (name = host)) as [->|Hne].
  - rewrite decide_True by left. apply lookup_insert_eq.
  - rewrite decide_False by (rewrite elem_of_cons; naive_solver). by apply lookup_insert_ne.
Qed.

Lemma insert_bundle_lookup m b name :
  insert_bundle m b !! name
  = match (if decide (name ∈ tls_sni b) then bundle_key b else None) with
    | Some ck => Some ck
    | None => m !! name
    end.
Proof.
  unfold insert_bundle. destruct (bundle_key b) as [ck|]; [|by case_decide].
  rewrite insert_hosts_lookup. by case_decide.
Qed.

Lemma fold_bundles_lookup bundles m name :
  fold_left insert_bundle bundles m !! name
  = match cert_for bundles name with Some ck => Some ck | None => m !! name end.
Proof.
  induction bundles as [|b bundles IH] using rev_ind; [done|].
  rewrite fold_left_app. simpl. rewrite insert_bundle_lookup, IH.
  unfold cert_for. rewrite omap_app. simpl.
  destruct (if decide (name ∈ tls_sni b) then bundle_key b else None) as [ck|]; simpl.
  - by rewrite last_snoc.
  - by rewrite app_nil_r.
Qed.

Lemma certificates_lookup snap name :
  certificates_from_snap snap !! name = cert_for (sn_server_tls snap) name.
Proof. unfold certificates_from_snap. rewrite fold_bundles_lookup. by destruct (cert_for _ _). Qed.

Lemma wildcard_spec name star :
  wildcard name = Some star <->
  exists label rest, name = label ++ 46%N :: rest /\ (46%N ∉ label) /\ star = str "*." ++ rest.
Proof.
  unfold wildcard. destruct (Str.find name 46) as [pos|] eqn:E.
  - apply find_spec in E as (label & rest & -> & <- & Hn).
    assert (drop (length label + 1) (label ++ 46%N :: rest) = rest) as ->.
    { rewrite <-drop_drop, drop_app_length. done. }
    split.
    + intros [= <-]. by exists label, rest.
    + intros (label' & rest' & Heq & Hn' & ->). do 2 f_equal.
      assert (Str.find (label ++ 46%N :: rest) 46 = Some (length label)) as E1
        by (apply find_spec; eauto).
      assert (Str.find (label ++ 46%N :: rest) 46 = Some (length label')) as E2
        by (apply find_spec; eauto).
      rewrite E1 in E2. injection E2 as Hlen. apply app_inj_1 in Heq as [_ Heq]; [|done].
      by injection Heq.
  - apply find_None in E. split; [done|]. intros (label & rest & -> & _). destruct E. set_solver.
Qed.

Lemma wildcard_None name : wildcard name = None <-> 46%N ∉ name.
Proof. unfold wildcard. rewrite <-find_None. by destruct (Str.find name 46). Qed.

(** Only lower-case names are looked up. *)
Lemma wildcard_lower n star :
  wildcard (Str.to_ascii_lowercase n) = Some star -> Str.to_ascii_lowercase star = star.
Proof.
  intros (label & rest & Hn & _ & ->)%wildcard_spec.
  assert (Str.to_ascii_lowercase rest = rest) as Hr.
  { pose proof (lowercase_idemp n) as Hl. rewrite Hn in Hl. unfold Str.to_ascii_lowercase in Hl.
    rewrite map_app in Hl. apply app_inj_1 in Hl as [_ Hl]; [|by rewrite length_map].
    by injection Hl. }
  unfold Str.to_ascii_lowercase in *. rewrite map_app. by f_equal.
Qed.

End certs.

(** ** Properties *)

(** C26. The certificate served for a host name is decided by the snapshot's
    bundles alone: the last usable bundle (certificates present, a supported
    key) that lists the lower-cased name; without one, the last usable bundle
    that lists the wildcard of the name's parent domain, standing for exactly
    one label; without that, the default certificate. Broken bundles never
    affect the others, and a client that sends no name gets no certificate. *)
Theorem resolve_refines_bundles `{Rustls} (snap : Snapshot) (dflt : CertifiedKey) (n : rstr) :
  let r := {| dr_map := certificates_from_snap snap; dr_default := dflt |} in
  let name := Str.to_ascii_lowercase n in
  let covers star := exists label rest,
    name = label ++ 46%N :: rest /\ (46%N ∉ label) /\ star = str "*." ++ rest in
  resolve_cert r None = None /\
  exists ck, resolve_cert r (Some n) = Some ck /\
    (cert_for (sn_server_tls snap) name = Some ck \/
     cert_for (sn_server_tls snap) name = None /\
     ((exists star, covers star /\ cert_for (sn_server_tls snap) star = Some ck) \/
      (forall star, covers star -> cert_for (sn_server_tls snap) star = None) /\ ck = dflt)).
Proof.
  intros r name covers. split; [done|]. unfold resolve_cert, resolve_loads. simpl.
  fold name. rewrite certificates_lookup.
  destruct (cert_for (sn_server_tls snap) name) as [ck|]; [by eauto|].
  destruct (wildcard name) as [star|] eqn:Ew.
  - rewrite certificates_lookup. destruct (cert_for _ star) as [ck|] eqn:Es.
    + exists ck. split; [done|]. right. split; [done|]. left. exists star.
      split; [by apply wildcard_spec|done].
    + exists dflt. split; [done|]. right. split; [done|]. right. split; [|done].
      intros star' Hc%wildcard_spec. rewrite Ew in Hc. by simplify_eq.
  - exists dflt. split; [done|]. right. split; [done|]. right. split; [|done].
    intros star' Hc%wildcard_spec. by rewrite Ew in Hc.
Qed.

(** The names of the bundles are stored as they are while names are looked
    up in lower case: an entry with an upper-case ASCII letter serves no
    client, whatever the client asks for. *)
Theorem upper_case_sni_never_served `{Rustls} (map1 map2 : gmap rstr CertifiedKey)
    (dflt : CertifiedKey) (server_name : option rstr) (host : rstr) (ck : CertifiedKey) :
  Str.to_ascii_lowercase host <> host ->
  resolve_loads (<[host := ck]> map1) (<[host := ck]> map2) dflt server_name
  = resolve_loads map1 map2 dflt server_name.
Proof.
  intros Hcase. unfold resolve_loads. destruct server_name as [n|]; [|done].
  rewrite lookup_insert_ne.
  2: { intros ->. by rewrite lowercase_idemp in Hcase. }
  destruct (wildcard (Str.to_ascii_lowercase n)) as [star|] eqn:Ew; [|done].
  rewrite lookup_insert_ne; [done|]. intros ->. by apply wildcard_lower in Ew.
Qed.

(** A handshake that races with an update of the certificate map is served
    a certificate of the old or the new map or the default one, and the
    default one only if the name itself is missing from the first map and its
    wildcard from the second. *)
Theorem resolve_during_update `{Rustls} (map1 map2 : gmap rstr CertifiedKey)
    (dflt : CertifiedKey) (n : rstr) :
  exists ck, resolve_loads map1 map2 dflt (Some n) = Some ck /\
    (map1 !! Str.to_ascii_lowercase n = Some ck \/
     map1 !! Str.to_ascii_lowercase n = None /\
     ((exists star, wildcard (Str.to_ascii_lowercase n) = Some star /\ map2 !! star = Some ck) \/
      (forall star, wildcard (Str.to_ascii_lowercase n) = Some star -> map2 !! star = None)
      /\ ck = dflt)).
Proof.
  unfold resolve_loads. destruct (map1 !! _) as [ck|]; [by eauto|].
  destruct (wildcard _) as [star|]; [destruct (map2 !! star) as [ck|] eqn:E|].
  { exists ck. split; [done|]. right. split; [done|]. left. by exists star. }
  all: exists dflt; split; [done|]; right; split; [done|]; right; split; [|done].
  - by intros star' [= <-].
  - done.
Qed.

(** ** Witnesses: PEM blocks as tagged bytes *)

Module CertDemo.

(** A PEM file is a list of blocks [tag :: payload], one byte each. *)
Fixpoint blocks (b : list N) : list (option (Item N)) :=
  match b with
  | 1%N :: d :: b => Some (X509Certificate d) :: blocks b
  | 8%N :: d :: b => Some (Pkcs8Key d) :: blocks b
  | 9%N :: d :: b => Some (OtherItem d) :: blocks b
  | _ => []
  end.

Definition tls : Rustls := {|
  Der := N; PrivateKeyDer := N; SigningKey := N;
  read_all := blocks;
  read_one := fun b => Some (default None (head (blocks b)));
  key_from_pkcs8 := fun d => d; key_from_pkcs1 := fun d => d; key_from_sec1 := fun d => d;
  any_supported_type := fun d => if (d =? 0)%N then None else Some d;
  generate_simple_self_signed := fun _ => Some (7%N, 7%N) |}.
#[local] Existing Instance tls.

Definition bundle (hosts : list string) (cert key : list N) : ServerTlsBundle := {|
  tls_name := []; tls_sni := str <$> hosts; tls_cert_pem := cert; tls_key_pem := key;
  tls_not_after_unix := 0; tls_version := [] |}.

Definition snapshot (bundles : list ServerTlsBundle) : Snapshot := {|
  sn_version := str "v1"; sn_controller_id := []; sn_ingress_class_name := [];
  sn_generated_at_unix_sec := 0; sn_resource_versions := ∅; sn_routes := []; sn_clusters := [];
  sn_server_tls := bundles |}.

Definition snap : Snapshot := snapshot
  [bundle ["a.local"; "*.local"] [1; 11] [8; 11]; bundle ["a.local"] [9; 12; 1; 12] [8; 12];
   bundle ["a.local"] [1; 13] [8; 0]; bundle ["B.local"] [1; 14] [8; 14]]%N.

Definition key (n : N) : CertifiedKey := {| ck_cert := [n]; ck_key := n |}.
Definition resolver : DynResolver :=
  {| dr_map := certificates_from_snap snap; dr_default := key 7 |}.

End CertDemo.

Lemma upper_case_sni_never_served_witness :
  @resolve_loads CertDemo.tls (<[str "B.local" := CertDemo.key 14]> ∅)
    (<[str "B.local" := CertDemo.key 14]> ∅) (CertDemo.key 7) (Some (str "B.local"))
  = Some (CertDemo.key 7).
Proof.
  rewrite (@upper_case_sni_never_served CertDemo.tls ∅ ∅ (CertDemo.key 7) (Some (str "B.local"))
    (str "B.local") (CertDemo.key 14)); [vm_compute; reflexivity|vm_compute; discriminate].
Defined.

(** The demo snapshot: the last usable bundle wins, a bundle with an unsupported
    key is skipped, wildcards stand for one label, an upper-case entry is dead. *)
Example resolve_demo :
  map (fun n => @resolve_cert CertDemo.tls CertDemo.resolver (Some (str n)))
    ["A.local"; "c.local"; "b.local"; "x.c.local"; "local"]
  = Some <$> [CertDemo.key 12; CertDemo.key 11; CertDemo.key 11; CertDemo.key 7; CertDemo.key 7].
Proof. vm_compute. reflexivity. Qed.

(** Loading the map twice makes an update visible half-way: while a wildcard
    bundle is replaced by one for the host itself, both maps cover the host but
    a handshake in between is served the default certificate. *)
Theorem resolve_update_gap :
  let old := @certificates_from_snap CertDemo.tls
    (CertDemo.snapshot [CertDemo.bundle ["*.local"] [1; 11] [8; 11]]%N) in
  let new := @certificates_from_snap CertDemo.tls
    (CertDemo.snapshot [CertDemo.bundle ["a.local"] [1; 12] [8; 12]]%N) in
  let resolve m1 m2 := @resolve_loads CertDemo.tls m1 m2 (CertDemo.key 7) (Some (str "a.local")) in
  resolve old old = Some (CertDemo.key 11) /\ resolve new new = Some (CertDemo.key 12) /\
  resolve old new = Some (CertDemo.key 7).
Proof. vm_compute. split_and!; reflexivity. Qed.
