(* ===== verification/Grpc.v ===== *)
(** The configuration watcher: src/images/dataplane/src/grpc.rs. Two tasks share
    state with the rest of the data plane: the certificate watcher polls the
    mounted client certificates, and the manager keeps a Watch stream to the
    control plane open and installs every snapshot it receives.

    The tasks are state machines. A program point is the position between two
    awaits or two accesses of shared state, so that steps of the tasks may
    interleave wherever the code allows it; a label tells what the environment
    answered, or which branch a [select!] took. [cstep] is the executable step
    function and [run] folds it over a schedule. *)

From stdpp Require Import base gmap list strings.
From Stdlib Require Import ZArith NArith Lia.
From S2P Require Import Prelude RustStr Config Http Atomics RouteTable Certs.

(** ** The tokio interface *)

Class Tokio := {
  Notify : Type;
  notify_new : Notify;
  notify_one : Notify -> Notify;
  (** [notified().await] completes: the [Notify] afterwards; [None] is pending *)
  notified : Notify -> option Notify;
  CancellationToken : Type;
  token_new : CancellationToken;
  cancel : CancellationToken -> CancellationToken;
  is_cancelled : CancellationToken -> bool;
}.

(** Documented behaviour: a new [Notify] has no permit, [notify_one] stores a
    permit for the next [notified], at most one is stored; a cancelled token
    stays cancelled. *)
Class TokioLaws (TK : Tokio) : Prop := {
  notified_new : notified notify_new = None;
  notified_one n : is_Some (notified (notify_one n));
  notified_once n n' : notified n = Some n' -> notified n' = None;
  is_cancelled_new : is_cancelled token_new = false;
  is_cancelled_cancel t : is_cancelled (cancel t) = true;
}.

Definition CERT_CA_NAME : rstr := str "ca.crt".
Definition CERT_NAME : rstr := str "tls.crt".
Definition CERT_KEY_NAME : rstr := str "tls.key".

(** ** Loading a certificate file *)

Definition bytes_eq (a b : list N) : bool := bool_decide (a = b).

(** [file] is the result of reading the file ([None] is an I/O error). The
    result is the stored bytes afterwards and the function's value, [None] for
    [Err(())]. *)
Definition try_load_and_store (file : option (list N)) (target : list N)
    : list N * option bool :=
  match file with
  | Some new_bytes =>
      if negb (bool_decide (new_bytes = [])) then
        if negb (bytes_eq new_bytes target) then (new_bytes, Some true)
        else (target, Some false)
      else (target, Some false)
  | None => (target, None)
  end.

Definition backoff_initial : Z := 500.
Definition backoff_max : Z := 10000.
Definition next_backoff (backoff_ms : Z) : Z :=
  Z.min (Int.saturating_mul_u64 backoff_ms 2) backoff_max.

Section grpc.
Context {HT : Http} {RT : Rustls} {TK : Tokio} (controller_addr : rstr).

(** ** State *)

(** The cells the manager shares with the request handlers and the listeners. *)
Record App := mk_app {
  ap_ready : bool;
  ap_snapshot : Snapshot;
  ap_route_table : RouteTable;
  ap_sni : gmap rstr CertifiedKey;
  ap_heap : heap;
}.

(** The cells the two tasks share with each other. *)
Record Pems := mk_pems {
  pm_ca : list N;
  pm_client : list N;
  pm_client_key : list N;
  pm_ca_updated : Notify;
  pm_client_updated : Notify;
}.

(** The TLS settings of a connection. *)
Record ClientTls := mk_tls {
  ct_ca : list N;
  ct_cert : list N;
  ct_key : list N;
  ct_domain : rstr;
}.

Inductive ConnectError :=
  CaMissing | ClientMissing | InvalidAddress | MissingHost.

(** What [connect_fut] does before it dials. *)
Definition connect_prepare (ca cert key : list N) : ClientTls + ConnectError :=
  if bool_decide (ca = []) then inr CaMissing else
  if bool_decide (cert = []) || bool_decide (key = []) then inr ClientMissing else
  match uri_from_str controller_addr with
  | None => inr InvalidAddress
  | Some uri =>
      match uri_host uri with
      | None => inr MissingHost
      | Some host => inl (mk_tls ca cert key host)
      end
  end.

(** ** The manager task *)

Inductive mpc :=
  | MTop
  | MLoadCa
  | MLoadCert (ca : list N)
  | MLoadKey (ca cert : list N)
  | MConnect (ca cert key : list N)
  | MWatch (conn : ClientTls)
  | MSetReady (conn : ClientTls)
  | MStream (conn : ClientTls) (got_first : bool)
  | MBuildTable (conn : ClientTls) (got_first : bool) (snap : Snapshot)
  | MStoreSni (conn : ClientTls) (got_first : bool) (snap : Snapshot)
  | MBackoff
  | MDone.

Record Manager := mk_manager { mg_pc : mpc; mg_backoff_ms : Z }.

Inductive mlabel :=
  | LTau
  | LDialOk | LDialErr | LDialTimeout
  | LWatchOk | LWatchErr
  | LReady
  | LCancelled | LCaNotified | LClientNotified
  | LMessage (snap : Snapshot) | LClosed | LStreamErr
  | LSlept.

(** The program points of the certificate watcher. *)
Inductive wpc :=
  | WSleep
  | WReadCa | WNotifyCa
  | WReadCert | WNotifyCert
  | WReadKey | WNotifyKey
  | WDone.

(** The whole state of the subsystem: the two tasks, the shared cells and the
    cancellation token. *)
Record Ctl := mk_ctl {
  cs_mgr : Manager;
  cs_watcher : wpc;
  cs_app : App;
  cs_pems : Pems;
  cs_cancel : CancellationToken;
}.

Definition set_mgr (c : Ctl) (pc : mpc) : Ctl :=
  mk_ctl (mk_manager pc (mg_backoff_ms (cs_mgr c))) (cs_watcher c) (cs_app c) (cs_pems c) (cs_cancel c).
Definition set_backoff (c : Ctl) (b : Z) : Ctl :=
  mk_ctl (mk_manager (mg_pc (cs_mgr c)) b) (cs_watcher c) (cs_app c) (cs_pems c) (cs_cancel c).
Definition set_watcher (c : Ctl) (pc : wpc) : Ctl :=
  mk_ctl (cs_mgr c) pc (cs_app c) (cs_pems c) (cs_cancel c).
Definition set_app (c : Ctl) (a : App) : Ctl :=
  mk_ctl (cs_mgr c) (cs_watcher c) a (cs_pems c) (cs_cancel c).
Definition set_pems (c : Ctl) (p : Pems) : Ctl :=
  mk_ctl (cs_mgr c) (cs_watcher c) (cs_app c) p (cs_cancel c).

Definition set_ca_updated (p : Pems) (n : Notify) : Pems :=
  mk_pems (pm_ca p) (pm_client p) (pm_client_key p) n (pm_client_updated p).
Definition set_client_updated (p : Pems) (n : Notify) : Pems :=
  mk_pems (pm_ca p) (pm_client p) (pm_client_key p) (pm_ca_updated p) n.

(** The loop head, the three loads and the dial ([timeout(10s, connect_fut)]). *)
Definition connect_step (l : mlabel) (c : Ctl) : option Ctl :=
  match mg_pc (cs_mgr c), l with
  | MTop, LTau => Some (set_mgr c (if is_cancelled (cs_cancel c) then MDone else MLoadCa))
  | MLoadCa, LTau => Some (set_mgr c (MLoadCert (pm_ca (cs_pems c))))
  | MLoadCert ca, LTau => Some (set_mgr c (MLoadKey ca (pm_client (cs_pems c))))
  | MLoadKey ca cert, LTau => Some (set_mgr c (MConnect ca cert (pm_client_key (cs_pems c))))
  | MConnect ca cert key, l =>
      match connect_prepare ca cert key, l with
      | inr _, LTau => Some (set_mgr c MBackoff)
      | inl conn, LDialOk => Some (set_mgr (set_backoff c backoff_initial) (MWatch conn))
      | inl _, (LDialErr | LDialTimeout) => Some (set_mgr c MBackoff)
      | _, _ => None
      end
  | _, _ => None
  end.

(** The sleep after every failure, and after a stream that ended. *)
Definition backoff_step (c : Ctl) : Ctl :=
  set_mgr (set_backoff c (next_backoff (mg_backoff_ms (cs_mgr c)))) MTop.

(** The Watch call, the ready flag, and the backoff sleep. *)
Definition watch_step (l : mlabel) (c : Ctl) : option Ctl :=
  match mg_pc (cs_mgr c), l with
  | MWatch conn, LWatchOk => Some (set_mgr c (MSetReady conn))
  | MWatch _, LWatchErr => Some (set_mgr c MBackoff)
  | MSetReady conn, LReady =>
      let a := cs_app c in
      Some (set_mgr (set_app c (mk_app true (ap_snapshot a) (ap_route_table a) (ap_sni a) (ap_heap a)))
              (MStream conn false))
  | MBackoff, LSlept => Some (backoff_step c)
  | _, _ => None
  end.

(** The stream loop: a [select!] between cancellation, the two notifications and
    the next message; a message updates the snapshot, the route table and the
    certificates one after the other. *)
Definition stream_step (l : mlabel) (c : Ctl) : option Ctl :=
  let a := cs_app c in
  let p := cs_pems c in
  match mg_pc (cs_mgr c), l with
  | MStream _ _, LCancelled =>
      if is_cancelled (cs_cancel c) then Some (set_mgr c MDone) else None
  | MStream _ _, LCaNotified =>
      match notified (pm_ca_updated p) with
      | Some n => Some (set_mgr (set_pems c (set_ca_updated p n)) MBackoff)
      | None => None
      end
  | MStream _ _, LClientNotified =>
      match notified (pm_client_updated p) with
      | Some n => Some (set_mgr (set_pems c (set_client_updated p n)) MBackoff)
      | None => None
      end
  | MStream conn got_first, LMessage snap =>
      Some (set_mgr (set_app c (mk_app (ap_ready a) snap (ap_route_table a) (ap_sni a) (ap_heap a)))
              (MBuildTable conn got_first snap))
  | MStream _ _, (LClosed | LStreamErr) => Some (set_mgr c MBackoff)
  | MBuildTable conn got_first snap, LTau =>
      let '(table, h) := new snap (ap_heap a) in
      Some (set_mgr (set_app c (mk_app (ap_ready a) (ap_snapshot a) table (ap_sni a) h))
              (MStoreSni conn got_first snap))
  | MStoreSni conn got_first snap, LTau =>
      Some (set_mgr (set_app c (mk_app (ap_ready a) (ap_snapshot a) (ap_route_table a)
                                  (certificates_from_snap snap) (ap_heap a)))
              (MStream conn true))
  | _, _ => None
  end.

Definition mstep (l : mlabel) (c : Ctl) : option Ctl :=
  match mg_pc (cs_mgr c) with
  | MTop | MLoadCa | MLoadCert _ | MLoadKey _ _ | MConnect _ _ _ => connect_step l c
  | MWatch _ | MSetReady _ | MBackoff => watch_step l c
  | MStream _ _ | MBuildTable _ _ _ | MStoreSni _ _ _ => stream_step l c
  | MDone => None
  end.

(** ** The certificate watcher task *)

Inductive wlabel :=
  | WTick | WCancelled
  | WFile (file : option (list N))
  | WTau.

(** One [if let Ok(changed) = try_load_and_store(..) { if changed { .. } }]. *)
Definition after_load (r : option bool) (notify next : wpc) : wpc :=
  match r with
  | Some true => notify
  | _ => next
  end.

Definition wstep (l : wlabel) (c : Ctl) : option Ctl :=
  let p := cs_pems c in
  match cs_watcher c, l with
  | WSleep, WCancelled =>
      if is_cancelled (cs_cancel c) then Some (set_watcher c WDone) else None
  | WSleep, WTick => Some (set_watcher c WReadCa)
  | WReadCa, WFile file =>
      let '(ca, r) := try_load_and_store file (pm_ca p) in
      Some (set_watcher (set_pems c (mk_pems ca (pm_client p) (pm_client_key p)
                                       (pm_ca_updated p) (pm_client_updated p)))
              (after_load r WNotifyCa WReadCert))
  | WNotifyCa, WTau =>
      Some (set_watcher (set_pems c (set_ca_updated p (notify_one (pm_ca_updated p)))) WReadCert)
  | WReadCert, WFile file =>
      let '(cert, r) := try_load_and_store file (pm_client p) in
      Some (set_watcher (set_pems c (mk_pems (pm_ca p) cert (pm_client_key p)
                                       (pm_ca_updated p) (pm_client_updated p)))
              (after_load r WNotifyCert WReadKey))
  | WNotifyCert, WTau =>
      Some (set_watcher (set_pems c (set_client_updated p (notify_one (pm_client_updated p)))) WReadKey)
  | WReadKey, WFile file =>
      let '(key, r) := try_load_and_store file (pm_client_key p) in
      Some (set_watcher (set_pems c (mk_pems (pm_ca p) (pm_client p) key
                                       (pm_ca_updated p) (pm_client_updated p)))
              (after_load r WNotifyKey WSleep))
  | WNotifyKey, WTau =>
      Some (set_watcher (set_pems c (set_client_updated p (notify_one (pm_client_updated p)))) WSleep)
  | _, _ => None
  end.

(** ** The subsystem *)

Inductive clabel :=
  | Mgr (l : mlabel)
  | Wat (l : wlabel)
  | Shutdown.

Definition cstep (l : clabel) (c : Ctl) : option Ctl :=
  match l with
  | Mgr l => mstep l c
  | Wat l => wstep l c
  | Shutdown =>
      Some (mk_ctl (cs_mgr c) (cs_watcher c) (cs_app c) (cs_pems c) (cancel (cs_cancel c)))
  end.

(** [GrpcManager::start] with the application state [main] starts with. *)
Definition app_start : App := mk_app false snapshot_default route_table_default ∅ heap_empty.

Definition start : Ctl :=
  mk_ctl (mk_manager MTop backoff_initial) WSleep app_start
    (mk_pems [] [] [] notify_new notify_new) token_new.

Definition is_ready (c : Ctl) : bool := ap_ready (cs_app c).
Definition latest_snapshot (c : Ctl) : Snapshot := ap_snapshot (cs_app c).

(** A schedule is a list of labels, the first step first. *)
Fixpoint run (ls : list clabel) (c : Ctl) : option Ctl :=
  match ls with
  | [] => Some c
  | l :: ls' => match cstep l c with Some c' => run ls' c' | None => None end
  end.

Lemma run_app ls1 ls2 c :
  run (ls1 ++ ls2) c = match run ls1 c with Some c' => run ls2 c' | None => None end.
Proof.
  revert c. induction ls1 as [|l ls1 IH]; intros c; [done|]. simpl.
  destruct (cstep l c); [apply IH|done].
Qed.

(** Invariants that mention the schedule so far: by induction on its last step. *)
Lemma run_invariant (I : list clabel -> Ctl -> Prop) :
  I [] start ->
  (forall ls l c c', run ls start = Some c -> I ls c -> cstep l c = Some c' -> I (ls ++ [l]) c') ->
  forall ls c, run ls start = Some c -> I ls c.
Proof.
  intros H0 Hs ls. induction ls as [|l ls IH] using rev_ind; intros c.
  { intros [= <-]. done. }
  rewrite run_app. destruct (run ls start) as [c0|] eqn:E; [|done]. simpl.
  destruct (cstep l c0) as [c1|] eqn:El; [|done]. intros [= <-]. by eapply Hs; eauto.
Qed.

End grpc.

(** Case analysis on one step: the program points, the labels and the tests. *)
Ltac step_cases H :=
  unfold cstep, mstep, connect_step, watch_step, backoff_step, stream_step, wstep in H;
  repeat case_match; simplify_eq/=.
