(* ===== verification/Watching.v ===== *)
(** What the configuration watcher guarantees, for every schedule of its two
    tasks: the backoff, the cells the request path reads, readiness, and the
    reaction to rotated client certificates. *)

From stdpp Require Import base gmap list strings.
From Stdlib Require Import ZArith NArith Lia.
From S2P Require Import Prelude RustStr Config Http Atomics RouteTable Certs Grpc.

(** ** Observations of a schedule *)

(** The snapshots received, in order. *)
Definition received (ls : list clabel) : list Snapshot :=
  omap (fun l => match l with Mgr (LMessage snap) => Some snap | _ => None end) ls.

(** The backoff sleeps taken since the last successful connect. *)
Definition slept_step (n : nat) (l : clabel) : nat :=
  match l with
  | Mgr LDialOk => 0
  | Mgr LSlept => S n
  | _ => n
  end.
Definition slept (ls : list clabel) : nat := fold_left slept_step ls 0.

Definition is_ready_label (l : clabel) : bool :=
  match l with Mgr LReady => true | _ => false end.

Lemma received_snoc ls l :
  received (ls ++ [l])
  = received ls ++ match l with Mgr (LMessage snap) => [snap] | _ => [] end.
Proof. unfold received. rewrite omap_app. f_equal. destruct l as [[]| |]; done. Qed.

Lemma slept_snoc ls l : slept (ls ++ [l]) = slept_step (slept ls) l.
Proof. unfold slept. by rewrite fold_left_app. Qed.

Lemma next_backoff_schedule n :
  next_backoff (Z.min (500 * 2 ^ Z.of_nat n) 10000) = Z.min (500 * 2 ^ Z.of_nat (S n)) 10000.
Proof.
  unfold next_backoff, Int.saturating_mul_u64, backoff_max, Int.u64_modulus.
  rewrite Nat2Z.inj_succ, Z.pow_succ_r by lia.
  pose proof (Z.pow_pos_nonneg 2 (Z.of_nat n)). lia.
Qed.

Section watching.
Context {HT : Http} {RT : Rustls} {TK : Tokio} (addr : rstr).

(** ** Backoff *)

(** C40. The reconnect delay is exponential and capped: after [n] delays since the
    last successful connect (or the start) it is min(500 * 2^n, 10000) ms, for
    every schedule; in particular it never exceeds ten seconds and the
    saturating multiplication never saturates. *)
Theorem backoff_schedule (ls : list clabel) (c : Ctl) :
  run addr ls start = Some c ->
  mg_backoff_ms (cs_mgr c) = Z.min (500 * 2 ^ Z.of_nat (slept ls)) 10000.
Proof.
  revert ls c. apply (run_invariant addr (fun ls c =>
    mg_backoff_ms (cs_mgr c) = Z.min (500 * 2 ^ Z.of_nat (slept ls)) 10000)); [done|].
  intros ls l c c' _ IH Hstep. rewrite slept_snoc.
  step_cases Hstep; try exact IH; try reflexivity.
  by rewrite IH, next_backoff_schedule.
Qed.

(** ** The cells of the request path *)

(** A table, or a certificate map, that was made from this snapshot ([None]: no
    snapshot received yet). *)
Definition table_of (o : option Snapshot) (t : RouteTable) : Prop :=
  match o with
  | None => t = route_table_default
  | Some snap => exists h, t = (new snap h).1
  end.
Definition sni_of (o : option Snapshot) (m : gmap rstr CertifiedKey) : Prop :=
  m = match o with None => ∅ | Some snap => certificates_from_snap snap end.

(** The snapshot whose installation is under way: the table is still to be
    written, or the certificates are. *)
Definition table_pending (pc : mpc) : bool :=
  match pc with MBuildTable _ _ _ => true | _ => false end.
Definition sni_pending (pc : mpc) : bool :=
  match pc with MBuildTable _ _ _ | MStoreSni _ _ _ => true | _ => false end.

(** The received snapshots, without the last one while it is pending. *)
Definition settled (pending : bool) (snaps : list Snapshot) : list Snapshot :=
  if pending then take (pred (length snaps)) snaps else snaps.

Lemma settled_snoc snaps snap : settled true (snaps ++ [snap]) = snaps.
Proof. simpl. rewrite length_app, Nat.add_1_r. simpl. by rewrite take_app_length. Qed.
#[local] Arguments settled : simpl never.

(** The snapshot being installed is the last one received. *)
Definition installing (pc : mpc) (snaps : list Snapshot) : Prop :=
  match pc with
  | MBuildTable _ _ snap | MStoreSni _ _ snap => last snaps = Some snap
  | _ => True
  end.

Definition cells_inv (ls : list clabel) (c : Ctl) : Prop :=
  let pc := mg_pc (cs_mgr c) in
  installing pc (received ls) /\
  ap_snapshot (cs_app c) = default snapshot_default (last (received ls)) /\
  table_of (last (settled (table_pending pc) (received ls))) (ap_route_table (cs_app c)) /\
  sni_of (last (settled (sni_pending pc) (received ls))) (ap_sni (cs_app c)).

Lemma cells_step ls l c c' :
  cells_inv ls c -> cstep addr l c = Some c' -> cells_inv (ls ++ [l]) c'.
Proof.
  intros (Hi & Hs & Ht & Hn) Hstep. unfold cells_inv. rewrite received_snoc.
  step_cases Hstep; rewrite ?app_nil_r; try (split_and!; done).
  - (* a message *)
    rewrite !settled_snoc, last_snoc. by split_and!.
  - (* the table *)
    split_and!; try done. unfold settled. rewrite Hi. exists (ap_heap (cs_app c)).
    match goal with He : new _ _ = _ |- _ => by rewrite He end.
  - (* the certificates *)
    split_and!; try done. unfold sni_of, settled. by rewrite Hi.
Qed.

Lemma cells_start : cells_inv [] start.
Proof. by split_and!. Qed.

Lemma cells_invariant ls c : run addr ls start = Some c -> cells_inv ls c.
Proof.
  revert ls c. apply run_invariant; [apply cells_start|].
  intros ls l c c' _ IH Hstep. by eapply cells_step.
Qed.

(** C12. What the request path reads is what the control plane sent: for every
    schedule, the snapshot cell holds the last snapshot received, the route
    table was built from it, and the certificate map was made from it, except
    that while a snapshot is being installed the table (and then the map) is
    still the one of the snapshot before. Before the first message all three
    are empty. *)
Theorem cells_follow_stream (ls : list clabel) (c : Ctl) :
  run addr ls start = Some c ->
  let pc := mg_pc (cs_mgr c) in
  ap_snapshot (cs_app c) = default snapshot_default (last (received ls)) /\
  table_of (last (settled (table_pending pc) (received ls))) (ap_route_table (cs_app c)) /\
  sni_of (last (settled (sni_pending pc) (received ls))) (ap_sni (cs_app c)).
Proof. intros Hrun. by destruct (cells_invariant ls c Hrun) as (_ & ? & ? & ?). Qed.

(** ** Readiness *)

Definition streaming (pc : mpc) : bool :=
  match pc with MStream _ _ | MBuildTable _ _ _ | MStoreSni _ _ _ => true | _ => false end.

Lemma streaming_ready ls c :
  run addr ls start = Some c ->
  (streaming (mg_pc (cs_mgr c)) = true \/ received ls <> []) -> is_ready c = true.
Proof.
  revert ls c. apply (run_invariant addr (fun ls c =>
    (streaming (mg_pc (cs_mgr c)) = true \/ received ls <> []) -> is_ready c = true)).
  { intros [?|?]; done. }
  intros ls l c c' _ IH Hstep. rewrite received_snoc. unfold is_ready in *.
  step_cases Hstep; rewrite ?app_nil_r; auto.
Qed.

Lemma ready_step l c c' : cstep addr l c = Some c' -> is_ready c = true -> is_ready c' = true.
Proof. intros Hstep. unfold is_ready. by step_cases Hstep. Qed.

Lemma ready_run ls c c' : run addr ls c = Some c' -> is_ready c = true -> is_ready c' = true.
Proof.
  revert c. induction ls as [|l ls IH]; intros c; simpl; [by intros [= <-]|].
  destruct (cstep addr l c) as [c1|] eqn:E; [|done]. intros Hrun Hr.
  eapply IH; [exact Hrun|]. by eapply ready_step.
Qed.

Lemma ready_labels ls c : run addr ls start = Some c -> is_ready c = existsb is_ready_label ls.
Proof.
  revert ls c. apply (run_invariant addr (fun ls c => is_ready c = existsb is_ready_label ls)); [done|].
  intros ls l c c' _ IH Hstep. rewrite existsb_app. unfold is_ready in *. rewrite <-IH.
  step_cases Hstep; by rewrite ?orb_false_r, ?orb_true_r.
Qed.

(** Readiness means exactly that a Watch stream was established at some time:
    the flag is set by the first stream and never reset, and no snapshot is
    received before it is set. *)
Theorem ready_iff_watched (ls : list clabel) (c : Ctl) :
  run addr ls start = Some c ->
  is_ready c = existsb is_ready_label ls /\
  (received ls <> [] -> is_ready c = true) /\
  (forall ls' c', run addr ls' c = Some c' -> is_ready c = true -> is_ready c' = true).
Proof.
  intros Hrun. split_and!.
  - by apply ready_labels.
  - intros ?. eapply streaming_ready; eauto.
  - intros ls' c' Hrun'. by eapply ready_run.
Qed.

(** ** Client certificates *)

(** The certificate files a connection attempt, or an open stream, has loaded. *)
Definition conn_of (pc : mpc) : option ClientTls :=
  match pc with
  | MWatch conn | MSetReady conn | MStream conn _ | MBuildTable conn _ _ | MStoreSni conn _ _ =>
      Some conn
  | _ => None
  end.
Definition used_ca (pc : mpc) : option (list N) :=
  match pc with
  | MLoadCert ca | MLoadKey ca _ | MConnect ca _ _ => Some ca
  | _ => ct_ca <$> conn_of pc
  end.
Definition used_cert (pc : mpc) : option (list N) :=
  match pc with
  | MLoadKey _ cert | MConnect _ cert _ => Some cert
  | _ => ct_cert <$> conn_of pc
  end.
Definition used_key (pc : mpc) : option (list N) :=
  match pc with
  | MConnect _ _ key => Some key
  | _ => ct_key <$> conn_of pc
  end.

Lemma connect_prepare_inl ca cert key conn :
  connect_prepare addr ca cert key = inl conn ->
  ct_ca conn = ca /\ ct_cert conn = cert /\ ct_key conn = key /\
  ca <> [] /\ cert <> [] /\ key <> [] /\
  exists uri, uri_from_str addr = Some uri /\ uri_host uri = Some (ct_domain conn).
Proof.
  unfold connect_prepare. repeat case_bool_decide; try done. simpl.
  destruct (uri_from_str addr) as [uri|]; [|done].
  destruct (uri_host uri) eqn:Eh; [|done]. intros [= <-]. simpl. by eauto 10.
Qed.

Lemma load_cases file target b r notify next :
  try_load_and_store file target = (b, r) ->
  b <> [] /\ after_load r notify next = notify \/
  b = target /\ after_load r notify next = next.
Proof.
  unfold try_load_and_store, bytes_eq. destruct file as [new_bytes|].
  - repeat case_bool_decide; intros [= <- <-]; simpl; auto.
  - intros [= <- <-]. auto.
Qed.

Lemma connection_material (ls : list clabel) (c : Ctl) (conn : ClientTls) :
  run addr ls start = Some c ->
  conn_of (mg_pc (cs_mgr c)) = Some conn ->
  ct_ca conn <> [] /\ ct_cert conn <> [] /\ ct_key conn <> [] /\
  exists uri, uri_from_str addr = Some uri /\ uri_host uri = Some (ct_domain conn).
Proof.
  intros Hrun. revert conn. revert ls c Hrun. apply (run_invariant addr (fun _ c =>
    forall conn, conn_of (mg_pc (cs_mgr c)) = Some conn ->
      ct_ca conn <> [] /\ ct_cert conn <> [] /\ ct_key conn <> [] /\
      exists uri, uri_from_str addr = Some uri /\ uri_host uri = Some (ct_domain conn))); [done|].
  intros ls l c c' _ IH Hstep conn.
  step_cases Hstep; try (by auto); try (by intros [= <-]; auto).
  intros [= <-].
  match goal with Hp : connect_prepare _ _ _ _ = _ |- _ =>
    apply connect_prepare_inl in Hp as (<- & <- & <- & ?) end. done.
Qed.

(** A connection to the control plane is only ever made with a CA, a client
    certificate and a key that have been loaded, and for the host of the
    configured address. *)
Theorem connected_with_material (ls : list clabel) (c : Ctl) (conn : ClientTls) :
  run addr ls start = Some c ->
  conn_of (mg_pc (cs_mgr c)) = Some conn ->
  ct_ca conn <> [] /\ ct_cert conn <> [] /\ ct_key conn <> [] /\
  exists uri, uri_from_str addr = Some uri /\ uri_host uri = Some (ct_domain conn).
Proof. apply connection_material. Qed.

(** The value a connection uses is the stored one, or a notification that will
    force a reconnect is pending. *)
Definition tracked (used : option (list N)) (cur : list N) (n : Notify) (notifying : Prop) : Prop :=
  forall v, used = Some v -> v = cur \/ is_Some (notified n) \/ notifying.

Definition rotation_inv (c : Ctl) : Prop :=
  let pc := mg_pc (cs_mgr c) in
  let p := cs_pems c in
  tracked (used_ca pc) (pm_ca p) (pm_ca_updated p) (cs_watcher c = WNotifyCa) /\
  tracked (used_cert pc) (pm_client p) (pm_client_updated p) (cs_watcher c = WNotifyCert) /\
  tracked (used_key pc) (pm_client_key p) (pm_client_updated p) (cs_watcher c = WNotifyKey).

Context {TL : TokioLaws TK}.

Lemma tracked_none cur n nt : tracked None cur n nt.
Proof. by intros v. Qed.

Lemma tracked_current v n nt : tracked (Some v) v n nt.
Proof. intros v' [= <-]. by left. Qed.

Lemma tracked_notify used cur n nt : tracked used cur (notify_one n) nt.
Proof. intros v _. right. left. apply notified_one. Qed.

Lemma tracked_notifying used cur n (nt : Prop) : nt -> tracked used cur n nt.
Proof. intros ? v _. by right; right. Qed.

Lemma tracked_mono used cur n (nt nt' : Prop) :
  (nt -> nt') -> tracked used cur n nt -> tracked used cur n nt'.
Proof. intros Hn Ht v Hv. destruct (Ht v Hv) as [?|[?|?]]; auto. Qed.

Lemma rotation_mgr l c c' : mstep addr l c = Some c' -> rotation_inv c -> rotation_inv c'.
Proof.
  intros Hstep (Hca & Hcert & Hkey). unfold rotation_inv.
  unfold mstep, connect_step, watch_step, stream_step in Hstep.
  repeat case_match; simplify_eq/=;
    try (by split_and!; auto using tracked_none, tracked_current).
  match goal with Hp : connect_prepare _ _ _ _ = _ |- _ =>
    apply connect_prepare_inl in Hp as (<- & <- & <- & _) end. by split_and!.
Qed.

Lemma rotation_wat l c c' : wstep l c = Some c' -> rotation_inv c -> rotation_inv c'.
Proof.
  intros Hstep (Hca & Hcert & Hkey). unfold rotation_inv. unfold wstep in Hstep.
  repeat case_match; simplify_eq/=;
    repeat match goal with
      | Hl : try_load_and_store _ _ = (_, ?r) |- context [after_load ?r ?a ?b] =>
          destruct (load_cases _ _ _ _ a b Hl) as [[_ ->]|[-> ->]]
      end;
    split_and!; auto using tracked_notify, tracked_notifying;
    (eapply tracked_mono; [|eassumption]); congruence.
Qed.

(** C19. A rotation of the client certificates is never missed: in every schedule,
    whatever CA, certificate and key the open connection uses are the ones
    stored, or the notification that makes the manager reconnect with the new
    ones is pending (or about to be sent by the certificate watcher). *)
Theorem rotation_not_missed (ls : list clabel) (c : Ctl) (conn : ClientTls) :
  run addr ls start = Some c ->
  conn_of (mg_pc (cs_mgr c)) = Some conn ->
  let p := cs_pems c in
  (ct_ca conn = pm_ca p \/ is_Some (notified (pm_ca_updated p)) \/ cs_watcher c = WNotifyCa) /\
  (ct_cert conn = pm_client p \/ is_Some (notified (pm_client_updated p))
   \/ cs_watcher c = WNotifyCert) /\
  (ct_key conn = pm_client_key p \/ is_Some (notified (pm_client_updated p))
   \/ cs_watcher c = WNotifyKey).
Proof.
  intros Hrun Hconn p.
  assert (rotation_inv c) as (Hca & Hcert & Hkey).
  { clear Hconn. revert ls c p Hrun. apply (run_invariant addr (fun _ c => rotation_inv c)).
    - split_and!; apply tracked_none.
    - intros ls [l|l|] c c' _ IH Hstep; simpl in Hstep.
      + by eapply rotation_mgr.
      + by eapply rotation_wat.
      + by injection Hstep as <-. }
  destruct (mg_pc (cs_mgr c)); simplify_eq/=; split_and!;
    (apply Hca || apply Hcert || apply Hkey); done.
Qed.

(** ** Cancellation *)

(** The steps the manager and the watcher can still take after a cancellation,
    when no more messages arrive. *)
Definition mgr_rank (pc : mpc) : nat :=
  match pc with
  | MLoadCa => 11 | MLoadCert _ => 10 | MLoadKey _ _ => 9 | MConnect _ _ _ => 8
  | MWatch _ => 7 | MSetReady _ => 6
  | MBuildTable _ _ _ => 5 | MStoreSni _ _ _ => 4 | MStream _ _ => 3
  | MBackoff => 2 | MTop => 1 | MDone => 0
  end.

Definition is_message (l : mlabel) : bool := match l with LMessage _ => true | _ => false end.

Lemma mgr_rank_step l c c' :
  is_cancelled (cs_cancel c) = true -> is_message l = false -> mstep addr l c = Some c' ->
  cs_cancel c' = cs_cancel c /\ mgr_rank (mg_pc (cs_mgr c')) < mgr_rank (mg_pc (cs_mgr c)).
Proof.
  intros Hc Hm Hstep. unfold mstep, connect_step, watch_step, stream_step in Hstep.
  repeat case_match; simplify_eq/=; split; (done || lia || congruence).
Qed.

(** The manager can always move until it is done. *)
Lemma mgr_progress c :
  mg_pc (cs_mgr c) <> MDone ->
  is_cancelled (cs_cancel c) = true -> exists l c', is_message l = false /\ mstep addr l c = Some c'.
Proof.
  intros Hpc Hc. unfold mstep. destruct (mg_pc (cs_mgr c)) eqn:E; try done.
  - exists LTau. unfold connect_step. rewrite E. by eauto.
  - exists LTau. unfold connect_step. rewrite E. by eauto.
  - exists LTau. unfold connect_step. rewrite E. by eauto.
  - exists LTau. unfold connect_step. rewrite E. by eauto.
  - destruct (connect_prepare addr ca cert key) eqn:Ep; [exists LDialErr|exists LTau];
      unfold connect_step; rewrite E, Ep; by eauto.
  - exists LWatchErr. unfold watch_step. rewrite E. by eauto.
  - exists LReady. unfold watch_step. rewrite E. by eauto.
  - exists LCancelled. unfold stream_step. rewrite E, Hc. by eauto.
  - exists LTau. unfold stream_step. rewrite E. destruct (new _ _). by eauto.
  - exists LTau. unfold stream_step. rewrite E. by eauto.
  - exists LSlept. unfold watch_step. rewrite E. by eauto.
Qed.

(** C36. Shutdown terminates: once the token is cancelled the manager task makes
    at most eleven more steps, however its awaits turn out, as long as no
    further message is taken from the stream; it can always make one until it
    is done. *)
Theorem shutdown_terminates (c : Ctl) (ms : list mlabel) (c' : Ctl) :
  is_cancelled (cs_cancel c) = true ->
  Forall (fun l => is_message l = false) ms ->
  run addr (Mgr <$> ms) c = Some c' ->
  length ms <= 11 /\
  (mg_pc (cs_mgr c') = MDone \/
   exists l c'', is_message l = false /\ mstep addr l c' = Some c'').
Proof.
  intros Hc Hms Hrun.
  assert (is_cancelled (cs_cancel c') = true /\
          length ms + mgr_rank (mg_pc (cs_mgr c')) <= mgr_rank (mg_pc (cs_mgr c))) as [Hc' Hlen].
  { revert c Hc Hrun. induction Hms as [|l ms Hl Hms IH]; intros c Hc; simpl.
    { intros [= <-]. done. }
    destruct (mstep addr l c) as [c1|] eqn:E; [|done]. intros Hrun.
    destruct (mgr_rank_step l c c1 Hc Hl E) as [Hcan Hlt].
    destruct (IH c1) as [? ?]; [by rewrite Hcan|done|]. split; [done|lia]. }
  split.
  - assert (mgr_rank (mg_pc (cs_mgr c)) <= 11) by (destruct (mg_pc (cs_mgr c)); simpl; lia). lia.
  - destruct (mg_pc (cs_mgr c')) eqn:E; try (by left); right;
      (apply mgr_progress; [by rewrite E|done]).
Qed.

(** ** Two consequences of the protocol *)

Definition is_ca_notified (l : clabel) : bool :=
  match l with Mgr LCaNotified => true | _ => false end.

(** As long as no CA notification was consumed, a loaded CA has one pending. *)
Definition first_load_inv (c : Ctl) : Prop :=
  let p := cs_pems c in
  (pm_ca p = [] -> forall v, used_ca (mg_pc (cs_mgr c)) = Some v -> v = []) /\
  (pm_ca p = [] \/ is_Some (notified (pm_ca_updated p)) \/ cs_watcher c = WNotifyCa).

Lemma first_load_mgr l c c' :
  is_ca_notified (Mgr l) = false -> mstep addr l c = Some c' -> first_load_inv c -> first_load_inv c'.
Proof.
  intros Hl Hstep (Hu & Hp). unfold first_load_inv.
  unfold mstep, connect_step, watch_step, stream_step in Hstep.
  repeat case_match; simplify_eq/=; try (split; [naive_solver|assumption]).
  match goal with Hc : connect_prepare _ _ _ _ = _ |- _ =>
    apply connect_prepare_inl in Hc as (<- & _) end. by split.
Qed.

Lemma first_load_wat l c c' : wstep l c = Some c' -> first_load_inv c -> first_load_inv c'.
Proof.
  intros Hstep (Hu & Hp). unfold first_load_inv. unfold wstep in Hstep.
  repeat case_match; simplify_eq/=;
    repeat match goal with
      | Hl : try_load_and_store _ _ = (_, ?r) |- context [after_load ?r ?a ?b] =>
          destruct (load_cases _ _ _ _ a b Hl) as [[? ->]|[-> ->]]
      end;
    (split; [done|]); pose proof (notified_one (pm_ca_updated (cs_pems c))); naive_solver.
Qed.

(** The first connection is always dropped once more: until the manager has
    consumed a CA notification, the one of the initial load is pending whenever
    a connection exists, so the stream is closed and reopened although it
    already uses the stored certificates. *)
Theorem initial_load_forces_reconnect (ls : list clabel) (c : Ctl) (conn : ClientTls) :
  run addr ls start = Some c ->
  existsb is_ca_notified ls = false ->
  conn_of (mg_pc (cs_mgr c)) = Some conn ->
  is_Some (notified (pm_ca_updated (cs_pems c))) \/ cs_watcher c = WNotifyCa.
Proof.
  intros Hrun Hls Hconn.
  assert (existsb is_ca_notified ls = false -> first_load_inv c) as Hinv.
  { clear Hconn Hls. revert ls c Hrun. apply (run_invariant addr (fun ls c =>
      existsb is_ca_notified ls = false -> first_load_inv c)); [by split; [|left]|].
    intros ls l c c' _ IH Hstep. rewrite existsb_app, orb_false_iff. intros [H0 H1].
    simpl in H1. rewrite orb_false_r in H1. destruct l as [l|l|]; simpl in Hstep.
    - by eapply first_load_mgr; eauto.
    - by eapply first_load_wat; eauto.
    - injection Hstep as <-. by apply IH. }
  destruct (Hinv Hls) as [Hu [He|Hp]]; [|done].
  assert (used_ca (mg_pc (cs_mgr c)) = Some (ct_ca conn)) as Hused
    by (destruct (mg_pc (cs_mgr c)); simplify_eq/=; done).
  destruct (connection_material ls c conn Hrun Hconn) as [Hne _].
  destruct Hne. by apply Hu.
Qed.

(** The schedule that loads the three files, connects and opens the stream. *)
Definition schedule_load : list clabel :=
  [Wat WTick; Wat (WFile (Some [1%N])); Wat WTau; Wat (WFile (Some [2%N])); Wat WTau;
   Wat (WFile (Some [3%N])); Wat WTau].
Definition schedule_open : list clabel :=
  [Mgr LTau; Mgr LTau; Mgr LTau; Mgr LTau; Mgr LDialOk; Mgr LWatchOk; Mgr LReady].

Definition loaded_pems : Pems :=
  mk_pems [1%N] [2%N] [3%N] (notify_one notify_new) (notify_one (notify_one notify_new)).

Lemma run_cons l ls c c' : cstep addr l c = Some c' -> run addr (l :: ls) c = run addr ls c'.
Proof. simpl. by intros ->. Qed.

Lemma run_load :
  run addr schedule_load start
  = Some (mk_ctl (mk_manager MTop backoff_initial) WSleep app_start loaded_pems token_new).
Proof.
  unfold schedule_load, start. repeat (erewrite run_cons by (cbn; reflexivity)). reflexivity.
Qed.

Lemma run_open uri host :
  uri_from_str addr = Some uri -> uri_host uri = Some host ->
  run addr schedule_open
    (mk_ctl (mk_manager MTop backoff_initial) WSleep app_start loaded_pems token_new)
  = Some (mk_ctl (mk_manager (MStream (mk_tls [1%N] [2%N] [3%N] host) false) backoff_initial) WSleep
      (mk_app true snapshot_default route_table_default ∅ heap_empty) loaded_pems token_new).
Proof.
  intros Hu Hh. unfold schedule_open.
  erewrite run_cons by (cbn -[is_cancelled]; rewrite is_cancelled_new; reflexivity).
  do 3 (erewrite run_cons by (cbn; reflexivity)).
  erewrite run_cons.
  2: { cbn -[connect_prepare]. unfold connect_prepare. cbn. rewrite Hu, Hh. reflexivity. }
  do 2 (erewrite run_cons by (cbn; reflexivity)). reflexivity.
Qed.

(** Readiness does not wait for a configuration: there is a schedule after
    which the data plane reports ready while it has received no snapshot and
    its route table matches no request at all. *)
Theorem ready_before_first_snapshot (uri : Uri) (host : rstr) :
  uri_from_str addr = Some uri ->
  uri_host uri = Some host ->
  exists ls c, run addr ls start = Some c /\ is_ready c = true /\ received ls = [] /\
    forall h path, choose_route (ap_route_table (cs_app c)) h path = None.
Proof.
  intros Hu Hh. exists (schedule_load ++ schedule_open). eexists. split; [|split; [|split]].
  - rewrite run_app, run_load. by eapply run_open.
  - reflexivity.
  - reflexivity.
  - intros h path. unfold choose_route. simpl. by rewrite !lookup_empty.
Qed.

End watching.

(** ** Witnesses *)

Module WatchDemo.

Definition tokio : Tokio := {|
  Notify := bool; notify_new := false; notify_one := fun _ => true;
  notified := fun n => if n then Some false else None;
  CancellationToken := bool; token_new := false; cancel := fun _ => true;
  is_cancelled := fun t => t |}.

#[global] Instance tokio_laws : TokioLaws tokio.
Proof.
  split; [done|intros n; by eexists| |done..]. intros [] n'; simpl; [by intros [= <-]|done].
Qed.

Definition addr : rstr := str "http://127.0.0.1:18000".

Definition snap : Snapshot := CertDemo.snap.

(** Load, open the stream, install one snapshot, then lose the stream. *)
Definition schedule : list clabel :=
  schedule_load ++ schedule_open ++
  [Mgr (LMessage snap); Mgr LTau; Mgr LTau; Wat WTick; Wat (WFile (Some [9%N]))].

Definition ctl : @Ctl simple_http CertDemo.tls tokio :=
  default start (@run simple_http CertDemo.tls tokio addr schedule start).

Lemma schedule_runs : @run simple_http CertDemo.tls tokio addr schedule start = Some ctl.
Proof. vm_compute. reflexivity. Qed.

End WatchDemo.

Lemma backoff_schedule_witness :
  mg_backoff_ms (cs_mgr WatchDemo.ctl) = Z.min (500 * 2 ^ Z.of_nat (slept WatchDemo.schedule)) 10000.
Proof. apply (backoff_schedule WatchDemo.addr _ _ WatchDemo.schedule_runs). Defined.

Lemma cells_follow_stream_witness :
  ap_snapshot (cs_app WatchDemo.ctl) = WatchDemo.snap /\
  ap_sni (cs_app WatchDemo.ctl) = @certificates_from_snap CertDemo.tls WatchDemo.snap.
Proof.
  destruct (cells_follow_stream WatchDemo.addr _ _ WatchDemo.schedule_runs) as (Hs & _ & Hn).
  split; [exact Hs|exact Hn].
Defined.

Lemma ready_iff_watched_witness : is_ready WatchDemo.ctl = true.
Proof.
  destruct (ready_iff_watched WatchDemo.addr _ _ WatchDemo.schedule_runs) as [Hr _]. exact Hr.
Defined.

Lemma connected_with_material_witness :
  exists conn, conn_of (mg_pc (cs_mgr WatchDemo.ctl)) = Some conn /\ ct_key conn <> [].
Proof.
  eexists. split; [vm_compute; reflexivity|].
  eapply (connected_with_material WatchDemo.addr _ _ _ WatchDemo.schedule_runs).
  vm_compute. reflexivity.
Defined.

Lemma rotation_not_missed_witness :
  [1%N] = pm_ca (cs_pems WatchDemo.ctl)
  \/ is_Some (@notified WatchDemo.tokio (pm_ca_updated (cs_pems WatchDemo.ctl)))
  \/ cs_watcher WatchDemo.ctl = WNotifyCa.
Proof.
  eapply (rotation_not_missed WatchDemo.addr _ _
    (mk_tls [1%N] [2%N] [3%N] (str "127.0.0.1")) WatchDemo.schedule_runs).
  vm_compute. reflexivity.
Defined.

Lemma initial_load_forces_reconnect_witness :
  is_Some (@notified WatchDemo.tokio (pm_ca_updated (cs_pems WatchDemo.ctl)))
  \/ cs_watcher WatchDemo.ctl = WNotifyCa.
Proof.
  eapply (initial_load_forces_reconnect WatchDemo.addr _ _
    (mk_tls [1%N] [2%N] [3%N] (str "127.0.0.1")) WatchDemo.schedule_runs);
    vm_compute; reflexivity.
Defined.

Lemma shutdown_terminates_witness :
  exists c, @run simple_http CertDemo.tls WatchDemo.tokio WatchDemo.addr
              (Mgr <$> [LCancelled]) (default WatchDemo.ctl (cstep WatchDemo.addr Shutdown WatchDemo.ctl)) = Some c /\
    mg_pc (cs_mgr c) = MDone /\ length [LCancelled] <= 11.
Proof.
  eexists. split; [vm_compute; reflexivity|]. split; [reflexivity|].
  eapply (@shutdown_terminates simple_http CertDemo.tls WatchDemo.tokio WatchDemo.addr
    (default WatchDemo.ctl (cstep WatchDemo.addr Shutdown WatchDemo.ctl)) [LCancelled]).
  - vm_compute. reflexivity.
  - repeat constructor.
  - vm_compute. reflexivity.
Defined.

Lemma ready_before_first_snapshot_witness :
  exists ls c, @run simple_http CertDemo.tls WatchDemo.tokio WatchDemo.addr ls start = Some c /\
    is_ready c = true /\ received ls = [] /\
    forall h path, choose_route (ap_route_table (cs_app c)) h path = None.
Proof.
  eapply (@ready_before_first_snapshot simple_http CertDemo.tls WatchDemo.tokio WatchDemo.addr WatchDemo.tokio_laws).
  - vm_compute. reflexivity.
  - vm_compute. reflexivity.
Defined.
