(* ===== verification/System.v ===== *)
(** The running data plane: the configuration watcher of grpc.rs and any number
    of requests in flight, interleaved at the points where they touch shared
    state. A request is [proxy_handler] of proxy.rs cut at those points: it
    waits for the read lock of the route table, selects an endpoint under the
    lock, takes its counter guard, and then talks to the network until it is
    answered or its client goes away. *)

From stdpp Require Import base gmap list strings.
From Stdlib Require Import ZArith NArith Lia.
From S2P Require Import Prelude RustStr Config Http Atomics RouteTable Routing Balancing Signin Proxy Forwarding Upstream Auth Handler Certs Grpc Watching.

Section system.
Context {HT : Http} {RT : Rustls} {TK : Tokio} (addr : rstr)
  (iter : gmap EndpointKey loc -> list (EndpointKey * loc)).

(** ** Requests as threads *)

Inductive thread :=
  (** waiting for the read lock *)
  | TStart (req : Request Incoming)
  (** endpoint selected, read lock still held *)
  | TSelected (req : Request Incoming) (host : rstr) (rule : RouteRule) (cr : ClusterRule)
      (sel : SelectedEndpoint)
  (** counter guard taken, lock released *)
  | TActive (req : Request Incoming) (host : rstr) (cr : ClusterRule) (sel : SelectedEndpoint)
  (** answered, with what it sent over the network *)
  | TDone (resp : Response BoxBody) (log : list event)
  (** the client went away and the handler was dropped *)
  | TGone.

Record Sys := mk_sys { sy_ctl : Ctl; sy_threads : list thread }.

Definition sy_heap (s : Sys) : heap := ap_heap (cs_app (sy_ctl s)).
Definition sy_table (s : Sys) : RouteTable := ap_route_table (cs_app (sy_ctl s)).

Definition set_heap (c : Ctl) (h : heap) : Ctl :=
  let a := cs_app c in
  set_app c (mk_app (ap_ready a) (ap_snapshot a) (ap_route_table a) (ap_sni a) h).

Definition with_thread (s : Sys) (i : nat) (h : heap) (t : thread) : Sys :=
  mk_sys (set_heap (sy_ctl s) h) (<[i := t]> (sy_threads s)).

Inductive slabel :=
  | SCtl (l : clabel)
  | SArrive (req : Request Incoming)
  | SSelect (i : nat) (view : heap)
  | SEnter (i : nat)
  | SFinish (i : nat) (net : Network)
  | SAbort (i : nat).

(** The read lock is held by the requests that have selected but not entered;
    the manager's write of the table waits for them. *)
Definition holds_lock (t : thread) : bool :=
  match t with TSelected _ _ _ _ _ => true | _ => false end.
Definition writes_table (c : Ctl) (l : clabel) : bool :=
  match l with Mgr LTau => table_pending (mg_pc (cs_mgr c)) | _ => false end.

(** Selection reads the counters one by one while other requests change them:
    [view] is what it reads. Only the cursor is read and advanced atomically,
    so there [view] is the store itself. *)
Definition advance (cr : ClusterRule) (view' h : heap) : heap :=
  let cur := cr_rr_cursor cr in
  if decide (Atomic.read view' cur = Atomic.read h cur) then h
  else Atomic.write cur (Atomic.read view' cur) h.

Definition select_step (s : Sys) (i : nat) (req : Request Incoming) (view : heap) : option Sys :=
  let h := sy_heap s in
  match resolve (sy_table s) req with
  | inr resp => Some (with_thread s i h (TDone resp []))
  | inl (host, rule, cr) =>
      if decide (Atomic.read view (cr_rr_cursor cr) = Atomic.read h (cr_rr_cursor cr)) then
        match get_endpoint iter (sy_table s) (rr_cluster rule) view with
        | (None, _) => Some (with_thread s i h (TDone (text 502 (str "endpoint not found")) []))
        | (Some sel, view') =>
            Some (with_thread s i (advance cr view' h) (TSelected req host rule cr sel))
        end
      else None
  end.

Definition sstep (l : slabel) (s : Sys) : option Sys :=
  let h := sy_heap s in
  match l with
  | SCtl l =>
      if writes_table (sy_ctl s) l && existsb holds_lock (sy_threads s) then None else
      match cstep addr l (sy_ctl s) with
      | Some c => Some (mk_sys c (sy_threads s))
      | None => None
      end
  | SArrive req => Some (mk_sys (sy_ctl s) (sy_threads s ++ [TStart req]))
  | SSelect i view =>
      match sy_threads s !! i with
      | Some (TStart req) => select_step s i req view
      | _ => None
      end
  | SEnter i =>
      match sy_threads s !! i with
      | Some (TSelected req host _ cr sel) =>
          Some (with_thread s i (guard_new (se_counter sel) h).2 (TActive req host cr sel))
      | _ => None
      end
  | SFinish i net =>
      match sy_threads s !! i with
      | Some (TActive req host cr sel) =>
          let '(resp, w) := handle_selected net req host (frontend_tls req) cr (se_endpoint sel)
                              (mk_world h []) in
          Some (with_thread s i (guard_drop (se_counter sel) (w_heap w)).2 (TDone resp (w_log w)))
      | _ => None
      end
  | SAbort i =>
      match sy_threads s !! i with
      | Some (TStart _) => Some (with_thread s i h TGone)
      | Some (TActive _ _ _ sel) =>
          Some (with_thread s i (guard_drop (se_counter sel) h).2 TGone)
      | _ => None
      end
  end.

Definition sys_start : Sys := mk_sys start [].

Fixpoint srun (ls : list slabel) (s : Sys) : option Sys :=
  match ls with
  | [] => Some s
  | l :: ls' => match sstep l s with Some s' => srun ls' s' | None => None end
  end.

Lemma srun_app ls1 ls2 s :
  srun (ls1 ++ ls2) s = match srun ls1 s with Some s' => srun ls2 s' | None => None end.
Proof.
  revert s. induction ls1 as [|l ls1 IH]; intros s; [done|]. simpl.
  destruct (sstep l s); [apply IH|done].
Qed.

Lemma srun_invariant (I : list slabel -> Sys -> Prop) :
  I [] sys_start ->
  (forall ls l s s', I ls s -> sstep l s = Some s' -> I (ls ++ [l]) s') ->
  forall ls s, srun ls sys_start = Some s -> I ls s.
Proof.
  intros H0 Hs ls. induction ls as [|l ls IH] using rev_ind; intros s.
  { intros [= <-]. done. }
  rewrite srun_app. destruct (srun ls sys_start) as [s0|] eqn:E; [|done]. simpl.
  destruct (sstep l s0) as [s1|] eqn:El; [|done]. intros [= <-]. eauto.
Qed.

(** ** What is in flight *)

(** The requests whose guard holds a counter. *)
Definition guards (l : loc) (t : thread) : nat :=
  match t with
  | TActive _ _ _ sel => if decide (se_counter sel = Some l) then 1 else 0
  | _ => 0
  end.
Definition live (l : loc) (ts : list thread) : nat := sum_list_with (guards l) ts.

(** A thread that refers to a counter. *)
Definition refers (t : thread) (l : loc) : Prop :=
  match t with
  | TSelected _ _ _ _ sel | TActive _ _ _ sel => se_counter sel = Some l
  | _ => False
  end.

Definition counter_in (t : RouteTable) (l : loc) : Prop :=
  exists n cr i, tb_clusters t !! n = Some cr /\ counter_for_index cr i = Some l.

Lemma live_insert l ts i t t' :
  ts !! i = Some t -> live l (<[i := t']> ts) + guards l t = live l ts + guards l t'.
Proof.
  intros Hi. unfold live. apply lookup_lt_Some in Hi as Hlt.
  rewrite <-(take_drop_middle ts i t Hi) at 2. rewrite insert_take_drop by done.
  rewrite !sum_list_with_app. simpl. lia.
Qed.

Lemma guards_refers l t : guards l t <> 0 -> refers t l.
Proof. destruct t; simpl; try done. by case_decide. Qed.

Lemma live_refers l ts : live l ts <> 0 -> exists t, t ∈ ts /\ refers t l.
Proof.
  unfold live. induction ts as [|t ts IH]; simpl; [done|]. intros Hn.
  destruct (decide (guards l t = 0)) as [Hz|Hz].
  - destruct IH as (t' & ? & ?); [lia|]. exists t'. split; [by right|done].
  - exists t. split; [by left|by apply guards_refers].
Qed.

End system.
