(* ===== verification/Server.v ===== *)
(** The process around the request path: src/images/dataplane/src/main.rs with
    its helpers client_pool.rs and utils.rs. Settings come from the
    environment, two listeners accept connections until shutdown is requested
    and then drain, an admin endpoint answers probes, and [main] stops the
    configuration watcher last. *)

From stdpp Require Import base gmap list strings.
From Stdlib Require Import ZArith NArith Lia.
From S2P Require Import Prelude RustStr Config Http Atomics RouteTable Routing Balancing Signin Proxy Forwarding Upstream Auth Handler Certs Grpc Watching.

(** ** Settings *)

Section settings.

(** [std::env::var], and [num_cpus::get]. *)
Context (env : rstr -> option rstr) (num_cpus : N).

Definition env_or (name : rstr) (dflt : rstr) : rstr := default dflt (env name).

Definition parse_u16 (s : rstr) : option N := Str.parse_unsigned 65535 s.
Definition parse_usize (s : rstr) : option N := Str.parse_unsigned (2 ^ 64 - 1) s.

Definition thread_count : N :=
  default 1%N (parse_usize (env_or (str "COUNT_THREADS") (Str.decimal num_cpus))).

Record Settings := {
  st_threads : N;
  st_http_port : N;
  st_https_port : N;
  st_admin_port : N;
  st_controller_addr : rstr;
  st_node_id : rstr;
}.

(** The settings [main] runs with; [None] is the early return of a port that
    does not parse. *)
Definition settings : option Settings :=
  let http_port := env_or (str "HTTP_PORT") (str "8080") in
  let https_port := env_or (str "HTTPS_PORT") (str "8443") in
  let admin_port := env_or (str "ADMIN_PORT") (str "8181") in
  let controller_addr := env_or (str "CONTROLLER_ADDR") (str "https://127.0.0.1:18000") in
  let node_id := env_or (str "NODE_ID") (str "dp-axum") in
  admin_port ← parse_u16 admin_port;
  http_port ← parse_u16 http_port;
  https_port ← parse_u16 https_port;
  Some {| st_threads := thread_count; st_http_port := http_port; st_https_port := https_port;
          st_admin_port := admin_port; st_controller_addr := controller_addr;
          st_node_id := node_id |}.

(** How [main] begins: the crypto provider is installed, the runtime is built and
    the settings are read in it. [install_default] fails if there is a provider
    already, and [worker_threads] panics for zero threads. *)
Inductive Boot := BootPanic | BootError | Booted (st : Settings).

Definition boot (provider_installed runtime_builds : bool) : Boot :=
  if provider_installed then BootPanic else
  if (thread_count =? 0)%N then BootPanic else
  if negb runtime_builds then BootPanic else
  match settings with Some st => Booted st | None => BootError end.

End settings.

(** ** The client pool *)

(** How a client verifies the certificate of its peer. *)
Inductive ServerCertVerifier := NativeRoots | NoCertVerifier.

(** What [verify_server_cert] (and the signature checks) answer, given what a
    verification against the native roots says. *)
Definition verifies (v : ServerCertVerifier) (trusted : bool) : bool :=
  match v with NativeRoots => trusted | NoCertVerifier => true end.

Record PooledClient := {
  pc_verifier : ServerCertVerifier;
  pc_idle_timeout_secs : Z;
  pc_max_idle_per_host : Z;
}.

Record ClientPool := { connector : PooledClient; connector_insecure : PooledClient }.

Definition DEFAULT_COUNT_POOL : Z := 32.
Definition DEFAULT_IDLE_TIMEOUT : Z := 60.

(** The product is computed in [usize]; the release build wraps on overflow. *)
Definition new_http_pool_connector (count_thread : Z) : ClientPool :=
  let max_idle := Int.as_usize (DEFAULT_COUNT_POOL * count_thread) in
  {| connector := {| pc_verifier := NativeRoots; pc_idle_timeout_secs := DEFAULT_IDLE_TIMEOUT;
                     pc_max_idle_per_host := max_idle |};
     connector_insecure := {| pc_verifier := NoCertVerifier;
                              pc_idle_timeout_secs := DEFAULT_IDLE_TIMEOUT;
                              pc_max_idle_per_host := max_idle |} |}.

Definition client_pool_default : ClientPool := new_http_pool_connector DEFAULT_COUNT_POOL.

(** The client a request goes through. *)
Definition pool_client (pool : ClientPool) (k : ClientKind) : PooledClient :=
  match k with Connector => connector pool | ConnectorInsecure => connector_insecure pool end.

(** ** The admin endpoint *)

Section admin.
Context {HT : Http}.

Definition empty_body : BoxBody := BodyFull [].
Definition full_body (chunk : rstr) : BoxBody := BodyFull (Str.as_bytes chunk).

(** [Response::new(body)], then [*resp.status_mut() = status]. *)
Definition response_new (status : StatusCode) (body : BoxBody) : Response BoxBody :=
  mk_response status HTTP_11 hm_new body.

Definition echo (req : Request Incoming) (ready : bool) : Response BoxBody :=
  let method := rq_method req in
  let path := uri_path (rq_uri req) in
  if bool_decide (method = str "POST") && bool_decide (path = str "/echo") then
    response_new 200 (BodyIncoming (rq_body req))
  else if bool_decide (method = str "GET") && bool_decide (path = str "/healthz") then
    response_new 200 (full_body (str "Ok"))
  else if bool_decide (method = str "GET") && bool_decide (path = str "/readyz") then
    if ready then response_new 200 empty_body else response_new 503 empty_body
  else response_new 404 empty_body.

End admin.

(** ** The listeners *)

Inductive lpc :=
  | LBinding
  | LAccepting
  | LDraining
  | LReturned (ok : bool).

(** The connection tasks of the [JoinSet]: a finished task stays in the set until
    it is joined. *)
Record Listener := mk_listener {
  li_pc : lpc;
  li_tasks : gmap nat bool;
  li_next : nat;
}.

Inductive llabel :=
  | BindOk | BindErr
  | Stop
  | Accept | AcceptErr
  | TaskEnd (id : nat)
  | JoinNext (id : nat)
  | JoinNone.

#[global] Instance llabel_eq_dec : EqDecision llabel.
Proof. solve_decision. Defined.

Definition listener_new : Listener := mk_listener LBinding ∅ 0.

(** [run_http]. *)
Definition lstep (cancelled : bool) (l : llabel) (s : Listener) : option Listener :=
  match li_pc s, l with
  | LBinding, BindOk => Some (mk_listener LAccepting (li_tasks s) (li_next s))
  | LBinding, BindErr => Some (mk_listener (LReturned false) (li_tasks s) (li_next s))
  | LAccepting, Stop =>
      if cancelled then Some (mk_listener LDraining (li_tasks s) (li_next s)) else None
  | LAccepting, Accept =>
      Some (mk_listener LAccepting (<[li_next s := false]> (li_tasks s)) (S (li_next s)))
  | LAccepting, AcceptErr => Some s
  | (LAccepting | LDraining), TaskEnd id =>
      match li_tasks s !! id with
      | Some false => Some (mk_listener (li_pc s) (<[id := true]> (li_tasks s)) (li_next s))
      | _ => None
      end
  | LDraining, JoinNext id =>
      match li_tasks s !! id with
      | Some true => Some (mk_listener LDraining (delete id (li_tasks s)) (li_next s))
      | _ => None
      end
  | LDraining, JoinNone =>
      if decide (li_tasks s = ∅) then Some (mk_listener (LReturned true) ∅ (li_next s)) else None
  | _, _ => None
  end.

(** [run_https]: the same loop, with connection tasks that return early when the
    TLS handshake fails. *)
Inductive hlabel :=
  | Plain (l : llabel)
  | TlsErr (id : nat).

Definition https_step (cancelled : bool) (l : hlabel) (s : Listener) : option Listener :=
  match l with
  | Plain l => lstep cancelled l s
  | TlsErr id => lstep cancelled (TaskEnd id) s
  end.

(** The [FrontendTls] extension a listener puts on every request. *)
Definition stamp {HT : Http} (tls : bool) (req : Request Incoming) : Request Incoming :=
  mk_request (rq_method req) (rq_uri req) (rq_version req) (rq_headers req) (rq_body req) (Some tls).

(** The service of a connection: [proxy_handler] on the stamped request. *)
Definition serve {HT : Http} (tls : bool) (net : Network) iter (t : RouteTable)
    (req : Request Incoming) : state World (Response BoxBody) :=
  proxy_handler net iter t (stamp tls req).

(** ** [main]: shutdown *)

Section main.
Context {HT : Http} {RT : Rustls} {TK : Tokio} (addr : rstr).

Inductive main_pc := Waiting | JoinHttp | JoinHttps | StopManager | Exited.

Record Main := mk_main {
  ma_pc : main_pc;
  ma_shutdown : CancellationToken;
  ma_http : Listener;
  ma_https : Listener;
  ma_ctl : Ctl;
}.

Inductive main_label :=
  | CtrlC
  | HttpL (l : llabel)
  | HttpsL (l : hlabel)
  | MgrL (l : mlabel)
  | WatL (l : wlabel)
  | MainL.

Definition has_returned (s : Listener) : bool :=
  match li_pc s with LReturned _ => true | _ => false end.

Definition tasks_done (c : Ctl) : bool :=
  match mg_pc (cs_mgr c), cs_watcher c with MDone, WDone => true | _, _ => false end.

(** The main task: wait for the token, join the listeners in turn, shut the
    manager down ([cancel], then join its tasks). *)
Definition main_task (s : Main) : option Main :=
  match ma_pc s with
  | Waiting =>
      if is_cancelled (ma_shutdown s)
      then Some (mk_main JoinHttp (ma_shutdown s) (ma_http s) (ma_https s) (ma_ctl s)) else None
  | JoinHttp =>
      if has_returned (ma_http s)
      then Some (mk_main JoinHttps (ma_shutdown s) (ma_http s) (ma_https s) (ma_ctl s)) else None
  | JoinHttps =>
      if has_returned (ma_https s)
      then match cstep addr Shutdown (ma_ctl s) with
           | Some c => Some (mk_main StopManager (ma_shutdown s) (ma_http s) (ma_https s) c)
           | None => None
           end
      else None
  | StopManager =>
      if tasks_done (ma_ctl s)
      then Some (mk_main Exited (ma_shutdown s) (ma_http s) (ma_https s) (ma_ctl s)) else None
  | Exited => None
  end.

Definition main_step (l : main_label) (s : Main) : option Main :=
  match l with
  | CtrlC => Some (mk_main (ma_pc s) (cancel (ma_shutdown s)) (ma_http s) (ma_https s) (ma_ctl s))
  | HttpL l =>
      match lstep (is_cancelled (ma_shutdown s)) l (ma_http s) with
      | Some x => Some (mk_main (ma_pc s) (ma_shutdown s) x (ma_https s) (ma_ctl s))
      | None => None
      end
  | HttpsL l =>
      match https_step (is_cancelled (ma_shutdown s)) l (ma_https s) with
      | Some x => Some (mk_main (ma_pc s) (ma_shutdown s) (ma_http s) x (ma_ctl s))
      | None => None
      end
  | MgrL l =>
      match cstep addr (Mgr l) (ma_ctl s) with
      | Some c => Some (mk_main (ma_pc s) (ma_shutdown s) (ma_http s) (ma_https s) c)
      | None => None
      end
  | WatL l =>
      match cstep addr (Wat l) (ma_ctl s) with
      | Some c => Some (mk_main (ma_pc s) (ma_shutdown s) (ma_http s) (ma_https s) c)
      | None => None
      end
  | MainL => main_task s
  end.

Definition main_start : Main := mk_main Waiting token_new listener_new listener_new start.

Definition main_init (s : Main) : Prop := s = main_start.
Definition main_rel (s s' : Main) : Prop := exists l, main_step l s = Some s'.

End main.
