(* ===== verification/Serving.v ===== *)
(** What the process around the request path guarantees: settings, probes, which
    client verifies certificates, and an orderly shutdown. *)

From stdpp Require Import base gmap list strings.
From Stdlib Require Import ZArith NArith Lia.
From S2P Require Import Prelude RustStr Config Http Atomics RouteTable Routing Balancing Signin Proxy Forwarding Upstream Auth Handler Certs Grpc Watching Server.

(** ** Settings *)

(** The number of worker threads is the number of CPUs when COUNT_THREADS is
    not set (printing the number and parsing it back loses nothing), the
    number it spells when it is set to one, and 1 when it is set to anything
    else. *)
Theorem thread_count_spec (env : rstr -> option rstr) (num_cpus : N) :
  (num_cpus < 2 ^ 64)%N ->
  match env (str "COUNT_THREADS") with
  | None => thread_count env num_cpus = num_cpus
  | Some s =>
      (forall n, (n < 2 ^ 64)%N -> s = Str.decimal n -> thread_count env num_cpus = n) /\
      (parse_usize s = None -> thread_count env num_cpus = 1%N)
  end.
Proof.
  intros Hcpus. unfold thread_count, env_or, parse_usize.
  destruct (env (str "COUNT_THREADS")) as [s|]; cbn [default from_option id].
  - split; [|by intros ->]. intros n Hn ->. by rewrite parse_decimal by lia.
  - by rewrite parse_decimal by lia.
Qed.

(** When the process starts: with a fresh process and a runtime that builds, it
    panics exactly if COUNT_THREADS spells zero, it returns an error exactly if it
    gets that far and a port does not parse, and otherwise it runs with those
    settings and at least one worker thread. *)
Theorem boot_outcome (env : rstr -> option rstr) (num_cpus : N) :
  (0 < num_cpus < 2 ^ 64)%N ->
  match boot env num_cpus false true with
  | BootPanic => exists s, env (str "COUNT_THREADS") = Some s /\ parse_usize s = Some 0%N
  | BootError => settings env num_cpus = None /\ (0 < thread_count env num_cpus)%N
  | Booted st => settings env num_cpus = Some st /\ (0 < st_threads st)%N
  end.
Proof.
  intros Hcpus. unfold boot. destruct (thread_count env num_cpus =? 0)%N eqn:E.
  - apply N.eqb_eq in E. pose proof (thread_count_spec env num_cpus ltac:(lia)) as Ht.
    destruct (env (str "COUNT_THREADS")) as [s|] eqn:Ee; [|lia]. exists s. split; [done|].
    unfold thread_count, env_or in E. rewrite Ee in E. simpl in E.
    destruct (parse_usize s) as [n|]; cbn in E; [by rewrite E|discriminate E].
  - apply N.eqb_neq in E. cbn [negb].
    assert (forall st, settings env num_cpus = Some st -> st_threads st = thread_count env num_cpus) as Hst.
    { intros st. unfold settings. cbn zeta.
      destruct (parse_u16 (env_or env (str "ADMIN_PORT") _)); [|done].
      destruct (parse_u16 (env_or env (str "HTTP_PORT") _)); [|done].
      destruct (parse_u16 (env_or env (str "HTTPS_PORT") _)); [|done]. by intros [= <-]. }
    destruct (settings env num_cpus) as [st|] eqn:Es; [|split; [done|lia]].
    split; [done|]. rewrite (Hst st eq_refl). lia.
Qed.

(** The process only runs with ports that fit their type: every accepted
    setting is a number below 65536, and it is what the environment variable
    spells, or 8080, 8443 and 8181 when it is not set. *)
Theorem settings_ports (env : rstr -> option rstr) (num_cpus : N) (st : Settings) :
  settings env num_cpus = Some st ->
  (st_http_port st < 65536 /\ st_https_port st < 65536 /\ st_admin_port st < 65536)%N /\
  match env (str "HTTP_PORT") with None => Some 8080%N | Some s => parse_u16 s end
  = Some (st_http_port st) /\
  match env (str "HTTPS_PORT") with None => Some 8443%N | Some s => parse_u16 s end
  = Some (st_https_port st) /\
  match env (str "ADMIN_PORT") with None => Some 8181%N | Some s => parse_u16 s end
  = Some (st_admin_port st).
Proof.
  unfold settings, env_or.
  destruct (parse_u16 (default (str "8181") _)) as [a|] eqn:Ea; [|done].
  destruct (parse_u16 (default (str "8080") _)) as [p|] eqn:Ep; [|done].
  destruct (parse_u16 (default (str "8443") _)) as [q|] eqn:Eq; [|done].
  simpl. intros [= <-]. simpl.
  apply parse_unsigned_max in Ea as Ha. apply parse_unsigned_max in Ep as Hp.
  apply parse_unsigned_max in Eq as Hq. split; [lia|].
  rewrite <-Ea, <-Ep, <-Eq. split_and!; by case_match.
Qed.

(** ** Probes *)

(** The admin endpoint: whatever happened so far, GET /readyz answers 200
    exactly when a Watch stream has been established and 503 otherwise, GET
    /healthz always answers 200, POST /echo returns the request's body, and
    every other request gets a 404. *)
Theorem admin_endpoint {HT : Http} {RT : Rustls} {TK : Tokio} (addr : rstr) (ls : list clabel)
    (c : Ctl) (req : Request Incoming) :
  run addr ls start = Some c ->
  let resp := echo req (is_ready c) in
  let at_ m p := rq_method req = str m /\ uri_path (rq_uri req) = str p in
  (at_ "GET" "/readyz" ->
     rs_status resp = (if existsb is_ready_label ls then 200 else 503)%Z /\ rs_body resp = BodyFull []) /\
  (at_ "GET" "/healthz" -> rs_status resp = 200%Z /\ rs_body resp = BodyFull (Str.as_bytes (str "Ok"))) /\
  (at_ "POST" "/echo" -> rs_status resp = 200%Z /\ rs_body resp = BodyIncoming (rq_body req)) /\
  (~ at_ "GET" "/readyz" -> ~ at_ "GET" "/healthz" -> ~ at_ "POST" "/echo" -> rs_status resp = 404%Z).
Proof.
  intros Hrun resp at_. rewrite <-(ready_labels addr ls c Hrun). unfold resp, at_, echo.
  split_and!.
  - intros [-> ->]. simpl. by destruct (is_ready c).
  - by intros [-> ->].
  - by intros [-> ->].
  - intros H1 H2 H3. repeat case_bool_decide; try done; exfalso; naive_solver.
Qed.

(** ** Certificate verification *)

Definition event_client {HT : Http} (e : event) : ClientKind :=
  match e with EvAuth k _ => k | EvUpstream k _ _ => k end.

Lemma handle_selected_clients {HT : Http} net req host tls cr ep w :
  exists evs, w_log (handle_selected net req host tls cr ep w).2 = w_log w ++ evs /\
    Forall (fun e => event_client e = client_for (cr_backend_tls_insecure_skip_verify cr)) evs.
Proof.
  rewrite handle_selected_stages.
  destruct (authorise net req host tls cr w) as [r w1] eqn:Ea.
  assert (exists evs, w_log w1 = w_log w ++ evs /\
    Forall (fun e => event_client e = client_for (cr_backend_tls_insecure_skip_verify cr)) evs)
    as (evs & Hlog & Hevs).
  { unfold authorise in Ea. destruct (cr_auth cr) as [auth|].
    - apply perform_auth_cases in Ea as [(u & resp & _ & _ & _ & _ & ->)|[(_ & _ & ->)|
        (resp & _ & _ & _ & [Hl|[a Hl]])]].
      + eexists. split; [done|]. by repeat constructor.
      + exists []. rewrite app_nil_r. by split.
      + exists []. rewrite app_nil_r. by split.
      + eexists. split; [exact Hl|]. by repeat constructor.
    - injection Ea as <- <-. exists []. rewrite app_nil_r. by split. }
  destruct r as [req'|resp]; [|by exists evs].
  destruct (forward_selected_effect net req' host tls cr ep w1) as (m & r & _ & ->). simpl.
  rewrite Hlog, <-app_assoc. eexists. split; [done|]. apply Forall_app. split; [done|].
  unfold sends. apply Forall_fmap, Forall_true. done.
Qed.

(** Certificates are verified unless a cluster opts out: a request (to an
    endpoint or to an auth service) goes through a client that accepts an
    untrusted certificate only when the cluster its route selected has the
    skip-verify setting. *)
Theorem tls_verified_unless_opted_out {HT : Http} (net : Network) iter (t : RouteTable)
    (req : Request Incoming) (w : World) (threads : Z) :
  exists evs, w_log (proxy_handler net iter t req w).2 = w_log w ++ evs /\
    forall e, e ∈ evs ->
      verifies (pc_verifier (pool_client (new_http_pool_connector threads) (event_client e))) false
      = true ->
      exists host rule cr,
        extract_host req = inl host /\
        choose_route t host (uri_path (rq_uri req)) = Some rule /\
        get_cluster_rules t (rr_cluster rule) = Some cr /\
        cr_backend_tls_insecure_skip_verify cr = true.
Proof.
  rewrite proxy_handler_stages. destruct (resolve t req) as [[[host rule] cr]|resp] eqn:Er.
  2: { exists []. rewrite app_nil_r. split; [done|]. intros e He. by apply not_elem_of_nil in He. }
  destruct (get_endpoint iter t (rr_cluster rule) (w_heap w)) as [[sel|] h].
  2: { exists []. rewrite app_nil_r. split; [done|]. intros e He. by apply not_elem_of_nil in He. }
  rewrite with_guard_log. simpl.
  destruct (handle_selected_clients net req host (frontend_tls req) cr (se_endpoint sel)
    (mk_world (guard_new (se_counter sel) h).2 (w_log w))) as (evs & Hlog & Hevs).
  exists evs. split; [exact Hlog|]. intros e He Hv. apply resolve_inl in Er as (? & ? & ?).
  exists host, rule, cr. split_and!; [done..|]. rewrite Forall_forall in Hevs.
  rewrite (Hevs e He) in Hv. unfold client_for in Hv.
  by destruct (cr_backend_tls_insecure_skip_verify cr).
Qed.

(** ** Listeners *)

Definition tasks_wf (s : Listener) : Prop :=
  (forall id b, li_tasks s !! id = Some b -> id < li_next s) /\
  (li_pc s = LBinding -> li_tasks s = ∅ /\ li_next s = 0) /\
  (li_pc s = LAccepting -> size (li_tasks s) = li_next s) /\
  (forall ok, li_pc s = LReturned ok -> li_tasks s = ∅).

Lemma tasks_wf_new : tasks_wf listener_new.
Proof. by split_and!. Qed.

Lemma lookup_insert_lt s id b id' b' :
  (forall id b, li_tasks s !! id = Some b -> id < li_next s) -> li_tasks s !! id = Some b ->
  <[id := true]> (li_tasks s) !! id' = Some b' -> id' < li_next s.
Proof.
  intros Hlt Hid. destruct (decide (id' = id)) as [->|Hne]; [intros _; by eapply Hlt|].
  rewrite lookup_insert_ne by done. apply Hlt.
Qed.

Lemma tasks_wf_step cancelled l s s' : tasks_wf s -> lstep cancelled l s = Some s' -> tasks_wf s'.
Proof.
  intros (Hlt & Hb & Ha & Hr) Hstep. unfold lstep in Hstep.
  destruct (li_pc s) eqn:Epc, l; simplify_eq/=.
  - destruct (Hb eq_refl) as [-> ->]. split_and!; simpl; done.
  - destruct (Hb eq_refl) as [-> ->]. split_and!; simpl; done.
  - case_match; simplify_eq/=. by split_and!.
  - split_and!; simpl; [|done| |done].
    + intros id b. destruct (decide (id = li_next s)) as [->|Hne]; [lia|].
      rewrite lookup_insert_ne by done. intros ?%Hlt. lia.
    + intros _. rewrite map_size_insert_None, Ha; [done..|].
      destruct (li_tasks s !! li_next s) eqn:E; [|done]. apply Hlt in E. lia.
  - by split_and!; rewrite ?Epc.
  - repeat case_match; simplify_eq/=. split_and!; simpl; [|done| |done].
    + intros id' b. by eapply lookup_insert_lt.
    + intros _. by rewrite map_size_insert_Some, Ha by eauto.
  - repeat case_match; simplify_eq/=. split_and!; simpl; [|done..].
    intros id' b. by eapply lookup_insert_lt.
  - repeat case_match; simplify_eq/=. split_and!; simpl; [|done..].
    intros id' b [_ ?]%lookup_delete_Some. by eapply Hlt.
  - case_decide; simplify_eq/=. by split_and!.
Qed.

(** A run of a listener; the token may be cancelled at any step. *)
Fixpoint listener_run (cancelled : nat -> bool) (ls : list llabel) (s : Listener) : option Listener :=
  match ls with
  | [] => Some s
  | l :: ls' =>
      match lstep (cancelled (length ls')) l s with
      | Some s' => listener_run cancelled ls' s'
      | None => None
      end
  end.

Lemma listener_next cancelled l s s' :
  lstep cancelled l s = Some s' ->
  li_next s' = li_next s + if decide (l = Accept) then 1 else 0.
Proof.
  unfold lstep. intros Hstep. repeat case_match; simplify_eq/=; lia.
Qed.

Lemma listener_run_from cancelled ls s s' :
  tasks_wf s -> listener_run cancelled ls s = Some s' ->
  tasks_wf s' /\ li_next s' = li_next s + length (base.filter (fun l => l = Accept) ls).
Proof.
  revert s. induction ls as [|l ls IH]; intros s Hwf; simpl.
  { intros [= <-]. rewrite Nat.add_0_r. done. }
  destruct (lstep _ l s) as [s1|] eqn:E; [|done]. intros Hrun.
  destruct (IH s1) as [? ->]; [by eapply tasks_wf_step|done|]. split; [done|].
  rewrite (listener_next _ _ _ _ E), filter_cons. case_decide; simpl; lia.
Qed.

Lemma listener_run_inv cancelled ls s :
  listener_run cancelled ls listener_new = Some s ->
  tasks_wf s /\ li_next s = length (base.filter (fun l => l = Accept) ls).
Proof. intros Hrun. by apply (listener_run_from cancelled ls listener_new s tasks_wf_new). Qed.

(** A drained listener has joined every connection task, and while it accepts
    no task is ever removed: the set holds one entry per connection accepted
    since the start, finished or not, until shutdown. *)
Theorem listener_tasks (cancelled : nat -> bool) (ls : list llabel) (s : Listener) :
  listener_run cancelled ls listener_new = Some s ->
  (li_pc s = LReturned true -> li_tasks s = ∅) /\
  (li_pc s = LAccepting ->
     size (li_tasks s) = length (base.filter (fun l => l = Accept) ls)).
Proof.
  intros Hrun. destruct (listener_run_inv cancelled ls s Hrun) as [(_ & _ & Ha & Hr) Hn].
  split; [apply Hr|]. intros Hpc. by rewrite Ha.
Qed.

(** ** Shutdown *)

Section shutdown.
Context {HT : Http} {RT : Rustls} {TK : Tokio} {TL : TokioLaws TK} (addr : rstr).

Definition joined_http (pc : main_pc) : bool :=
  match pc with JoinHttps | StopManager | Exited => true | _ => false end.
Definition joined_https (pc : main_pc) : bool :=
  match pc with StopManager | Exited => true | _ => false end.

Record main_inv (s : Main) : Prop := {
  mi_http : tasks_wf (ma_http s);
  mi_https : tasks_wf (ma_https s);
  mi_joined_http : joined_http (ma_pc s) = true -> has_returned (ma_http s) = true;
  mi_joined_https : joined_https (ma_pc s) = true -> has_returned (ma_https s) = true;
  mi_cancelled : is_cancelled (cs_cancel (ma_ctl s)) = true -> joined_https (ma_pc s) = true;
  mi_exited : ma_pc s = Exited -> tasks_done (ma_ctl s) = true;
  mi_requested : ma_pc s <> Waiting -> is_cancelled (ma_shutdown s) = true;
}.

Lemma joined_https_http pc : joined_https pc = true -> joined_http pc = true.
Proof. by destruct pc. Qed.

Lemma returned_step cancelled l s s' :
  lstep cancelled l s = Some s' -> has_returned s = true -> False.
Proof. unfold lstep, has_returned. by destruct (li_pc s). Qed.

Lemma https_step_lstep cancelled l s s' :
  https_step cancelled l s = Some s' -> exists l', lstep cancelled l' s = Some s'.
Proof. destruct l; simpl; eauto. Qed.

Lemma ctl_step_cancel l c c' :
  l <> Shutdown -> cstep addr l c = Some c' ->
  cs_cancel c' = cs_cancel c /\ (tasks_done c = true -> False).
Proof.
  intros Hl Hstep. destruct l as [l|l|]; [| |done].
  all: split; [step_cases Hstep; done|].
  all: unfold tasks_done; simpl in Hstep; intros Hd.
  - unfold mstep in Hstep. by destruct (mg_pc (cs_mgr c)).
  - unfold wstep in Hstep. by destruct (mg_pc (cs_mgr c)), (cs_watcher c).
Qed.

Lemma main_inv_start : main_inv main_start.
Proof.
  split; simpl; try done; try apply tasks_wf_new. by rewrite is_cancelled_new.
Qed.

Lemma main_inv_ctl l c' s :
  l <> Shutdown -> main_inv s -> cstep addr l (ma_ctl s) = Some c' ->
  main_inv (mk_main (ma_pc s) (ma_shutdown s) (ma_http s) (ma_https s) c').
Proof.
  intros Hl [] Hstep. destruct (ctl_step_cancel l _ _ Hl Hstep) as [Hc Hd].
  split; simpl; try done; [by rewrite Hc|]. intros Hx. by destruct Hd; auto.
Qed.

Lemma main_inv_task s s' : main_inv s -> main_task addr s = Some s' -> main_inv s'.
Proof.
  intros [] Hstep. unfold main_task in Hstep.
  destruct (ma_pc s) eqn:Epc; simpl in Hstep; try done; case_match; simplify_eq/=;
    split; simpl; auto; try done.
Qed.

Lemma main_inv_step l s s' : main_inv s -> main_step addr l s = Some s' -> main_inv s'.
Proof.
  intros Hinv. destruct l as [|l|l|l|l|]; simpl.
  - intros [= <-]. destruct Hinv. split; try done. intros _. apply is_cancelled_cancel.
  - destruct (lstep _ l (ma_http s)) as [x|] eqn:E; [|done]. intros [= <-].
    destruct Hinv as [Hw1 Hw2 Hj1 Hj2 ???]. split; simpl; try done.
    + exact (tasks_wf_step _ _ _ _ Hw1 E).
    + intros Hj. destruct (returned_step _ _ _ _ E). auto.
  - destruct (https_step _ l (ma_https s)) as [x|] eqn:E; [|done]. intros [= <-].
    apply https_step_lstep in E as [l' E].
    destruct Hinv as [Hw1 Hw2 Hj1 Hj2 ???]. split; simpl; try done.
    + exact (tasks_wf_step _ _ _ _ Hw2 E).
    + intros Hj. destruct (returned_step _ _ _ _ E). auto.
  - destruct (mstep addr l (ma_ctl s)) as [c|] eqn:E; [|done]. intros [= <-].
    by apply (main_inv_ctl (Mgr l)).
  - destruct (wstep l (ma_ctl s)) as [c|] eqn:E; [|done]. intros [= <-].
    by apply (main_inv_ctl (Wat l)).
  - by apply main_inv_task.
Qed.

Lemma returned_empty x : tasks_wf x -> has_returned x = true -> li_tasks x = ∅.
Proof.
  intros (_ & _ & _ & Hr) Hx. unfold has_returned in Hx. destruct (li_pc x) eqn:E; try done.
  by eapply Hr.
Qed.


(** Steps of the configuration watcher are steps of the process. *)
Lemma main_lift ls s c :
  Forall (fun l => l <> Shutdown) ls -> reachable main_init (main_rel addr) s ->
  run addr ls (ma_ctl s) = Some c ->
  reachable main_init (main_rel addr)
    (mk_main (ma_pc s) (ma_shutdown s) (ma_http s) (ma_https s) c).
Proof.
  intros Hls. revert s. induction Hls as [|l ls Hl Hls IH]; intros s Hs; simpl.
  { intros [= <-]. by destruct s. }
  destruct (cstep addr l (ma_ctl s)) as [c1|] eqn:E; [|done]. intros Hrun.
  apply (IH (mk_main (ma_pc s) (ma_shutdown s) (ma_http s) (ma_https s) c1)); [|done].
  eapply reachable_step; [exact Hs|].
  destruct l as [l|l|]; [exists (MgrL l)|exists (WatL l)|done]; simpl in *; by rewrite E.
Qed.

(** A listener that cannot bind its port goes unnoticed: the process can be
    up, waiting for a shutdown request and reporting ready, while its HTTP
    listener has returned with an error. *)
Theorem bind_failure_unnoticed (uri : Uri) (host : rstr) :
  uri_from_str addr = Some uri ->
  uri_host uri = Some host ->
  exists s, reachable main_init (main_rel addr) s /\
    ma_pc s = Waiting /\ is_cancelled (ma_shutdown s) = false /\
    li_pc (ma_http s) = LReturned false /\ is_ready (ma_ctl s) = true.
Proof.
  intros Hu Hh. eexists. split.
  - eapply (main_lift (schedule_load ++ schedule_open)
      (mk_main Waiting token_new (mk_listener (LReturned false) ∅ 0) listener_new start)).
    + repeat constructor; done.
    + eapply reachable_step; [by apply reachable_init|]. exists (HttpL BindErr). done.
    + cbn [ma_ctl]. rewrite run_app, run_load. by eapply run_open.
  - split_and!; [done| |done..]. apply is_cancelled_new.
Qed.

End shutdown.

(** ** The scheme a backend sees *)

Lemma sends_headers {HT : Http} client tmo (up : Request Incoming) m e :
  e ∈ sends client tmo (map_body BodyIncoming up) (capture up) m ->
  exists k t r, e = EvUpstream k t r /\ rq_headers r = rq_headers up.
Proof.
  unfold sends. intros (i & -> & _)%list_elem_of_fmap. eexists _, _, _. split; [done|]. by destruct i.
Qed.


(** ** Witnesses *)

Module ServeDemo.
#[local] Existing Instance simple_http.
#[local] Existing Instance CertDemo.tls.
#[local] Existing Instance WatchDemo.tokio.

Definition env (name : rstr) : option rstr :=
  if decide (name = str "HTTP_PORT") then Some (str "9090") else None.

Definition probe : Request Incoming :=
  mk_request (str "GET") (mk_parts None None (Some (str "/readyz"))) HTTP_11 [] [] None.

(** A schedule of the whole process. *)
Fixpoint main_run (ls : list main_label) (s : Main) : option Main :=
  match ls with
  | [] => Some s
  | l :: ls' => match main_step WatchDemo.addr l s with Some s' => main_run ls' s' | None => None end
  end.

Lemma main_run_reachable ls s s' :
  reachable main_init (main_rel WatchDemo.addr) s -> main_run ls s = Some s' ->
  reachable main_init (main_rel WatchDemo.addr) s'.
Proof.
  revert s. induction ls as [|l ls IH]; intros s Hs; simpl; [by intros [= <-]|].
  destruct (main_step _ l s) as [s1|] eqn:E; [|done]. apply IH.
  eapply reachable_step; [exact Hs|by exists l].
Qed.

(** Serve one connection, then shut down completely. *)
Definition lifecycle : list main_label :=
  [HttpL BindOk; HttpsL (Plain BindOk); HttpL Accept; CtrlC; MainL; HttpL Stop; HttpsL (Plain Stop);
   HttpL (TaskEnd 0); HttpL (JoinNext 0); HttpL JoinNone; HttpsL (Plain JoinNone); MainL; MainL;
   MgrL LTau; WatL WCancelled; MainL].
Definition final : Main := default main_start (main_run lifecycle main_start).

Lemma final_reachable : reachable main_init (main_rel WatchDemo.addr) final.
Proof.
  apply (main_run_reachable lifecycle main_start); [by apply reachable_init|]. vm_compute. reflexivity.
Qed.
End ServeDemo.

Lemma thread_count_spec_witness :
  thread_count ServeDemo.env 4 = 4%N /\ match ServeDemo.env (str "COUNT_THREADS") with None => True | _ => False end.
Proof. split; [|vm_compute; exact I]. apply (thread_count_spec ServeDemo.env 4). reflexivity. Defined.

(** Zero threads. *)
Lemma boot_outcome_witness :
  exists s, s = str "0" /\ boot (fun _ => Some (str "0")) 4 false true = BootPanic /\ parse_usize s = Some 0%N.
Proof.
  pose proof (boot_outcome (fun _ => Some (str "0")) 4 ltac:(done)) as H.
  assert (boot (fun _ => Some (str "0")) 4 false true = BootPanic) as E by (vm_compute; reflexivity).
  rewrite E in H. destruct H as (s & Hs & Hp). injection Hs as <-.
  exists (str "0"). split; [reflexivity|]. split; [exact E|exact Hp].
Defined.

Lemma settings_ports_witness :
  exists st, settings ServeDemo.env 4 = Some st /\ (st_http_port st < 65536)%N /\
    st_http_port st = 9090%N.
Proof.
  eexists. split; [vm_compute; reflexivity|]. split; [|reflexivity].
  eapply (settings_ports ServeDemo.env 4). vm_compute. reflexivity.
Defined.

Lemma admin_endpoint_witness :
  rs_status (echo ServeDemo.probe (is_ready WatchDemo.ctl)) = 200%Z.
Proof.
  destruct (@admin_endpoint simple_http CertDemo.tls WatchDemo.tokio WatchDemo.addr WatchDemo.schedule
    WatchDemo.ctl ServeDemo.probe WatchDemo.schedule_runs) as [Hready _].
  destruct Hready as [Hs _]; [split; vm_compute; reflexivity|]. exact Hs.
Defined.

Lemma listener_tasks_witness :
  exists s, listener_run (fun _ => false) [BindOk; Accept; TaskEnd 0; Accept] listener_new = Some s /\
    size (li_tasks s) = 2.
Proof.
  eexists. split; [vm_compute; reflexivity|].
  eapply (listener_tasks (fun _ => false) [BindOk; Accept; TaskEnd 0; Accept]); vm_compute; reflexivity.
Defined.


Lemma bind_failure_unnoticed_witness :
  exists s, reachable main_init (@main_rel simple_http CertDemo.tls WatchDemo.tokio WatchDemo.addr) s /\
    ma_pc s = Waiting /\ li_pc (ma_http s) = LReturned false /\ is_ready (ma_ctl s) = true.
Proof.
  destruct (@bind_failure_unnoticed simple_http CertDemo.tls WatchDemo.tokio WatchDemo.tokio_laws
    WatchDemo.addr (mk_parts (Some (str "http")) (Some (str "127.0.0.1:18000")) (Some (str "/")))
    (str "127.0.0.1")) as (s & Hs & Hpc & _ & Hl & Hr).
  - vm_compute. reflexivity.
  - vm_compute. reflexivity.
  - exists s. split; [exact Hs|]. split; [exact Hpc|]. split; [exact Hl|exact Hr].
Defined.

