(* ===== verification/GoLib.v ===== *)
(** Go strings and the parts of Go's standard library the control plane uses.
    Strings that come from the Kubernetes API and go into protobuf messages are
    valid UTF-8, so they are sequences of code points here as well ([rstr]), and
    what Go does byte by byte (ordering, [len]) is done on the UTF-8 view.
    [strings.TrimSpace] removes the code points with the property White_Space,
    which is [Str.trim]; [strings.Contains] is [Str.contains]. *)

From stdpp Require Import base gmap list strings sorting.
From Stdlib Require Import NArith ZArith Lia ZifyBool ZifyN.
From S2P Require Import Prelude RustStr.

(** A pointer: its address and what it points to. Nothing the control plane
    points to is changed once the pointer is shared. Comparing pointers compares
    addresses; [nil] is [None] of an [option]. *)
Record ptr (A : Type) := Ptr { addr : N; deref : A }.
Arguments Ptr {A}.
Arguments addr {A}.
Arguments deref {A}.

Definition ptr_eq {A} (p q : option (ptr A)) : bool := bool_decide (addr <$> p = addr <$> q).

Module Go.

(** ** Strings *)

(** The order of strings: lexicographic on their bytes. *)
Fixpoint bytes_cmp (a b : list N) : comparison :=
  match a, b with
  | [], [] => Eq
  | [], _ :: _ => Lt
  | _ :: _, [] => Gt
  | x :: a', y :: b' => Sort.then_ (N.compare x y) (bytes_cmp a' b')
  end.
Definition string_cmp (a b : rstr) : comparison := bytes_cmp (Str.as_bytes a) (Str.as_bytes b).
Definition string_lt (a b : rstr) : bool := match string_cmp a b with Lt => true | _ => false end.

(** [sort.Strings]: strings that compare equal are equal, so that the result
    does not depend on the sort being stable ([sort_Strings_unique]). *)
Definition sort_Strings (l : list rstr) : list rstr := Sort.sort_by string_cmp l.

(** [strings.Split] at a one-character separator. *)
Fixpoint Split (s : rstr) (sep : N) : list rstr :=
  match s with
  | [] => [[]]
  | c :: s' =>
      if (c =? sep)%N then [] :: Split s' sep
      else match Split s' sep with
           | [] => [[c]]
           | p :: ps => (c :: p) :: ps
           end
  end.

(** [strings.EqualFold] against an ASCII string: besides the two cases of a
    letter, the long s folds to s and the Kelvin sign to k. *)
Definition fold_rune (c : N) : N :=
  if (c =? 383)%N then 115%N else if (c =? 8490)%N then 107%N else Str.lower_char c.
Definition EqualFold (s ascii : rstr) : bool :=
  bool_decide (map fold_rune s = map Str.lower_char ascii).

(** ** Numbers *)

Inductive NumErr := ErrSyntax | ErrRange.

Definition max_uint64 : Z := 2 ^ 64 - 1.
Definition max_int : Z := 2 ^ 63 - 1.
Definition min_int : Z := - 2 ^ 63.

(** [strconv.ParseUint] in base 10: the value and the error; an overflow is
    reported as soon as it happens. *)
Fixpoint parse_uint (n : Z) (s : rstr) : Z * option NumErr :=
  match s with
  | [] => (n, None)
  | c :: s' =>
      match Str.digit c with
      | None => (0%Z, Some ErrSyntax)
      | Some d =>
          let n' := (n * 10 + Z.of_N d)%Z in
          if (max_uint64 <? n')%Z then (max_uint64, Some ErrRange) else parse_uint n' s'
      end
  end.

(** [strconv.Atoi]: the value is also returned with an error, 0 for a syntax
    error and the nearest bound of [int] for a value out of range. *)
Definition Atoi (s : rstr) : Z * option NumErr :=
  let '(neg, digits) :=
    match s with
    | c :: s' => if (c =? 45)%N then (true, s') else if (c =? 43)%N then (false, s') else (false, s)
    | [] => (false, [])
    end in
  if bool_decide (digits = []) then (0%Z, Some ErrSyntax) else
  match parse_uint 0 digits with
  | (_, Some ErrSyntax) => (0%Z, Some ErrSyntax)
  | (un, _) =>
      if neg then if (2 ^ 63 <? un)%Z then (min_int, Some ErrRange) else ((- un)%Z, None)
      else if (2 ^ 63 <=? un)%Z then (max_int, Some ErrRange) else (un, None)
  end.

(** [int32(x)]: two's-complement truncation. *)
Definition int32 (z : Z) : Z := ((z + 2 ^ 31) mod 2 ^ 32 - 2 ^ 31)%Z.

(** ** Bytes *)

(** [hex.EncodeToString] *)
Definition hex_digit (d : N) : N := if (d <? 10)%N then (48 + d)%N else (87 + d)%N.
Definition hex_EncodeToString (bytes : list N) : rstr :=
  flat_map (fun b => [hex_digit (b / 16); hex_digit (b mod 16)]%N) bytes.

(** ** Ranging over a map

    [range n m] lists the entries of the map [m] in the order the [n]-th [range]
    statement visits them; the language does not specify it. *)
Definition ranges {V} (range : nat -> gmap rstr V -> list (rstr * V)) : Prop :=
  forall n m, range n m ≡ₚ map_to_list m.

End Go.

(** [sort.Slice]: sorts by a comparison that says when an element must come
    before another one; not guaranteed to be stable. *)
Class GoSort := {
  sort_Slice {A : Type} : (A -> A -> bool) -> list A -> list A;
}.

(** Its documented behaviour: the result is a permutation, and, when the
    comparison is a strict weak ordering of the elements (here: agrees with a
    total preorder on them), sorted by it. *)
Class GoSortLaws (GS : GoSort) : Prop := {
  sort_Slice_perm {A} (less : A -> A -> bool) l : sort_Slice less l ≡ₚ l;
  sort_Slice_sorted {A} (less : A -> A -> bool) (cmp : A -> A -> comparison) l :
    Sort.TotalOrder cmp ->
    (forall x y, x ∈ l -> y ∈ l -> less x y = bool_decide (cmp x y = Lt)) ->
    StronglySorted (Sort.le cmp) (sort_Slice less l);
}.

(** The stable insertion sort is one such implementation. *)
#[export] Instance insertion_sort : GoSort := {|
  sort_Slice A less := Sort.sort_by (fun x y => if less y x then Gt else Eq);
|}.

(** ** Facts: the order of strings *)

Lemma bytes_cmp_swap a b : Go.bytes_cmp b a = CompOpp (Go.bytes_cmp a b).
Proof.
  revert b. induction a as [|x a IH]; intros [|y b]; simpl; [done..|].
  rewrite (N.compare_antisym x y), (IH b). by destruct (N.compare x y).
Qed.

Lemma bytes_cmp_eq a b : Go.bytes_cmp a b = Eq -> a = b.
Proof.
  revert b. induction a as [|x a IH]; intros [|y b]; simpl; [done..|].
  destruct (N.compare_spec x y) as [->| |]; simpl; [|done..]. intros Hab. by rewrite (IH b).
Qed.

Lemma bytes_cmp_trans a b c :
  Go.bytes_cmp a b <> Gt -> Go.bytes_cmp b c <> Gt -> Go.bytes_cmp a c <> Gt.
Proof.
  revert b c. induction a as [|x a IH]; intros [|y b] [|z c]; simpl; try done.
  destruct (N.compare_spec x y), (N.compare_spec y z), (N.compare_spec x z);
    simpl; subst; try done; try lia. by eauto.
Qed.

#[export] Instance string_cmp_total : Sort.TotalOrder Go.string_cmp.
Proof.
  split; unfold Sort.le, Go.string_cmp; intros; [apply bytes_cmp_swap|by eapply bytes_cmp_trans].
Qed.

(** A Unicode code point, and a string of them. *)
Definition valid_char (c : N) : Prop := (c < 1114112)%N.
Definition valid_str (s : rstr) : Prop := Forall valid_char s.

#[export] Instance valid_char_dec c : Decision (valid_char c).
Proof. unfold valid_char. apply _. Defined.
#[export] Instance valid_str_dec s : Decision (valid_str s).
Proof. unfold valid_str. apply _. Defined.

Lemma bytes_cmp_app_eq p a b : Go.bytes_cmp (p ++ a) (p ++ b) = Go.bytes_cmp a b.
Proof. induction p as [|x p IH]; [done|]. simpl. by rewrite N.compare_refl. Qed.

(** The encodings of different code points differ inside both of them, in the
    order of the code points. *)
Lemma char_bytes_lt c d a b :
  valid_char d -> (c < d)%N -> Go.bytes_cmp (Str.char_bytes c ++ a) (Str.char_bytes d ++ b) = Lt.
Proof.
  unfold valid_char, Str.char_bytes. intros Hd Hlt.
  repeat match goal with
  | |- context [(?x <? ?y)%N] => destruct (N.ltb_spec x y); try lia
  end; simpl;
  repeat match goal with
  | |- context [N.compare ?x ?y] =>
      destruct (N.compare_spec x y); simpl; try reflexivity;
        try (exfalso; Z.div_mod_to_equations; lia)
  end.
Qed.

(** For valid strings the byte order is the order of the code points. *)
Lemma string_cmp_code_points a b :
  valid_str a -> valid_str b -> Go.string_cmp a b = Go.bytes_cmp a b.
Proof.
  intros Ha. revert b. induction Ha as [|c a Hc Ha IH]; intros b Hb; destruct Hb as [|d b Hd Hb].
  - done.
  - unfold Go.string_cmp. simpl. unfold Str.char_bytes. by repeat case_match.
  - unfold Go.string_cmp. simpl. unfold Str.char_bytes. by repeat case_match.
  - unfold Go.string_cmp in *. simpl. destruct (N.compare_spec c d) as [->|Hlt|Hgt]; simpl.
    + rewrite bytes_cmp_app_eq. by apply IH.
    + by apply char_bytes_lt.
    + by rewrite bytes_cmp_swap, char_bytes_lt.
Qed.

Lemma string_cmp_eq a b : valid_str a -> valid_str b -> Go.string_cmp a b = Eq -> a = b.
Proof. intros Ha Hb. rewrite string_cmp_code_points by done. apply bytes_cmp_eq. Qed.

(** Sorted permutations are unique where equivalent elements are equal. *)
Lemma sorted_unique {A} (cmp : A -> A -> comparison) (l1 l2 : list A) :
  (forall x y, x ∈ l1 -> y ∈ l1 -> Sort.le cmp x y -> Sort.le cmp y x -> x = y) ->
  StronglySorted (Sort.le cmp) l1 -> StronglySorted (Sort.le cmp) l2 -> l1 ≡ₚ l2 -> l1 = l2.
Proof.
  intros Heq Hs1. revert l2 Heq. induction Hs1 as [|x l1 Hs1 IH Hx]; intros l2 Heq Hs2 Hp.
  { by apply Permutation_nil_l in Hp. }
  destruct Hs2 as [|y l2 Hs2 Hy]; [by apply Permutation_nil_r in Hp|].
  assert (x = y) as <-.
  { assert (y ∈ x :: l1) as Hyin by (rewrite Hp; by left).
    assert (x ∈ y :: l2) as Hxin by (rewrite <-Hp; by left).
    rewrite Forall_forall in Hx, Hy.
    apply elem_of_cons in Hyin as [->|Hyin]; [done|].
    apply elem_of_cons in Hxin as [->|Hxin]; [done|].
    apply Heq; [by left|by right|by apply Hx|by apply Hy]. }
  f_equal. apply IH; [|done|by eapply Permutation_cons_inv].
  intros a b Ha Hb. apply Heq; by right.
Qed.

(** [sort.Strings] has one possible result. *)
Lemma sort_Strings_unique l l' :
  Forall valid_str l -> l' ≡ₚ l -> StronglySorted (Sort.le Go.string_cmp) l' -> l' = Go.sort_Strings l.
Proof.
  intros Hv Hp Hs. apply (sorted_unique Go.string_cmp); [|done|apply Sort.sort_by_sorted, _|].
  - rewrite <-Hp in Hv. rewrite Forall_forall in Hv. intros x y Hx Hy Hxy Hyx.
    apply string_cmp_eq; [by apply Hv..|].
    unfold Sort.le in *. rewrite (Sort.cmp_swap Go.string_cmp x y) in Hyx.
    by destruct (Go.string_cmp x y).
  - rewrite Hp. symmetry. apply Sort.sort_by_perm.
Qed.

(** ** Facts: sorting *)

Lemma insert_by_ext {A} (c1 c2 : A -> A -> comparison) x l :
  (forall y, y ∈ l -> (c1 x y = Gt <-> c2 x y = Gt)) ->
  Sort.insert_by c1 x l = Sort.insert_by c2 x l.
Proof.
  induction l as [|y l IH]; intros Hc; [done|]. simpl.
  rewrite IH by (intros; apply Hc; by right).
  pose proof (Hc y ltac:(by left)). destruct (c1 x y), (c2 x y); intuition congruence.
Qed.

Lemma sort_by_ext {A} (c1 c2 : A -> A -> comparison) l :
  (forall x y, x ∈ l -> y ∈ l -> (c1 x y = Gt <-> c2 x y = Gt)) ->
  Sort.sort_by c1 l = Sort.sort_by c2 l.
Proof.
  induction l as [|x l IH]; intros Hc; [done|]. simpl.
  rewrite IH by (intros; apply Hc; by right). apply insert_by_ext.
  intros y Hy. rewrite Sort.sort_by_perm in Hy. apply Hc; [by left|by right].
Qed.

#[export] Instance insertion_sort_laws : GoSortLaws insertion_sort.
Proof.
  split; intros A less.
  - intros l. apply Sort.sort_by_perm.
  - intros cmp l Hcmp Hless. simpl. rewrite (sort_by_ext _ cmp); [by apply Sort.sort_by_sorted|].
    intros x y Hx Hy. rewrite Hless, (Sort.cmp_swap cmp x y) by done.
    destruct (cmp x y); by vm_compute.
Qed.

(** Another one, that treats equivalent elements the other way round. *)
Definition reversing_sort : GoSort := {|
  sort_Slice A less l := Sort.sort_by (fun x y => if less y x then Gt else Eq) (rev l);
|}.

Lemma reversing_sort_laws : GoSortLaws reversing_sort.
Proof.
  split; intros A less.
  - intros l. simpl. rewrite Sort.sort_by_perm. symmetry. apply Permutation_rev.
  - intros cmp l Hcmp Hless. apply (sort_Slice_sorted (GS := insertion_sort) less cmp (rev l)); [done|].
    intros x y. rewrite <-!Permutation_rev. apply Hless.
Qed.

(** ** Facts: numbers *)

Lemma int32_range z : Int.is_i32 (Go.int32 z).
Proof. unfold Int.is_i32, Go.int32. pose proof (Z.mod_pos_bound (z + 2 ^ 31) (2 ^ 32)). lia. Qed.

Lemma int32_small z : Int.is_i32 z -> Go.int32 z = z.
Proof. unfold Int.is_i32, Go.int32. intros. rewrite Z.mod_small; lia. Qed.

Lemma parse_uint_range n s :
  (0 <= n <= Go.max_uint64)%Z -> (0 <= (Go.parse_uint n s).1 <= Go.max_uint64)%Z.
Proof.
  unfold Go.max_uint64. revert n. induction s as [|c s IH]; intros n Hn; simpl; [done|].
  destruct (Str.digit c) as [d|]; simpl; [|lia].
  destruct (Z.ltb_spec Go.max_uint64 (n * 10 + Z.of_N d)); simpl; [done|].
  apply IH. unfold Go.max_uint64 in *. lia.
Qed.

(** The value of [Atoi] is an [int], whatever the text. *)
Lemma Atoi_range s : (Go.min_int <= (Go.Atoi s).1 <= Go.max_int)%Z.
Proof.
  unfold Go.Atoi, Go.min_int, Go.max_int.
  destruct (match s with [] => _ | _ => _ end) as [neg digits].
  case_bool_decide; [simpl; lia|]. pose proof (parse_uint_range 0 digits) as Hr.
  unfold Go.max_uint64 in Hr. destruct (Go.parse_uint 0 digits) as [un err]. simpl in Hr.
  destruct err as [[]|]; simpl; destruct neg; repeat case_match; simpl; lia.
Qed.

(** Decimal digits of [ParseUint] agree with Rust's, up to the bound. *)
Lemma parse_uint_digits m n s :
  Str.parse_digits (Z.to_N Go.max_uint64) n s = Some m ->
  Go.parse_uint (Z.of_N n) s = (Z.of_N m, None).
Proof.
  revert n. induction s as [|c s IH]; intros n; cbn [Str.parse_digits Go.parse_uint];
    [by intros [= ->]|].
  destruct (Str.digit c) as [d|]; [|done]. cbn zeta.
  destruct (N.leb_spec (n * 10 + d) (Z.to_N Go.max_uint64)) as [Hle|]; [|done].
  intros Hp. apply IH in Hp. rewrite N2Z.inj_add, N2Z.inj_mul in Hp.
  assert ((Go.max_uint64 <? Z.of_N n * 10 + Z.of_N d) = false)%Z as ->; [|exact Hp].
  unfold Go.max_uint64 in *. lia.
Qed.

Lemma decimal_digits n :
  (n <= Z.to_N Go.max_uint64)%N ->
  exists d k, Str.decimal n = (48 + d)%N :: k /\ (d < 10)%N /\
    Go.parse_uint 0 (Str.decimal n) = (Z.of_N n, None).
Proof.
  intros Hn. pose proof (size_nat_gt n) as Hs.
  destruct (decimal_go_head (S (N.size_nat n)) n []) as (d & k & Hd & Hlt); [lia| |].
  { rewrite Nat2N.inj_succ, N.pow_succ_r'. lia. }
  exists d, k. split_and!; [exact Hd|done|]. apply (parse_uint_digits n 0).
  unfold Str.decimal. by rewrite parse_decimal_go.
Qed.

(** [Atoi] reads back what [Itoa] writes, for every [int]. *)
Lemma Atoi_display z : (Go.min_int <= z <= Go.max_int)%Z -> Go.Atoi (Str.display_Z z) = (z, None).
Proof.
  unfold Go.min_int, Go.max_int. intros Hz. unfold Str.display_Z, Go.Atoi.
  destruct (Z.ltb_spec z 0).
  - destruct (decimal_digits (Z.to_N (- z))) as (d & k & Hd & _ & Hp); [unfold Go.max_uint64; lia|].
    simpl. rewrite bool_decide_eq_false_2 by (rewrite Hd; done). rewrite Hp.
    rewrite Z2N.id by lia. assert ((2 ^ 63 <? - z) = false)%Z as -> by lia. f_equal. lia.
  - destruct (decimal_digits (Z.to_N z)) as (d & k & Hd & Hlt & Hp); [unfold Go.max_uint64; lia|].
    rewrite Hd in *. assert ((48 + d =? 45)%N = false) as -> by lia.
    assert ((48 + d =? 43)%N = false) as -> by lia.
    rewrite bool_decide_eq_false_2 by done. rewrite Hp, Z2N.id by lia.
    by assert ((2 ^ 63 <=? z) = false)%Z as -> by lia.
Qed.

(** ** Facts: splitting *)

Lemma Split_nonempty s sep : Go.Split s sep <> [].
Proof. destruct s as [|c s]; simpl; [done|]. repeat case_match; done. Qed.

(** [strings.Join] with a one-character separator. *)
Fixpoint join (sep : N) (l : list rstr) : rstr :=
  match l with
  | [] => []
  | [s] => s
  | s :: l' => s ++ sep :: join sep l'
  end.

Lemma Split_app_sep s sep t : sep ∉ s -> Go.Split (s ++ sep :: t) sep = s :: Go.Split t sep.
Proof.
  induction s as [|c s IH]; intros Hs; simpl; [by rewrite N.eqb_refl|].
  rewrite not_elem_of_cons in Hs. destruct Hs as [Hc Hs].
  rewrite (proj2 (N.eqb_neq c sep)) by congruence. by rewrite IH.
Qed.

Lemma Split_single s sep : sep ∉ s -> Go.Split s sep = [s].
Proof.
  induction s as [|c s IH]; intros Hs; simpl; [done|].
  rewrite not_elem_of_cons in Hs. destruct Hs as [Hc Hs].
  rewrite (proj2 (N.eqb_neq c sep)) by congruence. by rewrite IH.
Qed.

Lemma Split_join sep l : l <> [] -> Forall (fun s => sep ∉ s) l -> Go.Split (join sep l) sep = l.
Proof.
  intros Hne Hl. induction Hl as [|s l Hs Hl IH]; [done|].
  destruct l as [|t l]; [by apply Split_single|].
  change (join sep (s :: t :: l)) with (s ++ sep :: join sep (t :: l)).
  rewrite Split_app_sep by done. by rewrite IH.
Qed.

Lemma Split_pieces s sep p : p ∈ Go.Split s sep -> sep ∉ p.
Proof.
  revert p. induction s as [|c s IH]; intros p; simpl.
  { rewrite list_elem_of_singleton. intros ->. apply not_elem_of_nil. }
  destruct (N.eqb_spec c sep) as [->|Hc].
  { rewrite elem_of_cons. intros [->|?]; [apply not_elem_of_nil|by apply IH]. }
  destruct (Go.Split s sep) as [|q ps] eqn:E; [by apply Split_nonempty in E|].
  rewrite elem_of_cons. intros [->|Hp].
  - rewrite not_elem_of_cons. split; [done|]. apply IH. by left.
  - apply IH. by right.
Qed.

Lemma Split_chars sep s p c : p ∈ Go.Split s sep -> c ∈ p -> c ∈ s.
Proof.
  revert p. induction s as [|x s IH]; intros p; simpl.
  { by rewrite list_elem_of_singleton; intros ->. }
  destruct (N.eqb_spec x sep) as [->|Hx].
  { rewrite elem_of_cons. intros [->|?] Hc; [by apply not_elem_of_nil in Hc|]. right. by eapply IH. }
  destruct (Go.Split s sep) as [|q ps] eqn:E; [by apply Split_nonempty in E|].
  rewrite elem_of_cons. intros [->|Hp] Hc.
  - rewrite elem_of_cons in Hc. destruct Hc as [->|Hc]; [by left|]. right. apply (IH q); [by left|done].
  - right. apply (IH p); [by right|done].
Qed.

Lemma join_Split s sep : join sep (Go.Split s sep) = s.
Proof.
  induction s as [|c s IH]; [done|]. simpl. pose proof (Split_nonempty s sep) as Hne.
  destruct (N.eqb_spec c sep) as [->|Hc].
  - destruct (Go.Split s sep) as [|p ps]; [done|]. change (sep :: join sep (p :: ps) = sep :: s).
    by rewrite IH.
  - destruct (Go.Split s sep) as [|p ps]; [done|].
    destruct ps; simpl in *; by rewrite IH.
Qed.
