(* ===== verification/Sha256.v ===== *)
(** SHA-256 (FIPS 180-4), as [crypto/sha256] computes it: the control plane
    derives the version of a snapshot and of a certificate bundle from it. Words
    are 32-bit values in [N]. *)

From stdpp Require Import base list strings.
From Stdlib Require Import NArith Lia ZifyN.
From S2P Require Import Prelude RustStr GoLib.

Module sha256.
Open Scope N_scope.

Definition word (n : N) : N := n mod 2 ^ 32.
Definition add32 (a b : N) : N := word (a + b).
Definition rotr (x k : N) : N := N.lor (N.shiftr x k) (word (N.shiftl x (32 - k))).
Definition not32 (x : N) : N := N.lxor x (2 ^ 32 - 1).

Definition Ch (x y z : N) : N := N.lxor (N.land x y) (N.land (not32 x) z).
Definition Maj (x y z : N) : N := N.lxor (N.land x y) (N.lxor (N.land x z) (N.land y z)).
Definition Sigma0 (x : N) : N := N.lxor (rotr x 2) (N.lxor (rotr x 13) (rotr x 22)).
Definition Sigma1 (x : N) : N := N.lxor (rotr x 6) (N.lxor (rotr x 11) (rotr x 25)).
Definition sigma0 (x : N) : N := N.lxor (rotr x 7) (N.lxor (rotr x 18) (N.shiftr x 3)).
Definition sigma1 (x : N) : N := N.lxor (rotr x 17) (N.lxor (rotr x 19) (N.shiftr x 10)).

(** The constants of the standard are the first 32 bits of the fractional parts of
    roots of primes; they are computed here. [root k n] is the integral [k]-th
    root of [n], bit by bit from the given one on. *)
Fixpoint root (bit : nat) (k n r : N) : N :=
  let r' := r + 2 ^ N.of_nat bit in
  let r := if r' ^ k <=? n then r' else r in
  match bit with O => r | S bit' => root bit' k n r end.

Definition frac_root (k p : N) : N := word (root 34 k (p * 2 ^ (32 * k)) 0).

Definition is_prime (n : nat) : bool :=
  forallb (fun d => negb (Nat.modulo n d =? 0)%nat) (seq 2 (n - 2)).

Definition primes : list N := N.of_nat <$> base.filter (fun n => is_prime n = true) (seq 2 310).

(** One constant for each of the 64 rounds, from the cube roots. *)
Definition K : list N := Eval vm_compute in frac_root 3 <$> primes.

(** The eight words of the hash state. *)
Record digest := D { hA : N; hB : N; hC : N; hD : N; hE : N; hF : N; hG : N; hH : N }.

(** The state at the beginning, from the square roots. *)
Definition initial : digest := Eval vm_compute in
  let h i := frac_root 2 (nth i primes 0) in
  D (h 0%nat) (h 1%nat) (h 2%nat) (h 3%nat) (h 4%nat) (h 5%nat) (h 6%nat) (h 7%nat).

(** Big-endian words of a block. *)
Fixpoint words (l : list N) : list N :=
  match l with
  | a :: b :: c :: d :: l' => (a * 2 ^ 24 + b * 2 ^ 16 + c * 2 ^ 8 + d) :: words l'
  | _ => []
  end.

(** The message schedule, latest word first. *)
Fixpoint schedule (n : nat) (w : list N) : list N :=
  match n with
  | O => w
  | S n' =>
      schedule n' (add32 (sigma1 (nth 1 w 0))
        (add32 (nth 6 w 0) (add32 (sigma0 (nth 14 w 0)) (nth 15 w 0))) :: w)
  end.

Definition round (s : digest) (kw : N * N) : digest :=
  let '(D a b c d e f g h) := s in
  let t1 := add32 h (add32 (Sigma1 e) (add32 (Ch e f g) (add32 kw.1 kw.2))) in
  let t2 := add32 (Sigma0 a) (Maj a b c) in
  D (add32 t1 t2) a b c (add32 d t1) e f g.

Definition compress (s : digest) (block : list N) : digest :=
  let w := rev (schedule 48 (rev (words block))) in
  let r := fold_left round (zip K w) s in
  D (add32 (hA s) (hA r)) (add32 (hB s) (hB r)) (add32 (hC s) (hC r)) (add32 (hD s) (hD r))
    (add32 (hE s) (hE r)) (add32 (hF s) (hF r)) (add32 (hG s) (hG r)) (add32 (hH s) (hH r)).

(** Big-endian bytes of a number. *)
Fixpoint be_bytes (n : nat) (x : N) : list N :=
  match n with
  | O => []
  | S n' => (x / 256 ^ N.of_nat n') mod 256 :: be_bytes n' x
  end.

(** A one bit, zeros up to eight bytes before a block boundary, and the length
    in bits. *)
Definition pad (msg : list N) : list N :=
  let n := length msg in
  let zeros := Nat.modulo (64 - Nat.modulo (n + 9) 64) 64 in
  msg ++ [128] ++ repeat 0 zeros ++ be_bytes 8 (8 * N.of_nat n).

(** Blocks of 64 bytes; the length of the message is enough fuel. *)
Fixpoint blocks (fuel : nat) (l : list N) : list (list N) :=
  match fuel, l with
  | S fuel', _ :: _ => take 64 l :: blocks fuel' (drop 64 l)
  | _, _ => []
  end.

Definition sum_words (msg : list N) : digest :=
  let p := pad msg in fold_left compress (blocks (length p) p) initial.

Definition digest_words (s : digest) : list N := [hA s; hB s; hC s; hD s; hE s; hF s; hG s; hH s].

Definition Sum256 (msg : list N) : list N := flat_map (be_bytes 4) (digest_words (sum_words msg)).

Close Scope N_scope.
End sha256.

(** The hash of a text, in hexadecimal. *)
Definition hex_sha256 (bytes : list N) : rstr := Go.hex_EncodeToString (sha256.Sum256 bytes).

(** ** Facts *)

(** Padding fills whole blocks, and the blocks are the padded message: nothing
    is lost for lack of fuel. *)
Lemma be_bytes_length n x : length (sha256.be_bytes n x) = n.
Proof. induction n as [|n IH]; [done|]. simpl. by rewrite IH. Qed.

Lemma pad_length msg : Nat.modulo (length (sha256.pad msg)) 64 = 0.
Proof.
  unfold sha256.pad. rewrite !length_app, repeat_length, be_bytes_length.
  cbn [length]. set (n := length msg).
  pose proof (Nat.div_mod_eq (n + 9) 64). pose proof (Nat.mod_upper_bound (n + 9) 64).
  set (r := Nat.modulo (n + 9) 64) in *.
  destruct (decide (r = 0)) as [Hr|Hr].
  - rewrite Hr. change (Nat.modulo (64 - 0) 64) with 0.
    replace (n + (1 + (0 + 8))) with (Nat.div (n + 9) 64 * 64) by lia. apply Nat.Div0.mod_mul.
  - rewrite (Nat.mod_small (64 - r) 64) by lia.
    replace (n + (1 + (64 - r + 8))) with ((Nat.div (n + 9) 64 + 1) * 64) by lia.
    apply Nat.Div0.mod_mul.
Qed.

Lemma blocks_concat fuel l : length l <= fuel -> concat (sha256.blocks fuel l) = l.
Proof.
  revert l. induction fuel as [|fuel IH]; intros [|x l] Hl; simpl in Hl; try done; [lia|].
  cbn [sha256.blocks concat]. rewrite IH; [apply take_drop|]. rewrite length_drop. simpl. lia.
Qed.

Lemma blocks_full fuel l :
  Nat.modulo (length l) 64 = 0 -> Forall (fun b => length b = 64) (sha256.blocks fuel l).
Proof.
  revert l. induction fuel as [|fuel IH]; intros l Hl; [constructor|].
  destruct l as [|x l]; [constructor|]. cbn [sha256.blocks].
  assert (64 <= length (x :: l)) as Hge.
  { pose proof (Nat.div_mod_eq (length (x :: l)) 64). simpl length in *. lia. }
  constructor; [rewrite length_take; lia|]. apply IH. rewrite length_drop.
  replace (length (x :: l)) with ((length (x :: l) - 64) + 1 * 64) in Hl by lia.
  by rewrite Nat.Div0.mod_add in Hl.
Qed.

Lemma Sum256_length msg : length (sha256.Sum256 msg) = 32.
Proof. done. Qed.

(** A digest is written with 64 hexadecimal digits, in particular not empty. *)
Lemma hex_sha256_length bytes : length (hex_sha256 bytes) = 64.
Proof. done. Qed.

(** There is a constant for every round, and 35 bits are enough for the roots. *)
Example constants_complete :
  length sha256.K = 64 /\
  forallb (fun p => let n := (p * 2 ^ 96)%N in let r := sha256.root 34 3 n 0 in
     (r ^ 3 <=? n)%N && (n <? (r + 1) ^ 3)%N) sha256.primes = true /\
  forallb (fun p => let n := (p * 2 ^ 64)%N in let r := sha256.root 34 2 n 0 in
     (r ^ 2 <=? n)%N && (n <? (r + 1) ^ 2)%N) (take 8 sha256.primes) = true.
Proof. vm_compute. auto. Qed.

(** The test vectors of the standard. *)
Example sha256_abc :
  hex_sha256 (Str.as_bytes (str "abc"))
  = str "ba7816bf8f01cfea414140de5dae2223b00361a396177a9cb410ff61f20015ad".
Proof. vm_compute. reflexivity. Qed.

Example sha256_empty :
  hex_sha256 [] = str "e3b0c44298fc1c149afbf4c8996fb92427ae41e4649b934ca495991b7852b855".
Proof. vm_compute. reflexivity. Qed.

Example sha256_two_blocks :
  hex_sha256 (Str.as_bytes (str "abcdbcdecdefdefgefghfghighijhijkijkljklmklmnlmnomnopnopq"))
  = str "248d6a61d20638b8e5c026930c3e6039a33ce45964ff2167f6ecedd419db06c1".
Proof. vm_compute. reflexivity. Qed.
