(* ===== verification/Model.v ===== *)
(** The configuration as the control plane holds it, and the Kubernetes objects
    it is made from: the structs of src/images/controlplane/internal/model and
    the fields of the API types the controllers read. Optional API fields are
    pointers in Go; where only their value matters they are an [option]. *)

From stdpp Require Import base gmap list strings.
From Stdlib Require Import NArith ZArith.
From S2P Require Import Prelude RustStr GoLib.

Module model.

Definition LBRoundRobin : rstr := str "RoundRobin".
Definition LBLeastConn : rstr := str "LeastConn".
Definition RWHeaderAppend : rstr := str "Append".
Definition RWHeaderSet : rstr := str "Set".
Definition RWHeaderRemove : rstr := str "Remove".

Record AuthConfig := {
  Auth_URL : rstr;
  Auth_Signin : rstr;
  Auth_ResponseHeaders : list rstr;
  Auth_SkipPaths : list rstr;
  Auth_CookieName : rstr;
}.

Record RewriteHeaders := {
  RW_Name : rstr;
  RW_Mode : rstr;
  RW_Value : rstr;
}.

Record Endpoint := {
  EP_Address : rstr;
  EP_Port : Z;
  EP_Weight : Z;
  EP_Zone : rstr;
  EP_Region : rstr;
}.

Record Route := {
  Route_Host : rstr;
  Route_Path : rstr;
  Route_PathType : option (ptr rstr);
  Route_Cluster : rstr;
  Route_Priority : Z;
}.

Record Cluster := {
  Cluster_Name : rstr;
  Cluster_LBPolicy : rstr;
  Cluster_Endpoints : list Endpoint;
  Cluster_TimeoutMs : Z;
  Cluster_Retries : Z;
  Cluster_BackendProtocol : rstr;
  Cluster_LBAlgorithm : rstr;
  Cluster_RewriteHeaders : list RewriteHeaders;
  Cluster_Auth : option (ptr AuthConfig);
}.

(** [NotAfterUnix] is a [time.Time] in UTC, here its Unix time in seconds. *)
Record TLSSecret := {
  TLS_Name : rstr;
  TLS_Sni : list rstr;
  TLS_CertPem : list N;
  TLS_KeyPem : list N;
  TLS_NotAfterUnix : Z;
  TLS_Version : rstr;
}.

(** The fields [GeoIP] and [Policies] are never set. *)
Record Snapshot := {
  Snap_Version : rstr;
  Snap_ControllerID : rstr;
  Snap_IngressClassName : rstr;
  Snap_GeneratedAtUnixSec : Z;
  Snap_ResourceVersions : gmap rstr rstr;
  Snap_Routes : list Route;
  Snap_Clusters : list Cluster;
  Snap_TLS : list TLSSecret;
}.

Record TargetEndpoint := {
  TE_Port : Z;
  TE_Protocol : rstr;
  TE_BackendProtocol : rstr;
  TE_Addresses : list rstr;
  TE_PathType : option (ptr rstr);
  TE_Retries : Z;
  TE_TimeoutMs : Z;
  TE_LBAlgorithm : rstr;
  TE_RewriteHeaders : list RewriteHeaders;
  TE_Auth : option (ptr AuthConfig);
}.

Record TargetProxy := {
  TP_Host : rstr;
  TP_Path : gmap rstr TargetEndpoint;
  TP_SNI : TLSSecret;
}.

(** Zero values. *)
Definition TLSSecret_zero : TLSSecret := {|
  TLS_Name := []; TLS_Sni := []; TLS_CertPem := []; TLS_KeyPem := [];
  TLS_NotAfterUnix := -62135596800; TLS_Version := [] |}.
Definition AuthConfig_zero : AuthConfig := {|
  Auth_URL := []; Auth_Signin := []; Auth_ResponseHeaders := []; Auth_SkipPaths := [];
  Auth_CookieName := [] |}.
Definition Snapshot_zero : Snapshot := {|
  Snap_Version := []; Snap_ControllerID := []; Snap_IngressClassName := [];
  Snap_GeneratedAtUnixSec := 0; Snap_ResourceVersions := ∅;
  Snap_Routes := []; Snap_Clusters := []; Snap_TLS := [] |}.

(** The annotations of internal/model/static.go. *)
Definition BACKEND_PROTOCOL_ANNOTATION : rstr := str "argon.github.io/backend-protocol".
Definition BACKEND_TIMEOUT_ANNOTATION : rstr := str "argon.github.io/backend-timeout".
Definition BACKEND_RETRIES_ANNOTATION : rstr := str "argon.github.io/backend-retries".
Definition BACKEND_LB_ALGORITHM_ANNOTATION : rstr := str "argon.github.io/lb-algorithm".
Definition REQUEST_HEADERS_ANNOTATION : rstr := str "argon.github.io/request-headers".
Definition AUTH_URL_ANNOTATION : rstr := str "argon.github.io/auth-url".
Definition AUTH_SIGNIN_ANNOTATION : rstr := str "argon.github.io/auth-signin".
Definition AUTH_RESPONSE_HEADERS_ANNOTATION : rstr := str "argon.github.io/auth-response-headers".
Definition AUTH_SKIP_PATHS_ANNOTATION : rstr := str "argon.github.io/auth-skip-paths".
Definition AUTH_COOKIE_NAME_ANNOTATION : rstr := str "argon.github.io/auth-cookie-name".

End model.

(** ** Kubernetes objects *)

Module kube.

Definition PathTypeExact : rstr := str "Exact".
Definition PathTypePrefix : rstr := str "Prefix".
Definition PathTypeImplementationSpecific : rstr := str "ImplementationSpecific".
Definition ProtocolTCP : rstr := str "TCP".

Record ServiceBackendPort := { SBP_Name : rstr; SBP_Number : Z }.
Record IngressServiceBackend := { ISB_Name : rstr; ISB_Port : ServiceBackendPort }.
Record IngressBackend := { IB_Service : option IngressServiceBackend }.
Record HTTPIngressPath := {
  HP_Path : rstr;
  HP_PathType : option (ptr rstr);
  HP_Backend : IngressBackend;
}.
Record IngressRule := { IR_Host : rstr; IR_HTTP : option (list HTTPIngressPath) }.
Record IngressTLS := { IT_Hosts : list rstr; IT_SecretName : rstr }.
Record Ingress := {
  Ing_Namespace : rstr;
  Ing_Name : rstr;
  Ing_Annotations : gmap rstr rstr;
  Ing_IngressClassName : option rstr;
  Ing_TLS : list IngressTLS;
  Ing_Rules : list IngressRule;
}.

Record ServicePort := { SP_Name : rstr; SP_Port : Z }.
Record Service := { Svc_Ports : list ServicePort }.

Record EndpointPort := {
  EPP_Name : option rstr;
  EPP_Protocol : option rstr;
  EPP_Port : option Z;
}.
Record SliceEndpoint := { EPT_Addresses : list rstr; EPT_Ready : option bool }.
Record EndpointSlice := {
  ES_Namespace : rstr;
  ES_Labels : gmap rstr rstr;
  ES_Ports : list EndpointPort;
  ES_Endpoints : list SliceEndpoint;
}.

Record Secret := { Sec_Data : gmap rstr (list N) }.

Definition service_name_label : rstr := str "kubernetes.io/service-name".

End kube.

(** ** The Kubernetes client

    The client of controller-runtime, as one reconciliation sees it: reads are
    served from a cache, [None] is an error. [index] is the function the
    ingress lists are indexed by ([IndexField]). *)
Record Client := {
  List_Ingress : rstr -> option (list kube.Ingress);
  List_EndpointSlice : rstr -> rstr -> option (list kube.EndpointSlice);
  Get_Service : rstr -> rstr -> option kube.Service;
  Get_Secret : rstr -> rstr -> option kube.Secret;
}.

(** Documented behaviour of lists with [MatchingFields], [InNamespace] and
    [MatchingLabels]: only objects with that index value, or in that namespace
    and with that label. *)
Record client_laws (index : kube.Ingress -> list rstr) (c : Client) : Prop := {
  list_ingress_class class l ing :
    List_Ingress c class = Some l -> ing ∈ l -> class ∈ index ing;
  list_slices_match ns svc l es :
    List_EndpointSlice c ns svc = Some l -> es ∈ l ->
    kube.ES_Namespace es = ns /\ kube.ES_Labels es !! kube.service_name_label = Some svc;
}.

(** ** Libraries the controllers call

    YAML decoding into a list of header rewrites, PEM decoding, and certificate
    parsing, as far as the code looks at the results: the DER bytes of the first
    PEM block, and the expiry dates of the certificates in them. *)
Class Libs := {
  yaml_Unmarshal : rstr -> option (list model.RewriteHeaders);
  pem_Decode : list N -> option (list N);
  x509_ParseCertificates : list N -> option (list Z);
}.
