(* ===== verification/GoFmt.v ===== *)
(** What [fmt.Sprintf] prints for the values the control plane hashes: slices of
    structs with the verbs %v and %+v. Strings are printed as they are, nested
    pointers as addresses, times by their [String] method. *)

From stdpp Require Import base list strings.
From Stdlib Require Import NArith ZArith Lia.
From S2P Require Import Prelude RustStr GoLib Model.

Module fmt.

(** [ ... ] with the elements separated by spaces. *)
Definition slice {A} (print : A -> rstr) (l : list A) : rstr :=
  str "[" ++ join 32 (print <$> l) ++ str "]".

Definition string_ (s : rstr) : rstr := s.
Definition int (z : Z) : rstr := Str.display_Z z.
Definition byte_ (b : N) : rstr := Str.decimal b.

(** A pointer inside a struct. *)
Definition pointer {A} (p : option (ptr A)) : rstr :=
  match p with
  | None => str "<nil>"
  | Some p => str "0x" ++ Str.hex_go (S (N.size_nat (addr p))) (addr p) []
  end.

(** A decimal number padded with zeros to at least [width] digits. *)
Definition zero_padded (width : nat) (n : Z) : rstr :=
  let s := Str.decimal (Z.to_N n) in repeat 48%N (width - length s) ++ s.

(** [time.Time.String] of a UTC time with whole seconds, from its Unix time: the
    date of the proleptic Gregorian calendar, with years starting in March. *)
Definition time_ (unix : Z) : rstr :=
  (let days := unix / 86400 in
   let secs := unix mod 86400 in
   let z := days + 719468 in
   let era := z / 146097 in
   let doe := z mod 146097 in
   let yoe := (doe - doe / 1460 + doe / 36524 - doe / 146096) / 365 in
   let doy := doe - (365 * yoe + yoe / 4 - yoe / 100) in
   let mp := (5 * doy + 2) / 153 in
   let day := doy - (153 * mp + 2) / 5 + 1 in
   let month := if mp <? 10 then mp + 3 else mp - 9 in
   let year := yoe + era * 400 + (if month <=? 2 then 1 else 0) in
   zero_padded 4 year ++ str "-" ++ zero_padded 2 month ++ str "-" ++ zero_padded 2 day
   ++ str " " ++ zero_padded 2 (secs / 3600) ++ str ":" ++ zero_padded 2 (secs / 60 mod 60)
   ++ str ":" ++ zero_padded 2 (secs mod 60) ++ str " +0000 UTC")%Z.

(** The verb %+v: structs with their field names. *)
Definition Route (r : model.Route) : rstr :=
  str "{Host:" ++ string_ (model.Route_Host r) ++ str " Path:" ++ string_ (model.Route_Path r)
  ++ str " PathType:" ++ pointer (model.Route_PathType r)
  ++ str " Cluster:" ++ string_ (model.Route_Cluster r)
  ++ str " Priority:" ++ int (model.Route_Priority r) ++ str "}".

Definition Endpoint (e : model.Endpoint) : rstr :=
  str "{Address:" ++ string_ (model.EP_Address e) ++ str " Port:" ++ int (model.EP_Port e)
  ++ str " Weight:" ++ int (model.EP_Weight e) ++ str " Zone:" ++ string_ (model.EP_Zone e)
  ++ str " Region:" ++ string_ (model.EP_Region e) ++ str "}".

Definition RewriteHeaders (h : model.RewriteHeaders) : rstr :=
  str "{Name:" ++ string_ (model.RW_Name h) ++ str " Mode:" ++ string_ (model.RW_Mode h)
  ++ str " Value:" ++ string_ (model.RW_Value h) ++ str "}".

Definition Cluster (c : model.Cluster) : rstr :=
  str "{Name:" ++ string_ (model.Cluster_Name c)
  ++ str " LBPolicy:" ++ string_ (model.Cluster_LBPolicy c)
  ++ str " Endpoints:" ++ slice Endpoint (model.Cluster_Endpoints c)
  ++ str " TimeoutMs:" ++ int (model.Cluster_TimeoutMs c)
  ++ str " Retries:" ++ int (model.Cluster_Retries c)
  ++ str " BackendProtocol:" ++ string_ (model.Cluster_BackendProtocol c)
  ++ str " LBAlgorithm:" ++ string_ (model.Cluster_LBAlgorithm c)
  ++ str " RewriteHeaders:" ++ slice RewriteHeaders (model.Cluster_RewriteHeaders c)
  ++ str " Auth:" ++ pointer (model.Cluster_Auth c) ++ str "}".

(** The verb %v: structs without field names. *)
Definition TLSSecret (t : model.TLSSecret) : rstr :=
  str "{" ++ string_ (model.TLS_Name t) ++ str " " ++ slice string_ (model.TLS_Sni t)
  ++ str " " ++ slice byte_ (model.TLS_CertPem t) ++ str " " ++ slice byte_ (model.TLS_KeyPem t)
  ++ str " " ++ time_ (model.TLS_NotAfterUnix t) ++ str " " ++ string_ (model.TLS_Version t)
  ++ str "}".

End fmt.

(** The calendar on three dates: the epoch, a leap day, and Go's zero time. *)
Example time_epoch : fmt.time_ 0 = str "1970-01-01 00:00:00 +0000 UTC".
Proof. vm_compute. reflexivity. Qed.
Example time_leap_day : fmt.time_ 951868799 = str "2000-02-29 23:59:59 +0000 UTC".
Proof. vm_compute. reflexivity. Qed.
Example time_zero : fmt.time_ (-62135596800) = str "0001-01-01 00:00:00 +0000 UTC".
Proof. vm_compute. reflexivity. Qed.

(** The text does not determine the value: a header rewrite whose value spells the
    rest of a list prints like that list. *)
Lemma rewrites_ambiguous (name mode value name' mode' value' : rstr) :
  fmt.slice fmt.RewriteHeaders
    [{| model.RW_Name := name; model.RW_Mode := mode;
        model.RW_Value := value ++ str "} {Name:" ++ name' ++ str " Mode:" ++ mode' ++ str " Value:" ++ value' |}]
  = fmt.slice fmt.RewriteHeaders
    [{| model.RW_Name := name; model.RW_Mode := mode; model.RW_Value := value |};
     {| model.RW_Name := name'; model.RW_Mode := mode'; model.RW_Value := value' |}].
Proof.
  assert (forall s t, join 32 [s; t] = s ++ [32%N] ++ t) as Hj by done.
  unfold fmt.slice, fmt.RewriteHeaders, fmt.string_. cbn [fmap list_fmap model.RW_Name model.RW_Mode model.RW_Value].
  rewrite Hj. change (str "} {Name:") with (str "}" ++ [32%N] ++ str "{Name:").
  cbn [join]. by rewrite <-!app_assoc.
Qed.
