(* ===== verification/Annotations.v ===== *)
(** The annotations of an Ingress: [parseAnnotations], [getRequestHeaders] and
    [parseCSVList] of src/images/controlplane/internal/controller/utils.go, and
    what they guarantee to the data plane that will parse the result again. *)

From stdpp Require Import base gmap list strings.
From Stdlib Require Import NArith ZArith Lia.
From S2P Require Import Prelude RustStr Config Http RouteTable Routing GoLib Model.

(** ** Comma-separated lists *)

(** The loop of [parseCSVList]; [seen] is the Go map used as a set. *)
Fixpoint parseCSVList_go (parts : list rstr) (seen : gset rstr) (out : list rstr) : list rstr :=
  match parts with
  | [] => out
  | p :: parts' =>
      let v := Str.trim p in
      if Str.is_empty v then parseCSVList_go parts' seen out
      else if decide (v ∈ seen) then parseCSVList_go parts' seen out
      else parseCSVList_go parts' ({[v]} ∪ seen) (out ++ [v])
  end.
Definition parseCSVList (s : rstr) : list rstr := parseCSVList_go (Go.Split s 44) ∅ [].

(** ** Header rewrites *)

Inductive HeadersError := ErrUnmarshal | ErrMode (mode : rstr).

(** One iteration of the loop over the decoded entries. *)
Definition canonical_mode (raw : rstr) : rstr + HeadersError :=
  let mode := Str.trim raw in
  if Go.EqualFold mode model.RWHeaderSet then inl model.RWHeaderSet
  else if Go.EqualFold mode model.RWHeaderAppend then inl model.RWHeaderAppend
  else if Go.EqualFold mode model.RWHeaderRemove then inl model.RWHeaderRemove
  else inr (ErrMode mode).

Fixpoint canonical_modes (hs : list model.RewriteHeaders)
    : list model.RewriteHeaders + HeadersError :=
  match hs with
  | [] => inl []
  | h :: hs' =>
      match canonical_mode (model.RW_Mode h) with
      | inr e => inr e
      | inl mode =>
          match canonical_modes hs' with
          | inr e => inr e
          | inl rest =>
              inl ({| model.RW_Name := model.RW_Name h; model.RW_Mode := mode;
                      model.RW_Value := model.RW_Value h |} :: rest)
          end
      end
  end.

Definition getRequestHeaders `{Libs} (reqHeadersRaw : rstr)
    : list model.RewriteHeaders + HeadersError :=
  match yaml_Unmarshal reqHeadersRaw with
  | None => inr ErrUnmarshal
  | Some reqheaders => canonical_modes reqheaders
  end.

(** ** External auth *)

(** One of the five blocks that fill in the [AuthConfig]: a non-blank annotation
    allocates the struct, at the address [auth_addr], if no block before did. *)
Definition set_auth (auth_addr : N) (annotations : gmap rstr rstr) (key : rstr)
    (set : rstr -> model.AuthConfig -> model.AuthConfig) (auth : option (ptr model.AuthConfig))
    : option (ptr model.AuthConfig) :=
  match annotations !! key with
  | Some raw =>
      if Str.is_empty (Str.trim raw) then auth
      else let a := default (Ptr auth_addr model.AuthConfig_zero) auth in
           Some (Ptr (addr a) (set raw (deref a)))
  | None => auth
  end.

Definition set_URL (raw : rstr) (a : model.AuthConfig) : model.AuthConfig := {|
  model.Auth_URL := Str.trim raw; model.Auth_Signin := model.Auth_Signin a;
  model.Auth_ResponseHeaders := model.Auth_ResponseHeaders a;
  model.Auth_SkipPaths := model.Auth_SkipPaths a;
  model.Auth_CookieName := model.Auth_CookieName a |}.
Definition set_Signin (raw : rstr) (a : model.AuthConfig) : model.AuthConfig := {|
  model.Auth_URL := model.Auth_URL a; model.Auth_Signin := Str.trim raw;
  model.Auth_ResponseHeaders := model.Auth_ResponseHeaders a;
  model.Auth_SkipPaths := model.Auth_SkipPaths a;
  model.Auth_CookieName := model.Auth_CookieName a |}.
Definition set_ResponseHeaders (raw : rstr) (a : model.AuthConfig) : model.AuthConfig := {|
  model.Auth_URL := model.Auth_URL a; model.Auth_Signin := model.Auth_Signin a;
  model.Auth_ResponseHeaders := parseCSVList raw;
  model.Auth_SkipPaths := model.Auth_SkipPaths a;
  model.Auth_CookieName := model.Auth_CookieName a |}.
Definition set_SkipPaths (raw : rstr) (a : model.AuthConfig) : model.AuthConfig := {|
  model.Auth_URL := model.Auth_URL a; model.Auth_Signin := model.Auth_Signin a;
  model.Auth_ResponseHeaders := model.Auth_ResponseHeaders a;
  model.Auth_SkipPaths := parseCSVList raw;
  model.Auth_CookieName := model.Auth_CookieName a |}.
Definition set_CookieName (raw : rstr) (a : model.AuthConfig) : model.AuthConfig := {|
  model.Auth_URL := model.Auth_URL a; model.Auth_Signin := model.Auth_Signin a;
  model.Auth_ResponseHeaders := model.Auth_ResponseHeaders a;
  model.Auth_SkipPaths := model.Auth_SkipPaths a;
  model.Auth_CookieName := Str.trim raw |}.

Definition parse_auth (auth_addr : N) (annotations : gmap rstr rstr)
    : option (ptr model.AuthConfig) :=
  set_auth auth_addr annotations model.AUTH_COOKIE_NAME_ANNOTATION set_CookieName
    (set_auth auth_addr annotations model.AUTH_SKIP_PATHS_ANNOTATION set_SkipPaths
      (set_auth auth_addr annotations model.AUTH_RESPONSE_HEADERS_ANNOTATION set_ResponseHeaders
        (set_auth auth_addr annotations model.AUTH_SIGNIN_ANNOTATION set_Signin
          (set_auth auth_addr annotations model.AUTH_URL_ANNOTATION set_URL None)))).

(** ** The template of the endpoints of an Ingress *)

Definition parse_timeout (annotations : gmap rstr rstr) : Z :=
  Go.int32 match annotations !! model.BACKEND_TIMEOUT_ANNOTATION with
           | Some raw => (Go.Atoi raw).1
           | None => 3000
           end.

Definition parse_retries (annotations : gmap rstr rstr) : Z :=
  let backendRetries :=
    match annotations !! model.BACKEND_RETRIES_ANNOTATION with
    | Some raw => match Go.Atoi raw with (v, None) => v | (_, Some _) => 1%Z end
    | None => 1%Z
    end in
  Go.int32 (if (backendRetries <? 1)%Z then 1
            else if (10 <? backendRetries)%Z then 10 else backendRetries).

Definition parse_lb (annotations : gmap rstr rstr) : rstr :=
  match annotations !! model.BACKEND_LB_ALGORITHM_ANNOTATION with
  | Some alg =>
      if decide (alg = model.LBLeastConn) then model.LBLeastConn
      else if decide (alg = model.LBRoundRobin) then model.LBRoundRobin
      else model.LBRoundRobin
  | None => model.LBRoundRobin
  end.

Definition parse_headers `{Libs} (annotations : gmap rstr rstr) : list model.RewriteHeaders :=
  match annotations !! model.REQUEST_HEADERS_ANNOTATION with
  | Some raw => match getRequestHeaders raw with inl parsed => parsed | inr _ => [] end
  | None => []
  end.

Definition parseAnnotations `{Libs} (auth_addr : N) (annotations : gmap rstr rstr)
    : model.TargetEndpoint := {|
  model.TE_Port := 0;
  model.TE_Protocol := [];
  model.TE_BackendProtocol :=
    default (str "h1") (annotations !! model.BACKEND_PROTOCOL_ANNOTATION);
  model.TE_Addresses := [];
  model.TE_PathType := None;
  model.TE_Retries := parse_retries annotations;
  model.TE_TimeoutMs := parse_timeout annotations;
  model.TE_LBAlgorithm := parse_lb annotations;
  model.TE_RewriteHeaders := parse_headers annotations;
  model.TE_Auth := parse_auth auth_addr annotations;
|}.

(** ** Comma-separated lists: reference definition *)

(** A list without the later copies of its elements. *)
Fixpoint nub (l : list rstr) : list rstr :=
  match l with
  | [] => []
  | x :: l' => x :: base.filter (fun y => y <> x) (nub l')
  end.

Definition non_blank_items (parts : list rstr) : list rstr :=
  base.filter (fun v => v <> []) (Str.trim <$> parts).

Lemma non_blank_items_cons p parts :
  non_blank_items (p :: parts) =
  if Str.is_empty (Str.trim p) then non_blank_items parts
  else Str.trim p :: non_blank_items parts.
Proof.
  unfold non_blank_items. rewrite fmap_cons, filter_cons.
  by destruct (Str.trim p) eqn:E; case_decide; cbn [Str.is_empty].
Qed.

Lemma parseCSVList_go_nub parts seen out :
  parseCSVList_go parts seen out =
  out ++ base.filter (fun v => v ∉ seen) (nub (non_blank_items parts)).
Proof.
  revert seen out. induction parts as [|p parts IH]; intros seen out; cbn [parseCSVList_go].
  { by rewrite app_nil_r. }
  rewrite non_blank_items_cons. destruct (Str.is_empty (Str.trim p)); [apply IH|].
  cbn [nub]. rewrite filter_cons, list_filter_filter.
  case_decide as Hs.
  - rewrite IH, decide_False by tauto. f_equal. apply list_filter_iff. set_solver.
  - rewrite IH, decide_True, <-app_assoc by done. simpl. do 2 f_equal.
    apply list_filter_iff. set_solver.
Qed.

Lemma parseCSVList_nub s : parseCSVList s = nub (non_blank_items (Go.Split s 44)).
Proof.
  unfold parseCSVList. rewrite parseCSVList_go_nub. simpl.
  induction (nub _) as [|x l IH]; [done|]. rewrite filter_cons, decide_True by set_solver.
  by rewrite IH.
Qed.

Lemma elem_of_nub x l : x ∈ nub l <-> x ∈ l.
Proof.
  induction l as [|y l IH]; [done|]. simpl. rewrite !elem_of_cons, list_elem_of_filter, IH.
  destruct (decide (x = y)); naive_solver.
Qed.

Lemma nub_NoDup_id l : NoDup l -> nub l = l.
Proof.
  induction 1 as [|x l Hx Hl IH]; [done|]. simpl. rewrite IH. f_equal.
  apply filter_all. intros y Hy ->. done.
Qed.

(** ** Lists: agreement with the data plane *)

Lemma normalize_go_filter out l v :
  Str.to_ascii_lowercase v ∈ Str.to_ascii_lowercase <$> out ->
  Forall (fun y => Str.trim y = y) l ->
  normalize_go out (base.filter (fun y => y <> v) l) = normalize_go out l.
Proof.
  intros Hv Hl. revert out Hv. induction Hl as [|y l Hy Hl IH]; intros out Hv; [done|].
  rewrite filter_cons. case_decide as Hd.
  - cbn [normalize_go]. repeat case_match; [by apply IH..|].
    apply IH. rewrite fmap_app. set_solver.
  - assert (y = v) as -> by (destruct (decide (y = v)); tauto).
    rewrite IH by done. cbn [normalize_go]. rewrite Hy.
    case_match; [done|]. by rewrite (proj2 (existsb_ignore_case out v)).
Qed.

Lemma trimmed_non_blank_items parts : Forall (fun y => Str.trim y = y) (non_blank_items parts).
Proof.
  apply Forall_filter_sub. apply Forall_fmap, Forall_forall. intros p _. apply trim_idemp.
Qed.

Lemma normalize_go_filter_blank out (l : list rstr) v `{!forall y : rstr, Decision (y <> v)} :
  v = [] -> normalize_go out (base.filter (fun y => y <> v) l) = normalize_go out l.
Proof.
  intros Hv. revert out. induction l as [|y l IH]; intros out; [done|].
  rewrite filter_cons. case_decide as Hd; cbn [normalize_go]; rewrite !IH; [done|].
  assert (y = []) as -> by (destruct (decide (y = v)) as [->|]; [done|tauto]). done.
Qed.

Lemma normalize_go_nub out l :
  Forall (fun y => Str.trim y = y) l -> normalize_go out (nub l) = normalize_go out l.
Proof.
  intros Hl. revert out. induction Hl as [|y l Hy Hl IH]; intros out; [done|].
  assert (Forall (fun y => Str.trim y = y) (nub l)) as Hn.
  { rewrite Forall_forall in *. intros z. rewrite elem_of_nub. apply Hl. }
  cbn [nub normalize_go]. rewrite Hy. case_match eqn:Ee.
  - rewrite normalize_go_filter_blank by by destruct y. apply IH.
  - case_match eqn:Ex.
    + rewrite normalize_go_filter; [apply IH| |done]. by apply existsb_ignore_case.
    + rewrite normalize_go_filter; [apply IH| |done]. rewrite fmap_app. set_solver.
Qed.

Lemma normalize_go_trim out items : normalize_go out (Str.trim <$> items) = normalize_go out items.
Proof.
  revert out. induction items as [|p items IH]; intros out; [done|].
  rewrite fmap_cons. cbn [normalize_go]. by rewrite trim_idemp, !IH.
Qed.

(** ** What annotations mean *)

(** A non-blank annotation. *)
Definition annotation (annotations : gmap rstr rstr) (key : rstr) : option rstr :=
  raw ← annotations !! key;
  if Str.is_empty (Str.trim raw) then None else Some raw.

(** An annotation that is a decimal number. *)
Definition annotations_int (annotations : gmap rstr rstr) (key : rstr) : option Z :=
  raw ← annotations !! key;
  match Go.Atoi raw with (n, None) => Some n | (_, Some _) => None end.

Lemma set_auth_annotation a ann key set auth :
  set_auth a ann key set auth =
  match annotation ann key with
  | Some raw =>
      let p := default (Ptr a model.AuthConfig_zero) auth in Some (Ptr (addr p) (set raw (deref p)))
  | None => auth
  end.
Proof. unfold set_auth, annotation. destruct (ann !! key); simpl; by repeat case_match. Qed.

Lemma parse_auth_spec a ann :
  let get key := annotation ann key in
  let url := get model.AUTH_URL_ANNOTATION in
  let signin := get model.AUTH_SIGNIN_ANNOTATION in
  let headers := get model.AUTH_RESPONSE_HEADERS_ANNOTATION in
  let skip := get model.AUTH_SKIP_PATHS_ANNOTATION in
  let cookie := get model.AUTH_COOKIE_NAME_ANNOTATION in
  parse_auth a ann =
  if decide (url = None /\ signin = None /\ headers = None /\ skip = None /\ cookie = None)
  then None
  else Some (Ptr a {|
    model.Auth_URL := default [] (Str.trim <$> url);
    model.Auth_Signin := default [] (Str.trim <$> signin);
    model.Auth_ResponseHeaders := default [] (parseCSVList <$> headers);
    model.Auth_SkipPaths := default [] (parseCSVList <$> skip);
    model.Auth_CookieName := default [] (Str.trim <$> cookie) |}).
Proof.
  intros. unfold parse_auth. rewrite !set_auth_annotation.
  subst url signin headers skip cookie get. simpl.
  case_decide as Hd; [by destruct Hd as (-> & -> & -> & -> & ->)|].
  repeat match goal with |- context [annotation ann ?k] => destruct (annotation ann k) end;
    try reflexivity. destruct Hd. by split_and!.
Qed.

Lemma parse_retries_range ann : (1 <= parse_retries ann <= 10)%Z.
Proof.
  unfold parse_retries. set (n := match _ !! _ with Some _ => _ | None => _ end).
  rewrite int32_small; [|unfold Int.is_i32]; repeat case_match; lia.
Qed.

Lemma parse_lb_exact ann :
  parse_lb ann =
  if decide (ann !! model.BACKEND_LB_ALGORITHM_ANNOTATION = Some (str "LeastConn"))
  then str "LeastConn" else str "RoundRobin".
Proof. unfold parse_lb. destruct (ann !! _); repeat case_decide; naive_solver. Qed.

Lemma canonical_mode_known raw mode :
  canonical_mode raw = inl mode -> is_Some (HeaderRewriteMode_parse mode).
Proof. unfold canonical_mode. intros. repeat case_match; simplify_eq; vm_compute; eauto. Qed.

Lemma canonical_modes_known hs hs' :
  canonical_modes hs = inl hs' ->
  Forall (fun h => is_Some (HeaderRewriteMode_parse (model.RW_Mode h))) hs'.
Proof.
  revert hs'. induction hs as [|h hs IH]; intros hs'; simpl; [by intros [= <-]|].
  destruct (canonical_mode _) eqn:Em; [|done]. destruct (canonical_modes hs); [|done].
  intros [= <-]. constructor; [|by apply IH]. by eapply canonical_mode_known.
Qed.

Lemma parse_headers_known `{Libs} ann :
  Forall (fun h => is_Some (HeaderRewriteMode_parse (model.RW_Mode h))) (parse_headers ann).
Proof.
  unfold parse_headers, getRequestHeaders.
  destruct (ann !! _) as [raw|]; [|constructor].
  destruct (yaml_Unmarshal raw) as [hs|]; [|constructor].
  destruct (canonical_modes hs) as [hs'|] eqn:E; [|constructor]. by eapply canonical_modes_known.
Qed.

(** ** Properties *)

(** Comma-separated annotations are read as their reference definition says: the
    pieces between commas, trimmed, without the blank ones and without later
    copies. *)
Theorem parseCSVList_reference (s : rstr) :
  parseCSVList s = nub (base.filter (fun v => v <> []) (Str.trim <$> Go.Split s 44)).
Proof. apply parseCSVList_nub. Qed.

(** Writing a list of trimmed, non-empty, comma-free, distinct items with commas
    and reading it back gives the list. *)
Theorem parseCSVList_roundtrip (l : list rstr) :
  Forall (fun v => Str.trim v = v /\ v <> [] /\ 44%N ∉ v) l -> NoDup l ->
  parseCSVList (join 44 l) = l.
Proof.
  intros Hl Hnd. rewrite parseCSVList_nub. destruct (decide (l = [])) as [->|Hne]; [done|].
  rewrite Split_join; [|done|by eapply Forall_impl; [exact Hl|]; intros v (_ & _ & ?)].
  unfold non_blank_items. rewrite Forall_forall in Hl.
  assert (Str.trim <$> l = l) as ->.
  { clear Hnd Hne. induction l as [|v l IH]; [done|]. rewrite fmap_cons.
    destruct (Hl v) as [-> _]; [by left|]. rewrite IH; [done|]. intros w Hw. apply Hl. by right. }
  rewrite filter_all; [by apply nub_NoDup_id|]. intros v Hv. by destruct (Hl v Hv) as (_ & ? & _).
Qed.

(** The data plane normalises the lists of the auth settings again; it arrives at
    what it would make of the pieces of the annotation itself. *)
Theorem csv_normalised_once (s : rstr) :
  normalize_list (parseCSVList s) = normalize_list (Go.Split s 44).
Proof.
  unfold normalize_list. rewrite parseCSVList_nub, normalize_go_nub by apply trimmed_non_blank_items.
  unfold non_blank_items. rewrite normalize_go_filter_blank by done. apply normalize_go_trim.
Qed.

(** The number of attempts is the value of the annotation, clamped to 1..10, and 1
    where there is none or it is not a number. *)
Theorem retries_clamped (ann : gmap rstr rstr) :
  parse_retries ann =
  match annotations_int ann model.BACKEND_RETRIES_ANNOTATION with
  | Some n => Z.max 1 (Z.min n 10)
  | None => 1%Z
  end.
Proof.
  unfold parse_retries, annotations_int.
  destruct (ann !! _) as [raw|]; simpl; [|reflexivity].
  destruct (Go.Atoi raw) as [n [e|]]; simpl; [reflexivity|].
  rewrite int32_small; [|unfold Int.is_i32]; repeat case_match; lia.
Qed.

(** The timeout is the value of the annotation wrapped to 32 bits: it is not
    clamped, and a text that is no number gives 0. *)
Theorem timeout_not_clamped (ann : gmap rstr rstr) (n : Z) :
  ann !! model.BACKEND_TIMEOUT_ANNOTATION = Some (Str.display_Z n) ->
  (Go.min_int <= n <= Go.max_int)%Z ->
  parse_timeout ann = Go.int32 n.
Proof. intros Ha Hn. unfold parse_timeout. by rewrite Ha, Atoi_display. Qed.

(** The balancing policy is matched exactly: only the text LeastConn selects it. *)
Theorem lb_algorithm_exact (ann : gmap rstr rstr) :
  parse_lb ann =
  if decide (ann !! model.BACKEND_LB_ALGORITHM_ANNOTATION = Some (str "LeastConn"))
  then str "LeastConn" else str "RoundRobin".
Proof. apply parse_lb_exact. Qed.

(** ** Witnesses *)

Lemma parseCSVList_roundtrip_witness :
  parseCSVList (join 44 [str "X-Auth-Request-User"; str "X-Auth-Request-Email"])
  = [str "X-Auth-Request-User"; str "X-Auth-Request-Email"].
Proof.
  apply parseCSVList_roundtrip.
  - repeat constructor; first [discriminate|vm_compute; intros Hin; set_solver].
  - decide_compute.
Defined.

Lemma timeout_not_clamped_witness :
  parse_timeout {[ model.BACKEND_TIMEOUT_ANNOTATION := str "4294967297" ]} = 1%Z /\
  parse_timeout {[ model.BACKEND_TIMEOUT_ANNOTATION := str "-5" ]} = (-5)%Z.
Proof.
  split.
  - rewrite (timeout_not_clamped _ 4294967297); [reflexivity|reflexivity|unfold Go.min_int, Go.max_int; lia].
  - rewrite (timeout_not_clamped _ (-5)); [reflexivity|reflexivity|unfold Go.min_int, Go.max_int; lia].
Defined.
