(* ===== verification/Targets.v ===== *)
(** From Ingress rules to targets: the helpers of
    src/images/controlplane/internal/controller/utils.go that resolve services
    to ports and ready addresses and collect TLS bundles, and [parseEndpoints]
    of ingress_controller.go. The client answers from one state of its cache. *)

From stdpp Require Import base gmap list strings sorting.
From Stdlib Require Import NArith ZArith Lia.
From S2P Require Import Prelude RustStr Config Http RouteTable Routing GoLib Sha256 Model Annotations.

(** ** Ports *)

Fixpoint portProtocol_go (ports : list kube.EndpointPort) (matched : option Z) : rstr :=
  match ports with
  | [] => kube.ProtocolTCP
  | sp :: ports' =>
      match kube.EPP_Port sp, matched with
      | Some port, Some m =>
          if decide (port = m) then
            match kube.EPP_Protocol sp with
            | Some protocol => protocol
            | None => portProtocol_go ports' matched
            end
          else portProtocol_go ports' matched
      | _, _ => portProtocol_go ports' matched
      end
  end.
Definition portProtocol (slice : kube.EndpointSlice) (matched : option Z) : rstr :=
  portProtocol_go (kube.ES_Ports slice) matched.

(** [None] is an error of the client; the name returned with it is empty. *)
Definition resolveServicePortName (c : Client) (ns svcName : rstr) (be : kube.IngressBackend)
    : option rstr :=
  match kube.IB_Service be with
  | None => Some []
  | Some service =>
      match Get_Service c ns svcName with
      | None => None
      | Some svc =>
          let port := kube.ISB_Port service in
          if negb (Str.is_empty (kube.SBP_Name port)) then Some (kube.SBP_Name port)
          else if negb (kube.SBP_Number port =? 0)%Z then
            Some match find_first (fun p => kube.SP_Port p =? kube.SBP_Number port)%Z
                         (kube.Svc_Ports svc) with
                 | Some p => kube.SP_Name p
                 | None => []
                 end
          else Some []
      end
  end.

Fixpoint matchPort (ports : list kube.EndpointPort) (portName : rstr) : option Z :=
  match ports with
  | [] => None
  | sp :: ports' =>
      match kube.EPP_Port sp with
      | None => matchPort ports' portName
      | Some port =>
          if Str.is_empty portName then Some port
          else if decide (kube.EPP_Name sp = Some portName) then Some port
          else matchPort ports' portName
      end
  end.
Definition matchSlicePortByName (slice : kube.EndpointSlice) (portName : rstr) : option Z :=
  matchPort (kube.ES_Ports slice) portName.

(** ** Addresses *)

Definition appendUnique (dst src : list rstr) : list rstr :=
  fold_left (fun dst addr => if decide (addr ∈ dst) then dst else dst ++ [addr]) src dst.

(** The locals of the loop over the slices of a service. *)
Record Gathered := mk_gathered {
  allAddrs : list rstr;
  chosenPort : option Z;
  proto : rstr;
}.

Definition add_endpoint (addrs : list rstr) (ep : kube.SliceEndpoint) : list rstr :=
  match kube.EPT_Ready ep with
  | Some false => addrs
  | _ => appendUnique addrs (kube.EPT_Addresses ep)
  end.

Definition add_slice (portName : rstr) (g : Gathered) (slice : kube.EndpointSlice) : Gathered :=
  match matchSlicePortByName slice portName with
  | None => g
  | Some matched =>
      let '(port, proto) :=
        match chosenPort g with
        | None => (matched, portProtocol slice (Some matched))
        | Some port => (port, proto g)
        end in
      mk_gathered
        (if decide (matched = port)
         then fold_left add_endpoint (kube.ES_Endpoints slice) (allAddrs g)
         else allAddrs g)
        (Some port) proto
  end.

(** One iteration of the loop over the paths of a rule; [None] is [continue]. *)
Definition path_target (c : Client) (namespace : rstr) (base : model.TargetEndpoint)
    (p : kube.HTTPIngressPath) : option model.TargetEndpoint :=
  let be := kube.HP_Backend p in
  match kube.IB_Service be with
  | None => None
  | Some service =>
      let svcName := kube.ISB_Name service in
      match List_EndpointSlice c namespace svcName with
      | None => None
      | Some slicesList =>
          let portName := default [] (resolveServicePortName c namespace svcName be) in
          let g := fold_left (add_slice portName) slicesList
                     (mk_gathered [] None kube.ProtocolTCP) in
          match chosenPort g with
          | None => None
          | Some port =>
              if bool_decide (allAddrs g = []) then None
              else Some {|
                model.TE_Port := port;
                model.TE_Protocol := proto g;
                model.TE_BackendProtocol := model.TE_BackendProtocol base;
                model.TE_Addresses := Go.sort_Strings (allAddrs g);
                model.TE_PathType := kube.HP_PathType p;
                model.TE_Retries := model.TE_Retries base;
                model.TE_TimeoutMs := model.TE_TimeoutMs base;
                model.TE_LBAlgorithm := model.TE_LBAlgorithm base;
                model.TE_RewriteHeaders := model.TE_RewriteHeaders base;
                model.TE_Auth := model.TE_Auth base |}
          end
      end
  end.

Definition buildTargetFromRule (c : Client) (namespace : rstr) (rule : kube.IngressRule)
    (base : model.TargetEndpoint) (bundle : model.TLSSecret) : model.TargetProxy := {|
  model.TP_Host := kube.IR_Host rule;
  model.TP_Path :=
    match kube.IR_HTTP rule with
    | None => ∅
    | Some paths =>
        fold_left (fun m p =>
          match path_target c namespace base p with
          | None => m
          | Some te => <[kube.HP_Path p := te]> m
          end) paths ∅
    end;
  model.TP_SNI := bundle;
|}.

(** ** TLS bundles *)

(** One iteration of the loop over [ing.Spec.TLS]; [None] is [continue]. *)
Definition tls_bundle `{Libs} (c : Client) (namespace : rstr) (tls : kube.IngressTLS)
    : option model.TLSSecret :=
  if Str.is_empty (kube.IT_SecretName tls) || bool_decide (kube.IT_Hosts tls = []) then None else
  match Get_Secret c namespace (kube.IT_SecretName tls) with
  | None => None
  | Some secret =>
      let crt := default [] (kube.Sec_Data secret !! str "tls.crt") in
      let key := default [] (kube.Sec_Data secret !! str "tls.key") in
      if bool_decide (crt = []) || bool_decide (key = []) then None else
      match pem_Decode crt with
      | None => None
      | Some block =>
          match x509_ParseCertificates block with
          | Some (notAfter :: _) => Some {|
              model.TLS_Name := namespace ++ str "/" ++ kube.IT_SecretName tls;
              model.TLS_Sni := kube.IT_Hosts tls;
              model.TLS_CertPem := crt;
              model.TLS_KeyPem := key;
              model.TLS_NotAfterUnix := notAfter;
              model.TLS_Version := hex_sha256 (crt ++ key) |}
          | _ => None
          end
      end
  end.

Definition buildTLSBundle `{Libs} (c : Client) (ing : kube.Ingress) : model.TLSSecret :=
  fold_left (fun bundle tls => default bundle (tls_bundle c (kube.Ing_Namespace ing) tls))
    (kube.Ing_TLS ing) model.TLSSecret_zero.

(** ** All Ingresses *)

(** The targets of one Ingress; [auth_addr] is where its [AuthConfig], if any, is
    allocated. *)
Definition ingress_targets `{Libs} (c : Client) (auth_addr : N) (ing : kube.Ingress)
    : list model.TargetProxy :=
  let targetEndpoint := parseAnnotations auth_addr (kube.Ing_Annotations ing) in
  let bundle := buildTLSBundle c ing in
  base.filter (fun t => model.TP_Path t <> ∅)
    ((fun rule => buildTargetFromRule c (kube.Ing_Namespace ing) rule targetEndpoint bundle)
       <$> kube.Ing_Rules ing).

(** [alloc i] is the address of the allocation made for the [i]-th Ingress. *)
Definition parseEndpoints `{Libs} (c : Client) (alloc : nat -> N) (ingList : list kube.Ingress)
    : list model.TargetProxy :=
  concat (imap (fun i => ingress_targets c (alloc i)) ingList).

(** ** Facts: gathering addresses *)

(** The addresses of a slice that are not marked as not ready. *)
Definition ready_in (slice : kube.EndpointSlice) (a : rstr) : Prop :=
  exists ep, ep ∈ kube.ES_Endpoints slice /\ kube.EPT_Ready ep <> Some false /\
             a ∈ kube.EPT_Addresses ep.

Lemma appendUnique_cons dst a src :
  appendUnique dst (a :: src) = appendUnique (if decide (a ∈ dst) then dst else dst ++ [a]) src.
Proof. done. Qed.

Lemma elem_of_appendUnique dst src a : a ∈ appendUnique dst src <-> a ∈ dst \/ a ∈ src.
Proof.
  revert dst. induction src as [|b src IH]; intros dst.
  { split; [by left|intros [?|?%not_elem_of_nil]; done]. }
  rewrite appendUnique_cons, IH. case_decide; set_solver.
Qed.

Lemma NoDup_appendUnique dst src : NoDup dst -> NoDup (appendUnique dst src).
Proof.
  revert dst. induction src as [|b src IH]; intros dst Hd; [done|].
  rewrite appendUnique_cons. apply IH. case_decide; [done|].
  apply NoDup_app. split_and!; [done|set_solver|apply NoDup_singleton].
Qed.

Lemma elem_of_add_endpoints eps addrs a :
  a ∈ fold_left add_endpoint eps addrs <->
  a ∈ addrs \/ exists ep, ep ∈ eps /\ kube.EPT_Ready ep <> Some false /\ a ∈ kube.EPT_Addresses ep.
Proof.
  revert addrs. induction eps as [|ep eps IH]; intros addrs; simpl.
  { split; [by left|intros [?|(? & ?%not_elem_of_nil & _)]; done]. }
  rewrite IH. setoid_rewrite elem_of_cons. unfold add_endpoint.
  destruct (kube.EPT_Ready ep) as [[]|] eqn:E; rewrite ?elem_of_appendUnique; naive_solver.
Qed.

Lemma NoDup_add_endpoints eps addrs : NoDup addrs -> NoDup (fold_left add_endpoint eps addrs).
Proof.
  revert addrs. induction eps as [|ep eps IH]; intros addrs Hd; [done|]. simpl. apply IH.
  unfold add_endpoint. repeat case_match; try done; by apply NoDup_appendUnique.
Qed.

Section gather.
Context (portName : rstr).

Abbreviation portOf slice := (matchSlicePortByName slice portName).
Abbreviation gather := (fold_left (add_slice portName)).

Lemma gather_port slices g :
  chosenPort (gather slices g) =
  match chosenPort g with
  | Some port => Some port
  | None => head (omap (fun slice => portOf slice) slices)
  end.
Proof.
  revert g. induction slices as [|slice slices IH]; intros g; simpl; [by destruct (chosenPort g)|].
  rewrite IH. unfold add_slice. destruct (portOf slice) as [m|]; [|done].
  by destruct (chosenPort g).
Qed.

Lemma gather_addrs_from slices g port a :
  chosenPort g = Some port ->
  a ∈ allAddrs (gather slices g) <->
  a ∈ allAddrs g \/ exists slice, slice ∈ slices /\ portOf slice = Some port /\ ready_in slice a.
Proof.
  revert g. induction slices as [|slice slices IH]; intros g Hg; simpl.
  { split; [by left|intros [?|(? & ?%not_elem_of_nil & _)]; done]. }
  rewrite IH.
  - setoid_rewrite elem_of_cons. unfold add_slice. rewrite Hg.
    destruct (portOf slice) as [m|] eqn:E; simpl; [|naive_solver].
    case_decide; rewrite ?elem_of_add_endpoints; unfold ready_in in *; naive_solver.
  - unfold add_slice. destruct (portOf slice); [by rewrite Hg|done].
Qed.

Lemma gather_addrs slices a port :
  let g := gather slices (mk_gathered [] None kube.ProtocolTCP) in
  chosenPort g = Some port ->
  a ∈ allAddrs g <->
  exists slice, slice ∈ slices /\ portOf slice = Some port /\ ready_in slice a.
Proof.
  simpl. rewrite gather_port. simpl. induction slices as [|slice slices IH]; [done|]. simpl.
  intros Hp. unfold add_slice at 2. destruct (portOf slice) as [m|] eqn:E; simpl in *.
  - injection Hp as ->. rewrite decide_True by done. erewrite gather_addrs_from by done. simpl.
    rewrite elem_of_add_endpoints. setoid_rewrite elem_of_cons. unfold ready_in.
    rewrite elem_of_nil. naive_solver.
  - rewrite IH by done. setoid_rewrite elem_of_cons. naive_solver.
Qed.

Lemma gather_NoDup slices g : NoDup (allAddrs g) -> NoDup (allAddrs (gather slices g)).
Proof.
  revert g. induction slices as [|slice slices IH]; intros g Hg; [done|]. simpl. apply IH.
  unfold add_slice. destruct (portOf slice); [|done]. repeat case_match; simpl; try done;
    by apply NoDup_add_endpoints.
Qed.

End gather.

(** ** What a path is resolved to *)

(** The port name of the backend of a path, as the slices are matched with it. *)
Definition port_name (c : Client) (namespace : rstr) (p : kube.HTTPIngressPath)
    (service : kube.IngressServiceBackend) : rstr :=
  default [] (resolveServicePortName c namespace (kube.ISB_Name service) (kube.HP_Backend p)).

(** [te] is what the service behind the path offers: the port of the first slice
    that has one of the right name, and the ready addresses of the slices with
    the same port. *)
Record resolves (c : Client) (namespace : rstr) (p : kube.HTTPIngressPath)
    (te : model.TargetEndpoint) (service : kube.IngressServiceBackend)
    (slices : list kube.EndpointSlice) : Prop := {
  res_service : kube.IB_Service (kube.HP_Backend p) = Some service;
  res_slices : List_EndpointSlice c namespace (kube.ISB_Name service) = Some slices;
  res_port :
    head (omap (fun slice => matchSlicePortByName slice (port_name c namespace p service)) slices)
    = Some (model.TE_Port te);
  res_addresses a :
    a ∈ model.TE_Addresses te <->
    exists slice, slice ∈ slices /\
      matchSlicePortByName slice (port_name c namespace p service) = Some (model.TE_Port te) /\
      ready_in slice a;
  res_nonempty : model.TE_Addresses te <> [];
  res_nodup : NoDup (model.TE_Addresses te);
  res_sorted : StronglySorted (Sort.le Go.string_cmp) (model.TE_Addresses te);
  res_path_type : model.TE_PathType te = kube.HP_PathType p;
}.

(** [te] carries the settings of the annotations of its Ingress. *)
Record same_settings (base te : model.TargetEndpoint) : Prop := {
  same_protocol : model.TE_BackendProtocol te = model.TE_BackendProtocol base;
  same_retries : model.TE_Retries te = model.TE_Retries base;
  same_timeout : model.TE_TimeoutMs te = model.TE_TimeoutMs base;
  same_lb : model.TE_LBAlgorithm te = model.TE_LBAlgorithm base;
  same_headers : model.TE_RewriteHeaders te = model.TE_RewriteHeaders base;
  same_auth : model.TE_Auth te = model.TE_Auth base;
}.

Lemma path_target_Some c namespace base p te :
  path_target c namespace base p = Some te ->
  same_settings base te /\ exists service slices, resolves c namespace p te service slices.
Proof.
  unfold path_target. destruct (kube.IB_Service _) as [service|] eqn:Es; [|done].
  destruct (List_EndpointSlice _ _ _) as [slices|] eqn:El; [|done].
  change (default [] _) with (port_name c namespace p service).
  set (g := fold_left _ slices _).
  destruct (chosenPort g) as [port|] eqn:Ep; [|done].
  case_bool_decide as Hne; [done|]. intros [= <-]. split; [done|]. exists service, slices.
  assert (forall a, a ∈ Go.sort_Strings (allAddrs g) <-> a ∈ allAddrs g) as Hin.
  { intros a. unfold Go.sort_Strings. by rewrite Sort.sort_by_perm. }
  split; simpl; [done..| | | | |apply Sort.sort_by_sorted, _|done].
  - rewrite <-Ep. unfold g. by rewrite gather_port.
  - intros a. rewrite Hin. by apply gather_addrs.
  - intros Hnil. apply Hne. unfold Go.sort_Strings in Hnil.
    pose proof (Sort.sort_by_perm Go.string_cmp (allAddrs g)) as Hp. rewrite Hnil in Hp.
    by apply Permutation_nil_l in Hp.
  - unfold Go.sort_Strings. rewrite Sort.sort_by_perm. apply gather_NoDup. constructor.
Qed.

(** Where a path is left out: it has no service, the slices cannot be listed, or
    no slice with the port has a ready address. *)
Lemma path_target_None c namespace base p service slices :
  kube.IB_Service (kube.HP_Backend p) = Some service ->
  List_EndpointSlice c namespace (kube.ISB_Name service) = Some slices ->
  path_target c namespace base p = None ->
  forall port, head (omap (fun slice => matchSlicePortByName slice (port_name c namespace p service))
                      slices) = Some port ->
  forall slice a, slice ∈ slices ->
    matchSlicePortByName slice (port_name c namespace p service) = Some port -> ~ ready_in slice a.
Proof.
  intros Hs Hl. unfold path_target. rewrite Hs, Hl.
  change (default [] _) with (port_name c namespace p service).
  set (g := fold_left _ slices _). intros Hnone port Hport slice a Hin Hm Hr.
  assert (chosenPort g = Some port) as Hg by by (unfold g; rewrite gather_port).
  rewrite Hg in Hnone. case_bool_decide as Hnil; [|done].
  assert (a ∈ allAddrs g) as Ha by (eapply gather_addrs; eauto).
  rewrite Hnil in Ha. by apply not_elem_of_nil in Ha.
Qed.

(** ** Facts: rules and Ingresses *)

Lemma rule_paths_lookup (c : Client) (namespace : rstr) (base : model.TargetEndpoint) (paths : list kube.HTTPIngressPath)
    (m : gmap rstr model.TargetEndpoint) (q : rstr) :
  (fold_left (fun (m : gmap rstr model.TargetEndpoint) (p : kube.HTTPIngressPath) =>
    match path_target c namespace base p with
    | None => m
    | Some te => <[kube.HP_Path p := te]> m
    end) paths m : gmap rstr model.TargetEndpoint) !! q =
  match last (omap (fun p => if decide (kube.HP_Path p = q)
                             then path_target c namespace base p else None) paths) with
  | Some te => Some te
  | None => m !! q
  end.
Proof.
  revert m. induction paths as [|p paths IH]; intros m; [done|]. simpl. rewrite IH.
  destruct (path_target c namespace base p) as [te|]; case_decide as Hd; simpl; try done.
  - rewrite last_cons. destruct (last _); [done|]. by rewrite Hd, lookup_insert_eq.
  - destruct (last _); [done|]. by rewrite lookup_insert_ne.
Qed.

(** The entry of a path: its last usable occurrence in the rule. *)
Lemma rule_target_lookup c namespace rule base bundle q te :
  model.TP_Path (buildTargetFromRule c namespace rule base bundle) !! q = Some te ->
  exists paths p, kube.IR_HTTP rule = Some paths /\ p ∈ paths /\ kube.HP_Path p = q /\
    path_target c namespace base p = Some te.
Proof.
  unfold buildTargetFromRule. simpl. destruct (kube.IR_HTTP rule) as [paths|]; [|done].
  rewrite rule_paths_lookup. destruct (last _) as [te'|] eqn:E; [|done]. intros [= ->].
  apply last_Some_elem_of, list_elem_of_omap in E as (p & Hp & Ht).
  case_decide; [|done]. naive_solver.
Qed.

Lemma elem_of_parseEndpoints `{Libs} c alloc ings t :
  t ∈ parseEndpoints c alloc ings <->
  exists i ing rule, ings !! i = Some ing /\ rule ∈ kube.Ing_Rules ing /\
    t = buildTargetFromRule c (kube.Ing_Namespace ing) rule
          (parseAnnotations (alloc i) (kube.Ing_Annotations ing)) (buildTLSBundle c ing) /\
    model.TP_Path t <> ∅.
Proof.
  unfold parseEndpoints. rewrite list_elem_of_In, in_concat. setoid_rewrite <-list_elem_of_In.
  setoid_rewrite elem_of_lookup_imap. unfold ingress_targets. split.
  - intros (l & (i & ing & -> & Hi) & Ht). apply list_elem_of_filter in Ht as [Hne Ht].
    apply list_elem_of_fmap in Ht as (rule & -> & Hr). by exists i, ing, rule.
  - intros (i & ing & rule & Hi & Hr & -> & Hne). eexists. split; [by exists i, ing|].
    apply list_elem_of_filter. split; [done|]. apply list_elem_of_fmap. eauto.
Qed.

Lemma buildTLSBundle_last `{Libs} c ing :
  buildTLSBundle c ing =
  default model.TLSSecret_zero (last (omap (tls_bundle c (kube.Ing_Namespace ing)) (kube.Ing_TLS ing))).
Proof.
  unfold buildTLSBundle. generalize model.TLSSecret_zero.
  induction (kube.Ing_TLS ing) as [|tls l IH]; intros z; [done|]. simpl. rewrite IH.
  destruct (tls_bundle c _ tls); simpl; [|done]. rewrite last_cons. by destruct (last _).
Qed.
