(* ===== verification/Snapshots.v ===== *)
(** From targets to snapshots: [Sort], [pathTypeRank] and [RoutePriority] of
    src/images/controlplane/internal/model/snapshot.go, and [ToSnapshot], the
    class index and [Reconcile] of internal/controller/ingress_controller.go. *)

From stdpp Require Import base gmap list strings sorting.
From Stdlib Require Import NArith ZArith Lia.
From S2P Require Import Prelude RustStr GoLib Sha256 Model GoFmt Annotations Targets.

(** ** Priorities and order *)

Definition pathTypeRank (pt : rstr) : Z :=
  if decide (pt = kube.PathTypeExact) then 3
  else if decide (pt = kube.PathTypePrefix) then 2
  else if decide (pt = kube.PathTypeImplementationSpecific) then 1
  else 0.

Definition RoutePriority (path pt : rstr) : Z :=
  (pathTypeRank pt * 1000000 + Z.of_nat (Str.len path))%Z.

(** [pathTypeRank( *p )]. Only routes made by [ToSnapshot] are sorted, which has
    dereferenced the pointer before, so that it is not nil. *)
Definition rank (p : option (ptr rstr)) : Z := pathTypeRank (default [] (deref <$> p)).

(** The comparison functions of [Sort]. Path types are compared by address. *)
Definition route_less (ri rj : model.Route) : bool :=
  if negb (model.Route_Priority ri =? model.Route_Priority rj)%Z
  then (model.Route_Priority rj <? model.Route_Priority ri)%Z
  else if negb (bool_decide (model.Route_Host ri = model.Route_Host rj))
  then Go.string_lt (model.Route_Host ri) (model.Route_Host rj)
  else if negb (bool_decide (model.Route_Path ri = model.Route_Path rj))
  then Go.string_lt (model.Route_Path ri) (model.Route_Path rj)
  else if negb (ptr_eq (model.Route_PathType ri) (model.Route_PathType rj))
  then (rank (model.Route_PathType rj) <? rank (model.Route_PathType ri))%Z
  else Go.string_lt (model.Route_Cluster ri) (model.Route_Cluster rj).
Definition cluster_less (ci cj : model.Cluster) : bool :=
  Go.string_lt (model.Cluster_Name ci) (model.Cluster_Name cj).
Definition tls_less (ti tj : model.TLSSecret) : bool :=
  Go.string_lt (model.TLS_Name ti) (model.TLS_Name tj).

Section snapshots.
Context {GS : GoSort}.

Definition Sort_ (snap : model.Snapshot) : model.Snapshot := {|
  model.Snap_Version := model.Snap_Version snap;
  model.Snap_ControllerID := model.Snap_ControllerID snap;
  model.Snap_IngressClassName := model.Snap_IngressClassName snap;
  model.Snap_GeneratedAtUnixSec := model.Snap_GeneratedAtUnixSec snap;
  model.Snap_ResourceVersions := model.Snap_ResourceVersions snap;
  model.Snap_Routes := sort_Slice route_less (model.Snap_Routes snap);
  model.Snap_Clusters := sort_Slice cluster_less (model.Snap_Clusters snap);
  model.Snap_TLS := sort_Slice tls_less (model.Snap_TLS snap);
|}.

(** ** Routes and clusters of the targets *)

(** The host, path and endpoint of every path of the targets, in the order of
    the two nested loops; [range] is the order of the maps. *)
Definition entries (range : nat -> gmap rstr model.TargetEndpoint -> list (rstr * model.TargetEndpoint))
    (targets : list model.TargetProxy) : list (rstr * rstr * model.TargetEndpoint) :=
  concat (imap (fun n tp =>
    (fun e => (model.TP_Host tp, e.1, e.2)) <$> range n (model.TP_Path tp)) targets).

Definition clusterName (host path : rstr) : rstr := host ++ str "|" ++ path.

Definition endpoint_of (port : Z) (a : rstr) : model.Endpoint := {|
  model.EP_Address := a; model.EP_Port := port; model.EP_Weight := 1;
  model.EP_Zone := []; model.EP_Region := [] |}.

Definition route_of (host path : rstr) (te : model.TargetEndpoint) (pt : ptr rstr) : model.Route := {|
  model.Route_Host := host;
  model.Route_Path := path;
  model.Route_PathType := model.TE_PathType te;
  model.Route_Cluster := clusterName host path;
  model.Route_Priority := RoutePriority path (deref pt) |}.

Definition cluster_of (host path : rstr) (te : model.TargetEndpoint) : model.Cluster := {|
  model.Cluster_Name := clusterName host path;
  model.Cluster_LBPolicy := model.TE_LBAlgorithm te;
  model.Cluster_Endpoints := endpoint_of (model.TE_Port te) <$> model.TE_Addresses te;
  model.Cluster_TimeoutMs := model.TE_TimeoutMs te;
  model.Cluster_Retries := model.TE_Retries te;
  model.Cluster_BackendProtocol := model.TE_BackendProtocol te;
  model.Cluster_LBAlgorithm := [];
  model.Cluster_RewriteHeaders := model.TE_RewriteHeaders te;
  model.Cluster_Auth := model.TE_Auth te |}.

(** The body of the inner loop; [None] is the panic of [*te.PathType] on nil. *)
Definition entry (e : rstr * rstr * model.TargetEndpoint) : option (model.Route * model.Cluster) :=
  let '(host, path, te) := e in
  pt ← model.TE_PathType te;
  Some (route_of host path te pt, cluster_of host path te).

(** What is hashed into the version. *)
Definition version_text (snap : model.Snapshot) : rstr :=
  fmt.slice fmt.Route (model.Snap_Routes snap) ++ fmt.slice fmt.Cluster (model.Snap_Clusters snap)
  ++ str "+" ++ fmt.slice fmt.TLSSecret (model.Snap_TLS snap).

Definition with_version (snap : model.Snapshot) (version : rstr) : model.Snapshot := {|
  model.Snap_Version := version;
  model.Snap_ControllerID := model.Snap_ControllerID snap;
  model.Snap_IngressClassName := model.Snap_IngressClassName snap;
  model.Snap_GeneratedAtUnixSec := model.Snap_GeneratedAtUnixSec snap;
  model.Snap_ResourceVersions := model.Snap_ResourceVersions snap;
  model.Snap_Routes := model.Snap_Routes snap;
  model.Snap_Clusters := model.Snap_Clusters snap;
  model.Snap_TLS := model.Snap_TLS snap;
|}.

(** [now] is [time.Now().Unix()]; [None] is a panic. *)
Definition ToSnapshot (class : rstr) (now : Z)
    (range : nat -> gmap rstr model.TargetEndpoint -> list (rstr * model.TargetEndpoint))
    (targets : list model.TargetProxy) : option model.Snapshot :=
  rcs ← mapM entry (entries range targets);
  let snap := Sort_ {|
    model.Snap_Version := [];
    model.Snap_ControllerID := str "argon.github.io/ingress";
    model.Snap_IngressClassName := class;
    model.Snap_GeneratedAtUnixSec := now;
    model.Snap_ResourceVersions := ∅;
    model.Snap_Routes := fst <$> rcs;
    model.Snap_Clusters := snd <$> rcs;
    model.Snap_TLS := base.filter (fun t => model.TLS_Name t <> []) (model.TP_SNI <$> targets) |} in
  Some (with_version snap (hex_sha256 (Str.as_bytes (version_text snap)))).

(** ** The reconciler *)

(** The index function the ingress lists are filtered by. *)
Definition ingressClassIndex (ing : kube.Ingress) : list rstr :=
  match kube.Ing_IngressClassName ing with
  | None => []
  | Some class => [class]
  end.

Record Reconciler := mk_reconciler {
  lastVersion : rstr;
  currentSnapshot : model.Snapshot;
}.

(** How [Reconcile] ends: with an error or a panic of the snapshot builder, both
    before anything is changed, without a change, or with a snapshot that is
    handed to [StreamHub.Broadcast]. *)
Inductive Outcome :=
  | OError
  | OPanic
  | OUnchanged
  | OBroadcast (snap : model.Snapshot).

Definition Reconcile `{Libs} (class : rstr) (c : Client) (alloc : nat -> N) (now : Z)
    (range : nat -> gmap rstr model.TargetEndpoint -> list (rstr * model.TargetEndpoint))
    (r : Reconciler) : Reconciler * Outcome :=
  match List_Ingress c class with
  | None => (r, OError)
  | Some ingList =>
      match ToSnapshot class now range (parseEndpoints c alloc ingList) with
      | None => (r, OPanic)
      | Some snap =>
          if decide (model.Snap_Version snap = lastVersion r) then (r, OUnchanged)
          else (mk_reconciler (model.Snap_Version snap) snap, OBroadcast snap)
      end
  end.

End snapshots.
