(* ===== verification/Building.v ===== *)
(** What the snapshot builder guarantees: which routes and clusters a snapshot
    has, that they fit together, that they are backed by ready addresses, that
    the order is deterministic, and what the version does and does not tell. *)

From stdpp Require Import base gmap list strings sorting.
From Stdlib Require Import NArith ZArith Lia.
From S2P Require Import Prelude RustStr GoLib Sha256 Model GoFmt Annotations Targets Snapshots.

(** ** Priorities *)

Lemma pathTypeRank_range pt : (0 <= pathTypeRank pt <= 3)%Z.
Proof. unfold pathTypeRank. repeat case_decide; lia. Qed.

(** For paths shorter than a million bytes the priority is lexicographic: the
    path type decides, then the length of the path. *)
Lemma priority_lex p q pt qt :
  (Z.of_nat (Str.len p) < 1000000)%Z -> (Z.of_nat (Str.len q) < 1000000)%Z ->
  (RoutePriority q qt < RoutePriority p pt)%Z <->
  (pathTypeRank qt < pathTypeRank pt)%Z \/
  (pathTypeRank qt = pathTypeRank pt /\ Str.len q < Str.len p).
Proof. unfold RoutePriority. lia. Qed.

Lemma priority_range p pt :
  (Z.of_nat (Str.len p) < 1000000)%Z -> (0 <= RoutePriority p pt < 4000000)%Z.
Proof. unfold RoutePriority. pose proof (pathTypeRank_range pt). lia. Qed.

(** ** Entries *)

Section entries.
Context (range : nat -> gmap rstr model.TargetEndpoint -> list (rstr * model.TargetEndpoint))
  (Hrange : Go.ranges range).

Lemma elem_of_entries targets host path te :
  (host, path, te) ∈ entries range targets <->
  exists tp, tp ∈ targets /\ model.TP_Host tp = host /\ model.TP_Path tp !! path = Some te.
Proof using Hrange.
  unfold entries. rewrite list_elem_of_In, in_concat. setoid_rewrite <-list_elem_of_In.
  setoid_rewrite elem_of_lookup_imap. split.
  - intros (l & (n & tp & -> & Htp) & He). apply list_elem_of_fmap in He as ([p' te'] & Heq & He).
    simplify_eq/=. rewrite (Hrange n _) in He. apply elem_of_map_to_list in He.
    exists tp. split_and!; [by eapply list_elem_of_lookup_2|done|done].
  - intros (tp & Htp & <- & Hp). apply list_elem_of_lookup in Htp as [n Hn].
    eexists. split; [by exists n, tp|]. apply list_elem_of_fmap. exists (path, te).
    split; [done|]. rewrite (Hrange n _). by apply elem_of_map_to_list.
Qed.

(** The entries do not depend on the order of the maps, up to permutation. *)
Lemma entries_perm range' targets :
  Go.ranges range' -> entries range targets ≡ₚ entries range' targets.
Proof using Hrange.
  intros Hrange'. unfold entries.
  assert (forall (f g : nat -> model.TargetProxy -> list (rstr * rstr * model.TargetEndpoint)),
    (forall n tp, f n tp ≡ₚ g n tp) -> concat (imap f targets) ≡ₚ concat (imap g targets)) as Hc.
  { induction targets as [|tp targets IH]; intros f g Hfg; [done|]. rewrite !imap_cons. simpl.
    rewrite Hfg. f_equiv. apply IH. intros n tp'. apply Hfg. }
  apply Hc. intros n tp. by rewrite (Hrange n _), (Hrange' n _).
Qed.

End entries.

Lemma mapM_entry es rcs :
  mapM entry es = Some rcs <->
  rcs = (fun e => (route_of e.1.1 e.1.2 e.2 (default (Ptr 0 []) (model.TE_PathType e.2)),
                   cluster_of e.1.1 e.1.2 e.2)) <$> es /\
  Forall (fun e => is_Some (model.TE_PathType e.2)) es.
Proof.
  revert rcs. induction es as [|[[h p] te] es IH]; intros rcs; simpl.
  { split; [intros [= <-]; done|by intros [-> _]]. }
  rewrite Forall_cons. simpl. destruct (model.TE_PathType te) as [pt|]; simpl.
  - destruct (mapM entry es) as [rcs'|]; simpl.
    + destruct (proj1 (IH rcs') eq_refl) as [-> Hall]. split; [intros [= <-]; eauto|].
      by intros [-> _].
    + split; [done|]. intros (_ & _ & Hall). discriminate (proj2 (IH _) (conj eq_refl Hall)).
  - split; [done|]. intros (_ & [? ?] & _). done.
Qed.

(** ** The routes and clusters of a snapshot *)

Section built.
Context {GS : GoSort} {GL : GoSortLaws GS}.
Context (range : nat -> gmap rstr model.TargetEndpoint -> list (rstr * model.TargetEndpoint))
  (Hrange : Go.ranges range).

Lemma ToSnapshot_Some class now targets snap :
  ToSnapshot class now range targets = Some snap ->
  exists rcs, mapM entry (entries range targets) = Some rcs /\
    model.Snap_Routes snap = sort_Slice route_less (fst <$> rcs) /\
    model.Snap_Clusters snap = sort_Slice cluster_less (snd <$> rcs) /\
    model.Snap_TLS snap = sort_Slice tls_less
      (base.filter (fun t => model.TLS_Name t <> []) (model.TP_SNI <$> targets)) /\
    model.Snap_Version snap = hex_sha256 (Str.as_bytes (version_text snap)) /\
    model.Snap_ControllerID snap = str "argon.github.io/ingress" /\
    model.Snap_IngressClassName snap = class /\
    model.Snap_GeneratedAtUnixSec snap = now /\
    model.Snap_ResourceVersions snap = ∅.
Proof.
  unfold ToSnapshot. intros (rcs & Hm & Hs)%bind_Some. exists rcs. injection Hs as <-. by split_and!.
Qed.

(** The builder panics exactly on a path without a path type. *)
Lemma ToSnapshot_is_Some class now targets :
  is_Some (ToSnapshot class now range targets) <->
  forall tp path te, tp ∈ targets -> model.TP_Path tp !! path = Some te ->
    is_Some (model.TE_PathType te).
Proof using Hrange.
  unfold ToSnapshot. trans (is_Some (mapM entry (entries range targets))).
  { destruct (mapM _ _) as [l|]; simpl; [split; eauto|]. split; intros [? [=]]. }
  trans (Forall (fun e => is_Some (model.TE_PathType e.2)) (entries range targets)).
  { split; [intros [rcs Hr]; by apply mapM_entry in Hr as [_ Hr]|].
    intros Hall. eexists. apply mapM_entry. split; [reflexivity|done]. }
  rewrite Forall_forall. split.
  - intros Hall tp path te Htp Hp. apply (Hall (model.TP_Host tp, path, te)).
    apply elem_of_entries; eauto.
  - intros Hall [[h p] te] He. apply elem_of_entries in He as (tp & Htp & _ & Hp); [|done].
    by eapply Hall.
Qed.

Section snap.
Context (class : rstr) (now : Z) (targets : list model.TargetProxy) (snap : model.Snapshot)
  (Hsnap : ToSnapshot class now range targets = Some snap).

Lemma elem_of_routes r :
  r ∈ model.Snap_Routes snap <->
  exists tp path te pt, tp ∈ targets /\ model.TP_Path tp !! path = Some te /\
    model.TE_PathType te = Some pt /\ r = route_of (model.TP_Host tp) path te pt.
Proof using GL Hrange Hsnap.
  destruct (ToSnapshot_Some _ _ _ _ Hsnap) as (rcs & Hm & -> & _).
  rewrite sort_Slice_perm. apply mapM_entry in Hm as [-> Hall].
  rewrite <-list_fmap_compose, list_elem_of_fmap. rewrite Forall_forall in Hall. split.
  - intros ([[h p] te] & -> & He). destruct (Hall _ He) as [pt Hpt].
    apply elem_of_entries in He as (tp & Htp & <- & Hp); [|done].
    exists tp, p, te, pt. simpl in *. by rewrite Hpt.
  - intros (tp & p & te & pt & Htp & Hp & Hpt & ->). exists (model.TP_Host tp, p, te). simpl.
    split; [by rewrite Hpt|]. apply elem_of_entries; eauto.
Qed.

Lemma elem_of_clusters c :
  c ∈ model.Snap_Clusters snap <->
  exists tp path te, tp ∈ targets /\ model.TP_Path tp !! path = Some te /\
    c = cluster_of (model.TP_Host tp) path te.
Proof using GL Hrange Hsnap.
  destruct (ToSnapshot_Some _ _ _ _ Hsnap) as (rcs & Hm & _ & -> & _).
  rewrite sort_Slice_perm. apply mapM_entry in Hm as [-> Hall].
  rewrite <-list_fmap_compose, list_elem_of_fmap. split.
  - intros ([[h p] te] & -> & He). apply elem_of_entries in He as (tp & Htp & <- & Hp); [|done].
    by exists tp, p, te.
  - intros (tp & p & te & Htp & Hp & ->). exists (model.TP_Host tp, p, te).
    split; [done|]. apply elem_of_entries; eauto.
Qed.

Lemma elem_of_tls t :
  t ∈ model.Snap_TLS snap <->
  model.TLS_Name t <> [] /\ exists tp, tp ∈ targets /\ t = model.TP_SNI tp.
Proof using GL Hsnap.
  destruct (ToSnapshot_Some _ _ _ _ Hsnap) as (rcs & _ & _ & _ & -> & _).
  rewrite sort_Slice_perm, list_elem_of_filter, list_elem_of_fmap. naive_solver.
Qed.

(** A target whose paths all have a path type has one: the snapshot exists. *)
Lemma targets_path_types tp path te :
  tp ∈ targets -> model.TP_Path tp !! path = Some te -> is_Some (model.TE_PathType te).
Proof using Hrange Hsnap.
  intros Htp Hp. refine (proj1 (ToSnapshot_is_Some class now targets) _ tp path te Htp Hp). eauto.
Qed.

End snap.
End built.

(** ** The order of a snapshot *)

Definition route_cmp (r1 r2 : model.Route) : comparison :=
  Sort.then_ (Sort.by_key (fun r => - model.Route_Priority r)%Z r1 r2)
    (Sort.then_ (Go.string_cmp (model.Route_Host r1) (model.Route_Host r2))
                (Go.string_cmp (model.Route_Path r1) (model.Route_Path r2))).
Definition cluster_cmp (c1 c2 : model.Cluster) : comparison :=
  Go.string_cmp (model.Cluster_Name c1) (model.Cluster_Name c2).
Definition tls_cmp (t1 t2 : model.TLSSecret) : comparison :=
  Go.string_cmp (model.TLS_Name t1) (model.TLS_Name t2).

Lemma string_cmp_by {A} (f : A -> rstr) : Sort.TotalOrder (fun x y => Go.string_cmp (f x) (f y)).
Proof.
  split; [intros x y; apply (Sort.cmp_swap Go.string_cmp)|].
  intros x y z. exact (Sort.le_trans Go.string_cmp (f x) (f y) (f z)).
Qed.

#[export] Instance route_cmp_total : Sort.TotalOrder route_cmp.
Proof.
  apply (Sort.lex_total (Sort.by_key _)); [apply Sort.by_key_total|].
  apply (Sort.lex_total (fun r1 r2 => Go.string_cmp _ _)); apply string_cmp_by.
Qed.
#[export] Instance cluster_cmp_total : Sort.TotalOrder cluster_cmp.
Proof. apply string_cmp_by. Qed.
#[export] Instance tls_cmp_total : Sort.TotalOrder tls_cmp.
Proof. apply string_cmp_by. Qed.

Lemma string_cmp_refl s : Go.string_cmp s s = Eq.
Proof. unfold Go.string_cmp. induction (Str.as_bytes s); simpl; [done|]. by rewrite N.compare_refl. Qed.

Lemma string_cmp_ne a b : valid_str a -> valid_str b -> a <> b -> Go.string_cmp a b <> Eq.
Proof. intros Ha Hb Hne He. by apply Hne, string_cmp_eq. Qed.

Lemma string_lt_cmp a b : Go.string_lt a b = bool_decide (Go.string_cmp a b = Lt).
Proof. unfold Go.string_lt. by destruct (Go.string_cmp a b). Qed.

(** Elements that are below each other compare equal. *)
Lemma le_both {A} (cmp : A -> A -> comparison) `{!Sort.TotalOrder cmp} x y :
  Sort.le cmp x y -> Sort.le cmp y x -> cmp x y = Eq.
Proof. unfold Sort.le. rewrite (Sort.cmp_swap cmp x y). by destruct (cmp x y). Qed.

(** A route the builder makes, from valid strings. *)
Definition built_route (r : model.Route) : Prop :=
  exists host path te pt, model.TE_PathType te = Some pt /\ valid_str host /\ valid_str path /\
    r = route_of host path te pt.

(** On such routes the comparison function of [Sort], which looks at addresses, is
    the lexicographic order by priority, host and path. *)
Lemma route_less_cmp r1 r2 :
  built_route r1 -> built_route r2 -> route_less r1 r2 = bool_decide (route_cmp r1 r2 = Lt).
Proof.
  intros (h1 & p1 & te1 & pt1 & Hpt1 & Hh1 & Hp1 & ->) (h2 & p2 & te2 & pt2 & Hpt2 & Hh2 & Hp2 & ->).
  unfold route_less, route_cmp, Sort.by_key. simpl.
  destruct (Z.eqb_spec (RoutePriority p1 (deref pt1)) (RoutePriority p2 (deref pt2))) as [He|Hne]; simpl.
  - rewrite He, Z.compare_refl. simpl.
    destruct (decide (h1 = h2)) as [<-|Hneh].
    + rewrite string_cmp_refl, bool_decide_eq_true_2 by done. simpl.
      destruct (decide (p1 = p2)) as [<-|Hnep].
      * rewrite bool_decide_eq_true_2, string_cmp_refl by done. simpl.
        rewrite string_lt_cmp, string_cmp_refl. case_match; [|done].
        rewrite Hpt1, Hpt2. unfold rank. simpl. unfold RoutePriority in He.
        lia.
      * rewrite (bool_decide_eq_false_2 (p1 = p2)) by done. simpl. apply string_lt_cmp.
    + rewrite (bool_decide_eq_false_2 (h1 = h2)) by done. simpl. rewrite string_lt_cmp.
      pose proof (string_cmp_ne _ _ Hh1 Hh2 Hneh). by destruct (Go.string_cmp h1 h2).
  - destruct (Z.compare_spec (- RoutePriority p1 (deref pt1)) (- RoutePriority p2 (deref pt2)));
      simpl; lia.
Qed.

Lemma route_cmp_eq r1 r2 :
  built_route r1 -> built_route r2 -> route_cmp r1 r2 = Eq ->
  model.Route_Host r1 = model.Route_Host r2 /\ model.Route_Path r1 = model.Route_Path r2.
Proof.
  intros (h1 & p1 & te1 & pt1 & _ & Hh1 & Hp1 & ->) (h2 & p2 & te2 & pt2 & _ & Hh2 & Hp2 & ->).
  unfold route_cmp, Sort.by_key, Sort.then_. simpl.
  destruct (Z.compare _ _); [|done..].
  destruct (Go.string_cmp h1 h2) eqn:E1; [|done..]. intros E2.
  split; by apply string_cmp_eq.
Qed.

Lemma clusterName_inj h1 p1 h2 p2 :
  124%N ∉ h1 -> 124%N ∉ h2 -> clusterName h1 p1 = clusterName h2 p2 -> h1 = h2 /\ p1 = p2.
Proof.
  unfold clusterName. simpl. revert h2.
  induction h1 as [|c h1 IH]; intros [|d h2]; simpl; rewrite ?not_elem_of_cons.
  - intros _ _ [= ->]. done.
  - intros _ [? _] [= ??]. done.
  - intros [? _] _ [= ??]. done.
  - intros [_ H1] [_ H2] [= -> Heq]. destruct (IH h2 H1 H2 Heq) as [-> ->]. done.
Qed.

(** ** Determinism *)

(** Targets without conflicts: no two of them have the same host and path, hosts
    have no bar (which separates host and path in cluster names), strings are
    valid, and a secret has one bundle. *)
Record no_conflicts (targets : list model.TargetProxy) : Prop := {
  nc_host tp : tp ∈ targets -> valid_str (model.TP_Host tp) /\ 124%N ∉ model.TP_Host tp;
  nc_path tp path : tp ∈ targets -> is_Some (model.TP_Path tp !! path) -> valid_str path;
  nc_distinct tp tp' path :
    tp ∈ targets -> tp' ∈ targets -> model.TP_Host tp = model.TP_Host tp' ->
    is_Some (model.TP_Path tp !! path) -> is_Some (model.TP_Path tp' !! path) -> tp = tp';
  nc_bundle_name tp : tp ∈ targets -> valid_str (model.TLS_Name (model.TP_SNI tp));
  nc_bundle tp tp' :
    tp ∈ targets -> tp' ∈ targets ->
    model.TLS_Name (model.TP_SNI tp) = model.TLS_Name (model.TP_SNI tp') ->
    model.TP_SNI tp = model.TP_SNI tp';
}.

(** Sorting with two implementations of [sort.Slice] gives the same result where
    equivalent elements are equal. *)
Lemma sort_Slice_unique {A} (GS1 GS2 : GoSort) `{!GoSortLaws GS1, !GoSortLaws GS2}
    (less : A -> A -> bool) (cmp : A -> A -> comparison) `{!Sort.TotalOrder cmp} l1 l2 :
  l1 ≡ₚ l2 ->
  (forall x y, x ∈ l1 -> y ∈ l1 -> less x y = bool_decide (cmp x y = Lt)) ->
  (forall x y, x ∈ l1 -> y ∈ l1 -> cmp x y = Eq -> x = y) ->
  @sort_Slice GS1 A less l1 = @sort_Slice GS2 A less l2.
Proof.
  intros Hp Hless Heq.
  assert (forall x, x ∈ l2 -> x ∈ l1) as H21 by (intros x; by rewrite Hp).
  apply (sorted_unique cmp).
  - intros x y. rewrite !sort_Slice_perm. intros Hx Hy Hxy Hyx. apply Heq; [done..|]. by apply le_both.
  - by apply sort_Slice_sorted.
  - apply sort_Slice_sorted; [done|]. auto.
  - by rewrite !sort_Slice_perm.
Qed.

Section determinism.
Context (range : nat -> gmap rstr model.TargetEndpoint -> list (rstr * model.TargetEndpoint))
  (Hrange : Go.ranges range) (targets : list model.TargetProxy) (Hnc : no_conflicts targets).

Abbreviation row e := (route_of e.1.1 e.1.2 e.2 (default (Ptr 0 []) (model.TE_PathType e.2)),
                   cluster_of e.1.1 e.1.2 e.2).

Lemma entry_valid e :
  e ∈ entries range targets -> valid_str e.1.1 /\ (124%N ∉ e.1.1) /\ valid_str e.1.2.
Proof using Hrange Hnc.
  destruct e as [[h p] te]. intros (tp & Htp & <- & Hp)%elem_of_entries; [|done]. simpl.
  destruct (nc_host _ Hnc tp Htp). split_and!; [done..|]. eapply (nc_path _ Hnc); eauto.
Qed.

Lemma entry_inj e e' :
  e ∈ entries range targets -> e' ∈ entries range targets -> e.1 = e'.1 -> e = e'.
Proof using Hrange Hnc.
  destruct e as [[h p] te], e' as [[h' p'] te'].
  intros (tp & Htp & <- & Hp)%elem_of_entries (tp' & Htp' & <- & Hp')%elem_of_entries; [|done..].
  simpl. intros [= Hh ->].
  assert (tp = tp') as <- by (eapply (nc_distinct _ Hnc); eauto). congruence.
Qed.

Lemma routes_less r1 r2 l :
  Forall (fun e => is_Some (model.TE_PathType e.2)) l -> l ⊆ entries range targets ->
  r1 ∈ (fun e => (row e).1) <$> l -> r2 ∈ (fun e => (row e).1) <$> l ->
  route_less r1 r2 = bool_decide (route_cmp r1 r2 = Lt) /\ (route_cmp r1 r2 = Eq -> r1 = r2).
Proof using Hrange Hnc.
  rewrite Forall_forall. intros Hall Hl (e1 & -> & H1)%list_elem_of_fmap (e2 & -> & H2)%list_elem_of_fmap.
  assert (forall e, e ∈ l -> built_route (row e).1) as Hb.
  { intros e He. destruct (Hall e He) as [pt Hpt], (entry_valid e (Hl _ He)) as (? & _ & ?).
    exists e.1.1, e.1.2, e.2, pt. simpl. by rewrite Hpt. }
  split; [by apply route_less_cmp; apply Hb|]. intros Heq.
  apply route_cmp_eq in Heq as [Hh Hp]; [|by apply Hb..]. simpl in Hh, Hp.
  enough (e1 = e2) as -> by done. apply entry_inj; [by apply Hl..|]. destruct e1 as [[??]?], e2 as [[??]?].
  simpl in *. congruence.
Qed.

Lemma clusters_less c1 c2 l :
  l ⊆ entries range targets ->
  c1 ∈ (fun e => (row e).2) <$> l -> c2 ∈ (fun e => (row e).2) <$> l ->
  cluster_cmp c1 c2 = Eq -> c1 = c2.
Proof using Hrange Hnc.
  intros Hl (e1 & -> & H1)%list_elem_of_fmap (e2 & -> & H2)%list_elem_of_fmap Heq.
  destruct (entry_valid e1 (Hl _ H1)) as (Hh1 & Hn1 & Hp1), (entry_valid e2 (Hl _ H2)) as (Hh2 & Hn2 & Hp2).
  unfold cluster_cmp in Heq. simpl in Heq. apply string_cmp_eq in Heq.
  - apply clusterName_inj in Heq as [Hh Hp]; [|done..]. enough (e1 = e2) as -> by done.
    apply entry_inj; [by apply Hl..|]. destruct e1 as [[??]?], e2 as [[??]?]. simpl in *. congruence.
  - unfold clusterName, valid_str. rewrite !Forall_app. split_and!; [done| |done]. decide_compute.
  - unfold clusterName, valid_str. rewrite !Forall_app. split_and!; [done| |done]. decide_compute.
Qed.

End determinism.

(** The whole snapshot. *)
Lemma ToSnapshot_unique (GS1 GS2 : GoSort) `{!GoSortLaws GS1, !GoSortLaws GS2}
    class now range1 range2 targets :
  Go.ranges range1 -> Go.ranges range2 -> no_conflicts targets ->
  @ToSnapshot GS1 class now range1 targets = @ToSnapshot GS2 class now range2 targets.
Proof.
  intros Hr1 Hr2 Hnc. unfold ToSnapshot.
  pose proof (entries_perm range1 Hr1 range2 targets Hr2) as Hperm.
  destruct (mapM entry (entries range1 targets)) as [rcs1|] eqn:E1; simpl.
  - apply mapM_entry in E1 as [-> Hall].
    assert (Forall (fun e => is_Some (model.TE_PathType e.2)) (entries range2 targets)) as Hall2
      by by rewrite <-Hperm.
    rewrite (proj2 (mapM_entry (entries range2 targets) _) (conj eq_refl Hall2)). simpl.
    pose proof (fun x y => routes_less range1 Hr1 targets Hnc x y _ Hall (fun e He => He)) as Hrl.
    unfold Sort_. simpl. rewrite <-!list_fmap_compose. unfold compose. simpl.
    rewrite (sort_Slice_unique GS1 GS2 route_less route_cmp _
               ((fun e => route_of e.1.1 e.1.2 e.2 (default (Ptr 0 []) (model.TE_PathType e.2)))
                  <$> entries range2 targets));
      [|by rewrite Hperm
       |intros x y Hx Hy; exact (proj1 (Hrl x y Hx Hy))|intros x y Hx Hy; exact (proj2 (Hrl x y Hx Hy))].
    rewrite (sort_Slice_unique GS1 GS2 cluster_less cluster_cmp _
               ((fun e => cluster_of e.1.1 e.1.2 e.2) <$> entries range2 targets));
      [|by rewrite Hperm|intros; apply string_lt_cmp
       |intros x y; exact (clusters_less range1 Hr1 targets Hnc x y _ (fun e He => He))].
    rewrite (sort_Slice_unique GS1 GS2 tls_less tls_cmp _
      (base.filter (fun t => model.TLS_Name t <> []) (model.TP_SNI <$> targets)));
      [done|done|intros; apply string_lt_cmp|].
    intros t1 t2 (_ & (tp1 & -> & H1)%list_elem_of_fmap)%list_elem_of_filter
      (_ & (tp2 & -> & H2)%list_elem_of_fmap)%list_elem_of_filter Heq.
    apply (nc_bundle _ Hnc); [done..|]. apply string_cmp_eq in Heq; [done|..];
      by apply (nc_bundle_name _ Hnc).
  - destruct (mapM entry (entries range2 targets)) as [rcs2|] eqn:E2; [|done].
    apply mapM_entry in E2 as [_ Hall].
    assert (Forall (fun e => is_Some (model.TE_PathType e.2)) (entries range1 targets)) as Hall1
      by by rewrite Hperm.
    by rewrite (proj2 (mapM_entry _ _) (conj eq_refl Hall1)) in E1.
Qed.
