(* ===== verification/Reconciling.v ===== *)
(** What a reconciliation does to the configuration: what it broadcasts is well
    formed, backed by ready addresses of the right services, complete and
    deterministic; and what its version check misses. *)

From stdpp Require Import base gmap list strings sorting.
From Stdlib Require Import NArith ZArith Lia.
From S2P Require Import Prelude RustStr Config Http RouteTable GoLib Sha256 Model GoFmt Annotations Targets Snapshots Building.

(** ** One reconciliation *)

Section reconcile.
Context {GS : GoSort} {GL : GoSortLaws GS} {LB : Libs}.
Context (class : rstr) (c : Client) (alloc : nat -> N) (now : Z).
Context (range : nat -> gmap rstr model.TargetEndpoint -> list (rstr * model.TargetEndpoint)).

Lemma Reconcile_broadcast r r' snap :
  Reconcile class c alloc now range r = (r', OBroadcast snap) <->
  exists ings, List_Ingress c class = Some ings /\
    ToSnapshot class now range (parseEndpoints c alloc ings) = Some snap /\
    model.Snap_Version snap <> lastVersion r /\ r' = mk_reconciler (model.Snap_Version snap) snap.
Proof.
  unfold Reconcile. split.
  - destruct (List_Ingress c class) as [ings|]; [|done].
    destruct (ToSnapshot _ _ _ _) as [snap'|] eqn:E; [|done].
    case_decide; intros [= <- <-]. by exists ings.
  - intros (ings & -> & -> & Hne & ->). by rewrite decide_False.
Qed.

(** The settings every target of an Ingress carries are ones the data plane
    accepts. *)
Record settings_ok (te : model.TargetEndpoint) : Prop := {
  so_retries : (1 <= model.TE_Retries te <= 10)%Z;
  so_timeout : Int.is_i32 (model.TE_TimeoutMs te);
  so_lb : is_Some (LBPolicy_parse (model.TE_LBAlgorithm te));
  so_headers :
    Forall (fun h => is_Some (HeaderRewriteMode_parse (model.RW_Mode h))) (model.TE_RewriteHeaders te);
}.

Lemma parseAnnotations_ok a ann : settings_ok (parseAnnotations a ann).
Proof.
  split; simpl.
  - apply parse_retries_range.
  - apply int32_range.
  - rewrite parse_lb_exact. case_decide; vm_compute; eauto.
  - apply parse_headers_known.
Qed.

Lemma same_settings_ok base te : same_settings base te -> settings_ok base -> settings_ok te.
Proof. intros [] []. split; congruence. Qed.

(** Where a target's path comes from. *)
Lemma target_source ings tp path te :
  tp ∈ parseEndpoints c alloc ings -> model.TP_Path tp !! path = Some te ->
  exists i ing rule paths p service slices,
    ings !! i = Some ing /\ rule ∈ kube.Ing_Rules ing /\ kube.IR_HTTP rule = Some paths /\
    p ∈ paths /\ model.TP_Host tp = kube.IR_Host rule /\ path = kube.HP_Path p /\
    model.TP_SNI tp = buildTLSBundle c ing /\
    same_settings (parseAnnotations (alloc i) (kube.Ing_Annotations ing)) te /\
    resolves c (kube.Ing_Namespace ing) p te service slices.
Proof.
  intros (i & ing & rule & Hi & Hr & -> & _)%elem_of_parseEndpoints Hp.
  apply rule_target_lookup in Hp as (paths & p & Hpaths & Hp & <- & Ht).
  apply path_target_Some in Ht as (Hs & service & slices & Hres).
  by exists i, ing, rule, paths, p, service, slices.
Qed.

Lemma target_ok ings tp path te :
  tp ∈ parseEndpoints c alloc ings -> model.TP_Path tp !! path = Some te ->
  settings_ok te /\ model.TE_Addresses te <> [] /\ NoDup (model.TE_Addresses te).
Proof.
  intros Htp Hp. destruct (target_source _ _ _ _ Htp Hp)
    as (i & ing & rule & paths & p & service & slices & _ & _ & _ & _ & _ & _ & _ & Hs & Hres).
  split_and!; [|by eapply res_nonempty|by eapply res_nodup].
  eapply same_settings_ok; [exact Hs|apply parseAnnotations_ok].
Qed.

End reconcile.

(** ** Sequences of reconciliations *)

(** What one call of [Reconcile] gets from its environment. *)
Record Input := {
  in_client : Client;
  in_alloc : nat -> N;
  in_now : Z;
  in_range : nat -> gmap rstr model.TargetEndpoint -> list (rstr * model.TargetEndpoint);
}.

(** The reconciler after a sequence of calls, and what was broadcast. *)
Fixpoint reconcile_all {GS : GoSort} {LB : Libs} (class : rstr) (ins : list Input) (r : Reconciler)
    : Reconciler * list model.Snapshot :=
  match ins with
  | [] => (r, [])
  | i :: ins' =>
      let '(r1, o) := Reconcile class (in_client i) (in_alloc i) (in_now i) (in_range i) r in
      let '(r2, bs) := reconcile_all class ins' r1 in
      (r2, match o with OBroadcast snap => snap :: bs | _ => bs end)
  end.

Definition reconciler_start : Reconciler := mk_reconciler [] model.Snapshot_zero.

(** Successive elements differ in their version, the first one from [v]. *)
Fixpoint versions_change (v : rstr) (bs : list model.Snapshot) : Prop :=
  match bs with
  | [] => True
  | b :: bs' => model.Snap_Version b <> v /\ versions_change (model.Snap_Version b) bs'
  end.

Lemma ToSnapshot_version {GS : GoSort} class now range targets snap :
  ToSnapshot class now range targets = Some snap -> model.Snap_Version snap <> [].
Proof.
  intros (rcs & _ & _ & _ & _ & -> & _)%ToSnapshot_Some Hnil.
  pose proof (hex_sha256_length (Str.as_bytes (version_text snap))) as Hl. by rewrite Hnil in Hl.
Qed.

(** Routes and clusters that print alike: the fields are equal, except that what the
    pointers lead to may differ, and header rewrites may if they have the same
    text. *)
Definition route_alike (r r' : model.Route) : Prop :=
  model.Route_Host r = model.Route_Host r' /\ model.Route_Path r = model.Route_Path r' /\
  addr <$> model.Route_PathType r = addr <$> model.Route_PathType r' /\
  model.Route_Cluster r = model.Route_Cluster r' /\ model.Route_Priority r = model.Route_Priority r'.
Definition cluster_alike (c c' : model.Cluster) : Prop :=
  model.Cluster_Name c = model.Cluster_Name c' /\ model.Cluster_LBPolicy c = model.Cluster_LBPolicy c' /\
  model.Cluster_Endpoints c = model.Cluster_Endpoints c' /\
  model.Cluster_TimeoutMs c = model.Cluster_TimeoutMs c' /\ model.Cluster_Retries c = model.Cluster_Retries c' /\
  model.Cluster_BackendProtocol c = model.Cluster_BackendProtocol c' /\
  model.Cluster_LBAlgorithm c = model.Cluster_LBAlgorithm c' /\
  fmt.slice fmt.RewriteHeaders (model.Cluster_RewriteHeaders c)
    = fmt.slice fmt.RewriteHeaders (model.Cluster_RewriteHeaders c') /\
  addr <$> model.Cluster_Auth c = addr <$> model.Cluster_Auth c'.

Lemma slice_alike {A} (print : A -> rstr) l l' :
  Forall2 (fun x y => print x = print y) l l' -> fmt.slice print l = fmt.slice print l'.
Proof.
  intros Hl. unfold fmt.slice. do 3 f_equal. induction Hl as [|x y l l' Hxy _ IH]; [done|].
  cbn [fmap list_fmap]. f_equal; [exact Hxy|exact IH].
Qed.

Lemma pointer_alike {A} (p q : option (ptr A)) : addr <$> p = addr <$> q -> fmt.pointer p = fmt.pointer q.
Proof. destruct p as [p|], q as [q|]; simpl; try done. by intros [= ->]. Qed.

Lemma version_text_alike snap snap' :
  Forall2 route_alike (model.Snap_Routes snap) (model.Snap_Routes snap') ->
  Forall2 cluster_alike (model.Snap_Clusters snap) (model.Snap_Clusters snap') ->
  model.Snap_TLS snap = model.Snap_TLS snap' -> version_text snap = version_text snap'.
Proof.
  intros Hr Hc Ht. unfold version_text. rewrite Ht. f_equal; [|f_equal]; apply slice_alike.
  - eapply Forall2_impl; [exact Hr|]. intros r r' (H1 & H2 & H3 & H4 & H5). unfold fmt.Route.
    by rewrite H1, H2, H4, H5, (pointer_alike _ _ H3).
  - eapply Forall2_impl; [exact Hc|]. intros c c' (H1 & H2 & H3 & H4 & H5 & H6 & H7 & H8 & H9).
    unfold fmt.Cluster. by rewrite H1, H2, H3, H4, H5, H6, H7, H8, (pointer_alike _ _ H9).
Qed.

Lemma Reconcile_step {GS : GoSort} {LB : Libs} class c alloc now range r r' o :
  Reconcile class c alloc now range r = (r', o) ->
  match o with
  | OBroadcast snap =>
      model.Snap_Version snap <> [] /\ model.Snap_Version snap <> lastVersion r /\
      r' = mk_reconciler (model.Snap_Version snap) snap
  | _ => r' = r
  end.
Proof.
  unfold Reconcile. destruct (List_Ingress c class) as [ings|]; [|by intros [= <- <-]].
  destruct (ToSnapshot _ _ _ _) as [snap|] eqn:E; [|by intros [= <- <-]].
  case_decide; intros [= <- <-]; [done|]. split_and!; [|done|done].
  by eapply ToSnapshot_version.
Qed.

Lemma reconcile_all_spec {GS : GoSort} {LB : Libs} class ins r :
  lastVersion r = model.Snap_Version (currentSnapshot r) ->
  let '(r', bs) := reconcile_all class ins r in
  lastVersion r' = model.Snap_Version (currentSnapshot r') /\
  currentSnapshot r' = default (currentSnapshot r) (last bs) /\
  versions_change (lastVersion r) bs /\ Forall (fun b => model.Snap_Version b <> []) bs.
Proof.
  revert r. induction ins as [|i ins IH]; intros r Hr; simpl; [by split_and!; [| | |constructor]|].
  destruct (Reconcile _ _ _ _ _ r) as [r1 o] eqn:E. apply Reconcile_step in E.
  assert (lastVersion r1 = model.Snap_Version (currentSnapshot r1)) as Hr1.
  { destruct o; try by subst. by destruct E as (_ & _ & ->). }
  specialize (IH r1 Hr1). destruct (reconcile_all class ins r1) as [r2 bs].
  destruct o as [| | |snap]; try (subst r1; exact IH). destruct E as (Hne & Hv & ->).
  destruct IH as (H1 & H2 & H3 & H4). split_and!; [done| |by split|by constructor].
  rewrite last_cons, H2. by destruct (last bs).
Qed.

(** ** A concrete cluster, used by the witnesses *)

Module KubeDemo.

Definition path (p pt : string) (address : N) (svc : string) : kube.HTTPIngressPath := {|
  kube.HP_Path := str p; kube.HP_PathType := Some (Ptr address (str pt));
  kube.HP_Backend := {| kube.IB_Service := Some {|
    kube.ISB_Name := str svc;
    kube.ISB_Port := {| kube.SBP_Name := []; kube.SBP_Number := 80 |} |} |} |}.

(** Two paths of one host, an unreachable one, and a TLS section; [a] is where the
    path types were decoded to, [url] the auth annotation. *)
Definition ingress (a : N) (url : string) : kube.Ingress := {|
  kube.Ing_Namespace := str "shop"; kube.Ing_Name := str "web";
  kube.Ing_Annotations := {[ model.BACKEND_RETRIES_ANNOTATION := str "50";
    model.AUTH_URL_ANNOTATION := str url; model.BACKEND_LB_ALGORITHM_ANNOTATION := str "LeastConn" ]};
  kube.Ing_IngressClassName := Some (str "argon");
  kube.Ing_TLS := [{| kube.IT_Hosts := [str "demo.local"]; kube.IT_SecretName := str "cert" |}];
  kube.Ing_Rules := [{| kube.IR_Host := str "demo.local";
    kube.IR_HTTP := Some [path "/" "Prefix" a "web"; path "/api" "Exact" (a + 16) "api";
                          path "/none" "Prefix" (a + 32) "absent"] |}] |}.

Definition slice (svc : string) (port : Z) (eps : list kube.SliceEndpoint) : kube.EndpointSlice := {|
  kube.ES_Namespace := str "shop"; kube.ES_Labels := {[ kube.service_name_label := str svc ]};
  kube.ES_Ports := [{| kube.EPP_Name := Some (str "http"); kube.EPP_Protocol := None;
                       kube.EPP_Port := Some port |}];
  kube.ES_Endpoints := eps |}.
Definition endpoint (a : string) (ready : bool) : kube.SliceEndpoint := {|
  kube.EPT_Addresses := [str a]; kube.EPT_Ready := Some ready |}.

Definition slices : list kube.EndpointSlice := [
  slice "web" 8080 [endpoint "10.0.0.2" true; endpoint "10.0.0.3" false];
  slice "web" 8080 [endpoint "10.0.0.1" true];
  slice "web" 9090 [endpoint "10.0.0.9" true];
  slice "api" 8443 [endpoint "10.0.1.1" true] ].

Definition secret : kube.Secret := {|
  kube.Sec_Data := {[ str "tls.crt" := [1; 2]%N; str "tls.key" := [8; 3]%N ]} |}.

(** The client over a list of Ingresses. *)
Definition client (ings : list kube.Ingress) : Client := {|
  List_Ingress class := Some (base.filter (fun ing => class ∈ ingressClassIndex ing) ings);
  List_EndpointSlice ns svc := Some (base.filter (fun es => kube.ES_Namespace es = ns /\
    kube.ES_Labels es !! kube.service_name_label = Some svc) slices);
  Get_Service ns name :=
    Some {| kube.Svc_Ports := [{| kube.SP_Name := str "http"; kube.SP_Port := 80 |}] |};
  Get_Secret ns name := if decide (name = str "cert") then Some secret else None |}.

Lemma client_ok ings : client_laws ingressClassIndex (client ings).
Proof.
  split; simpl.
  - intros cls l ing [= <-] Hin. by apply list_elem_of_filter in Hin as [? _].
  - intros ns svc l es [= <-] Hin. by apply list_elem_of_filter in Hin as [? _].
Qed.

#[export] Instance libs : Libs := {|
  yaml_Unmarshal _ := None;
  pem_Decode crt := Some crt;
  x509_ParseCertificates der := Some [1767225600]%Z |}.

Definition range : nat -> gmap rstr model.TargetEndpoint -> list (rstr * model.TargetEndpoint) :=
  fun _ m => map_to_list m.

Definition class : rstr := str "argon".
Definition alloc : nat -> N := fun i => (824634000000 + 64 * N.of_nat i)%N.
Definition auth_url : string := "http://oauth2:4180/oauth2/auth".
Definition cluster0 : Client := client [ingress 824635000000 auth_url].

(** The snapshot of the demo cluster, and the reconciler after broadcasting it. *)
Definition snapshot : model.Snapshot := Eval vm_compute in
  match (Reconcile class cluster0 alloc 1760000000 range reconciler_start).2 with
  | OBroadcast snap => snap
  | _ => model.Snapshot_zero
  end.
Definition reconciled : Reconciler := mk_reconciler (model.Snap_Version snapshot) snapshot.

Lemma reconciled_broadcast :
  Reconcile class cluster0 alloc 1760000000 range reconciler_start = (reconciled, OBroadcast snapshot).
Proof. vm_compute. reflexivity. Qed.

Lemma reconciled_again :
  Reconcile class cluster0 alloc 1760000000 range reconciled = (reconciled, OUnchanged).
Proof.
  destruct (proj1 (Reconcile_broadcast _ _ _ _ _ _ _ _) reconciled_broadcast) as (ings & Hl & Hs & _).
  unfold Reconcile. rewrite Hl, Hs. by rewrite decide_True.
Qed.

End KubeDemo.

(** ** Properties *)


(** C23. A broadcast snapshot is well formed: every route names a cluster of the
    snapshot and every cluster is named by a route; every cluster has at least
    one endpoint and no two with the same address, each with weight 1; it allows
    one to ten attempts, its timeout is a 32-bit value, and its balancing policy
    and header operations are ones the data plane knows. *)
Theorem snapshot_well_formed {GS : GoSort} {GL : GoSortLaws GS} {LB : Libs}
    (class : rstr) (c : Client) (alloc : nat -> N) (now : Z)
    (range : nat -> gmap rstr model.TargetEndpoint -> list (rstr * model.TargetEndpoint))
    (r r' : Reconciler) (snap : model.Snapshot) :
  Go.ranges range ->
  Reconcile class c alloc now range r = (r', OBroadcast snap) ->
  (forall rt, rt ∈ model.Snap_Routes snap -> exists cl,
     cl ∈ model.Snap_Clusters snap /\ model.Cluster_Name cl = model.Route_Cluster rt /\
     is_Some (model.Route_PathType rt)) /\
  (forall cl, cl ∈ model.Snap_Clusters snap ->
     (exists rt, rt ∈ model.Snap_Routes snap /\ model.Route_Cluster rt = model.Cluster_Name cl) /\
     model.Cluster_Endpoints cl <> [] /\
     NoDup (model.EP_Address <$> model.Cluster_Endpoints cl) /\
     Forall (fun e => model.EP_Weight e = 1%Z) (model.Cluster_Endpoints cl) /\
     (1 <= model.Cluster_Retries cl <= 10)%Z /\ Int.is_i32 (model.Cluster_TimeoutMs cl) /\
     is_Some (LBPolicy_parse (model.Cluster_LBPolicy cl)) /\
     Forall (fun h => is_Some (HeaderRewriteMode_parse (model.RW_Mode h)))
       (model.Cluster_RewriteHeaders cl)).
Proof.
  intros Hrange (ings & Hl & Hs & _)%Reconcile_broadcast. split.
  - intros rt Hrt. eapply elem_of_routes in Hrt as (tp & path & te & pt & Htp & Hp & Hpt & ->); [|done..].
    exists (cluster_of (model.TP_Host tp) path te). simpl. split_and!; [|done|by rewrite Hpt].
    eapply elem_of_clusters; eauto 10.
  - intros cl Hcl. eapply elem_of_clusters in Hcl as (tp & path & te & Htp & Hp & ->); [|done..].
    destruct (targets_path_types _ Hrange _ _ _ _ Hs _ _ _ Htp Hp) as [pt Hpt].
    destruct (target_ok c alloc _ _ _ _ Htp Hp) as ([] & Hne & Hnd). simpl. split_and!; try done.
    + exists (route_of (model.TP_Host tp) path te pt). split; [|done].
      eapply elem_of_routes; eauto 10.
    + by intros ?%fmap_nil_inv.
    + rewrite <-list_fmap_compose. by rewrite list_fmap_id.
    + apply Forall_fmap, Forall_forall. done.
    + lia.
    + lia.
Qed.

(** C15. Nothing is left out: the last usable occurrence of every path in a rule of
    an Ingress of the class has a route, with the priority of its path type and
    length, and a cluster with its ready addresses; and the TLS bundle of the
    Ingress, if it has one, is part of the snapshot. *)
Theorem snapshot_complete {GS : GoSort} {GL : GoSortLaws GS} {LB : Libs}
    (class : rstr) (c : Client) (alloc : nat -> N) (now : Z)
    (range : nat -> gmap rstr model.TargetEndpoint -> list (rstr * model.TargetEndpoint))
    (r r' : Reconciler) (snap : model.Snapshot)
    (ings : list kube.Ingress) (i : nat) (ing : kube.Ingress) (rule : kube.IngressRule)
    (paths1 paths2 : list kube.HTTPIngressPath) (p : kube.HTTPIngressPath)
    (te : model.TargetEndpoint) :
  Go.ranges range ->
  Reconcile class c alloc now range r = (r', OBroadcast snap) ->
  List_Ingress c class = Some ings -> ings !! i = Some ing -> rule ∈ kube.Ing_Rules ing ->
  kube.IR_HTTP rule = Some (paths1 ++ p :: paths2) ->
  let base := parseAnnotations (alloc i) (kube.Ing_Annotations ing) in
  path_target c (kube.Ing_Namespace ing) base p = Some te ->
  (forall q, q ∈ paths2 -> kube.HP_Path q = kube.HP_Path p ->
     path_target c (kube.Ing_Namespace ing) base q = None) ->
  (exists pt, kube.HP_PathType p = Some pt /\
     route_of (kube.IR_Host rule) (kube.HP_Path p) te pt ∈ model.Snap_Routes snap) /\
  cluster_of (kube.IR_Host rule) (kube.HP_Path p) te ∈ model.Snap_Clusters snap /\
  (model.TLS_Name (buildTLSBundle c ing) <> [] -> buildTLSBundle c ing ∈ model.Snap_TLS snap).
Proof.
  intros Hrange (ings' & Hl & Hs & _)%Reconcile_broadcast Hl' Hi Hr Hpaths base Hte Hlater.
  rewrite Hl in Hl'. injection Hl' as ->. pose (tp := buildTargetFromRule c (kube.Ing_Namespace ing) rule base (buildTLSBundle c ing)).
  assert (model.TP_Path tp !! kube.HP_Path p = Some te) as Hp.
  { unfold tp, buildTargetFromRule. simpl. rewrite Hpaths, rule_paths_lookup.
    rewrite omap_app. simpl. rewrite decide_True, Hte by done.
    rewrite (proj2 (omap_nil_iff _ paths2)); [by rewrite last_snoc|].
    intros q Hq. case_decide; [by apply Hlater|done]. }
  assert (tp ∈ parseEndpoints c alloc ings) as Htp.
  { apply elem_of_parseEndpoints. exists i, ing, rule. split_and!; try done.
    intros Hnil. fold tp in Hnil. rewrite Hnil in Hp. done. }
  destruct (targets_path_types _ Hrange _ _ _ _ Hs _ _ _ Htp Hp) as [pt Hpt].
  split_and!.
  - exists pt. apply path_target_Some in Hte as (_ & service & slices & Hres).
    rewrite <-(res_path_type _ _ _ _ _ _ Hres). split; [done|].
    eapply elem_of_routes; [done..|]. by exists tp, (kube.HP_Path p), te, pt.
  - eapply elem_of_clusters; [done..|]. by exists tp, (kube.HP_Path p), te.
  - intros Hname. eapply elem_of_tls; [done..|]. split; [done|]. by exists tp.
Qed.

(** C22. Snapshots are deterministic, as the comment at the sort says: for targets
    without conflicts, neither the order in which Go visits maps nor the
    algorithm of its (unstable) sort has an influence on the result, the
    version included. *)
Theorem ToSnapshot_deterministic (GS1 GS2 : GoSort) `{!GoSortLaws GS1, !GoSortLaws GS2}
    (class : rstr) (now : Z)
    (range1 range2 : nat -> gmap rstr model.TargetEndpoint -> list (rstr * model.TargetEndpoint))
    (targets : list model.TargetProxy) :
  Go.ranges range1 -> Go.ranges range2 -> no_conflicts targets ->
  @ToSnapshot GS1 class now range1 targets = @ToSnapshot GS2 class now range2 targets.
Proof. by apply ToSnapshot_unique. Qed.

(** Over any sequence of reconciliations, failed ones included, the reconciler
    remembers what it broadcast last and its version, successive broadcasts
    have different versions, and no broadcast snapshot has the empty version
    that stands for none. *)
Theorem reconciler_tracks_broadcasts {GS : GoSort} {LB : Libs} (class : rstr) (ins : list Input) :
  let '(r, bs) := reconcile_all class ins reconciler_start in
  lastVersion r = model.Snap_Version (currentSnapshot r) /\
  currentSnapshot r = default model.Snapshot_zero (last bs) /\
  versions_change [] bs /\ Forall (fun b => model.Snap_Version b <> []) bs.
Proof. by apply (reconcile_all_spec class ins reconciler_start). Qed.

(** ** Witnesses *)

#[local] Existing Instance KubeDemo.libs.

Lemma range_ranges : Go.ranges KubeDemo.range.
Proof. intros n m. reflexivity. Qed.

(** The cluster of the path "/" of the demo cluster. *)
Definition web_target : model.TargetEndpoint := {|
  model.TE_Port := 8080; model.TE_Protocol := str "TCP"; model.TE_BackendProtocol := str "h1";
  model.TE_Addresses := [str "10.0.0.1"; str "10.0.0.2"];
  model.TE_PathType := Some (Ptr 824635000000 (str "Prefix"));
  model.TE_Retries := 10; model.TE_TimeoutMs := 3000; model.TE_LBAlgorithm := str "LeastConn";
  model.TE_RewriteHeaders := [];
  model.TE_Auth := Some (Ptr 824634000000 (set_URL (str KubeDemo.auth_url) model.AuthConfig_zero)) |}.

Lemma web_cluster_built :
  cluster_of (str "demo.local") (str "/") web_target ∈ model.Snap_Clusters KubeDemo.snapshot.
Proof.
  assert (head (model.Snap_Clusters KubeDemo.snapshot)
    = Some (cluster_of (str "demo.local") (str "/") web_target)) as Hh by (vm_compute; reflexivity).
  destruct (model.Snap_Clusters KubeDemo.snapshot) as [|c cs]; [discriminate Hh|].
  injection Hh as ->. left.
Qed.


Lemma snapshot_well_formed_witness :
  exists rt, rt ∈ model.Snap_Routes KubeDemo.snapshot /\ model.Route_Cluster rt = str "demo.local|/".
Proof.
  destruct (snapshot_well_formed KubeDemo.class KubeDemo.cluster0 KubeDemo.alloc 1760000000
    KubeDemo.range reconciler_start _ KubeDemo.snapshot range_ranges KubeDemo.reconciled_broadcast)
    as [_ Hc].
  destruct (Hc _ web_cluster_built) as ((rt & Hrt & Hn) & _). exists rt. split; [exact Hrt|exact Hn].
Defined.

Lemma snapshot_complete_witness :
  cluster_of (str "demo.local") (str "/") web_target ∈ model.Snap_Clusters KubeDemo.snapshot.
Proof.
  refine (proj1 (proj2 (snapshot_complete KubeDemo.class KubeDemo.cluster0 KubeDemo.alloc 1760000000
    KubeDemo.range reconciler_start _ KubeDemo.snapshot
    [KubeDemo.ingress 824635000000 KubeDemo.auth_url] 0 (KubeDemo.ingress 824635000000 KubeDemo.auth_url)
    {| kube.IR_Host := str "demo.local"; kube.IR_HTTP := Some
         [KubeDemo.path "/" "Prefix" 824635000000 "web"; KubeDemo.path "/api" "Exact" 824635000016 "api";
          KubeDemo.path "/none" "Prefix" 824635000032 "absent"] |}
    [] [KubeDemo.path "/api" "Exact" 824635000016 "api"; KubeDemo.path "/none" "Prefix" 824635000032 "absent"]
    (KubeDemo.path "/" "Prefix" 824635000000 "web") web_target
    range_ranges KubeDemo.reconciled_broadcast _ _ _ _ _ _))).
  - vm_compute. reflexivity.
  - reflexivity.
  - left.
  - reflexivity.
  - vm_compute. reflexivity.
  - intros q Hq Heq. apply elem_of_cons in Hq as [->|Hq]; [discriminate Heq|].
    apply list_elem_of_singleton in Hq as ->. discriminate Heq.
Defined.

(** Targets of two hosts, and two targets of the same host and path. *)
Module TargetDemo.

Definition endpoint (port : Z) : model.TargetEndpoint := {|
  model.TE_Port := port; model.TE_Protocol := str "TCP"; model.TE_BackendProtocol := str "h1";
  model.TE_Addresses := [str "10.0.0.1"]; model.TE_PathType := Some (Ptr 824635000000 (str "Prefix"));
  model.TE_Retries := 1; model.TE_TimeoutMs := 3000; model.TE_LBAlgorithm := str "RoundRobin";
  model.TE_RewriteHeaders := []; model.TE_Auth := None |}.
Definition target (host : string) (port : Z) : model.TargetProxy := {|
  model.TP_Host := str host; model.TP_Path := {[ str "/" := endpoint port ]};
  model.TP_SNI := model.TLSSecret_zero |}.

Definition distinct : list model.TargetProxy := [target "b.local" 80; target "a.local" 80].
Definition conflicting : list model.TargetProxy := [target "a.local" 80; target "a.local" 9090].

Definition range_back : nat -> gmap rstr model.TargetEndpoint -> list (rstr * model.TargetEndpoint) :=
  fun _ m => rev (map_to_list m).

Lemma range_back_ranges : Go.ranges range_back.
Proof. intros n m. symmetry. apply Permutation_rev. Qed.

Lemma distinct_ok : no_conflicts distinct.
Proof.
  assert (forall tp, tp ∈ distinct -> tp = target "b.local" 80 \/ tp = target "a.local" 80) as Hin
    by set_solver.
  assert (forall host port path, is_Some (model.TP_Path (target host port) !! path) -> path = str "/") as Hp.
  { intros host port path [te Hte]. simpl in Hte. by apply lookup_singleton_Some in Hte as [<- _]. }
  split.
  - intros tp [->| ->]%Hin; split; decide_compute.
  - intros tp path [->| ->]%Hin Hpath; apply Hp in Hpath as ->; decide_compute.
  - intros tp tp' path [->| ->]%Hin [->| ->]%Hin Hh _ _; try done; vm_compute in Hh; discriminate Hh.
  - intros tp [->| ->]%Hin; decide_compute.
  - intros tp tp' [->| ->]%Hin [->| ->]%Hin _; done.
Qed.

End TargetDemo.

Lemma ToSnapshot_deterministic_witness :
  exists snap,
    @ToSnapshot insertion_sort KubeDemo.class 0 KubeDemo.range TargetDemo.distinct = Some snap /\
    @ToSnapshot reversing_sort KubeDemo.class 0 TargetDemo.range_back TargetDemo.distinct = Some snap.
Proof.
  rewrite <-(@ToSnapshot_deterministic insertion_sort reversing_sort insertion_sort_laws
    reversing_sort_laws KubeDemo.class 0 KubeDemo.range TargetDemo.range_back TargetDemo.distinct
    range_ranges TargetDemo.range_back_ranges TargetDemo.distinct_ok).
  eexists. split; vm_compute; reflexivity.
Defined.

(** Two targets for the same host and path are both kept, as clusters of the same
    name, and their order, which decides which one the data plane uses, depends
    on the sorting algorithm. *)
Theorem conflicts_depend_on_sort :
  let last_port snap := (c ← last (model.Snap_Clusters snap); e ← head (model.Cluster_Endpoints c);
                         Some (model.EP_Port e)) in
  (@ToSnapshot insertion_sort KubeDemo.class 0 KubeDemo.range TargetDemo.conflicting ≫= last_port)
  = Some 9090%Z /\
  (@ToSnapshot reversing_sort KubeDemo.class 0 KubeDemo.range TargetDemo.conflicting ≫= last_port)
  = Some 80%Z.
Proof. split; vm_compute; reflexivity. Qed.

(** The version is computed from printed pointers. Where the API objects were
    decoded to is part of it: the same configuration, read again, has a new
    version and is broadcast again. *)
Theorem unchanged_configuration_broadcast :
  exists snap,
    (Reconcile KubeDemo.class (KubeDemo.client [KubeDemo.ingress 824635009000 KubeDemo.auth_url])
       KubeDemo.alloc 1760000000 KubeDemo.range KubeDemo.reconciled).2 = OBroadcast snap /\
    model.Snap_Clusters snap = model.Snap_Clusters KubeDemo.snapshot /\
    (fun r => (model.Route_Host r, model.Route_Path r, deref <$> model.Route_PathType r,
               model.Route_Cluster r, model.Route_Priority r)) <$> model.Snap_Routes snap
    = (fun r => (model.Route_Host r, model.Route_Path r, deref <$> model.Route_PathType r,
                 model.Route_Cluster r, model.Route_Priority r))
        <$> model.Snap_Routes KubeDemo.snapshot.
Proof. eexists. split; [vm_compute; reflexivity|]. split; vm_compute; reflexivity. Qed.


(** The URL of the auth service changes, at a reused address. *)
Module MissedDemo.

Definition other : Client := KubeDemo.client [KubeDemo.ingress 824635000000 "http://other:4180/oauth2/auth"].
Definition targets (c : Client) : list model.TargetProxy :=
  parseEndpoints c KubeDemo.alloc (default [] (List_Ingress c KubeDemo.class)).
Definition snap : model.Snapshot :=
  default model.Snapshot_zero (ToSnapshot KubeDemo.class 1760000000 KubeDemo.range (targets other)).

Lemma snap_built : ToSnapshot KubeDemo.class 1760000000 KubeDemo.range (targets other) = Some snap.
Proof.
  assert ((if ToSnapshot KubeDemo.class 1760000000 KubeDemo.range (targets other) is Some _
           then true else false) = true) as Ht by (vm_compute; reflexivity).
  unfold snap. revert Ht. generalize (ToSnapshot KubeDemo.class 1760000000 KubeDemo.range (targets other)).
  intros [s|] Ht; [reflexivity|discriminate Ht].
Qed.

Lemma old_built :
  ToSnapshot KubeDemo.class 1760000000 KubeDemo.range (targets KubeDemo.cluster0) = Some KubeDemo.snapshot.
Proof.
  destruct (proj1 (Reconcile_broadcast _ _ _ _ _ _ _ _) KubeDemo.reconciled_broadcast) as (l & Hl & Hs & _).
  unfold targets. rewrite Hl. exact Hs.
Qed.

End MissedDemo.

