(* ===== verification/Translate.v ===== *)
(** From the control plane's snapshot to the message on the stream:
    [toPbSnapshot] of src/images/controlplane/internal/grpc/server.go, and what
    the data plane's table makes of it. The Go protobuf structs and the Rust
    ones are generated from the same file, so that the message is the record of
    Config.v. *)

From stdpp Require Import base gmap list strings sorting.
From Stdlib Require Import NArith ZArith Lia.
From S2P Require Import Prelude RustStr Config Http Atomics RouteTable Routing GoLib Sha256 Model GoFmt Annotations Targets Snapshots Building Reconciling.

(** [string( *r.PathType )] panics on nil: [None]. *)
Definition pb_route (r : model.Route) : option Route :=
  pt ← model.Route_PathType r;
  Some {| rt_host := model.Route_Host r; rt_path := model.Route_Path r; rt_path_type := deref pt;
          rt_cluster := model.Route_Cluster r; rt_priority := Go.int32 (model.Route_Priority r) |}.

Definition pb_endpoint (e : model.Endpoint) : Endpoint := {|
  ep_address := model.EP_Address e; ep_port := model.EP_Port e; ep_weight := model.EP_Weight e;
  ep_zone := model.EP_Zone e; ep_region := model.EP_Region e |}.

Definition pb_header (h : model.RewriteHeaders) : HeaderRewrite := {|
  hr_name := model.RW_Name h; hr_mode := model.RW_Mode h; hr_value := model.RW_Value h |}.

Definition pb_auth (a : ptr model.AuthConfig) : AuthConfig := {|
  ac_url := model.Auth_URL (deref a); ac_signin := model.Auth_Signin (deref a);
  ac_response_headers := model.Auth_ResponseHeaders (deref a);
  ac_skip_paths := model.Auth_SkipPaths (deref a);
  ac_cookie_name := model.Auth_CookieName (deref a) |}.

(** The field [backend_tls_insecure_skip_verify] is not set. *)
Definition pb_cluster (c : model.Cluster) : Cluster := {|
  cl_name := model.Cluster_Name c;
  cl_lb_policy := model.Cluster_LBPolicy c;
  cl_endpoints := pb_endpoint <$> model.Cluster_Endpoints c;
  cl_timeout_ms := model.Cluster_TimeoutMs c;
  cl_retries := model.Cluster_Retries c;
  cl_backend_protocol := model.Cluster_BackendProtocol c;
  cl_request_headers := pb_header <$> model.Cluster_RewriteHeaders c;
  cl_backend_tls_insecure_skip_verify := false;
  cl_auth := pb_auth <$> model.Cluster_Auth c |}.

Definition pb_tls (t : model.TLSSecret) : ServerTlsBundle := {|
  tls_name := model.TLS_Name t; tls_sni := model.TLS_Sni t;
  tls_cert_pem := model.TLS_CertPem t; tls_key_pem := model.TLS_KeyPem t;
  tls_not_after_unix := model.TLS_NotAfterUnix t; tls_version := model.TLS_Version t |}.

Definition toPbSnapshot (in_ : model.Snapshot) : option Snapshot :=
  routes ← mapM pb_route (model.Snap_Routes in_);
  Some {| sn_version := model.Snap_Version in_;
          sn_controller_id := model.Snap_ControllerID in_;
          sn_ingress_class_name := model.Snap_IngressClassName in_;
          sn_generated_at_unix_sec := model.Snap_GeneratedAtUnixSec in_;
          sn_resource_versions := model.Snap_ResourceVersions in_;
          sn_routes := routes;
          sn_clusters := pb_cluster <$> model.Snap_Clusters in_;
          sn_server_tls := pb_tls <$> model.Snap_TLS in_ |}.

(** ** Facts *)

Lemma elem_of_pb_routes rs pbs r :
  mapM pb_route rs = Some pbs ->
  r ∈ pbs <-> exists r0, r0 ∈ rs /\ pb_route r0 = Some r.
Proof.
  intros Hm. apply mapM_Some in Hm. induction Hm as [|x y l k Hx Hl IH].
  { split; [|intros (? & ? & _)]; by intros ?%not_elem_of_nil || by set_solver. }
  rewrite elem_of_cons, IH. setoid_rewrite elem_of_cons. naive_solver.
Qed.

(** A snapshot of the builder can always be sent. *)
Lemma toPb_total {GS : GoSort} {GL : GoSortLaws GS} class now range targets snap :
  Go.ranges range -> ToSnapshot class now range targets = Some snap ->
  is_Some (toPbSnapshot snap).
Proof.
  intros Hrange Hs. unfold toPbSnapshot.
  assert (is_Some (mapM pb_route (model.Snap_Routes snap))) as [rs ->]; [|by eexists].
  apply mapM_is_Some_2, Forall_forall. intros r Hr.
  eapply elem_of_routes in Hr as (tp & path & te & pt & _ & _ & Hpt & ->); [|done..].
  unfold pb_route. simpl. rewrite Hpt. by eexists.
Qed.

Section pb.
Context {GS : GoSort} {GL : GoSortLaws GS}.
Context (range : nat -> gmap rstr model.TargetEndpoint -> list (rstr * model.TargetEndpoint))
  (Hrange : Go.ranges range) (class : rstr) (now : Z) (targets : list model.TargetProxy)
  (snap : model.Snapshot) (Hsnap : ToSnapshot class now range targets = Some snap)
  (pb : Snapshot) (Hpb : toPbSnapshot snap = Some pb).

Lemma elem_of_sn_routes r :
  r ∈ sn_routes pb <->
  exists tp path te pt, tp ∈ targets /\ model.TP_Path tp !! path = Some te /\
    model.TE_PathType te = Some pt /\
    r = {| rt_host := model.TP_Host tp; rt_path := path; rt_path_type := deref pt;
           rt_cluster := clusterName (model.TP_Host tp) path;
           rt_priority := Go.int32 (RoutePriority path (deref pt)) |}.
Proof using GL Hrange Hsnap Hpb.
  unfold toPbSnapshot in Hpb. apply bind_Some in Hpb as (rs & Hm & [= <-]). simpl.
  rewrite (elem_of_pb_routes _ _ _ Hm). split.
  - intros (r0 & Hr0 & Hr). eapply elem_of_routes in Hr0
      as (tp & path & te & pt & Htp & Hp & Hpt & ->); [|done..].
    unfold pb_route in Hr. simpl in Hr. rewrite Hpt in Hr. simpl in Hr. injection Hr as <-.
    by exists tp, path, te, pt.
  - intros (tp & path & te & pt & Htp & Hp & Hpt & ->).
    exists (route_of (model.TP_Host tp) path te pt). split.
    + eapply elem_of_routes; eauto 10.
    + unfold pb_route. simpl. by rewrite Hpt.
Qed.

Lemma elem_of_sn_clusters c :
  c ∈ sn_clusters pb <->
  exists tp path te, tp ∈ targets /\ model.TP_Path tp !! path = Some te /\
    c = pb_cluster (cluster_of (model.TP_Host tp) path te).
Proof using GL Hrange Hsnap Hpb.
  unfold toPbSnapshot in Hpb. apply bind_Some in Hpb as (rs & _ & [= <-]). simpl.
  rewrite list_elem_of_fmap. split.
  - intros (c0 & -> & Hc). eapply elem_of_clusters in Hc as (tp & path & te & Htp & Hp & ->); [|done..].
    by exists tp, path, te.
  - intros (tp & path & te & Htp & Hp & ->). eexists. split; [done|].
    eapply elem_of_clusters; eauto 10.
Qed.

End pb.
