(* ===== verification/Hub.v ===== *)
(** The distribution of snapshots: [StreamHub] of
    src/images/controlplane/internal/grpc/hub.go and the [Watch] handler of
    server.go. A goroutine per connected data plane runs [Watch]; the reconciler
    runs [Broadcast]. The lock-protected sections are single steps; what happens
    outside the lock (the non-blocking sends to the channels, receiving from a
    channel, sending on a stream) interleaves freely. The reconciler is one
    goroutine, so that one broadcast ends before the next one starts. Consumer
    ids and channels correspond one to one; ids are counted without wrapping, for
    fewer than 2^63 connections. *)

From stdpp Require Import base gmap list strings sorting.
From Stdlib Require Import NArith ZArith Lia.
From S2P Require Import Prelude RustStr Config GoLib Model Snapshots Translate.

(** Where a [Watch] call is: sending a snapshot, at the [select], returned with
    the deferred [Remove] still to run, or finished. *)
Inductive watch_pc :=
  | WSend (snap : model.Snapshot)
  | WSelect
  | WReturn
  | WEnd.

(** A [Watch] call: its position, the buffer of its channel (capacity one), and
    what it has sent on the stream so far. *)
Record Watcher := mk_watcher {
  w_pc : watch_pc;
  w_ch : option model.Snapshot;
  w_sent : list model.Snapshot;
}.

(** [watchers] lists the [Watch] calls by id: an id is handed out once, in order.
    [sending] is the broadcast under way: the snapshot, and the channels that are
    still to be served. *)
Record Hub := mk_hub {
  h_cons : gset nat;
  h_last : model.Snapshot;
  h_watchers : list Watcher;
  h_sending : model.Snapshot * list nat;
}.

Module StreamHub.

Definition NewStreamHub : Hub := mk_hub ∅ model.Snapshot_zero [] (model.Snapshot_zero, []).

(** [Add], and [Watch] up to its first send or its loop. *)
Definition Add (h : Hub) : Hub :=
  let id := length (h_watchers h) in
  let pc := if decide (model.Snap_Version (h_last h) = []) then WSelect else WSend (h_last h) in
  mk_hub ({[id]} ∪ h_cons h) (h_last h) (h_watchers h ++ [mk_watcher pc None []]) (h_sending h).

(** [Remove], at the end of [Watch]. *)
Definition Remove (id : nat) (h : Hub) : Hub :=
  mk_hub (h_cons h ∖ {[id]}) (h_last h) (h_watchers h) (h_sending h).

(** The section of [Broadcast] under the lock: [chs] is the order in which the map
    of consumers is visited. *)
Definition Broadcast (snap : model.Snapshot) (chs : list nat) (h : Hub) : Hub :=
  mk_hub (h_cons h) snap (h_watchers h) (snap, chs).

End StreamHub.

Definition put_watcher (h : Hub) (id : nat) (w : Watcher) : Hub :=
  mk_hub (h_cons h) (h_last h) (<[id := w]> (h_watchers h)) (h_sending h).
Definition set_sending (h : Hub) (chs : list nat) : Hub :=
  mk_hub (h_cons h) (h_last h) (h_watchers h) ((h_sending h).1, chs).

Inductive hlabel :=
  (** [Broadcast] takes the lock *)
  | HBroadcast (snap : model.Snapshot) (chs : list nat)
  (** its next [select { case c <- s: default: }] *)
  | HOffer
  (** a data plane connects; it gets the next id *)
  | HAdd
  (** [stream.Send] of a watcher ends, without or with an error *)
  | HSent (id : nat) (ok : bool)
  (** the [select] of a watcher takes a snapshot from its channel *)
  | HReceive (id : nat)
  (** the context of the stream is done *)
  | HDone (id : nat)
  (** the deferred [Remove] *)
  | HRemove (id : nat).

(** A panic of [toPbSnapshot] ends the process; no step follows it. *)
Definition hstep (l : hlabel) (h : Hub) : option Hub :=
  match l with
  | HBroadcast snap chs =>
      if decide ((h_sending h).2 = [] /\ chs ≡ₚ elements (h_cons h))
      then Some (StreamHub.Broadcast snap chs h) else None
  | HOffer =>
      match (h_sending h).2 with
      | [] => None
      | id :: chs =>
          match h_watchers h !! id with
          | None => None
          | Some w =>
              match w_ch w with
              | None => Some (set_sending (put_watcher h id
                          (mk_watcher (w_pc w) (Some (h_sending h).1) (w_sent w))) chs)
              | Some _ => Some (set_sending h chs)
              end
          end
      end
  | HAdd => Some (StreamHub.Add h)
  | HSent id ok =>
      match h_watchers h !! id with
      | Some w =>
          match w_pc w with
          | WSend snap =>
              match toPbSnapshot snap with
              | Some _ =>
                  Some (put_watcher h id
                    (if ok then mk_watcher WSelect (w_ch w) (w_sent w ++ [snap])
                     else mk_watcher WReturn (w_ch w) (w_sent w)))
              | None => None
              end
          | _ => None
          end
      | None => None
      end
  | HReceive id =>
      match h_watchers h !! id with
      | Some w =>
          match w_pc w, w_ch w with
          | WSelect, Some snap => Some (put_watcher h id (mk_watcher (WSend snap) None (w_sent w)))
          | _, _ => None
          end
      | None => None
      end
  | HDone id =>
      match h_watchers h !! id with
      | Some w =>
          match w_pc w with
          | WSelect => Some (put_watcher h id (mk_watcher WReturn (w_ch w) (w_sent w)))
          | _ => None
          end
      | None => None
      end
  | HRemove id =>
      match h_watchers h !! id with
      | Some w =>
          match w_pc w with
          | WReturn => Some (StreamHub.Remove id (put_watcher h id (mk_watcher WEnd (w_ch w) (w_sent w))))
          | _ => None
          end
      | None => None
      end
  end.

Fixpoint hrun (ls : list hlabel) (h : Hub) : option Hub :=
  match ls with
  | [] => Some h
  | l :: ls' => match hstep l h with Some h' => hrun ls' h' | None => None end
  end.

Lemma hrun_app ls1 ls2 h :
  hrun (ls1 ++ ls2) h = match hrun ls1 h with Some h' => hrun ls2 h' | None => None end.
Proof.
  revert h. induction ls1 as [|l ls1 IH]; intros h; [done|]. simpl.
  destruct (hstep l h); [apply IH|done].
Qed.

Lemma hrun_invariant (I : list hlabel -> Hub -> Prop) :
  I [] StreamHub.NewStreamHub ->
  (forall ls l h h', hrun ls StreamHub.NewStreamHub = Some h -> I ls h -> hstep l h = Some h' -> I (ls ++ [l]) h') ->
  forall ls h, hrun ls StreamHub.NewStreamHub = Some h -> I ls h.
Proof.
  intros H0 Hs ls. induction ls as [|l ls IH] using rev_ind; intros h.
  { intros [= <-]. done. }
  rewrite hrun_app. destruct (hrun ls StreamHub.NewStreamHub) as [h0|] eqn:E; [|done]. simpl.
  destruct (hstep l h0) as [h1|] eqn:El; [|done]. intros [= <-]. by eapply Hs; eauto.
Qed.

(** ** Observations *)

(** The snapshots broadcast, in order. *)
Definition broadcasts (ls : list hlabel) : list model.Snapshot :=
  omap (fun l => match l with HBroadcast snap _ => Some snap | _ => None end) ls.

(** The snapshots on their way to a stream: already sent, being sent, in the
    channel, and still to be offered to the channel. *)
Definition sending_now (w : Watcher) : list model.Snapshot :=
  match w_pc w with WSend snap => [snap] | _ => [] end.
Definition pending (h : Hub) (id : nat) : list model.Snapshot :=
  if decide (id ∈ (h_sending h).2) then [(h_sending h).1] else [].
Definition pipeline (h : Hub) (id : nat) (w : Watcher) : list model.Snapshot :=
  w_sent w ++ sending_now w ++ option_list (w_ch w) ++ pending h id.

(** A [Watch] call that has not returned. *)
Definition watching (w : Watcher) : bool :=
  match w_pc w with WSend _ | WSelect => true | WReturn | WEnd => false end.

(** An offer to the channel of [id] that finds it full. *)
Definition drops_now (id : nat) (l : hlabel) (h : Hub) : bool :=
  match l, (h_sending h).2 with
  | HOffer, id' :: _ =>
      if decide (id' = id) then
        match h_watchers h !! id with
        | Some w => if w_ch w is Some _ then true else false
        | None => false
        end
      else false
  | _, _ => false
  end.

(** Whether the offer of the latest broadcast to the channel of [id] was dropped. *)
Definition lost_step (id : nat) (l : hlabel) (h : Hub) (lost : bool) : bool :=
  match l with HBroadcast _ _ => false | _ => lost || drops_now id l h end.
Fixpoint lost_from (id : nat) (ls : list hlabel) (h : Hub) (lost : bool) : bool :=
  match ls with
  | [] => lost
  | l :: ls' =>
      match hstep l h with
      | Some h' => lost_from id ls' h' (lost_step id l h lost)
      | None => lost
      end
  end.
Definition lost (id : nat) (ls : list hlabel) : bool :=
  lost_from id ls StreamHub.NewStreamHub false.
