(* ===== verification/Distribution.v ===== *)
(** What the hub guarantees, for every interleaving of broadcasts and watchers:
    order, delivery, and when a snapshot is lost. *)

From stdpp Require Import base gmap list strings sorting.
From Stdlib Require Import NArith ZArith Lia.
From S2P Require Import Prelude RustStr Config GoLib Model Snapshots Translate Hub.

(** ** One step *)

(** The bookkeeping of the hub: the consumers are the watchers that have not
    ended, the channels still to be served are distinct and belong to watchers,
    and what is being broadcast is what new watchers start with. *)
Record hub_ok (h : Hub) : Prop := {
  ok_cons id w : h_watchers h !! id = Some w -> (id ∈ h_cons h <-> w_pc w <> WEnd);
  ok_ids id : id ∈ h_cons h -> id < length (h_watchers h);
  ok_sending id : id ∈ (h_sending h).2 -> id < length (h_watchers h);
  ok_nodup : NoDup (h_sending h).2;
  ok_last : (h_sending h).1 = h_last h;
}.

Ltac hub_cases H :=
  unfold hstep in H; repeat (case_match; simplify_eq/=); simplify_eq/=; try done.

Lemma hub_ok_start : hub_ok StreamHub.NewStreamHub.
Proof. split; simpl; set_solver || constructor. Qed.

Lemma put_watcher_ok h id w w' :
  hub_ok h -> h_watchers h !! id = Some w -> (w_pc w' = WEnd <-> w_pc w = WEnd) ->
  hub_ok (put_watcher h id w').
Proof.
  intros [] Hw Hpc. apply lookup_lt_Some in Hw as Hlt.
  split; simpl; rewrite ?length_insert; try done.
  intros id' v. destruct (decide (id' = id)) as [->|Hne].
  - rewrite list_lookup_insert_eq by done. intros [= <-]. rewrite (ok_cons0 id w) by done. naive_solver.
  - rewrite list_lookup_insert_ne by done. auto.
Qed.

Lemma set_sending_ok h id chs : hub_ok h -> (h_sending h).2 = id :: chs -> hub_ok (set_sending h chs).
Proof.
  intros [] Hs. rewrite Hs in *. apply NoDup_cons in ok_nodup0 as [_ ?].
  split; simpl; try done. intros id' Hid. apply ok_sending0. by right.
Qed.

Lemma Remove_ok h id w w' :
  hub_ok h -> h_watchers h !! id = Some w -> w_pc w' = WEnd ->
  hub_ok (StreamHub.Remove id (put_watcher h id w')).
Proof.
  intros [] Hw Hpc. apply lookup_lt_Some in Hw as Hlt.
  split; simpl; rewrite ?length_insert; try done; [|set_solver].
  intros id' v. destruct (decide (id' = id)) as [->|Hne].
  - rewrite list_lookup_insert_eq by done. intros [= <-]. set_solver.
  - rewrite list_lookup_insert_ne by done. intros Hv. rewrite <-(ok_cons0 id' v) by done. set_solver.
Qed.

Lemma Add_ok h : hub_ok h -> hub_ok (StreamHub.Add h).
Proof.
  intros []. split; simpl; rewrite ?length_app; simpl; try done.
  - intros id w [Hw|[Hlen Hw]]%lookup_app_Some.
    + apply lookup_lt_Some in Hw as Hlt. rewrite <-(ok_cons0 id w) by done.
      rewrite elem_of_union, elem_of_singleton. split; [intros [?|?]; [lia|done]|by right].
    + apply list_lookup_singleton_Some in Hw as [Hid <-]. split; [|set_solver by lia].
      intros _. simpl. by case_decide.
  - intros id [->%elem_of_singleton|?%ok_ids0]%elem_of_union; lia.
  - intros id ?%ok_sending0. lia.
Qed.

Lemma hub_ok_step l h h' : hub_ok h -> hstep l h = Some h' -> hub_ok h'.
Proof.
  intros Hok Hstep. destruct l as [snap chs| | |id ok|id|id|id]; simpl in Hstep.
  - case_decide as Hd; [|done]. injection Hstep as <-. destruct Hd as [_ Hp]. destruct Hok.
    split; simpl; try done.
    + intros id Hid. apply ok_ids0. rewrite Hp in Hid. by apply elem_of_elements in Hid.
    + rewrite Hp. apply NoDup_elements.
  - destruct (h_sending h).2 as [|id chs] eqn:Es; [done|].
    destruct (h_watchers h !! id) as [w|] eqn:Ew; [|done].
    destruct (w_ch w); injection Hstep as <-.
    + by eapply set_sending_ok.
    + eapply set_sending_ok; [by eapply put_watcher_ok|exact Es].
  - injection Hstep as <-. by apply Add_ok.
  - hub_cases Hstep; (eapply put_watcher_ok; [done|done|simpl; split; congruence]).
  - hub_cases Hstep; (eapply put_watcher_ok; [done|done|simpl; split; congruence]).
  - hub_cases Hstep; (eapply put_watcher_ok; [done|done|simpl; split; congruence]).
  - hub_cases Hstep. by eapply Remove_ok.
Qed.

Lemma hub_ok_run ls h : hrun ls StreamHub.NewStreamHub = Some h -> hub_ok h.
Proof.
  apply (hrun_invariant (fun _ h => hub_ok h)); [apply hub_ok_start|].
  intros ls' l h1 h2 _ IH Hstep. by eapply hub_ok_step.
Qed.

(** What a step other than a broadcast does to the pipeline of a watcher: it never
    adds to it, and takes something out only by dropping an offer or by ending
    the watcher. *)
Definition pipeline_kept (l : hlabel) (h h' : Hub) (id : nat) (w w' : Watcher) : Prop :=
  (pipeline h' id w' `sublist_of` pipeline h id w) /\
  (watching w' = true -> watching w = true) /\
  (drops_now id l h = false -> watching w' = true -> pipeline h' id w' = pipeline h id w).

Lemma pipeline_put h id0 w0 w0' id w l :
  h_watchers h !! id0 = Some w0 -> h_watchers h !! id = Some w ->
  (id0 = id -> pipeline_kept l h (put_watcher h id0 w0') id w0 w0') ->
  exists w', h_watchers (put_watcher h id0 w0') !! id = Some w' /\
    pipeline_kept l h (put_watcher h id0 w0') id w w'.
Proof.
  intros H0 Hw Hk. apply lookup_lt_Some in H0 as Hlt. simpl.
  destruct (decide (id0 = id)) as [->|Hne].
  - exists w0'. rewrite list_lookup_insert_eq by done. split; [done|]. simplify_eq. by apply Hk.
  - exists w. rewrite list_lookup_insert_ne by done. done.
Qed.

(** Passing over the channel at the front of the broadcast. *)
Lemma pending_cons h id chs : (h_sending h).2 = id :: chs -> NoDup (id :: chs) ->
  pending h id = [(h_sending h).1] /\ pending (set_sending h chs) id = [] /\
  forall id', id' <> id -> pending (set_sending h chs) id' = pending h id'.
Proof.
  intros Hs [Hid _]%NoDup_cons. unfold pending. simpl. rewrite Hs. split_and!.
  - by rewrite decide_True by set_solver.
  - by rewrite decide_False.
  - intros id' Hne. destruct (decide (id' ∈ chs)); [rewrite decide_True by set_solver|
      rewrite decide_False by set_solver]; done.
Qed.

Lemma pipeline_offer h h' id w :
  hub_ok h -> hstep HOffer h = Some h' -> h_watchers h !! id = Some w ->
  exists w', h_watchers h' !! id = Some w' /\ pipeline_kept HOffer h h' id w w'.
Proof.
  intros Hok Hstep Hw. simpl in Hstep. destruct (h_sending h).2 as [|id0 chs] eqn:Es; [done|].
  destruct (h_watchers h !! id0) as [w0|] eqn:E0; [|done]. apply lookup_lt_Some in E0 as Hlt.
  pose proof (ok_nodup _ Hok) as Hnd. rewrite Es in Hnd.
  destruct (w_ch w0) as [s|] eqn:Ech; injection Hstep as <-.
  - (* the channel is full *)
    exists w. split; [done|]. destruct (pending_cons h id0 chs Es Hnd) as (H1 & H2 & H3).
    unfold pipeline_kept, drops_now, pipeline. rewrite Es. destruct (decide (id0 = id)) as [->|Hne].
    + rewrite H1, H2, E0, Ech. split_and!; [|done|done]. repeat apply sublist_app; try done. apply sublist_nil_l.
    + by rewrite H3 by done.
  - destruct (pending_cons (put_watcher h id0 (mk_watcher (w_pc w0) (Some (h_sending h).1) (w_sent w0)))
      id0 chs Es Hnd) as (H1 & H2 & H3).
    simpl in *. destruct (decide (id0 = id)) as [->|Hne].
    + eexists. rewrite list_lookup_insert_eq by done. split; [done|]. simplify_eq.
      unfold pipeline_kept, pipeline. simpl. rewrite H2, Ech. unfold pending in *. simpl in *.
      rewrite H1. done.
    + exists w. rewrite list_lookup_insert_ne by done. split; [done|].
      unfold pipeline_kept, pipeline. rewrite H3 by done. done.
Qed.

Lemma pipeline_step l h h' id w :
  hub_ok h -> hstep l h = Some h' -> h_watchers h !! id = Some w ->
  exists w', h_watchers h' !! id = Some w' /\
    match l with
    | HBroadcast snap _ =>
        w' = w /\
        pipeline h' id w' = pipeline h id w ++ (if decide (id ∈ h_cons h) then [snap] else [])
    | _ => pipeline_kept l h h' id w w'
    end.
Proof.
  intros Hok Hstep Hw. destruct l as [snap chs| | |id0 ok|id0|id0|id0].
  - simpl in Hstep. case_decide as Hd; [|done]. injection Hstep as <-. destruct Hd as [Hs Hp].
    exists w. split_and!; [done..|]. unfold pipeline, pending. simpl. rewrite Hs.
    rewrite (decide_False (P := id ∈ [])) by set_solver. rewrite <-!app_assoc. simpl. do 3 f_equal.
    destruct (decide (id ∈ h_cons h)) as [Hc|Hc];
      [rewrite decide_True by (rewrite Hp; by apply elem_of_elements)
      |rewrite decide_False by (rewrite Hp; by rewrite elem_of_elements)]; done.
  - by apply pipeline_offer.
  - simpl in Hstep. injection Hstep as <-. exists w. simpl.
    rewrite lookup_app_l by by eapply lookup_lt_Some. done.
  - hub_cases Hstep; (eapply pipeline_put; [done..|]); intros ->; unfold pipeline_kept, pipeline,
      sending_now, pending, watching; simpl;
      match goal with Hpc : w_pc _ = WSend _ |- _ => rewrite Hpc end.
    + rewrite <-!app_assoc. done.
    + split_and!; [|done|done]. simpl. apply sublist_app; [done|]. by apply sublist_cons.
  - hub_cases Hstep; (eapply pipeline_put; [done..|]); intros ->; unfold pipeline_kept, pipeline,
      sending_now, pending, watching; simpl.
    repeat match goal with Hpc : _ = _ |- _ => rewrite Hpc end. done.
  - hub_cases Hstep; (eapply pipeline_put; [done..|]); intros ->; unfold pipeline_kept, pipeline,
      sending_now, pending, watching; simpl.
    match goal with Hpc : w_pc _ = WSelect |- _ => rewrite Hpc end. done.
  - hub_cases Hstep. 
    match goal with Hpc : w_pc ?w0 = WReturn, H0 : h_watchers h !! id0 = Some ?w0 |- _ =>
      destruct (pipeline_put h id0 w0 (mk_watcher WEnd (w_ch w0) (w_sent w0)) id w (HRemove id0))
        as (w' & Hw' & Hk) end; try done; [|by exists w'].
    intros ->. unfold pipeline_kept, pipeline, sending_now, pending, watching. simpl.
    match goal with Hpc : w_pc _ = WReturn |- _ => rewrite Hpc end. done.
Qed.

(** ** Runs *)

Lemma broadcasts_snoc ls l :
  broadcasts (ls ++ [l]) = broadcasts ls ++ match l with HBroadcast snap _ => [snap] | _ => [] end.
Proof. unfold broadcasts. rewrite omap_app. f_equal. by destruct l. Qed.

Lemma lost_from_snoc id ls l h0 h b :
  hrun ls h0 = Some h -> is_Some (hstep l h) ->
  lost_from id (ls ++ [l]) h0 b = lost_step id l h (lost_from id ls h0 b).
Proof.
  revert h0 b. induction ls as [|l' ls IH]; intros h0 b; simpl.
  - intros [= ->] [h' ->]. done.
  - destruct (hstep l' h0) as [h1|]; [|done]. intros Hr Hl. by apply IH.
Qed.

Lemma last_broadcast ls h :
  hrun ls StreamHub.NewStreamHub = Some h ->
  h_last h = default model.Snapshot_zero (last (broadcasts ls)).
Proof.
  apply (hrun_invariant (fun ls h => h_last h = default model.Snapshot_zero (last (broadcasts ls)))); [done|].
  intros ls' l h1 h2 _ IH Hstep. rewrite broadcasts_snoc.
  destruct l; hub_cases Hstep; rewrite ?app_nil_r, ?last_snoc; done.
Qed.

(** A new watcher starts with the newest snapshot, if there is one. *)
Lemma Add_pipeline h id w :
  hub_ok h -> h_watchers h !! id = None -> h_watchers (StreamHub.Add h) !! id = Some w ->
  pipeline (StreamHub.Add h) id w
  = (if decide (model.Snap_Version (h_last h) = []) then [] else [h_last h]) /\ watching w = true.
Proof.
  intros Hok Hn. simpl. rewrite lookup_app, Hn. intros [Hid <-]%list_lookup_singleton_Some.
  unfold pipeline, pending, watching, sending_now. simpl.
  rewrite (decide_False (P := id ∈ _)).
  - by destruct (decide (model.Snap_Version (h_last h) = [])).
  - intros Hin%(ok_sending _ Hok). apply lookup_ge_None in Hn. lia.
Qed.

Lemma hstep_new_watcher l h h' id w :
  hstep l h = Some h' -> h_watchers h !! id = None -> h_watchers h' !! id = Some w -> l = HAdd.
Proof.
  intros Hstep Hn Hw. apply lookup_ge_None in Hn. apply lookup_lt_Some in Hw.
  destruct l; hub_cases Hstep; rewrite ?length_insert in Hw; simpl in *; rewrite ?length_insert in *; lia.
Qed.

(** The pipeline of a watcher is a subsequence of the broadcasts. *)
Lemma pipeline_sublist ls h id w :
  hrun ls StreamHub.NewStreamHub = Some h -> h_watchers h !! id = Some w ->
  pipeline h id w `sublist_of` broadcasts ls.
Proof.
  intros Hrun. revert id w. revert ls h Hrun. apply (hrun_invariant (fun ls h => forall id w,
    h_watchers h !! id = Some w -> pipeline h id w `sublist_of` broadcasts ls)); [done|].
  intros ls l h h' Hrun IH Hstep id w' Hw'. pose proof (hub_ok_run _ _ Hrun) as Hok.
  rewrite broadcasts_snoc. destruct (h_watchers h !! id) as [w|] eqn:Ew.
  - destruct (pipeline_step l h h' id w Hok Hstep Ew) as (w1 & Hw1 & Hk). simplify_eq.
    specialize (IH id w Ew). destruct l; try (rewrite app_nil_r; destruct Hk as [Hk _]; by trans (pipeline h id w)).
    destruct Hk as [_ ->]. apply sublist_app; [done|]. case_decide; [done|]. apply sublist_nil_l.
  - pose proof (hstep_new_watcher _ _ _ _ _ Hstep Ew Hw') as ->. simpl in Hstep. injection Hstep as <-.
    destruct (Add_pipeline h id w' Hok Ew Hw') as [-> _]. rewrite app_nil_r.
    case_decide as Hv; [apply sublist_nil_l|]. rewrite (last_broadcast _ _ Hrun) in *.
    destruct (last (broadcasts ls)) as [s|] eqn:El; [|done]. simpl.
    apply last_Some in El as [l' ->]. by apply sublist_inserts_l.
Qed.

(** The newest snapshot is in the pipeline of every watcher, unless its offer was
    dropped. *)
Lemma pipeline_newest ls h id w :
  hrun ls StreamHub.NewStreamHub = Some h ->
  Forall (fun s => model.Snap_Version s <> []) (broadcasts ls) ->
  h_watchers h !! id = Some w -> watching w = true -> lost id ls = false ->
  last (pipeline h id w) = last (broadcasts ls).
Proof.
  intros Hrun. revert w. revert ls h Hrun. apply (hrun_invariant (fun ls h => forall w,
    Forall (fun s => model.Snap_Version s <> []) (broadcasts ls) ->
    h_watchers h !! id = Some w -> watching w = true -> lost id ls = false ->
    last (pipeline h id w) = last (broadcasts ls))); [done|].
  intros ls l h h' Hrun IH Hstep w' Hv Hw' Hwa Hlost. pose proof (hub_ok_run _ _ Hrun) as Hok.
  unfold lost in Hlost. rewrite (lost_from_snoc _ _ _ _ h) in Hlost by eauto.
  rewrite broadcasts_snoc in *. apply Forall_app in Hv as [Hv _].
  destruct (h_watchers h !! id) as [w|] eqn:Ew.
  - destruct (pipeline_step l h h' id w Hok Hstep Ew) as (w1 & Hw1 & Hk). simplify_eq.
    destruct l; cycle 1.
    1-6: destruct Hk as (_ & Hwatch & Heq); simpl in Hlost; apply orb_false_iff in Hlost as [Hl Hd];
      rewrite Heq, app_nil_r by done; apply IH; [done|done|by apply Hwatch|done].
    destruct Hk as [-> ->]. rewrite decide_True, !last_snoc; [done|].
    apply (ok_cons _ Hok id w Ew). intros Hpc. unfold watching in Hwa. by rewrite Hpc in Hwa.
  - pose proof (hstep_new_watcher _ _ _ _ _ Hstep Ew Hw') as ->. simpl in Hstep. injection Hstep as <-.
    destruct (Add_pipeline h id w' Hok Ew Hw') as [-> _]. rewrite app_nil_r, (last_broadcast _ _ Hrun).
    destruct (last (broadcasts ls)) as [s|] eqn:El; simpl; [|done].
    rewrite decide_False; [done|]. rewrite Forall_forall in Hv. apply Hv. by apply last_Some_elem_of.
Qed.

Lemma sublist_snoc_inv {A} (l k : list A) x y :
  (l ++ [x]) `sublist_of` (k ++ [y]) -> l `sublist_of` k.
Proof.
  intros (l1 & l2 & Heq & H1 & H2)%sublist_app_r. apply sublist_cons_r in H2 as [H2|(l2' & -> & H2)];
    apply sublist_nil_r in H2; subst.
  - rewrite app_nil_r in Heq. subst l1. trans (l ++ [x]); [|done]. by apply sublist_inserts_r.
  - apply app_inj_tail in Heq as [-> _]. done.
Qed.

(** All broadcasts but the latest. *)
Definition superseded (ls : list hlabel) : list model.Snapshot :=
  take (pred (length (broadcasts ls))) (broadcasts ls).

Lemma superseded_snoc_other ls l :
  (forall snap chs, l <> HBroadcast snap chs) -> superseded (ls ++ [l]) = superseded ls.
Proof.
  intros Hl. unfold superseded. rewrite broadcasts_snoc. destruct l; rewrite ?app_nil_r; try done.
  by destruct (Hl snap chs).
Qed.

(** A dropped offer is out of the pipeline. *)
Lemma drop_pipeline ls h h' id w w' :
  hrun ls StreamHub.NewStreamHub = Some h -> hstep HOffer h = Some h' -> drops_now id HOffer h = true ->
  h_watchers h !! id = Some w -> h_watchers h' !! id = Some w' ->
  pipeline h' id w' `sublist_of` superseded ls.
Proof.
  intros Hrun Hstep Hd Hw Hw'. pose proof (hub_ok_run _ _ Hrun) as Hok.
  pose proof (pipeline_sublist _ _ _ _ Hrun Hw) as Hsub.
  unfold drops_now in Hd. simpl in Hstep. pose proof (ok_nodup _ Hok) as Hnd.
  destruct (h_sending h).2 as [|id0 chs] eqn:Es; [done|]. case_decide as Hid; [subst id0|done].
  rewrite Hw in *. destruct (w_ch w) as [s|] eqn:Ech; [|done]. injection Hstep as <-.
  destruct (pending_cons h id chs Es Hnd) as (H1 & H2 & _). simpl in Hw'. simplify_eq.
  unfold pipeline in *. rewrite H1 in Hsub. rewrite H2, app_nil_r. rewrite !app_assoc in Hsub.
  unfold superseded. destruct (broadcasts ls) as [|b bs _] eqn:Eb using rev_ind.
  - apply sublist_nil_r, app_eq_nil in Hsub as [_ [=]].
  - rewrite length_app, Nat.add_1_r. simpl. rewrite take_app_length, app_assoc.
    by eapply sublist_snoc_inv.
Qed.

(** A lost snapshot is not in the pipeline. *)
Lemma lost_pipeline ls h id :
  hrun ls StreamHub.NewStreamHub = Some h -> lost id ls = true ->
  exists w, h_watchers h !! id = Some w /\ pipeline h id w `sublist_of` superseded ls.
Proof.
  revert ls h. apply (hrun_invariant (fun ls h => lost id ls = true ->
    exists w, h_watchers h !! id = Some w /\ pipeline h id w `sublist_of` superseded ls)); [done|].
  intros ls l h h' Hrun IH Hstep Hlost. pose proof (hub_ok_run _ _ Hrun) as Hok.
  unfold lost in Hlost. rewrite (lost_from_snoc _ _ _ _ h) in Hlost by eauto.
  assert (forall snap chs, l <> HBroadcast snap chs) as Hno by (intros ?? ->; done).
  rewrite superseded_snoc_other by done.
  assert (lost id ls = true \/ drops_now id l h = true) as [Hl|Hd].
  { destruct l; [done|..]; by apply orb_true_iff. }
  - destruct (IH Hl) as (w & Hw & Hsub).
    destruct (pipeline_step l h h' id w Hok Hstep Hw) as (w' & Hw' & Hk). exists w'.
    split; [done|]. trans (pipeline h id w); [|done]. destruct l; [by destruct (Hno snap chs)|..]; apply Hk.
  - destruct l; try done. pose proof Hd as Hd'. unfold drops_now in Hd'.
    destruct (h_sending h).2 as [|id0 chs]; [done|]. case_decide; [|done].
    destruct (h_watchers h !! id) as [w|] eqn:Ew; [|done].
    destruct (pipeline_step HOffer h h' id w Hok Hstep Ew) as (w' & Hw' & _). exists w'.
    split; [done|]. by eapply drop_pipeline.
Qed.

(** Without a broadcast the pipeline only shrinks. *)
Lemma pipeline_shrinks ls h h' id w :
  hub_ok h -> hrun ls h = Some h' -> broadcasts ls = [] -> h_watchers h !! id = Some w ->
  exists w', h_watchers h' !! id = Some w' /\ pipeline h' id w' `sublist_of` pipeline h id w.
Proof.
  revert h w. induction ls as [|l ls IH]; intros h w Hok; simpl.
  { intros [= <-] _ Hw. by exists w. }
  destruct (hstep l h) as [h1|] eqn:E; [|done]. intros Hrun Hb Hw.
  destruct (pipeline_step l h h1 id w Hok E Hw) as (w1 & Hw1 & Hk).
  destruct (IH h1 w1) as (w' & Hw' & Hsub); [by eapply hub_ok_step|done|by destruct l|done|].
  exists w'. split; [done|]. trans (pipeline h1 id w1); [done|]. destruct l; [done|..]; apply Hk.
Qed.

Lemma sent_pipeline h id w : w_sent w `sublist_of` pipeline h id w.
Proof. unfold pipeline. by apply sublist_inserts_r. Qed.

(** ** Flushing a watcher *)

Lemma put_put h id w w' : put_watcher (put_watcher h id w) id w' = put_watcher h id w'.
Proof. unfold put_watcher. simpl. f_equal. apply list_insert_insert_eq. Qed.

Lemma put_lookup h id w w' : h_watchers h !! id = Some w -> h_watchers (put_watcher h id w') !! id = Some w'.
Proof. intros Hw. simpl. rewrite list_lookup_insert_eq; [done|]. by eapply lookup_lt_Some. Qed.

(** The watcher sends what it holds and what is in its channel. *)
Definition drain (id : nat) (w : Watcher) : list hlabel :=
  match w_pc w with WSend _ => [HSent id true] | _ => [] end
  ++ match w_ch w with Some _ => [HReceive id; HSent id true] | None => [] end.

Lemma drain_run h id w :
  h_watchers h !! id = Some w -> watching w = true ->
  Forall (fun s => is_Some (toPbSnapshot s)) (sending_now w ++ option_list (w_ch w)) ->
  exists h', hrun (drain id w) h = Some h' /\ h_sending h' = h_sending h /\
    length (h_watchers h') = length (h_watchers h) /\
    h_watchers h' !! id
    = Some (mk_watcher WSelect None (w_sent w ++ sending_now w ++ option_list (w_ch w))).
Proof.
  intros Hw Hwa Hpb. unfold drain, sending_now in *. destruct w as [pc ch sent]. simpl in *.
  assert (exists h1, hrun (match pc with WSend _ => [HSent id true] | _ => [] end) h = Some h1 /\
    h_sending h1 = h_sending h /\ length (h_watchers h1) = length (h_watchers h) /\
    h_watchers h1 !! id
    = Some (mk_watcher WSelect ch (sent ++ match pc with WSend snap => [snap] | _ => [] end)))
    as (h1 & Hr1 & Hs1 & Hl1 & Hw1).
  { destruct pc as [s| | |]; try done.
    - apply Forall_cons in Hpb as [[pb Hpb] _]. simpl. rewrite Hw. simpl. rewrite Hpb.
      eexists. split_and!; [done|done|simpl; by rewrite length_insert|by eapply put_lookup].
    - exists h. by rewrite app_nil_r. }
  rewrite hrun_app, Hr1. destruct ch as [s|].
  - apply Forall_app in Hpb as [_ Hpb]. apply Forall_cons in Hpb as [[pb Hpb] _].
    simpl. rewrite Hw1. simpl. rewrite list_lookup_insert_eq by by eapply lookup_lt_Some.
    simpl. rewrite Hpb. eexists. split_and!; [done|done|simpl; by rewrite !length_insert|].
    rewrite put_put. erewrite put_lookup by done. by rewrite <-app_assoc.
  - exists h1. by rewrite Hw1, app_nil_r.
Qed.

(** Offers to other channels leave the watcher alone. *)
Lemma offers_other chs h id w :
  (h_sending h).2 = chs -> id ∉ chs -> (forall i, i ∈ chs -> i < length (h_watchers h)) ->
  h_watchers h !! id = Some w ->
  exists h', hrun (replicate (length chs) HOffer) h = Some h' /\ (h_sending h').2 = [] /\
    h_watchers h' !! id = Some w.
Proof.
  revert h. induction chs as [|i chs IH]; intros h Hs Hid Hlt Hw; simpl; [by exists h|].
  rewrite Hs. destruct (lookup_lt_is_Some_2 (h_watchers h) i) as [v Hv]; [apply Hlt; by left|].
  rewrite Hv. apply not_elem_of_cons in Hid as [Hid Hid'].
  destruct (w_ch v); (apply IH; simpl; rewrite ?length_insert;
    [done|done|intros j Hj; apply Hlt; by right|by rewrite ?list_lookup_insert_ne by done]).
Qed.

(** The broadcast under way is finished while the watcher waits with an empty
    channel. *)
Lemma offers_run chs h id sent :
  (h_sending h).2 = chs -> NoDup chs -> (forall i, i ∈ chs -> i < length (h_watchers h)) ->
  h_watchers h !! id = Some (mk_watcher WSelect None sent) -> id ∈ chs ->
  exists h', hrun (replicate (length chs) HOffer) h = Some h' /\ (h_sending h').2 = [] /\
    h_watchers h' !! id = Some (mk_watcher WSelect (Some (h_sending h).1) sent).
Proof.
  revert h. induction chs as [|i chs IH]; intros h Hs Hnd Hlt Hw Hin; [by apply not_elem_of_nil in Hin|].
  apply NoDup_cons in Hnd as [Hi Hnd]. simpl. rewrite Hs.
  destruct (lookup_lt_is_Some_2 (h_watchers h) i) as [v Hv]; [apply Hlt; by left|]. rewrite Hv.
  apply elem_of_cons in Hin as [->|Hin].
  - rewrite Hw in Hv. injection Hv as <-. simpl.
    apply offers_other; simpl; rewrite ?length_insert; [done|done|intros j Hj; apply Hlt; by right|].
    rewrite list_lookup_insert_eq; [done|by eapply lookup_lt_Some].
  - assert (i <> id) by naive_solver. destruct (w_ch v).
    + apply (IH (set_sending h chs)); try done. intros j Hj. apply Hlt. by right.
    + apply (IH (set_sending (put_watcher h i _) chs)); simpl; rewrite ?length_insert; try done.
      * intros j Hj. apply Hlt. by right.
      * by rewrite list_lookup_insert_ne.
Qed.

(** The steps that bring everything in its pipeline to the stream. *)
Definition flush (h : Hub) (id : nat) (w : Watcher) : list hlabel :=
  drain id w ++ replicate (length (h_sending h).2) HOffer
  ++ (if decide (id ∈ (h_sending h).2) then [HReceive id; HSent id true] else []).

Lemma broadcasts_app ls1 ls2 : broadcasts (ls1 ++ ls2) = broadcasts ls1 ++ broadcasts ls2.
Proof. apply omap_app. Qed.

Lemma flush_quiet h id w : broadcasts (flush h id w) = [].
Proof.
  unfold flush, drain. rewrite !broadcasts_app.
  assert (forall n, broadcasts (replicate n HOffer) = []) as ->
    by (intros n; induction n as [|n IH]; [done|exact IH]).
  by destruct (w_pc w), (w_ch w), (decide _).
Qed.

Lemma flush_length h id w : length (flush h id w) <= 5 + length (h_sending h).2.
Proof.
  unfold flush, drain. rewrite !length_app, length_replicate.
  destruct (w_pc w), (w_ch w), (decide _); simpl; lia.
Qed.

Lemma flush_run h id w :
  hub_ok h -> h_watchers h !! id = Some w -> watching w = true ->
  Forall (fun s => is_Some (toPbSnapshot s)) (pipeline h id w) ->
  exists h' w', hrun (flush h id w) h = Some h' /\ h_watchers h' !! id = Some w' /\
    w_sent w' = pipeline h id w.
Proof.
  intros Hok Hw Hwa Hpb. unfold pipeline in *. rewrite !Forall_app in Hpb.
  destruct Hpb as (_ & Hp1 & Hp2 & Hp3).
  destruct (drain_run h id w Hw Hwa) as (h1 & Hr1 & Hs1 & Hl1 & Hw1); [by apply Forall_app|].
  unfold flush, pending in *. rewrite hrun_app, Hr1, hrun_app, <-Hs1 in *. clear Hr1.
  pose proof (ok_nodup _ Hok) as Hnd. rewrite <-Hs1 in Hnd.
  assert (forall i, i ∈ (h_sending h1).2 -> i < length (h_watchers h1)) as Hlt.
  { rewrite Hl1, Hs1. apply (ok_sending _ Hok). }
  destruct (decide (id ∈ (h_sending h1).2)) as [Hin|Hin].
  - destruct (offers_run _ h1 id _ eq_refl Hnd Hlt Hw1 Hin) as (h2 & -> & _ & Hw2).
    apply Forall_singleton in Hp3 as [pb Hp3]. simpl. rewrite Hw2. simpl.
    rewrite list_lookup_insert_eq by by eapply lookup_lt_Some. simpl. rewrite Hp3.
    eexists _, _. split_and!; [done| |].
    + rewrite put_put. by eapply put_lookup.
    + simpl. by rewrite <-!app_assoc.
  - destruct (offers_other _ h1 id _ eq_refl Hin Hlt Hw1) as (h2 & -> & _ & Hw2).
    eexists _, _. split_and!; [done|exact Hw2|]. simpl. by rewrite app_nil_r.
Qed.

(** ** Properties *)

(** C16. Every stream carries the broadcasts in order: for every interleaving, what a
    watcher has sent is a subsequence of the snapshots broadcast so far, nothing
    is invented, repeated or reordered; and so it stays with what it is sending,
    what is in its channel and what is about to be offered to it. *)
Theorem streams_in_order (ls : list hlabel) (h : Hub) (id : nat) (w : Watcher) :
  hrun ls StreamHub.NewStreamHub = Some h -> h_watchers h !! id = Some w ->
  (w_sent w `sublist_of` broadcasts ls) /\ (pipeline h id w `sublist_of` broadcasts ls).
Proof.
  intros Hrun Hw. pose proof (pipeline_sublist _ _ _ _ Hrun Hw) as Hp. split; [|done].
  trans (pipeline h id w); [apply sent_pipeline|done].
Qed.

(** C10. The newest snapshot reaches every watcher whose channel did not overflow:
    from any reachable state, for a watcher that has not returned and to which
    the latest broadcast was not dropped, the remaining offers and the
    watcher's own steps, at most five of them, lead to the newest snapshot
    having been sent last, without any further broadcast. This covers data
    planes that connect at any time, also during a broadcast. *)
Theorem newest_delivered (ls : list hlabel) (h : Hub) (id : nat) (w : Watcher) :
  hrun ls StreamHub.NewStreamHub = Some h ->
  Forall (fun s => model.Snap_Version s <> [] /\ is_Some (toPbSnapshot s)) (broadcasts ls) ->
  h_watchers h !! id = Some w -> watching w = true -> lost id ls = false ->
  exists ls' h' w', broadcasts ls' = [] /\ length ls' <= 5 + length (h_sending h).2 /\
    hrun ls' h = Some h' /\ h_watchers h' !! id = Some w' /\
    last (w_sent w') = last (broadcasts ls).
Proof.
  intros Hrun Hv Hw Hwa Hl. apply Forall_and in Hv as [Hv Hpb].
  destruct (flush_run h id w (hub_ok_run _ _ Hrun) Hw Hwa) as (h' & w' & Hr & Hw' & Hs).
  { rewrite Forall_forall in *. intros s Hs. apply Hpb.
    eapply elem_of_sublist; [done|]. by eapply pipeline_sublist. }
  exists (flush h id w), h', w'. split_and!; [apply flush_quiet|apply flush_length|done|done|].
  rewrite Hs. by apply pipeline_newest.
Qed.

(** C33. A snapshot that finds a watcher's channel full is lost to it: whatever
    happens after the offer was dropped, as long as nothing new is broadcast
    the watcher sends earlier snapshots only, so that its data plane keeps an
    outdated configuration. *)
Theorem lost_snapshot_never_sent (ls ls' : list hlabel) (h h' : Hub) (id : nat) (w' : Watcher) :
  hrun ls StreamHub.NewStreamHub = Some h -> lost id ls = true ->
  hrun ls' h = Some h' -> broadcasts ls' = [] -> h_watchers h' !! id = Some w' ->
  w_sent w' `sublist_of` take (pred (length (broadcasts ls))) (broadcasts ls).
Proof.
  intros Hrun Hl Hrun' Hb Hw'. destruct (lost_pipeline ls h id Hrun Hl) as (w & Hw & Hsub).
  destruct (pipeline_shrinks ls' h h' id w (hub_ok_run _ _ Hrun) Hrun' Hb Hw) as (w1 & Hw1 & Hs1).
  rewrite Hw1 in Hw'. injection Hw' as ->.
  trans (pipeline h' id w'); [apply sent_pipeline|]. by trans (pipeline h id w).
Qed.

(** ** Witnesses *)

Module HubDemo.

Definition snap (v : string) : model.Snapshot := with_version model.Snapshot_zero (str v).

(** A data plane connects, two snapshots are broadcast; the watcher sends the first
    one while the second one waits in the channel. *)
Definition prefix : list hlabel :=
  [HBroadcast (snap "v1") []; HAdd; HSent 0 true; HAdd; HBroadcast (snap "v2") [1; 0]; HOffer; HOffer;
   HReceive 0; HBroadcast (snap "v3") [0; 1]; HOffer].

(** While it still sends, a third one is dropped. *)
Definition overflow : list hlabel := prefix ++ [HOffer; HSent 1 true].

(** The watchers catch up with what they have; everything is at rest. *)
Definition rest : list hlabel := [HReceive 1; HSent 1 true; HSent 0 true; HReceive 0; HSent 0 true].

Definition after (ls : list hlabel) : Hub := default StreamHub.NewStreamHub (hrun ls StreamHub.NewStreamHub).

End HubDemo.

Lemma streams_in_order_witness :
  exists w, h_watchers (HubDemo.after HubDemo.prefix) !! 0 = Some w /\
    w_sent w = [HubDemo.snap "v1"] /\
    (w_sent w `sublist_of` broadcasts HubDemo.prefix).
Proof.
  eexists. split; [vm_compute; reflexivity|]. split; [vm_compute; reflexivity|].
  refine (proj1 (streams_in_order HubDemo.prefix (HubDemo.after HubDemo.prefix) 0 _ _ _));
    vm_compute; reflexivity.
Defined.

Lemma newest_delivered_witness :
  exists w ls' h' w', h_watchers (HubDemo.after HubDemo.prefix) !! 0 = Some w /\
    broadcasts ls' = [] /\ hrun ls' (HubDemo.after HubDemo.prefix) = Some h' /\
    h_watchers h' !! 0 = Some w' /\ last (w_sent w') = Some (HubDemo.snap "v3").
Proof.
  destruct (newest_delivered HubDemo.prefix (HubDemo.after HubDemo.prefix) 0
    (mk_watcher (WSend (HubDemo.snap "v2")) (Some (HubDemo.snap "v3")) [HubDemo.snap "v1"]))
    as (ls' & h' & w' & Hb & _ & Hr & Hw & Hs).
  - vm_compute. reflexivity.
  - repeat constructor; vm_compute; first [discriminate|eexists; reflexivity].
  - vm_compute. reflexivity.
  - reflexivity.
  - vm_compute. reflexivity.
  - eexists _, ls', h', w'. split; [vm_compute; reflexivity|].
    split; [exact Hb|]. split; [exact Hr|]. split; [exact Hw|]. rewrite Hs. vm_compute. reflexivity.
Defined.

Lemma lost_snapshot_never_sent_witness :
  exists w', h_watchers (HubDemo.after (HubDemo.overflow ++ HubDemo.rest)) !! 1 = Some w' /\
    w_pc w' = WSelect /\ w_ch w' = None /\
    (h_sending (HubDemo.after (HubDemo.overflow ++ HubDemo.rest))).2 = [] /\
    last (broadcasts HubDemo.overflow) = Some (HubDemo.snap "v3") /\
    (w_sent w' `sublist_of` [HubDemo.snap "v1"; HubDemo.snap "v2"]).
Proof.
  eexists. split; [vm_compute; reflexivity|]. do 4 (split; [vm_compute; reflexivity|]).
  refine (lost_snapshot_never_sent HubDemo.overflow HubDemo.rest (HubDemo.after HubDemo.overflow)
    (HubDemo.after (HubDemo.overflow ++ HubDemo.rest)) 1 _ _ _ _ _ _); vm_compute; reflexivity.
Defined.
