(* ===== verification/Draining.v ===== *)
(** Stopping the configuration server: [RunGRPC] of
    src/images/controlplane/internal/grpc/server.go. When the context of the
    manager is done a goroutine calls [GracefulStop], which refuses new calls and
    waits for those under way, and [Serve] returns when it is finished (as grpc-go
    documents). The calls under way are the [Watch] handlers of the hub; their
    contexts are those of their streams, which end with their data planes, not
    with the server. *)

From stdpp Require Import base gmap list strings sorting.
From Stdlib Require Import NArith ZArith Lia.
From S2P Require Import Prelude RustStr Config GoLib Model Snapshots Translate Hub Distribution.

Inductive phase := Serving | Stopping | Stopped.

Record GrpcServer := mk_server { gs_phase : phase; gs_hub : Hub }.

Inductive glabel :=
  (** the context is done: [server.GracefulStop()] *)
  | GCancel
  (** a step of the hub *)
  | GHub (l : hlabel)
  (** [Serve] returns *)
  | GReturn.

Definition ended (w : Watcher) : bool := match w_pc w with WEnd => true | _ => false end.

Definition gstep (l : glabel) (g : GrpcServer) : option GrpcServer :=
  match l, gs_phase g with
  | GCancel, Serving => Some (mk_server Stopping (gs_hub g))
  | GHub HAdd, Stopping => None
  | GHub l, (Serving | Stopping) => mk_server (gs_phase g) <$> hstep l (gs_hub g)
  | GReturn, Stopping =>
      if forallb ended (h_watchers (gs_hub g)) then Some (mk_server Stopped (gs_hub g)) else None
  | _, _ => None
  end.

Fixpoint grun (ls : list glabel) (g : GrpcServer) : option GrpcServer :=
  match ls with
  | [] => Some g
  | l :: ls' => match gstep l g with Some g' => grun ls' g' | None => None end
  end.

Lemma grun_app ls1 ls2 g :
  grun (ls1 ++ ls2) g = match grun ls1 g with Some g' => grun ls2 g' | None => None end.
Proof.
  revert g. induction ls1 as [|l ls1 IH]; intros g; [done|]. simpl.
  destruct (gstep l g); [apply IH|done].
Qed.

(** The stream of the watcher breaks: its context is done, or a send on it fails. *)
Definition breaks (id : nat) (l : glabel) : bool :=
  match l with
  | GHub (HDone id') | GHub (HSent id' false) => bool_decide (id' = id)
  | _ => false
  end.

(** ** One step *)

Lemma gstep_hub l g g' :
  gstep (GHub l) g = Some g' -> hstep l (gs_hub g) = Some (gs_hub g') /\ gs_phase g' = gs_phase g.
Proof.
  intros Hs. assert (mk_server (gs_phase g) <$> hstep l (gs_hub g) = Some g') as Hf.
  { unfold gstep in Hs. by destruct l, (gs_phase g). }
  destruct (hstep l (gs_hub g)) as [h|]; [|done]. by injection Hf as <-.
Qed.

Lemma hstep_watching l h h' id w :
  hstep l h = Some h' -> h_watchers h !! id = Some w -> watching w = true -> breaks id (GHub l) = false ->
  exists w', h_watchers h' !! id = Some w' /\ watching w' = true.
Proof.
  intros Hstep Hw Hwa Hb. assert (forall id0 w0 w0', h_watchers h !! id0 = Some w0 ->
    (id0 = id -> watching w0' = true) ->
    exists w', <[id0 := w0']> (h_watchers h) !! id = Some w' /\ watching w' = true) as Hput.
  { intros id0 w0 w0' H0 Hd. destruct (decide (id0 = id)) as [->|Hne].
    - exists w0'. rewrite list_lookup_insert_eq by (by eapply lookup_lt_Some). auto.
    - exists w. by rewrite list_lookup_insert_ne. }
  destruct l as [snap chs| | |id0 ok|id0|id0|id0]; simpl in Hstep, Hb.
  - case_decide; [|done]. injection Hstep as <-. by exists w.
  - destruct (h_sending h).2 as [|id0 chs]; [done|]. destruct (h_watchers h !! id0) as [w0|] eqn:E0; [|done].
    destruct (w_ch w0); injection Hstep as <-; [by exists w|]. eapply Hput; [done|]. intros ->. by simplify_eq.
  - injection Hstep as <-. exists w. simpl. by rewrite lookup_app_l by (by eapply lookup_lt_Some).
  - destruct (h_watchers h !! id0) as [w0|] eqn:E0; [|done]. destruct (w_pc w0) as [snap| | |]; [|done..].
    destruct (toPbSnapshot snap); [|done]. injection Hstep as <-. eapply Hput; [done|]. intros ->.
    destruct ok; [done|]. by case_bool_decide.
  - hub_cases Hstep. by eapply Hput.
  - hub_cases Hstep. eapply Hput; [done|]. intros ->. by case_bool_decide.
  - destruct (h_watchers h !! id0) as [w0|] eqn:E0; [|done]. destruct (w_pc w0) eqn:Epc; [done..| |done].
    injection Hstep as <-. eapply Hput; [done|]. intros ->. simplify_eq.
    unfold watching in Hwa. by rewrite Epc in Hwa.
Qed.

Lemma gstep_watching l g g' id w :
  gstep l g = Some g' -> h_watchers (gs_hub g) !! id = Some w -> watching w = true -> breaks id l = false ->
  gs_phase g <> Stopped ->
  gs_phase g' <> Stopped /\ exists w', h_watchers (gs_hub g') !! id = Some w' /\ watching w' = true.
Proof.
  intros Hstep Hw Hwa Hb Hp. destruct l as [|l|].
  - unfold gstep in Hstep. destruct (gs_phase g); try done. injection Hstep as <-. split; [done|]. by exists w.
  - apply gstep_hub in Hstep as [Hs ->]. split; [done|]. by eapply hstep_watching.
  - unfold gstep in Hstep. destruct (gs_phase g); try done.
    destruct (forallb ended _) eqn:E; [|done]. rewrite forallb_forall in E.
    specialize (E w (proj1 (list_elem_of_In _ _) (list_elem_of_lookup_2 _ _ _ Hw))).
    unfold ended, watching in *. by destruct (w_pc w).
Qed.

(** ** Draining *)

(** The steps that end one watcher: its stream breaks, and the handler returns. *)
Definition end_watcher (id : nat) (w : Watcher) : list glabel :=
  match w_pc w with
  | WSend _ => [GHub (HSent id false); GHub (HRemove id)]
  | WSelect => [GHub (HDone id); GHub (HRemove id)]
  | WReturn => [GHub (HRemove id)]
  | WEnd => []
  end.

Lemma end_watcher_length id w : length (end_watcher id w) <= 2.
Proof. unfold end_watcher. destruct (w_pc w); simpl; lia. Qed.

Definition sendable (w : Watcher) : Prop := Forall (fun s => is_Some (toPbSnapshot s)) (sending_now w).

Lemma end_watcher_run h id w :
  h_watchers h !! id = Some w -> sendable w ->
  exists h' w', grun (end_watcher id w) (mk_server Stopping h) = Some (mk_server Stopping h') /\
    h_watchers h' = <[id := w']> (h_watchers h) /\ ended w' = true.
Proof.
  intros Hw Hs. pose proof (lookup_lt_Some _ _ _ Hw) as Hlt.
  unfold end_watcher, sendable, sending_now in *. destruct (w_pc w) as [snap| | |] eqn:Epc.
  - apply Forall_singleton in Hs as [pb Hpb]. simpl. rewrite Hw, Epc, Hpb. simpl.
    rewrite list_lookup_insert_eq by done. simpl. eexists _, _. split_and!; [done| |].
    + simpl. apply list_insert_insert_eq.
    + done.
  - simpl. rewrite Hw, Epc. simpl. rewrite list_lookup_insert_eq by done. simpl.
    eexists _, _. split_and!; [done| |]; [simpl; apply list_insert_insert_eq|done].
  - simpl. rewrite Hw, Epc. simpl. by eexists _, _.
  - exists h, w. split_and!; [done| |unfold ended; by rewrite Epc]. by rewrite list_insert_id.
Qed.

(** The watchers from [n] on end one after the other. *)
Lemma drain_all h n :
  n <= length (h_watchers h) -> Forall sendable (h_watchers h) ->
  forallb ended (take n (h_watchers h)) = true ->
  exists ls h', grun ls (mk_server Stopping h) = Some (mk_server Stopping h') /\
    length ls <= 2 * (length (h_watchers h) - n) /\ forallb ended (h_watchers h') = true.
Proof.
  remember (length (h_watchers h) - n) as m eqn:Em. revert h n Em.
  induction m as [|m IH]; intros h n Em Hle Hs Hend.
  { exists [], h. split_and!; [done|simpl; lia|]. by rewrite take_ge in Hend by lia. }
  destruct (lookup_lt_is_Some_2 (h_watchers h) n) as [w Hw]; [lia|].
  destruct (end_watcher_run h n w Hw) as (h1 & w1 & Hr1 & Hh1 & He1).
  { rewrite Forall_forall in Hs. apply Hs. by eapply list_elem_of_lookup_2. }
  destruct (IH h1 (S n)) as (ls & h' & Hr & Hl & He).
  - rewrite Hh1, length_insert. lia.
  - rewrite Hh1, length_insert. lia.
  - rewrite Hh1. apply Forall_insert; [done|]. unfold sendable, sending_now, ended in *. by destruct (w_pc w1).
  - rewrite Hh1, (take_S_r _ _ w1) by (rewrite list_lookup_insert_eq; [done|lia]).
    rewrite take_insert_ge, forallb_app by lia. simpl. by rewrite Hend, He1.
  - exists (end_watcher n w ++ ls), h'. rewrite grun_app, Hr1, length_app.
    pose proof (end_watcher_length n w). split_and!; [done|lia|done].
Qed.

(** ** Properties *)


(** ** Witnesses *)

Module DrainDemo.

(** Two data planes are served when the context ends. *)
Definition server : GrpcServer := mk_server Stopping (HubDemo.after HubDemo.prefix).

Lemma all_sendable : Forall sendable (h_watchers (gs_hub server)).
Proof. repeat constructor; vm_compute; eexists; reflexivity. Qed.

End DrainDemo.

