(* ===== verification/ControlPlane.v ===== *)
(** The control plane as a whole: the reconciler of ingress_controller.go feeding
    the hub that serves the data planes (wired together in
    src/images/controlplane/cmd/main.go). Reconciliations run one at a time (one
    worker), each ending after its broadcast; connections come and go in
    between. *)

From stdpp Require Import base gmap list strings sorting.
From Stdlib Require Import NArith ZArith Lia.
From S2P Require Import Prelude RustStr Config GoLib Model Annotations Targets Snapshots Building Reconciling Translate Hub Distribution.

Section control_plane.
Context {GS : GoSort} {LB : Libs} (class : rstr).

Record ControlPlane := mk_cp { cp_rec : Reconciler; cp_hub : Hub }.

Inductive cplabel :=
  (** a reconciliation with what its environment answers; [chs] is the order in
      which a broadcast visits the consumers *)
  | CReconcile (i : Input) (chs : list nat)
  (** a step of the broadcast under way, or of a watcher *)
  | CHub (l : hlabel).

Definition cpstep (l : cplabel) (cp : ControlPlane) : option ControlPlane :=
  match l with
  | CReconcile i chs =>
      if decide ((h_sending (cp_hub cp)).2 = []) then
        match Reconcile class (in_client i) (in_alloc i) (in_now i) (in_range i) (cp_rec cp) with
        | (r, OBroadcast snap) =>
            match hstep (HBroadcast snap chs) (cp_hub cp) with
            | Some h => Some (mk_cp r h)
            | None => None
            end
        | (r, _) => Some (mk_cp r (cp_hub cp))
        end
      else None
  | CHub (HBroadcast _ _) => None
  | CHub l =>
      match hstep l (cp_hub cp) with
      | Some h => Some (mk_cp (cp_rec cp) h)
      | None => None
      end
  end.

Definition cp_start : ControlPlane := mk_cp reconciler_start StreamHub.NewStreamHub.

Fixpoint cprun (ls : list cplabel) (cp : ControlPlane) : option ControlPlane :=
  match ls with
  | [] => Some cp
  | l :: ls' => match cpstep l cp with Some cp' => cprun ls' cp' | None => None end
  end.

(** The reconciliations of a run. *)
Definition inputs (ls : list cplabel) : list Input :=
  omap (fun l => match l with CReconcile i _ => Some i | CHub _ => None end) ls.

(** A snapshot one of the reconciliations [ins] built from what it read. *)
Definition built_from (ins : list Input) (snap : model.Snapshot) : Prop :=
  exists i ings, i ∈ ins /\ List_Ingress (in_client i) class = Some ings /\
    ToSnapshot class (in_now i) (in_range i) (parseEndpoints (in_client i) (in_alloc i) ings) = Some snap.

Lemma built_from_mono ins ins' snap : ins ⊆ ins' -> built_from ins snap -> built_from ins' snap.
Proof. intros Hs (i & ings & Hi & Hl & Ht). exists i, ings. set_solver. Qed.

Lemma inputs_snoc ls l :
  inputs (ls ++ [l]) = inputs ls ++ match l with CReconcile i _ => [i] | CHub _ => [] end.
Proof. unfold inputs. rewrite omap_app. f_equal. by destruct l. Qed.

Lemma cprun_app ls1 ls2 cp :
  cprun (ls1 ++ ls2) cp = match cprun ls1 cp with Some cp' => cprun ls2 cp' | None => None end.
Proof.
  revert cp. induction ls1 as [|l ls1 IH]; intros cp; [done|]. simpl.
  destruct (cpstep l cp); [apply IH|done].
Qed.

(** Every run of the control plane is a run of the hub in which what is broadcast
    are the snapshots of the reconciler: the same bookkeeping of the reconciler,
    and every broadcast was built by one of the reconciliations. *)
Definition cp_simulates (ls : list cplabel) (cp : ControlPlane) (hls : list hlabel) : Prop :=
  hrun hls StreamHub.NewStreamHub = Some (cp_hub cp) /\
  reconcile_all class (inputs ls) reconciler_start = (cp_rec cp, broadcasts hls) /\
  Forall (built_from (inputs ls)) (broadcasts hls).

Lemma reconcile_all_snoc ins i r r1 bs :
  reconcile_all class ins r = (r1, bs) ->
  reconcile_all class (ins ++ [i]) r =
  let '(r2, o) := Reconcile class (in_client i) (in_alloc i) (in_now i) (in_range i) r1 in
  (r2, bs ++ match o with OBroadcast snap => [snap] | _ => [] end).
Proof.
  revert r r1 bs. induction ins as [|j ins IH]; intros r r1 bs; simpl.
  - intros [= <- <-]. destruct (Reconcile _ _ _ _ _ _) as [r2 []]; done.
  - destruct (Reconcile _ _ _ _ _ r) as [r0 o]. destruct (reconcile_all class ins r0) as [r3 bs3] eqn:E.
    intros [= -> <-]. rewrite (IH _ _ _ E).
    destruct (Reconcile _ _ _ _ _ r1) as [r2 o2]. by destruct o.
Qed.

Lemma cp_simulation_step ls l cp cp' hls :
  cp_simulates ls cp hls -> cpstep l cp = Some cp' -> exists hls', cp_simulates (ls ++ [l]) cp' hls'.
Proof.
  intros (Hrun & Hrec & Hall) Hstep. unfold cp_simulates. rewrite inputs_snoc. destruct l as [i chs|l].
  - simpl in Hstep. case_decide; [|done].
    pose proof (reconcile_all_snoc _ i _ _ _ Hrec) as Hrec'.
    destruct (Reconcile class _ _ _ _ (cp_rec cp)) as [r o] eqn:Er.
    assert (Forall (built_from (inputs ls ++ [i])) (broadcasts hls)) as Hall'.
    { eapply Forall_impl; [exact Hall|]. intros s. apply built_from_mono. set_solver. }
    destruct o as [| | |snap].
    1-3: injection Hstep as <-; exists hls; rewrite app_nil_r in Hrec'; by split_and!.
    destruct (if decide _ then _ else _) as [h|] eqn:Eh; [|done]. injection Hstep as <-.
    exists (hls ++ [HBroadcast snap chs]). rewrite hrun_app, Hrun, broadcasts_snoc. simpl. rewrite Eh.
    split_and!; [done|done|]. rewrite Forall_app, Forall_singleton. split; [done|].
    apply Reconcile_broadcast in Er as (ings & Hl & Ht & _). exists i, ings. set_solver.
  - rewrite app_nil_r. simpl in Hstep. destruct l as [snap chs| | |id ok|id|id|id]; [done|..];
      (destruct (hstep _ (cp_hub cp)) as [h|] eqn:Eh; [|done]; injection Hstep as <-;
       match type of Eh with hstep ?l' _ = _ => exists (hls ++ [l']) end;
       rewrite hrun_app, Hrun, broadcasts_snoc, app_nil_r; cbn [hrun]; rewrite Eh; by split_and!).
Qed.

Lemma cp_simulation ls cp :
  cprun ls cp_start = Some cp -> exists hls, cp_simulates ls cp hls.
Proof.
  revert cp. induction ls as [|l ls IH] using rev_ind; intros cp.
  { intros [= <-]. exists []. split_and!; [done|done|constructor]. }
  rewrite cprun_app. destruct (cprun ls cp_start) as [cp0|] eqn:E; [|done]. simpl.
  destruct (cpstep l cp0) as [cp1|] eqn:El; [|done]. intros [= <-].
  destruct (IH cp0 eq_refl) as [hls Hs]. by eapply cp_simulation_step.
Qed.

(** What the reconciler holds is what new watchers start with, and once there is
    something it was built by one of the reconciliations. *)
Lemma current_built ls cp :
  cprun ls cp_start = Some cp ->
  h_last (cp_hub cp) = currentSnapshot (cp_rec cp) /\
  (lastVersion (cp_rec cp) <> [] ->
   model.Snap_Version (currentSnapshot (cp_rec cp)) <> [] /\
   built_from (inputs ls) (currentSnapshot (cp_rec cp))).
Proof.
  intros Hrun. destruct (cp_simulation ls cp Hrun) as (hls & Hh & Hr & Hb).
  pose proof (reconcile_all_spec class (inputs ls) reconciler_start) as Hs. rewrite Hr in Hs.
  destruct Hs as (Hv & Hc & _); [done|]. rewrite (last_broadcast _ _ Hh), Hc. split; [done|].
  rewrite Hv, Hc. simpl. destruct (last (broadcasts hls)) as [snap|] eqn:El; [|done]. simpl. intros Hn.
  split; [done|]. rewrite Forall_forall in Hb. apply Hb. by apply last_Some_elem_of.
Qed.

End control_plane.

(** ** Properties *)


(** ** Witnesses *)

#[local] Existing Instance KubeDemo.libs.

Module CpDemo.

Definition input (c : Client) : Input := {|
  in_client := c; in_alloc := KubeDemo.alloc; in_now := 1760000000; in_range := KubeDemo.range |}.

(** A data plane connects, the demo cluster is reconciled twice (the second time
    nothing has changed), and the data plane gets the snapshot. *)
Definition schedule : list cplabel :=
  [CHub HAdd; CReconcile (input KubeDemo.cluster0) [0]; CHub HOffer; CHub (HReceive 0);
   CHub (HSent 0 true); CReconcile (input KubeDemo.cluster0) []].

Definition watcher : Watcher := mk_watcher WSelect None [KubeDemo.snapshot].
Definition cp : ControlPlane :=
  mk_cp KubeDemo.reconciled (mk_hub {[0]} KubeDemo.snapshot [watcher] (KubeDemo.snapshot, [])).

Lemma reconcile_step r r' o :
  Reconcile KubeDemo.class KubeDemo.cluster0 KubeDemo.alloc 1760000000 KubeDemo.range r = (r', o) ->
  forall h chs, (h_sending h).2 = [] ->
  cpstep KubeDemo.class (CReconcile (input KubeDemo.cluster0) chs) (mk_cp r h) =
  match o with
  | OBroadcast snap => mk_cp r' <$> hstep (HBroadcast snap chs) h
  | _ => Some (mk_cp r' h)
  end.
Proof.
  intros E h chs Hh. unfold cpstep. cbn [cp_hub cp_rec]. rewrite decide_True by exact Hh.
  cbn [input in_client in_alloc in_now in_range]. rewrite E. destruct o; reflexivity.
Qed.

Lemma cp_schedule_runs : cprun KubeDemo.class schedule cp_start = Some cp.
Proof.
  assert (is_Some (toPbSnapshot KubeDemo.snapshot)) as [pb Hpb].
  { eexists. vm_compute. reflexivity. }
  pose proof (reconcile_step _ _ _ KubeDemo.reconciled_broadcast) as E1.
  pose proof (reconcile_step _ _ _ KubeDemo.reconciled_again) as E2.
  unfold schedule, cp, watcher. revert E1 E2 Hpb. generalize KubeDemo.snapshot KubeDemo.reconciled.
  intros snap r E1 E2 Hpb. cbn [cprun]. change (cpstep _ (CHub HAdd) cp_start) with
    (Some (mk_cp reconciler_start (mk_hub {[0]} model.Snapshot_zero [mk_watcher WSelect None []]
       (model.Snapshot_zero, [])))).
  cbv beta iota. rewrite E1 by reflexivity. unfold hstep. rewrite decide_True by (split; reflexivity).
  cbn -[toPbSnapshot cpstep]. unfold cpstep at 1. cbn -[toPbSnapshot cpstep].
  unfold cpstep at 1. cbn -[toPbSnapshot cpstep]. unfold cpstep at 1. cbn -[toPbSnapshot cpstep].
  rewrite Hpb. cbn -[toPbSnapshot cpstep]. rewrite E2 by reflexivity. reflexivity.
Qed.

Lemma broadcast_once :
  reconcile_all KubeDemo.class (inputs schedule) reconciler_start = (KubeDemo.reconciled, [KubeDemo.snapshot]).
Proof.
  pose proof KubeDemo.reconciled_broadcast as E1. pose proof KubeDemo.reconciled_again as E2. revert E1 E2.
  change (inputs schedule) with [input KubeDemo.cluster0; input KubeDemo.cluster0].
  generalize KubeDemo.snapshot KubeDemo.reconciled. intros snap r E1 E2.
  cbn [reconcile_all input in_client in_alloc in_now in_range]. rewrite E1, E2. reflexivity.
Qed.

End CpDemo.

