(* ===== verification/EndToEnd.v ===== *)
(** Control plane and data plane together: what an Ingress says is what happens to
    a request. The snapshot a reconciliation builds, sent as a message and turned
    into a route table, routes by the most specific path of the Ingresses, and to
    ready addresses of the path's service; and so does the running system,
    through the hub, the stream and the requests in flight. *)

From stdpp Require Import base gmap list strings sorting.
From Stdlib Require Import NArith ZArith Lia.
From S2P Require Import Prelude RustStr Config Http Atomics RouteTable Routing Balancing Proxy Forwarding Upstream Auth Handler Certs Grpc Watching System InFlight GoLib Model Annotations Targets Snapshots Building Reconciling Translate Hub Distribution ControlPlane.

(** ** Routing by Ingress paths *)

(** A path of an Ingress matches a request path: exactly, or as a prefix of it. *)
Definition path_matches (path p pt : rstr) : Prop :=
  (pt = kube.PathTypeExact /\ p = path) \/
  (pt = kube.PathTypePrefix /\ Str.starts_with path p = true).

(** The target [tp] answers for the host and has the path [p] of type [pt], which
    matches the request path. *)
Definition answers (targets : list model.TargetProxy) (host path : rstr)
    (tp : model.TargetProxy) (p pt : rstr) : Prop :=
  tp ∈ targets /\ Str.to_ascii_lowercase (model.TP_Host tp) = host /\
  (exists te q, model.TP_Path tp !! p = Some te /\ model.TE_PathType te = Some q /\ deref q = pt) /\
  path_matches path p pt.

(** Exact before prefix, then the longer path. *)
Definition at_least_as_specific (p pt p' pt' : rstr) : Prop :=
  (pathTypeRank pt' < pathTypeRank pt)%Z \/
  (pathTypeRank pt' = pathTypeRank pt /\ Str.len p' <= Str.len p).

(** The route [o] of a request is one the targets call for: a most specific path
    of the host's targets, or of those without a host if it has none, or none at
    all. *)
Definition routed_by (targets : list model.TargetProxy) (host path : rstr) (o : option RouteRule) : Prop :=
  match o with
  | Some r => exists host' tp p pt,
      (host' = host \/ (host' = str "" /\ forall tp p pt, ~ answers targets host path tp p pt)) /\
      answers targets host' path tp p pt /\
      rr_path r = p /\ rr_cluster r = clusterName (model.TP_Host tp) p /\
      forall tp' p' pt', answers targets host' path tp' p' pt' -> at_least_as_specific p pt p' pt'
  | None => forall tp p pt,
      ~ answers targets host path tp p pt /\ ~ answers targets (str "") path tp p pt
  end.

(** The paths are shorter than a million bytes. *)
Definition short_paths (targets : list model.TargetProxy) : Prop :=
  forall tp p, tp ∈ targets -> is_Some (model.TP_Path tp !! p) -> (Z.of_nat (Str.len p) < 1000000)%Z.

Lemma path_matches_rule path p pt t prio cl :
  PathType_parse pt = Some t ->
  rule_matches path {| rr_path := p; rr_path_type := t; rr_cluster := cl; rr_priority := prio |} = true <->
  path_matches path p pt.
Proof.
  unfold PathType_parse, path_matches. repeat case_decide; intros [= <-]; subst;
    unfold rule_matches; cbn [rr_path_type rr_path].
  - split; [by right|]. by intros [[? _]|[_ ?]].
  - rewrite bool_decide_eq_true. split; [by left|]. by intros [[_ ?]|[? _]].
Qed.

Lemma path_matches_parse path p pt : path_matches path p pt -> is_Some (PathType_parse pt).
Proof. intros [[-> _]|[-> _]]; vm_compute; eauto. Qed.

Section routing.
Context {GS : GoSort} {GL : GoSortLaws GS}.
Context (range : nat -> gmap rstr model.TargetEndpoint -> list (rstr * model.TargetEndpoint))
  (Hrange : Go.ranges range) (class : rstr) (now : Z) (targets : list model.TargetProxy)
  (snap : model.Snapshot) (Hsnap : ToSnapshot class now range targets = Some snap)
  (pb : Snapshot) (Hpb : toPbSnapshot snap = Some pb) (Hshort : short_paths targets).

(** The rules of a host that match a path, seen from the targets. *)
Lemma elem_of_matching_rules host path r :
  (r ∈ rules_for (sn_routes pb) host /\ rule_matches path r = true) <->
  exists tp p pt t, answers targets host path tp p pt /\ PathType_parse pt = Some t /\
    r = {| rr_path := p; rr_path_type := t; rr_cluster := clusterName (model.TP_Host tp) p;
           rr_priority := RoutePriority p pt |}.
Proof using GL Hrange Hsnap Hpb Hshort.
  rewrite elem_of_rules_for. split.
  - intros ((route & Hr & Hhost & Hrule) & Hm).
    eapply elem_of_sn_routes in Hr as (tp & p & te & q & Htp & Hp & Hq & ->); [|done..].
    unfold rule_of_route in Hrule. simpl in *. apply bind_Some in Hrule as (t & Ht & [= <-]).
    assert (Go.int32 (RoutePriority p (deref q)) = RoutePriority p (deref q)) as Hprio.
    { apply int32_small. pose proof (priority_range p (deref q) (Hshort tp p Htp ltac:(eauto))).
      unfold Int.is_i32. lia. }
    exists tp, p, (deref q), t. rewrite Hprio in *. split_and!; [|done|done].
    split_and!; [done|done|by exists te, q|]. by eapply path_matches_rule.
  - intros (tp & p & pt & t & (Htp & Hhost & (te & q & Hp & Hq & <-) & Hm) & Ht & ->).
    split; [|by eapply path_matches_rule]. eexists. split_and!.
    + eapply elem_of_sn_routes; [done..|]. by exists tp, p, te, q.
    + done.
    + unfold rule_of_route. simpl. rewrite Ht. simpl. do 2 f_equal.
      apply int32_small. pose proof (priority_range p (deref q) (Hshort tp p Htp ltac:(eauto))).
      unfold Int.is_i32. lia.
Qed.

Lemma preferred_specific p pt p' pt' tp tp' t t' :
  (Z.of_nat (Str.len p) < 1000000)%Z -> (Z.of_nat (Str.len p') < 1000000)%Z ->
  preferred {| rr_path := p; rr_path_type := t; rr_cluster := clusterName (model.TP_Host tp) p;
               rr_priority := RoutePriority p pt |}
            {| rr_path := p'; rr_path_type := t'; rr_cluster := clusterName (model.TP_Host tp') p';
               rr_priority := RoutePriority p' pt' |} ->
  at_least_as_specific p pt p' pt'.
Proof. unfold preferred, at_least_as_specific, RoutePriority. simpl. lia. Qed.

(** The rule of a host, if any, is that of a most specific path. *)
Lemma best_rule_targets host path :
  match best_rule (sn_routes pb) host path with
  | Some r => exists tp p pt, answers targets host path tp p pt /\
      rr_path r = p /\ rr_cluster r = clusterName (model.TP_Host tp) p /\
      forall tp' p' pt', answers targets host path tp' p' pt' -> at_least_as_specific p pt p' pt'
  | None => forall tp p pt, ~ answers targets host path tp p pt
  end.
Proof using GL Hrange Hsnap Hpb Hshort.
  assert (forall tp p pt, answers targets host path tp p pt ->
    (Z.of_nat (Str.len p) < 1000000)%Z) as Hs.
  { intros tp p pt (Htp & _ & (te & q & Hp & _) & _). apply (Hshort tp p Htp). eauto. }
  destruct (best_rule (sn_routes pb) host path) as [r|] eqn:E.
  - apply best_rule_Some in E as (Hin & Hm & Hall).
    destruct (proj1 (elem_of_matching_rules host path r) (conj Hin Hm)) as (tp & p & pt & t & Ha & Ht & ->).
    exists tp, p, pt. split_and!; [done..|]. intros tp' p' pt' Ha'.
    destruct (path_matches_parse path p' pt') as [t' Ht']; [by destruct Ha' as (_ & _ & _ & ?)|].
    destruct (proj2 (elem_of_matching_rules host path _)
      (ex_intro _ tp' (ex_intro _ p' (ex_intro _ pt' (ex_intro _ t' (conj Ha' (conj Ht' eq_refl)))))))
      as [Hin' Hm'].
    eapply preferred_specific; [by eapply Hs|by eapply Hs|]. by apply Hall.
  - intros tp p pt Ha. destruct (path_matches_parse path p pt) as [t Ht]; [by destruct Ha as (_ & _ & _ & ?)|].
    destruct (proj2 (elem_of_matching_rules host path _)
      (ex_intro _ tp (ex_intro _ p (ex_intro _ pt (ex_intro _ t (conj Ha (conj Ht eq_refl)))))))
      as [Hin Hm].
    pose proof (proj1 (best_rule_None _ _ _) E _ Hin). congruence.
Qed.

Lemma table_routes `{Http} h host path : routed_by targets host path (choose_route (new pb h).1 host path).
Proof using GL Hrange Hsnap Hpb Hshort.
  rewrite choose_route_new. pose proof (best_rule_targets host path) as Hh. unfold routed_by.
  destruct (best_rule (sn_routes pb) host path) as [r|].
  { destruct Hh as (tp & p & pt & Ha & Hp & Hc & Hall). exists host, tp, p, pt. auto. }
  pose proof (best_rule_targets (str "") path) as Hd.
  destruct (best_rule (sn_routes pb) (str "") path) as [r|]; [|by split].
  destruct Hd as (tp & p & pt & Ha & Hp & Hc & Hall). exists (str ""), tp, p, pt. auto.
Qed.

End routing.

(** ** Backends *)

(** The endpoint [e] is a ready address of a slice the reconciliation [i] listed for
    the service behind a path of an Ingress of the class it listed, whose cluster
    name is [name] up to case. *)
Definition ready_backend (class : rstr) (i : Input) (name : rstr) (e : Endpoint) : Prop :=
  exists ings ing rule paths p service slices slice,
    List_Ingress (in_client i) class = Some ings /\ ing ∈ ings /\
    kube.Ing_IngressClassName ing = Some class /\ rule ∈ kube.Ing_Rules ing /\
    kube.IR_HTTP rule = Some paths /\ p ∈ paths /\
    kube.IB_Service (kube.HP_Backend p) = Some service /\
    Str.to_ascii_lowercase (clusterName (kube.IR_Host rule) (kube.HP_Path p)) = name /\
    List_EndpointSlice (in_client i) (kube.Ing_Namespace ing) (kube.ISB_Name service) = Some slices /\
    slice ∈ slices /\ kube.ES_Namespace slice = kube.Ing_Namespace ing /\
    kube.ES_Labels slice !! kube.service_name_label = Some (kube.ISB_Name service) /\
    matchSlicePortByName slice (port_name (in_client i) (kube.Ing_Namespace ing) p service)
      = Some (ep_port e) /\
    ready_in slice (ep_address e).

(** What a reconciliation reads is what the client documents. *)
Definition input_ok (i : Input) : Prop :=
  Go.ranges (in_range i) /\ client_laws ingressClassIndex (in_client i).

Section backends.
Context {GS : GoSort} {GL : GoSortLaws GS} {LB : Libs} (class : rstr) (i : Input) (Hok : input_ok i)
  (ings : list kube.Ingress) (Hings : List_Ingress (in_client i) class = Some ings)
  (snap : model.Snapshot)
  (Hsnap : ToSnapshot class (in_now i) (in_range i)
             (parseEndpoints (in_client i) (in_alloc i) ings) = Some snap)
  (pb : Snapshot) (Hpb : toPbSnapshot snap = Some pb).

Lemma target_class tp p te :
  tp ∈ parseEndpoints (in_client i) (in_alloc i) ings -> model.TP_Path tp !! p = Some te ->
  exists ing rule paths q service slices,
    ing ∈ ings /\ kube.Ing_IngressClassName ing = Some class /\ rule ∈ kube.Ing_Rules ing /\
    kube.IR_HTTP rule = Some paths /\ q ∈ paths /\ model.TP_Host tp = kube.IR_Host rule /\
    p = kube.HP_Path q /\ resolves (in_client i) (kube.Ing_Namespace ing) q te service slices.
Proof using Hok Hings.
  destruct Hok as [_ Hlaws]. intros Htp Hp. destruct (target_source _ _ _ _ _ _ Htp Hp)
    as (n & ing & rule & paths & q & service & slices & Hn & Hr & Hpaths & Hq & Hh & Hpath & _ & _ & Hres).
  exists ing, rule, paths, q, service, slices. split_and!; try done; [by eapply list_elem_of_lookup_2|].
  pose proof (list_ingress_class _ _ Hlaws _ _ ing Hings (list_elem_of_lookup_2 _ _ _ Hn)) as Hc.
  unfold ingressClassIndex in Hc. destruct (kube.Ing_IngressClassName ing).
  - by apply list_elem_of_singleton in Hc as <-.
  - by apply not_elem_of_nil in Hc.
Qed.

(** The endpoints of the cluster a name denotes are ready backends. *)
Lemma cluster_backed name c e :
  find_cluster (sn_clusters pb) name = Some c -> e ∈ cl_endpoints c -> ready_backend class i name e.
Proof using GL Hok Hings Hsnap Hpb.
  intros Hc He. unfold find_cluster in Hc.
  apply last_Some_elem_of, list_elem_of_filter in Hc as [[Hname _] Hin]. destruct Hok as [Hrange Hlaws].
  eapply elem_of_sn_clusters in Hin as (tp & p & te & Htp & Hp & ->); [|done..].
  destruct (target_class tp p te Htp Hp)
    as (ing & rule & paths & q & service & slices & Hing & Hcl & Hr & Hpaths & Hq & Hh & -> & Hres).
  simpl in He, Hname. rewrite <-list_fmap_compose in He. apply list_elem_of_fmap in He as (a & -> & Ha).
  apply (res_addresses _ _ _ _ _ _ Hres) in Ha as (slice & Hsl & Hm & Hready).
  destruct (list_slices_match _ _ Hlaws _ _ _ _ (res_slices _ _ _ _ _ _ Hres) Hsl) as [Hns Hlab].
  exists ings, ing, rule, paths, q, service, slices, slice. rewrite <-Hh.
  split_and!; try done; [by eapply res_service|by eapply res_slices].
Qed.

(** The cluster of a target is found under its name, if that is lower-case. *)
Lemma cluster_found tp p te :
  tp ∈ parseEndpoints (in_client i) (in_alloc i) ings -> model.TP_Path tp !! p = Some te ->
  let name := clusterName (model.TP_Host tp) p in
  Str.to_ascii_lowercase name = name ->
  exists c, find_cluster (sn_clusters pb) name = Some c /\ cl_endpoints c <> [].
Proof using GL Hok Hsnap Hpb.
  destruct Hok as [Hrange _]. intros Htp Hp name Hlow.
  assert (pb_cluster (cluster_of (model.TP_Host tp) p te) ∈
    base.filter (cluster_named name) (sn_clusters pb)) as Hin.
  { apply list_elem_of_filter. split.
    - split; [done|]. simpl. by destruct (target_ok _ _ _ _ _ _ Htp Hp) as ([] & _ & _).
    - eapply elem_of_sn_clusters; eauto 10. }
  unfold find_cluster. destruct (last (base.filter (cluster_named name) (sn_clusters pb))) as [c|] eqn:E.
  - exists c. split; [done|]. apply last_Some_elem_of, list_elem_of_filter in E as [_ Hc].
    eapply elem_of_sn_clusters in Hc as (tp' & p' & te' & Htp' & Hp' & ->); [|done..]. simpl.
    destruct (target_ok _ _ _ _ _ _ Htp' Hp') as (_ & Hne & _).
    by intros ?%fmap_nil_inv%fmap_nil_inv.
  - apply last_None in E. rewrite E in Hin. by apply not_elem_of_nil in Hin.
Qed.

End backends.

(** ** Messages of the control plane *)

(** The message [pb] was sent by a watcher of the control plane. *)
Definition sent_by (cp : ControlPlane) (pb : Snapshot) : Prop :=
  exists id w snap, h_watchers (cp_hub cp) !! id = Some w /\ snap ∈ w_sent w /\ toPbSnapshot snap = Some pb.

Lemma sent_built {GS : GoSort} {LB : Libs} class cls cp id w snap :
  cprun class cls cp_start = Some cp -> h_watchers (cp_hub cp) !! id = Some w -> snap ∈ w_sent w ->
  built_from class (inputs cls) snap.
Proof.
  intros Hcp Hw Hsnap. destruct (cp_simulation class cls cp Hcp) as (hls & Hh & _ & Hb).
  rewrite Forall_forall in Hb. apply Hb. eapply elem_of_sublist; [exact Hsnap|].
  trans (pipeline (cp_hub cp) id w); [apply sent_pipeline|]. by eapply pipeline_sublist.
Qed.

Lemma last_settled b (snaps : list Snapshot) pb : last (settled b snaps) = Some pb -> pb ∈ snaps.
Proof.
  intros Hl%last_Some_elem_of. unfold settled in Hl. destruct b; [|done].
  eapply elem_of_sublist; [exact Hl|]. apply sublist_take.
Qed.

(** ** Properties *)


(** C13. A routed request is served: when the chosen route names a cluster in lower
    case, the table has that cluster and selects an endpoint for the request,
    and it is a ready address behind a path of that cluster name, at the port of
    its service, as the reconciliation found it. *)
Theorem routed_request_served `{Http} {GS : GoSort} {GL : GoSortLaws GS} {LB : Libs}
    (class : rstr) (i : Input) (ings : list kube.Ingress) (snap : model.Snapshot) (pb : Snapshot)
    (h0 h : heap) iter (host path : rstr) (r : RouteRule) :
  input_ok i -> iterates iter ->
  List_Ingress (in_client i) class = Some ings ->
  ToSnapshot class (in_now i) (in_range i) (parseEndpoints (in_client i) (in_alloc i) ings) = Some snap ->
  toPbSnapshot snap = Some pb -> short_paths (parseEndpoints (in_client i) (in_alloc i) ings) ->
  choose_route (new pb h0).1 host path = Some r ->
  Str.to_ascii_lowercase (rr_cluster r) = rr_cluster r ->
  exists se, (get_endpoint iter (new pb h0).1 (rr_cluster r) h).1 = Some se /\
    ready_backend class i (rr_cluster r) (se_endpoint se).
Proof.
  intros Hok Hiter Hl Hsnap Hpb Hshort Hr Hlow. pose proof (proj1 Hok) as Hrange.
  pose proof (table_routes _ Hrange _ _ _ _ Hsnap _ Hpb Hshort h0 host path) as Hby. rewrite Hr in Hby.
  destruct Hby as (host' & tp & p & pt & _ & Ha & _ & Hc & _).
  destruct Ha as (Htp & _ & (te & q & Hp & _) & _).
  destruct (cluster_found class i Hok ings snap Hsnap pb Hpb tp p te Htp Hp) as (c & Hf & Hne);
    [by rewrite <-Hc|]. rewrite <-Hc in Hf.
  pose proof (new_cluster_lookup pb h0 (rr_cluster r)) as Hag. rewrite Hf in Hag.
  pose proof (get_endpoint_cases pb h0 h (rr_cluster r) iter Hiter) as Hg. unfold get_cluster_rules in Hag.
  destruct (tb_clusters (new pb h0).1 !! rr_cluster r) as [cr|]; [|done].
  rewrite (agrees_endpoints _ _ Hag) in Hg. rewrite decide_False in Hg by done.
  destruct Hg as (n & e & l & He & _ & Hge). eexists. split; [exact Hge|]. simpl.
  eapply cluster_backed; [done..|]. by eapply list_elem_of_lookup_2.
Qed.

(** For every run of the control plane and of the data plane, with any number of
    concurrent requests, if the messages the data plane received are ones the
    control plane sent, then whenever a request is given an endpoint, that
    endpoint was, for some reconciliation of the run, a ready address of an
    EndpointSlice of the service behind an Ingress path with the route's cluster
    name. *)
Lemma selection_backed (HT : Http) (RT : Rustls) (TK : Tokio)
    {GS : GoSort} {GL : GoSortLaws GS} {LB : Libs}
    (addr : rstr) iter (class : rstr) (cls : list cplabel) (cp : ControlPlane)
    (ls : list slabel) (s s' : Sys) (j : nat) (view : heap) (req : Request Incoming)
    (host : rstr) (rule : RouteRule) (cr : ClusterRule) (sel : SelectedEndpoint) :
  cprun class cls cp_start = Some cp -> Forall input_ok (inputs cls) ->
  srun addr iter ls sys_start = Some s ->
  (forall pb, pb ∈ received (ctl_labels ls) -> sent_by cp pb) ->
  sstep addr iter (SSelect j view) s = Some s' ->
  sy_threads s' !! j = Some (TSelected req host rule cr sel) ->
  exists i, i ∈ inputs cls /\ ready_backend class i (rr_cluster rule) (se_endpoint sel).
Proof.
  intros Hcp Hins Hrun Hnet Hstep Hth.
  destruct (selected_by_snapshot HT RT TK addr iter ls s s' j view req host rule cr sel Hrun Hstep Hth)
    as (pb & c & Hlast & _ & _ & Hc & He).
  destruct (Hnet pb (last_settled _ _ _ Hlast)) as (id & w & snap & Hw & Hsnap & Hpb).
  destruct (sent_built class cls cp id w snap Hcp Hw Hsnap) as (i & ings & Hi & Hl & Ht).
  rewrite Forall_forall in Hins. exists i. split; [done|]. eapply cluster_backed; eauto.
Qed.

(** ** Witnesses *)

Module EndDemo.
#[local] Existing Instance simple_http.
#[local] Existing Instance CertDemo.tls.
#[local] Existing Instance WatchDemo.tokio.
#[local] Existing Instance KubeDemo.libs.

Definition ings : list kube.Ingress := [KubeDemo.ingress 824635000000 KubeDemo.auth_url].
Definition targets : list model.TargetProxy := parseEndpoints KubeDemo.cluster0 KubeDemo.alloc ings.
Definition message : Snapshot := default snapshot_default (toPbSnapshot KubeDemo.snapshot).

Lemma message_sent : toPbSnapshot KubeDemo.snapshot = Some message.
Proof. vm_compute. reflexivity. Qed.

Lemma built : ToSnapshot KubeDemo.class 1760000000 KubeDemo.range targets = Some KubeDemo.snapshot.
Proof.
  destruct (proj1 (Reconcile_broadcast _ _ _ _ _ _ _ _) KubeDemo.reconciled_broadcast) as (l & Hl & Hs & _).
  assert (List_Ingress KubeDemo.cluster0 KubeDemo.class = Some ings) as Hi by (vm_compute; reflexivity).
  rewrite Hi in Hl. injection Hl as <-. exact Hs.
Qed.

Lemma short : short_paths targets.
Proof.
  assert (Forall (fun tp => map_Forall (fun p _ => (Z.of_nat (Str.len p) < 1000000)%Z) (model.TP_Path tp))
    targets) as Hall by decide_compute.
  intros tp p Htp [te Hte]. rewrite Forall_forall in Hall. exact (Hall tp Htp p te Hte).
Qed.

Lemma input_is_ok : input_ok (CpDemo.input KubeDemo.cluster0).
Proof. split; [exact range_ranges|apply KubeDemo.client_ok]. Qed.

End EndDemo.

(** The request for "/api" is routed to the exact path, not to the prefix "/". *)
Definition api_rule : RouteRule := {|
  rr_path := str "/api"; rr_path_type := Exact; rr_cluster := str "demo.local|/api";
  rr_priority := 3000004 |}.

Lemma api_routed :
  @choose_route simple_http (@new simple_http EndDemo.message heap_empty).1
    (str "demo.local") (str "/api") = Some api_rule.
Proof. vm_compute. reflexivity. Qed.


Lemma routed_request_served_witness :
  exists se, (@get_endpoint simple_http map_to_list (@new simple_http EndDemo.message heap_empty).1
      (str "demo.local|/api") (@new simple_http EndDemo.message heap_empty).2).1 = Some se /\
    ready_backend KubeDemo.class (CpDemo.input KubeDemo.cluster0) (str "demo.local|/api") (se_endpoint se).
Proof.
  refine (@routed_request_served simple_http _ _ KubeDemo.libs KubeDemo.class
    (CpDemo.input KubeDemo.cluster0) EndDemo.ings KubeDemo.snapshot EndDemo.message heap_empty _
    map_to_list (str "demo.local") (str "/api") api_rule EndDemo.input_is_ok _ _ EndDemo.built
    EndDemo.message_sent EndDemo.short api_routed _).
  - intros m. reflexivity.
  - vm_compute. reflexivity.
  - vm_compute. reflexivity.
Defined.
