(* ===== verification/IngressTls.v ===== *)
(** The certificates of the Ingresses, from the Secrets to the handshake: the
    bundles of targets (utils.go), the snapshot and its message (server.go), and
    the certificate map and resolver of the data plane (certs.rs). *)

From stdpp Require Import base gmap list strings sorting.
From Stdlib Require Import NArith ZArith Lia.
From S2P Require Import Prelude RustStr Config Http Atomics RouteTable Routing Certs Grpc Watching GoLib Sha256 Model Annotations Targets Snapshots Building Reconciling Translate Hub Distribution ControlPlane EndToEnd.

(** ** Bundles *)

(** The bundle [b] is the certificate and key of a Secret that a TLS section of an
    Ingress of the class names, in the namespace of the Ingress, for the hosts of
    that section, as the reconciliation [i] read them. *)
Definition ingress_bundle (class : rstr) (i : Input) (b : ServerTlsBundle) : Prop :=
  exists ings ing tls secret,
    List_Ingress (in_client i) class = Some ings /\ ing ∈ ings /\
    kube.Ing_IngressClassName ing = Some class /\ tls ∈ kube.Ing_TLS ing /\
    Get_Secret (in_client i) (kube.Ing_Namespace ing) (kube.IT_SecretName tls) = Some secret /\
    kube.Sec_Data secret !! str "tls.crt" = Some (tls_cert_pem b) /\
    kube.Sec_Data secret !! str "tls.key" = Some (tls_key_pem b) /\
    tls_sni b = kube.IT_Hosts tls.

Lemma tls_bundle_Some `{Libs} c ns tls t :
  tls_bundle c ns tls = Some t ->
  model.TLS_Name t <> [] /\ model.TLS_Sni t = kube.IT_Hosts tls /\
  exists secret, Get_Secret c ns (kube.IT_SecretName tls) = Some secret /\
    kube.Sec_Data secret !! str "tls.crt" = Some (model.TLS_CertPem t) /\
    kube.Sec_Data secret !! str "tls.key" = Some (model.TLS_KeyPem t).
Proof.
  unfold tls_bundle. destruct (Str.is_empty _ || _); [done|].
  destruct (Get_Secret c ns _) as [secret|] eqn:Es; [|done].
  destruct (_ || _) eqn:E1; [done|]. apply orb_false_iff in E1 as [H1 H2].
  apply bool_decide_eq_false in H1. apply bool_decide_eq_false in H2.
  destruct (pem_Decode _); [|done]. destruct (x509_ParseCertificates _) as [[|z zs]|]; [done| |done].
  intros [= <-]. cbn [model.TLS_Name model.TLS_Sni model.TLS_CertPem model.TLS_KeyPem].
  split; [by intros [_ ?]%app_nil|]. split; [done|]. exists secret. split; [done|].
  destruct (kube.Sec_Data secret !! str "tls.crt"); [|done].
  destruct (kube.Sec_Data secret !! str "tls.key"); done.
Qed.

(** The bundle of an Ingress that has one stems from a TLS section of it. *)
Lemma buildTLSBundle_source `{Libs} c ing :
  model.TLS_Name (buildTLSBundle c ing) <> [] ->
  exists tls, tls ∈ kube.Ing_TLS ing /\ tls_bundle c (kube.Ing_Namespace ing) tls = Some (buildTLSBundle c ing).
Proof.
  rewrite buildTLSBundle_last. destruct (last _) as [t|] eqn:E; [|done]. intros _.
  apply last_Some_elem_of, list_elem_of_omap in E as (tls & Hin & Ht). by exists tls.
Qed.

Section bundles.
Context {GS : GoSort} {GL : GoSortLaws GS} {LB : Libs} (class : rstr) (i : Input) (Hok : input_ok i)
  (ings : list kube.Ingress) (Hings : List_Ingress (in_client i) class = Some ings)
  (snap : model.Snapshot)
  (Hsnap : ToSnapshot class (in_now i) (in_range i)
             (parseEndpoints (in_client i) (in_alloc i) ings) = Some snap)
  (pb : Snapshot) (Hpb : toPbSnapshot snap = Some pb).

Lemma elem_of_sn_server_tls b :
  b ∈ sn_server_tls pb <->
  exists tp, tp ∈ parseEndpoints (in_client i) (in_alloc i) ings /\
    model.TLS_Name (model.TP_SNI tp) <> [] /\ b = pb_tls (model.TP_SNI tp).
Proof using GL Hsnap Hpb.
  unfold toPbSnapshot in Hpb. apply bind_Some in Hpb as (rs & _ & [= <-]). simpl.
  rewrite list_elem_of_fmap. setoid_rewrite (elem_of_tls _ _ _ _ _ Hsnap). naive_solver.
Qed.

Lemma server_tls_backed b : b ∈ sn_server_tls pb -> ingress_bundle class i b.
Proof using GL Hok Hings Hsnap Hpb.
  intros (tp & Htp & Hne & ->)%elem_of_sn_server_tls.
  apply elem_of_parseEndpoints in Htp as (n & ing & rule & Hn & Hr & -> & _). simpl in *.
  destruct (buildTLSBundle_source _ _ Hne) as (tls & Htls & Hb).
  apply tls_bundle_Some in Hb as (_ & Hsni & secret & Hs & Hcrt & Hkey).
  pose proof (list_elem_of_lookup_2 _ _ _ Hn) as Hing.
  exists ings, ing, tls, secret. split_and!; try done.
  pose proof (list_ingress_class _ _ (proj2 Hok) _ _ ing Hings Hing) as Hc.
  unfold ingressClassIndex in Hc. destruct (kube.Ing_IngressClassName ing); set_solver.
Qed.

(** What a lookup in the bundles finds. *)
Lemma cert_for_source `{Rustls} name ck :
  cert_for (sn_server_tls pb) name = Some ck ->
  exists b, ingress_bundle class i b /\ name ∈ tls_sni b /\ bundle_key b = Some ck.
Proof using GL Hok Hings Hsnap Hpb.
  unfold cert_for. intros (b & Hb & Hk)%last_Some_elem_of%list_elem_of_omap. case_decide; [|done].
  exists b. split; [by apply server_tls_backed|done].
Qed.

End bundles.

(** The names under which a certificate is looked up for the server name [n]. *)
Definition covers_name (n name : rstr) : Prop :=
  name = Str.to_ascii_lowercase n \/ wildcard (Str.to_ascii_lowercase n) = Some name.

Lemma resolve_source `{Rustls} (pb : Snapshot) dflt n ck :
  resolve_cert {| dr_map := certificates_from_snap pb; dr_default := dflt |} (Some n) = Some ck ->
  ck = dflt \/ exists name, covers_name n name /\ cert_for (sn_server_tls pb) name = Some ck.
Proof.
  unfold resolve_cert, resolve_loads, covers_name. simpl. rewrite certificates_lookup.
  destruct (cert_for _ (Str.to_ascii_lowercase n)) as [ck'|] eqn:E.
  { intros [= <-]. right. eauto. }
  destruct (wildcard _) as [star|] eqn:Ew; [|intros [= <-]; by left].
  rewrite certificates_lookup. destruct (cert_for _ star) as [ck'|] eqn:Es; intros [= <-]; [|by left].
  right. eauto.
Qed.

(** Certificates come from the Ingresses: in a certificate map made from a message
    that the control plane sent, the certificate served for a name is the default
    one or that of a Secret which an Ingress of the class names in a TLS section
    that lists the name or its wildcard, the Secret being in the Ingress's own
    namespace, as some reconciliation read them. *)
Lemma certificates_backed {RT : Rustls} {GS : GoSort} {GL : GoSortLaws GS} {LB : Libs}
    class cls cp (pending : bool) got certs dflt n ck :
  cprun class cls cp_start = Some cp -> Forall input_ok (inputs cls) ->
  (forall pb, pb ∈ got -> sent_by cp pb) -> sni_of (last (settled pending got)) certs ->
  resolve_cert {| dr_map := certs; dr_default := dflt |} (Some n) = Some ck ->
  ck = dflt \/
  exists i b name, i ∈ inputs cls /\ ingress_bundle class i b /\
    covers_name n name /\ name ∈ tls_sni b /\ bundle_key b = Some ck.
Proof.
  intros Hcp Hins Hnet Hsni Hck. unfold sni_of in Hsni. destruct (last _) as [pb|] eqn:El.
  2: { rewrite Hsni in Hck. unfold resolve_cert, resolve_loads in Hck. simpl in Hck.
       rewrite lookup_empty in Hck. destruct (wildcard _); [rewrite lookup_empty in Hck|]; left; congruence. }
  rewrite Hsni in Hck. destruct (resolve_source _ _ _ _ Hck) as [->|(name & Hn & Hc)]; [by left|]. right.
  destruct (Hnet pb (last_settled _ _ _ El)) as (id & w & snap & Hw & Hsnap & Hpb).
  destruct (sent_built class cls cp id w snap Hcp Hw Hsnap) as (i & ings & Hi & Hl & Ht).
  rewrite Forall_forall in Hins.
  destruct (cert_for_source class i (Hins i Hi) ings Hl snap Ht pb Hpb name ck Hc) as (b & Hb & Hin & Hk).
  by exists i, b, name.
Qed.

(** ** Properties *)

(** C17. The certificates of the Ingresses are served: a host of the last usable TLS section of an Ingress that
    has a routable path, with a key the data plane supports, is answered with a
    certificate of an Ingress that lists the host, and with that one if all
    Ingresses that list the host agree. *)
Theorem ingress_certificate_served {RT : Rustls} {GS : GoSort} {GL : GoSortLaws GS} {LB : Libs}
    (class : rstr) (i : Input) (ings : list kube.Ingress) (snap : model.Snapshot) (pb : Snapshot)
    (k : nat) (ing : kube.Ingress) (rule : kube.IngressRule) (tls1 tls2 : list kube.IngressTLS)
    (tls : kube.IngressTLS) (t : model.TLSSecret) (dflt ck : CertifiedKey) (n : rstr) :
  input_ok i -> List_Ingress (in_client i) class = Some ings ->
  ToSnapshot class (in_now i) (in_range i) (parseEndpoints (in_client i) (in_alloc i) ings) = Some snap ->
  toPbSnapshot snap = Some pb ->
  ings !! k = Some ing -> rule ∈ kube.Ing_Rules ing ->
  model.TP_Path (buildTargetFromRule (in_client i) (kube.Ing_Namespace ing) rule
    (parseAnnotations (in_alloc i k) (kube.Ing_Annotations ing)) (buildTLSBundle (in_client i) ing)) <> ∅ ->
  kube.Ing_TLS ing = tls1 ++ tls :: tls2 ->
  tls_bundle (in_client i) (kube.Ing_Namespace ing) tls = Some t ->
  (forall tls', tls' ∈ tls2 -> tls_bundle (in_client i) (kube.Ing_Namespace ing) tls' = None) ->
  Str.to_ascii_lowercase n ∈ kube.IT_Hosts tls -> bundle_key (pb_tls t) = Some ck ->
  exists b ck', resolve_cert {| dr_map := certificates_from_snap pb; dr_default := dflt |} (Some n)
      = Some ck' /\
    ingress_bundle class i b /\ Str.to_ascii_lowercase n ∈ tls_sni b /\ bundle_key b = Some ck' /\
    ((forall b', ingress_bundle class i b' -> Str.to_ascii_lowercase n ∈ tls_sni b' ->
        bundle_key b' = Some ck) -> ck' = ck).
Proof.
  intros Hok Hl Hsnap Hpb Hk Hr Hne Htls Ht Hafter Hn Hck.
  assert (buildTLSBundle (in_client i) ing = t) as Eb.
  { rewrite buildTLSBundle_last, Htls, omap_app. cbn [omap list_omap]. rewrite Ht.
    assert (omap (tls_bundle (in_client i) (kube.Ing_Namespace ing)) tls2 = []) as ->
      by (by apply omap_nil_iff).
    by rewrite last_snoc. }
  destruct (tls_bundle_Some _ _ _ _ Ht) as (Hname & Hsni & _).
  assert (pb_tls t ∈ sn_server_tls pb) as Hin.
  { apply (elem_of_sn_server_tls class i ings snap Hsnap pb Hpb). eexists. split.
    - apply elem_of_parseEndpoints. exists k, ing, rule. by split_and!.
    - simpl. by rewrite Eb. }
  assert (is_Some (cert_for (sn_server_tls pb) (Str.to_ascii_lowercase n))) as [ck' Hck'].
  { apply last_is_Some. intros Hnil. rewrite omap_nil_iff in Hnil.
    specialize (Hnil _ Hin). simpl in Hnil. rewrite Hsni, decide_True in Hnil by done. congruence. }
  destruct (cert_for_source class i Hok ings Hl snap Hsnap pb Hpb _ _ Hck') as (b & Hb & Hbn & Hbk).
  exists b, ck'. split_and!; try done.
  - unfold resolve_cert, resolve_loads. simpl. by rewrite certificates_lookup, Hck'.
  - intros Hall. specialize (Hall b Hb Hbn). congruence.
Qed.

(** ** Witnesses *)

#[local] Existing Instance simple_http.
#[local] Existing Instance CertDemo.tls.
#[local] Existing Instance WatchDemo.tokio.
#[local] Existing Instance KubeDemo.libs.

Module TlsDemo.

(** The certificate of the Secret "cert", and the Ingress that names it. *)
Definition key : CertifiedKey := {| ck_cert := [2%N]; ck_key := 3%N |}.
Definition ing : kube.Ingress := KubeDemo.ingress 824635000000 KubeDemo.auth_url.
Definition tls : kube.IngressTLS := {| kube.IT_Hosts := [str "demo.local"]; kube.IT_SecretName := str "cert" |}.
Definition rule : kube.IngressRule := {|
  kube.IR_Host := str "demo.local";
  kube.IR_HTTP := Some [KubeDemo.path "/" "Prefix" 824635000000 "web";
    KubeDemo.path "/api" "Exact" 824635000016 "api"; KubeDemo.path "/none" "Prefix" 824635000032 "absent"] |}.
Definition bundle : model.TLSSecret :=
  default model.TLSSecret_zero (tls_bundle KubeDemo.cluster0 (str "shop") tls).

Lemma bundle_built : tls_bundle KubeDemo.cluster0 (str "shop") tls = Some bundle.
Proof. vm_compute. reflexivity. Qed.

Lemma routable :
  model.TP_Path (buildTargetFromRule KubeDemo.cluster0 (kube.Ing_Namespace ing) rule
    (parseAnnotations (KubeDemo.alloc 0) (kube.Ing_Annotations ing))
    (buildTLSBundle KubeDemo.cluster0 ing)) <> ∅.
Proof.
  intros E. apply (f_equal (fun m => bool_decide (m !! str "/" = None))) in E.
  rewrite lookup_empty in E. vm_compute in E. discriminate E.
Qed.

End TlsDemo.

Lemma ingress_certificate_served_witness :
  exists b ck', resolve_cert {| dr_map := certificates_from_snap EndDemo.message; dr_default := CertDemo.key 7 |}
      (Some (str "demo.local")) = Some ck' /\
    ingress_bundle KubeDemo.class (CpDemo.input KubeDemo.cluster0) b /\ bundle_key b = Some ck'.
Proof.
  destruct (ingress_certificate_served KubeDemo.class (CpDemo.input KubeDemo.cluster0) EndDemo.ings
    KubeDemo.snapshot EndDemo.message 0 TlsDemo.ing TlsDemo.rule [] [] TlsDemo.tls TlsDemo.bundle
    (CertDemo.key 7) TlsDemo.key (str "demo.local") EndDemo.input_is_ok)
    as (b & ck' & H1 & H2 & _ & H3 & _).
  - vm_compute. reflexivity.
  - exact EndDemo.built.
  - exact EndDemo.message_sent.
  - reflexivity.
  - left.
  - exact TlsDemo.routable.
  - reflexivity.
  - exact TlsDemo.bundle_built.
  - intros tls' Hin. destruct (not_elem_of_nil _ Hin).
  - left.
  - vm_compute. reflexivity.
  - exists b, ck'. split; [exact H1|]. split; [exact H2|exact H3].
Defined.
