(* ===== verification/Fleet.v ===== *)
(** The deployment as one system: the control plane and any number of data planes,
    connected by the streams of the [Watch] calls. A stream belongs to one call of
    a data plane and one watcher of the hub; it carries the messages in the order
    they were sent, each of them once, and what is still under way when the call
    ends is lost with it (tonic over HTTP/2 on one side, grpc-go on the other,
    prost and protobuf-go in between). Data planes may join at any time; calls
    end at any time, at either end, for any reason. *)

From stdpp Require Import base gmap list strings sorting.
From Stdlib Require Import NArith ZArith Lia.
From S2P Require Import Prelude RustStr Config Http Atomics RouteTable Routing Balancing Proxy Forwarding Upstream Auth Handler Certs Grpc Watching System InFlight GoLib Model Annotations Targets Snapshots Building Reconciling Translate Hub Distribution ControlPlane EndToEnd IngressTls.

Section fleet.
Context {HT : Http} {RT : Rustls} {TK : Tokio} {GS : GoSort} {LB : Libs}
  (class addr : rstr) (iter : gmap EndpointKey loc -> list (EndpointKey * loc)).

(** ** State *)

(** A data plane, the watcher of the hub that serves its call, if it has one, and
    the messages under way to it. *)
Record Peer := mk_peer { pr_sys : Sys; pr_conn : option nat; pr_wire : list Snapshot }.
Record Fleet := mk_fleet { fl_cp : ControlPlane; fl_peers : list Peer }.

Definition pr_pc (p : Peer) : mpc := mg_pc (cs_mgr (sy_ctl (pr_sys p))).
Definition peer_start : Peer := mk_peer sys_start None [].
Definition fleet_start : Fleet := mk_fleet cp_start [].

(** ** Steps *)

Inductive flabel :=
  (** a step of the control plane *)
  | FControl (l : cplabel)
  (** a data plane starts *)
  | FJoin
  (** the [Watch] call of the data plane [k] reaches the control plane *)
  | FOpen (k : nat)
  (** a step of the data plane [k] *)
  | FData (k : nat) (l : slabel).

(** The message a step of the hub puts on a stream: [stream.Send] has succeeded. *)
Definition sent_message (l : cplabel) (h : Hub) : option (nat * Snapshot) :=
  match l with
  | CHub (HSent id true) =>
      match h_watchers h !! id with
      | Some w =>
          match w_pc w with
          | WSend snap => pair id <$> toPbSnapshot snap
          | _ => None
          end
      | None => None
      end
  | _ => None
  end.

Definition carry (m : option (nat * Snapshot)) (p : Peer) : Peer :=
  match m with
  | Some (id, pb) =>
      if decide (pr_conn p = Some id) then mk_peer (pr_sys p) (pr_conn p) (pr_wire p ++ [pb]) else p
  | None => p
  end.

(** What a step of a data plane does to its call: it is accepted only once it has
    reached the control plane, a message is taken from the front of the stream,
    and leaving the stream loop drops the call. *)
Definition link (l : slabel) (p : Peer) : option (option nat * list Snapshot) :=
  match l with
  | SCtl (Mgr LWatchOk) => if pr_conn p is Some _ then Some (pr_conn p, pr_wire p) else None
  | SCtl (Mgr (LMessage pb)) =>
      match pr_wire p with
      | pb' :: wire => if decide (pb = pb') then Some (pr_conn p, wire) else None
      | [] => None
      end
  | SCtl (Mgr (LWatchErr | LClosed | LStreamErr | LCaNotified | LClientNotified | LCancelled)) =>
      Some (None, [])
  | _ => Some (pr_conn p, pr_wire p)
  end.

Definition calling (p : Peer) : bool :=
  match pr_pc p, pr_conn p with MWatch _, None => true | _, _ => false end.

Definition fstep (l : flabel) (f : Fleet) : option Fleet :=
  match l with
  | FControl l =>
      match cpstep class l (fl_cp f) with
      | Some cp => Some (mk_fleet cp (carry (sent_message l (cp_hub (fl_cp f))) <$> fl_peers f))
      | None => None
      end
  | FJoin => Some (mk_fleet (fl_cp f) (fl_peers f ++ [peer_start]))
  | FOpen k =>
      match fl_peers f !! k, cpstep class (CHub HAdd) (fl_cp f) with
      | Some p, Some cp =>
          if calling p then
            Some (mk_fleet cp (<[k := mk_peer (pr_sys p) (Some (length (h_watchers (cp_hub (fl_cp f))))) []]>
                                 (fl_peers f)))
          else None
      | _, _ => None
      end
  | FData k l =>
      match fl_peers f !! k with
      | Some p =>
          match link l p, sstep addr iter l (pr_sys p) with
          | Some (conn, wire), Some s => Some (mk_fleet (fl_cp f) (<[k := mk_peer s conn wire]> (fl_peers f)))
          | _, _ => None
          end
      | None => None
      end
  end.

Fixpoint frun (ls : list flabel) (f : Fleet) : option Fleet :=
  match ls with
  | [] => Some f
  | l :: ls' => match fstep l f with Some f' => frun ls' f' | None => None end
  end.

Lemma frun_app ls1 ls2 f :
  frun (ls1 ++ ls2) f = match frun ls1 f with Some f' => frun ls2 f' | None => None end.
Proof.
  revert f. induction ls1 as [|l ls1 IH]; intros f; [done|]. simpl.
  destruct (fstep l f); [apply IH|done].
Qed.

Lemma frun_invariant (I : list flabel -> Fleet -> Prop) :
  I [] fleet_start ->
  (forall ls l f f', frun ls fleet_start = Some f -> I ls f -> fstep l f = Some f' -> I (ls ++ [l]) f') ->
  forall ls f, frun ls fleet_start = Some f -> I ls f.
Proof.
  intros H0 Hs ls. induction ls as [|l ls IH] using rev_ind; intros f.
  { intros [= <-]. done. }
  rewrite frun_app. destruct (frun ls fleet_start) as [f0|] eqn:E; [|done]. simpl.
  destruct (fstep l f0) as [f1|] eqn:El; [|done]. intros [= <-]. by eapply Hs; eauto.
Qed.

(** ** The parts of a run *)

(** What the control plane, and what the data plane [k], did in a run. *)
Definition control_labels (ls : list flabel) : list cplabel :=
  omap (fun l => match l with FControl l => Some l | FOpen _ => Some (CHub HAdd) | _ => None end) ls.
Definition peer_label (k : nat) (l : flabel) : option slabel :=
  match l with FData k' l => if decide (k' = k) then Some l else None | _ => None end.
Definition peer_labels (k : nat) (ls : list flabel) : list slabel := omap (peer_label k) ls.

(** The messages the data plane [k] has received. *)
Definition delivered (k : nat) (ls : list flabel) : list Snapshot :=
  received (ctl_labels (peer_labels k ls)).

Lemma control_labels_snoc ls l :
  control_labels (ls ++ [l])
  = control_labels ls ++ match l with FControl l => [l] | FOpen _ => [CHub HAdd] | _ => [] end.
Proof. unfold control_labels. rewrite omap_app. f_equal. by destruct l. Qed.

Lemma peer_labels_snoc k ls l :
  peer_labels k (ls ++ [l]) = peer_labels k ls ++ option_list (peer_label k l).
Proof. unfold peer_labels. by rewrite omap_app. Qed.

Lemma delivered_snoc k ls l :
  delivered k (ls ++ [l])
  = delivered k ls ++ match peer_label k l with Some (SCtl (Mgr (LMessage pb))) => [pb] | _ => [] end.
Proof.
  unfold delivered. rewrite peer_labels_snoc. destruct (peer_label k l) as [l'|]; simpl; [|by rewrite !app_nil_r].
  rewrite ctl_labels_snoc. destruct l' as [l'| | | | |]; [|by rewrite !app_nil_r..].
  rewrite received_snoc. by destruct l' as [[]| |].
Qed.

Lemma fleet_control ls f :
  frun ls fleet_start = Some f -> cprun class (control_labels ls) cp_start = Some (fl_cp f).
Proof.
  revert ls f. apply (frun_invariant (fun ls f => cprun class (control_labels ls) cp_start = Some (fl_cp f)));
    [done|].
  intros ls l f f' _ IH Hstep. rewrite control_labels_snoc, cprun_app, IH.
  destruct l as [l| |k|k l]; cbn [fstep] in Hstep; repeat case_match; simplify_eq/=; try done.
  all: match goal with E : cpstep _ _ _ = Some _ |- _ => by rewrite E end.
Qed.

(** The data plane [k]; one that has not joined yet is in its initial state. *)
Definition peer (f : Fleet) (k : nat) : Peer := default peer_start (fl_peers f !! k).

(** What a step does to the data plane [k]. *)
Definition peer_step (l : flabel) (f : Fleet) (k : nat) (p p' : Peer) : Prop :=
  match l with
  | FControl l => p' = carry (sent_message l (cp_hub (fl_cp f))) p
  | FJoin => p' = p
  | FOpen k' =>
      if decide (k' = k) then
        calling p = true /\ p' = mk_peer (pr_sys p) (Some (length (h_watchers (cp_hub (fl_cp f))))) []
      else p' = p
  | FData k' l =>
      if decide (k' = k) then exists conn wire s,
        link l p = Some (conn, wire) /\ sstep addr iter l (pr_sys p) = Some s /\ p' = mk_peer s conn wire
      else p' = p
  end.

Lemma peer_insert f k p cp p' k' :
  fl_peers f !! k = Some p ->
  peer (mk_fleet cp (<[k := p']> (fl_peers f))) k' = if decide (k = k') then p' else peer f k'.
Proof.
  intros Hk. unfold peer. simpl. case_decide as Hd; [subst k'|by rewrite list_lookup_insert_ne].
  rewrite list_lookup_insert_eq; [done|]. by eapply lookup_lt_Some.
Qed.

Lemma carry_start m : carry m peer_start = peer_start.
Proof. by destruct m as [[id pb]|]. Qed.

Lemma fstep_peer l f f' k : fstep l f = Some f' -> peer_step l f k (peer f k) (peer f' k).
Proof.
  intros Hstep. destruct l as [l| |k'|k' l]; cbn [fstep] in Hstep; cbn [peer_step].
  - destruct (cpstep class l (fl_cp f)); [|done]. injection Hstep as <-. unfold peer. simpl.
    rewrite list_lookup_fmap. destruct (fl_peers f !! k); [done|]. by rewrite carry_start.
  - injection Hstep as <-. unfold peer. simpl. rewrite lookup_app.
    destruct (fl_peers f !! k); [done|]. by destruct (k - _) as [|[]].
  - destruct (fl_peers f !! k') as [p|] eqn:Ek; [|done]. destruct (cpstep class _ _) as [cp|]; [|done].
    destruct (calling p) eqn:Ec; [|done]. injection Hstep as <-. rewrite (peer_insert f k' p) by done.
    case_decide as Hd; [subst k'|done]. unfold peer. by rewrite Ek.
  - destruct (fl_peers f !! k') as [p|] eqn:Ek; [|done].
    destruct (link l p) as [[conn wire]|] eqn:El; [|done].
    destruct (sstep addr iter l (pr_sys p)) as [s|] eqn:Es; [|done]. injection Hstep as <-.
    rewrite (peer_insert f k' p) by done.
    case_decide as Hd; [subst k'|done]. unfold peer. rewrite Ek. by exists conn, wire, s.
Qed.

Lemma carry_sys m p : pr_sys (carry m p) = pr_sys p.
Proof. destruct m as [[id pb]|]; simpl; [|done]. by case_decide. Qed.
Lemma carry_conn m p : pr_conn (carry m p) = pr_conn p.
Proof. destruct m as [[id pb]|]; simpl; [|done]. by case_decide. Qed.

Lemma fleet_peer ls f k :
  frun ls fleet_start = Some f -> srun addr iter (peer_labels k ls) sys_start = Some (pr_sys (peer f k)).
Proof.
  revert ls f. apply (frun_invariant (fun ls f =>
    srun addr iter (peer_labels k ls) sys_start = Some (pr_sys (peer f k)))); [done|].
  intros ls l f f' _ IH Hstep. apply (fstep_peer _ _ _ k) in Hstep.
  rewrite peer_labels_snoc, srun_app, IH. destruct l as [l| |k'|k' l]; simpl in *.
  - by rewrite Hstep, carry_sys.
  - by rewrite Hstep.
  - case_decide; [by destruct Hstep as [_ ->]|by rewrite Hstep].
  - case_decide; [|by rewrite Hstep]. destruct Hstep as (conn & wire & s & _ & Hs & ->). simpl. by rewrite Hs.
Qed.

(** ** The streams *)

(** A watcher keeps what it has sent, and a message on the stream is what was
    added to it. *)
Lemma hstep_sent l h h' id w :
  hstep l h = Some h' -> h_watchers h !! id = Some w ->
  exists w', h_watchers h' !! id = Some w' /\ (w_sent w `prefix_of` w_sent w') /\
    mapM toPbSnapshot (w_sent w') =
    match sent_message (CHub l) h with
    | Some (id', pb) =>
        if decide (id' = id) then (fun pbs => pbs ++ [pb]) <$> mapM toPbSnapshot (w_sent w)
        else mapM toPbSnapshot (w_sent w)
    | None => mapM toPbSnapshot (w_sent w)
    end.
Proof.
  intros Hstep Hw. assert (forall id0 w0 w0', h_watchers h !! id0 = Some w0 ->
    exists w', <[id0 := w0']> (h_watchers h) !! id = Some w' /\ w' = if decide (id0 = id) then w0' else w)
    as Hput.
  { intros id0 w0 w0' H0. case_decide as Hd; [subst id0|]; eexists; (split; [|done]).
    - rewrite list_lookup_insert_eq; [done|]. by eapply lookup_lt_Some.
    - by rewrite list_lookup_insert_ne. }
  destruct l as [snap chs| | |id0 ok|id0|id0|id0].
  - hub_cases Hstep. by exists w.
  - cbn [sent_message]. simpl in Hstep. destruct (h_sending h).2 as [|id0 chs]; [done|].
    destruct (h_watchers h !! id0) as [w0|] eqn:E0; [|done].
    destruct (w_ch w0); injection Hstep as <-; [by exists w|]. simpl.
    destruct (Hput id0 w0 (mk_watcher (w_pc w0) (Some (h_sending h).1) (w_sent w0)) E0) as (w' & -> & ->).
    eexists. split; [done|]. case_decide; [|done]. by simplify_eq.
  - simpl in Hstep. injection Hstep as <-. exists w. simpl. split; [|done].
    rewrite lookup_app_l; [done|by eapply lookup_lt_Some].
  - cbn [sent_message]. simpl in Hstep. destruct (h_watchers h !! id0) as [w0|] eqn:E0; [|by destruct ok].
    destruct (w_pc w0) as [snap| | |]; [|by destruct ok..].
    destruct (toPbSnapshot snap) as [pb|] eqn:Epb; [|done]. injection Hstep as <-.
    destruct (Hput id0 w0 (if ok then mk_watcher WSelect (w_ch w0) (w_sent w0 ++ [snap])
      else mk_watcher WReturn (w_ch w0) (w_sent w0)) E0) as (w' & Hl & ->).
    eexists. split; [exact Hl|]. destruct ok; simpl; case_decide; simplify_eq/=; try done.
    split; [by eexists|]. rewrite mapM_snoc. simpl. rewrite Epb. by destruct (mapM _ _).
  - hub_cases Hstep. 
    edestruct Hput as (w' & -> & ->); [done|]. eexists. split; [done|]. case_decide; by simplify_eq/=.
  - hub_cases Hstep. 
    edestruct Hput as (w' & -> & ->); [done|]. eexists. split; [done|]. case_decide; by simplify_eq/=.
  - hub_cases Hstep. 
    edestruct Hput as (w' & -> & ->); [done|]. eexists. split; [done|]. case_decide; by simplify_eq/=.
Qed.

Lemma cpstep_sent l cp cp' id w :
  cpstep class l cp = Some cp' -> h_watchers (cp_hub cp) !! id = Some w ->
  exists w', h_watchers (cp_hub cp') !! id = Some w' /\ (w_sent w `prefix_of` w_sent w') /\
    mapM toPbSnapshot (w_sent w') =
    match sent_message l (cp_hub cp) with
    | Some (id', pb) =>
        if decide (id' = id) then (fun pbs => pbs ++ [pb]) <$> mapM toPbSnapshot (w_sent w)
        else mapM toPbSnapshot (w_sent w)
    | None => mapM toPbSnapshot (w_sent w)
    end.
Proof.
  intros Hs Hw. destruct l as [i chs|l]; cbn [cpstep] in Hs.
  - case_decide; [|done]. simpl.
    destruct (Reconcile class _ _ _ _ _) as [r []]; try (injection Hs as <-; by exists w).
    destruct (hstep _ _) as [h|] eqn:E in Hs; [|done]. injection Hs as <-.
    destruct (hstep_sent _ _ _ id w E Hw) as (w' & Hw' & Hp & Hm). by exists w'.
  - destruct l; [done|..]; (destruct (hstep _ (cp_hub cp)) as [h|] eqn:E; [|done]; injection Hs as <-;
      by eapply hstep_sent).
Qed.

(** The call is under way: accepted, and not over. *)
Definition in_call (pc : mpc) : bool :=
  match pc with MSetReady _ | MStream _ _ | MBuildTable _ _ _ | MStoreSni _ _ _ => true | _ => false end.

(** Or made, and not answered yet. *)
Definition has_call (pc : mpc) : bool := match pc with MWatch _ => true | _ => in_call pc end.

(** A data plane that has received [got] and its stream: on its present call it has
    received what its watcher has sent, up to what is under way. *)
Definition link_ok (cp : ControlPlane) (got : list Snapshot) (p : Peer) : Prop :=
  match pr_conn p with
  | None => pr_wire p = [] /\ in_call (pr_pc p) = false
  | Some id => has_call (pr_pc p) = true /\ exists w earlier now, h_watchers (cp_hub cp) !! id = Some w /\
      got = earlier ++ now /\ mapM toPbSnapshot (w_sent w) = Some (now ++ pr_wire p)
  end.

Lemma link_ok_control l cp cp' got p :
  cpstep class l cp = Some cp' -> link_ok cp got p ->
  link_ok cp' got (carry (sent_message l (cp_hub cp)) p).
Proof.
  intros Hs Hok. unfold link_ok in *. rewrite carry_conn. destruct (pr_conn p) as [id|] eqn:Ec.
  - destruct Hok as (Hc & w & earlier & now & Hw & Hgot & Hm).
    split; [unfold pr_pc; by rewrite carry_sys|].
    destruct (cpstep_sent l cp cp' id w Hs Hw) as (w' & Hw' & _ & Hm'). exists w', earlier, now.
    split_and!; [done|done|]. rewrite Hm', Hm. destruct (sent_message l (cp_hub cp)) as [[id' pb]|]; [|done].
    simpl. rewrite Ec. destruct (decide (id' = id)) as [->|Hne].
    + rewrite decide_True by done. simpl. by rewrite app_assoc.
    + rewrite decide_False by congruence. done.
  - destruct Hok as [Hw Hc]. unfold pr_pc. rewrite carry_sys. split; [|exact Hc].
    destruct (sent_message l (cp_hub cp)) as [[id pb]|]; [|done]. simpl. by rewrite decide_False by congruence.
Qed.

(** A call is under way only after it was accepted, and is over when it ends. *)
Definition ends_call (l : slabel) : bool :=
  match l with
  | SCtl (Mgr (LWatchErr | LClosed | LStreamErr | LCaNotified | LClientNotified | LCancelled)) => true
  | _ => false
  end.

Lemma sstep_in_call l s s' :
  sstep addr iter l s = Some s' -> in_call (mg_pc (cs_mgr (sy_ctl s'))) = true ->
  ends_call l = false /\ (in_call (mg_pc (cs_mgr (sy_ctl s))) = true \/ l = SCtl (Mgr LWatchOk)).
Proof.
  intros Hstep Hc. destruct l as [l|req|i view|i|i net|i]; simpl in Hstep.
  - destruct (_ && _); [done|]. destruct (cstep addr l (sy_ctl s)) as [c|] eqn:E; [|done].
    injection Hstep as <-. simpl in Hc. step_cases E; try done; by auto.
  - injection Hstep as <-. auto.
  - unfold select_step in Hstep. repeat case_match; simplify_eq/=; auto.
  - repeat case_match; simplify_eq/=; auto.
  - repeat case_match; simplify_eq/=; auto.
  - repeat case_match; simplify_eq/=; auto.
Qed.

Lemma sstep_has_call l s s' :
  sstep addr iter l s = Some s' -> ends_call l = false ->
  has_call (mg_pc (cs_mgr (sy_ctl s))) = true -> has_call (mg_pc (cs_mgr (sy_ctl s'))) = true.
Proof.
  intros Hstep He Hc. destruct l as [l|req|i view|i|i net|i]; simpl in Hstep.
  - destruct (_ && _); [done|]. destruct (cstep addr l (sy_ctl s)) as [c|] eqn:E; [|done].
    injection Hstep as <-. simpl. step_cases E; done.
  - by injection Hstep as <-.
  - unfold select_step in Hstep. by repeat case_match; simplify_eq/=.
  - by repeat case_match; simplify_eq/=.
  - by repeat case_match; simplify_eq/=.
  - by repeat case_match; simplify_eq/=.
Qed.

Lemma link_ok_data cp l got p conn wire s :
  link_ok cp got p -> link l p = Some (conn, wire) -> sstep addr iter l (pr_sys p) = Some s ->
  link_ok cp (got ++ match l with SCtl (Mgr (LMessage pb)) => [pb] | _ => [] end) (mk_peer s conn wire).
Proof.
  intros Hok Hlink Hs. pose proof (sstep_in_call l _ _ Hs) as Hcall.
  assert ((ends_call l = true /\ conn = None /\ wire = []) \/
    (exists pb, l = SCtl (Mgr (LMessage pb)) /\ conn = pr_conn p /\ pr_wire p = pb :: wire) \/
    ((forall pb, l <> SCtl (Mgr (LMessage pb))) /\ ends_call l = false /\ (l = SCtl (Mgr LWatchOk) -> is_Some (pr_conn p)) /\
      conn = pr_conn p /\ wire = pr_wire p)) as [(He & -> & ->)|[(pb & -> & -> & Hw)|(Hm & He & Ho & -> & ->)]].
  { clear Hok Hs Hcall. destruct p as [sys pconn pwire]. unfold link in Hlink. cbn [pr_conn pr_wire] in *.
    destruct l as [[[]| |]| | | | |]; try (left; by injection Hlink as <- <-);
      try (right; right; injection Hlink as <- <-; by split_and!).
    - destruct pconn; [|done]. right. right. injection Hlink as <- <-. split_and!; eauto; discriminate.
    - destruct pwire; [done|]. case_decide; [|done]. right. left. injection Hlink as <- <-. subst. by eexists. }
  - unfold link_ok. simpl. split; [done|]. unfold pr_pc. simpl.
    destruct (in_call _); [|done]. destruct (Hcall eq_refl). congruence.
  - unfold link_ok in *. simpl. rewrite Hw in Hok. destruct (pr_conn p) as [id|]; [|by destruct Hok].
    destruct Hok as (Hc & w & earlier & now & Hwa & -> & Hpb).
    split; [by eapply sstep_has_call|]. exists w, earlier, (now ++ [pb]).
    rewrite <-!app_assoc. by split_and!.
  - replace (match l with SCtl (Mgr (LMessage pb)) => [pb] | _ => [] end) with (@nil Snapshot).
    2: { destruct l as [[[]| |]| | | | |]; try done. by destruct (Hm snap). }
    rewrite app_nil_r. unfold link_ok in *. simpl. destruct (pr_conn p) as [id|].
    { destruct Hok as [Hc Hok]. split; [|done]. by eapply sstep_has_call. }
    destruct Hok as [-> Hc]. split; [done|]. unfold pr_pc in *. simpl.
    destruct (in_call (mg_pc (cs_mgr (sy_ctl s)))); [|done].
    destruct (Hcall eq_refl) as [_ [?|Hl]]; [congruence|]. by destruct (Ho Hl).
Qed.

Lemma Add_length h : length (h_watchers (StreamHub.Add h)) = S (length (h_watchers h)).
Proof. simpl. rewrite length_app. simpl. lia. Qed.

Lemma cpstep_add cp : cpstep class (CHub HAdd) cp = Some (mk_cp (cp_rec cp) (StreamHub.Add (cp_hub cp))).
Proof. done. Qed.

(** Every stream of every reachable state is in order, and nothing arrives that was
    not sent. *)
Lemma fleet_links ls f k :
  frun ls fleet_start = Some f -> link_ok (fl_cp f) (delivered k ls) (peer f k).
Proof.
  revert ls f. apply (frun_invariant (fun ls f => link_ok (fl_cp f) (delivered k ls) (peer f k))); [done|].
  intros ls l f f' _ IH Hstep. pose proof (fstep_peer _ _ _ k Hstep) as Hp. rewrite delivered_snoc.
  destruct l as [l| |k'|k' l]; cbn [fstep] in Hstep; cbn [peer_step] in Hp; cbn [peer_label].
  - destruct (cpstep class l (fl_cp f)) as [cp|] eqn:E; [|done]. injection Hstep as <-.
    rewrite Hp, app_nil_r. by eapply link_ok_control.
  - injection Hstep as <-. by rewrite Hp, app_nil_r.
  - rewrite app_nil_r, cpstep_add in *. destruct (fl_peers f !! k') as [p|]; [|done].
    destruct (calling p); [|done]. injection Hstep as <-.
    pose proof (link_ok_control (CHub HAdd) _ _ _ _ (cpstep_add (fl_cp f)) IH) as IH'.
    destruct (decide (k' = k)); [|by rewrite Hp]. destruct Hp as [Hc ->]. unfold link_ok. simpl.
    split; [unfold calling, pr_pc in *; by destruct (mg_pc _)|].
    eexists _, _, []. rewrite app_nil_r, lookup_app_r, Nat.sub_diag by done. by split_and!.
  - destruct (fl_peers f !! k') as [p|]; [|done]. destruct (link l p) as [[conn wire]|]; [|done].
    destruct (sstep addr iter l (pr_sys p)); [|done]. injection Hstep as <-. cbn [fl_cp].
    destruct (decide (k' = k)); [|by rewrite Hp, app_nil_r].
    destruct Hp as (conn' & wire' & s' & Hl & Hs & ->). by eapply link_ok_data.
Qed.

Lemma sent_by_step l cp cp' pb : cpstep class l cp = Some cp' -> sent_by cp pb -> sent_by cp' pb.
Proof.
  intros Hs (id & w & snap & Hw & Hin & Hpb).
  destruct (cpstep_sent l cp cp' id w Hs Hw) as (w' & Hw' & [more Hsent] & _).
  exists id, w', snap. split_and!; [done| |done]. rewrite Hsent. set_solver.
Qed.
(** What a data plane has received was sent by the control plane. *)
Lemma fleet_delivered ls f k pb :
  frun ls fleet_start = Some f -> pb ∈ delivered k ls -> sent_by (fl_cp f) pb.
Proof.
  intros Hrun. revert pb. revert ls f Hrun.
  apply (frun_invariant (fun ls f => forall pb, pb ∈ delivered k ls -> sent_by (fl_cp f) pb)).
  { intros pb Hpb. by apply not_elem_of_nil in Hpb. }
  intros ls l f f' Hrun IH Hstep pb. rewrite delivered_snoc, elem_of_app.
  assert (sent_by (fl_cp f) pb -> sent_by (fl_cp f') pb) as Hmono.
  { destruct l as [l| |k'|k' l]; cbn [fstep] in Hstep.
    - destruct (cpstep class l (fl_cp f)) eqn:E; [|done]. injection Hstep as <-. by eapply sent_by_step.
    - by injection Hstep as <-.
    - rewrite cpstep_add in Hstep. repeat case_match; simplify_eq.
      apply (sent_by_step (CHub HAdd)), cpstep_add.
    - by repeat case_match; simplify_eq. }
  intros [Hpb|Hpb]; [by auto|]. apply Hmono.
  pose proof (fstep_peer _ _ _ k Hstep) as Hp. pose proof (fleet_links _ _ k Hrun) as Hl.
  destruct l as [l| |k'|k' l]; simpl in *; try by apply not_elem_of_nil in Hpb.
  destruct (decide (k' = k)) as [->|]; [|by apply not_elem_of_nil in Hpb].
  destruct Hp as (conn & wire & s & Hlink & _ & _).
  destruct l as [[[]| |]| | | | |]; try by apply not_elem_of_nil in Hpb.
  apply list_elem_of_singleton in Hpb as ->. unfold link_ok in Hl. simpl in Hlink.
  destruct (pr_wire (peer f k)) as [|pb' wire']; [done|]. case_decide; [|done]. subst pb'.
  destruct (pr_conn (peer f k)) as [id|]; [|by destruct Hl].
  destruct Hl as (_ & w & earlier & now & Hw & _ & Hm%mapM_Some).
  apply Forall2_app_inv_r in Hm as (s1 & s2 & _ & H2 & Hs).
  apply Forall2_cons_inv_r in H2 as (sn & s3 & Hsn & _ & ->).
  exists id, w, sn. split_and!; [done| |done]. rewrite Hs. set_solver.
Qed.

(** ** Catching up *)

(** The steps that bring a snapshot to the data plane [k]: those of the hub, the
    arrival of its call, and those of its manager task. *)
Definition feeds (k : nat) (l : flabel) : Prop :=
  match l with
  | FControl (CHub _) => True
  | FOpen k' | FData k' (SCtl (Mgr _)) => k' = k
  | _ => False
  end.

(** [f'] is at most [n] such steps away. *)
Definition advances (k n : nat) (f f' : Fleet) : Prop :=
  exists ls, length ls <= n /\ Forall (feeds k) ls /\ frun ls f = Some f'.

Lemma advances_refl k f : advances k 0 f f.
Proof. by exists []. Qed.

Lemma advances_trans k n m f1 f2 f3 :
  advances k n f1 f2 -> advances k m f2 f3 -> advances k (n + m) f1 f3.
Proof.
  intros (ls1 & Hn & H1 & Hr1) (ls2 & Hm & H2 & Hr2). exists (ls1 ++ ls2).
  rewrite length_app, Forall_app, frun_app, Hr1. split_and!; [lia|done|done|done].
Qed.

Lemma advances_weaken k n m f f' : n <= m -> advances k n f f' -> advances k m f f'.
Proof. intros Hle (ls & Hn & Hf & Hr). exists ls. split_and!; [lia|done|done]. Qed.

Lemma advances_step k l f f' : feeds k l -> fstep l f = Some f' -> advances k 1 f f'.
Proof. intros Hf Hs. exists [l]. simpl. rewrite Hs. split_and!; [lia|by constructor|done]. Qed.

(** A step of the hub: the data planes stay as they are, up to a message more on a
    stream. *)
Definition is_send (l : hlabel) : bool := match l with HSent _ _ => true | _ => false end.

Lemma hub_step_advances hl f h' k p :
  hstep hl (cp_hub (fl_cp f)) = Some h' -> broadcasts [hl] = [] -> fl_peers f !! k = Some p ->
  exists f' p', advances k 1 f f' /\ fl_cp f' = mk_cp (cp_rec (fl_cp f)) h' /\ fl_peers f' !! k = Some p' /\
    pr_sys p' = pr_sys p /\ pr_conn p' = pr_conn p /\
    length (pr_wire p') <= length (pr_wire p) + (if is_send hl then 1 else 0).
Proof.
  intros Hs Hb Hk. assert (cpstep class (CHub hl) (fl_cp f) = Some (mk_cp (cp_rec (fl_cp f)) h')) as Hcp.
  { cbn [cpstep]. destruct hl; [done|..]; by rewrite Hs. }
  eexists _, (carry _ p). split_and!.
  - apply (advances_step k (FControl (CHub hl))); [done|]. cbn [fstep]. by rewrite Hcp.
  - done.
  - cbn [fl_peers]. by rewrite list_lookup_fmap, Hk.
  - apply carry_sys.
  - apply carry_conn.
  - destruct hl as [| | |id []| | |]; simpl; try lia. destruct (h_watchers _ !! id) as [w|]; simpl; [|lia].
    destruct (w_pc w); simpl; try lia. destruct (toPbSnapshot snap); simpl; [|lia].
    case_decide; simpl; rewrite ?length_app; simpl; lia.
Qed.

Lemma hub_advances hls f h' k p :
  hrun hls (cp_hub (fl_cp f)) = Some h' -> broadcasts hls = [] -> fl_peers f !! k = Some p ->
  exists f' p', advances k (length hls) f f' /\ fl_cp f' = mk_cp (cp_rec (fl_cp f)) h' /\
    fl_peers f' !! k = Some p' /\ pr_sys p' = pr_sys p /\ pr_conn p' = pr_conn p /\
    length (pr_wire p') <= length (pr_wire p) + length (List.filter is_send hls).
Proof.
  revert f p. induction hls as [|hl hls IH]; intros f p; cbn [hrun].
  { intros [= <-] _ Hk. exists f, p. split_and!; [apply advances_refl|by destruct f as [[]]|done..|simpl; lia]. }
  destruct (hstep hl _) as [h1|] eqn:E; [|done]. intros Hr Hb Hk.
  destruct (hub_step_advances hl f h1 k p E) as (f1 & p1 & Ha1 & Hc1 & Hk1 & Hs1 & Hn1 & Hw1); [by destruct hl|done|].
  destruct (IH f1 p1) as (f2 & p2 & Ha2 & Hc2 & Hk2 & Hs2 & Hn2 & Hw2); [by rewrite Hc1|by destruct hl|done|].
  exists f2, p2. rewrite Hc1 in Hc2. split_and!; [by eapply (advances_trans k 1)|done|done|congruence|congruence|].
  simpl. destruct (is_send hl); simpl in *; lia.
Qed.

(** A step of the manager task while no request holds the lock of the table. *)
Definition after_mgr (p : Peer) (c : Ctl) (wire : list Snapshot) : Peer :=
  mk_peer (mk_sys c (sy_threads (pr_sys p))) (pr_conn p) wire.
Definition unlocked (p : Peer) : Prop := existsb holds_lock (sy_threads (pr_sys p)) = false.

Lemma mgr_advances f k p l c wire :
  fl_peers f !! k = Some p -> unlocked p -> mstep addr l (sy_ctl (pr_sys p)) = Some c ->
  link (SCtl (Mgr l)) p = Some (pr_conn p, wire) ->
  advances k 1 f (mk_fleet (fl_cp f) (<[k := after_mgr p c wire]> (fl_peers f))).
Proof.
  intros Hk Hu Hs Hl. apply (advances_step k (FData k (SCtl (Mgr l)))); [done|].
  cbn [fstep sstep]. rewrite Hk, Hl, Hu, andb_false_r. cbn [cstep]. by rewrite Hs.
Qed.

(** The data plane [k] waits for the next message of its call. *)
Definition waits (f : Fleet) (k : nat) (cp : ControlPlane) (conn : option nat) (wire : list Snapshot) : Prop :=
  exists p c g, fl_cp f = cp /\ fl_peers f !! k = Some p /\ unlocked p /\
    pr_pc p = MStream c g /\ pr_conn p = conn /\ pr_wire p = wire.

(** One step of the manager task towards [after]. *)
Lemma mgr_step_then f k p l c wire n (after : Fleet -> Prop) :
  fl_peers f !! k = Some p -> unlocked p -> mstep addr l (sy_ctl (pr_sys p)) = Some c ->
  link (SCtl (Mgr l)) p = Some (pr_conn p, wire) ->
  (let p' := after_mgr p c wire in
   forall f', fl_cp f' = fl_cp f -> fl_peers f' !! k = Some p' -> unlocked p' ->
     exists f2, advances k n f' f2 /\ after f2) ->
  exists f2, advances k (S n) f f2 /\ after f2.
Proof.
  intros Hk Hu Hs Hl Hn. pose proof (mgr_advances f k p l c wire Hk Hu Hs Hl) as Ha.
  destruct (Hn _ (eq_refl : fl_cp (mk_fleet (fl_cp f) (<[k := after_mgr p c wire]> (fl_peers f))) = _)
    (list_lookup_insert_eq _ _ _ (lookup_lt_Some _ _ _ Hk)) Hu) as (f2 & Ha2 & H2).
  exists f2. split; [|done]. by eapply (advances_trans k 1).
Qed.

Lemma waits_now f k p c g : fl_peers f !! k = Some p -> unlocked p -> pr_pc p = MStream c g ->
  exists f2, advances k 0 f f2 /\ waits f2 k (fl_cp f) (pr_conn p) (pr_wire p).
Proof. intros Hk Hu Hp. exists f. split; [apply advances_refl|]. by exists p, c, g. Qed.

(** A snapshot whose installation is under way gets installed. *)
Lemma sni_settles f k p c g snap :
  fl_peers f !! k = Some p -> unlocked p -> pr_pc p = MStoreSni c g snap ->
  exists f2, advances k 1 f f2 /\ waits f2 k (fl_cp f) (pr_conn p) (pr_wire p).
Proof.
  intros Hk Hu Hp. eapply (mgr_step_then f k p LTau _ (pr_wire p)); [done|done| |done|].
  { unfold pr_pc in Hp. unfold mstep, stream_step. rewrite Hp. reflexivity. }
  intros p' f' Hcp Hk' Hu'. rewrite <-Hcp. by eapply (waits_now f' k p').
Qed.

Lemma table_settles f k p c g snap :
  fl_peers f !! k = Some p -> unlocked p -> pr_pc p = MBuildTable c g snap ->
  exists f2, advances k 2 f f2 /\ waits f2 k (fl_cp f) (pr_conn p) (pr_wire p).
Proof.
  intros Hk Hu Hp. eapply (mgr_step_then f k p LTau _ (pr_wire p)); [done|done| |done|].
  { unfold pr_pc in Hp. unfold mstep, stream_step. rewrite Hp.
    rewrite (surjective_pairing (new snap _)). reflexivity. }
  intros p' f' Hcp Hk' Hu'. rewrite <-Hcp. by eapply (sni_settles f' k p').
Qed.

Lemma call_settles f k p :
  fl_peers f !! k = Some p -> unlocked p -> in_call (pr_pc p) = true ->
  exists f2, advances k 2 f f2 /\ waits f2 k (fl_cp f) (pr_conn p) (pr_wire p).
Proof.
  intros Hk Hu Hc. destruct (pr_pc p) as [| | | | | |c|c g|c g snap|c g snap| |] eqn:Hp; try done.
  - destruct (mgr_step_then f k p LReady
      (set_mgr (set_app (sy_ctl (pr_sys p)) (mk_app true (ap_snapshot (cs_app (sy_ctl (pr_sys p))))
        (ap_route_table (cs_app (sy_ctl (pr_sys p)))) (ap_sni (cs_app (sy_ctl (pr_sys p))))
        (ap_heap (cs_app (sy_ctl (pr_sys p)))))) (MStream c false))
      (pr_wire p) 0 (fun f2 => waits f2 k (fl_cp f) (pr_conn p) (pr_wire p))) as (f2 & Ha & H2); try done.
    { unfold pr_pc in Hp. unfold mstep, watch_step. by rewrite Hp. }
    { intros p' f' Hcp Hk' Hu'. rewrite <-Hcp. by eapply (waits_now f' k p'). }
    exists f2. split; [|done]. eapply advances_weaken; [|done]. lia.
  - destruct (waits_now f k p c g Hk Hu Hp) as (f2 & Ha & H2). exists f2. split; [|done].
    eapply advances_weaken; [|done]. lia.
  - by eapply table_settles.
  - destruct (sni_settles f k p c g snap Hk Hu Hp) as (f2 & Ha & H2). exists f2. split; [|done].
    eapply advances_weaken; [|done]. lia.
Qed.

(** What is under way is received and installed. *)
Lemma wire_drains f k cp conn wire :
  waits f k cp conn wire -> exists f2, advances k (3 * length wire) f f2 /\ waits f2 k cp conn [].
Proof.
  revert f. induction wire as [|pb wire IH]; intros f (p & c & g & Hcp & Hk & Hu & Hp & Hc & Hw).
  { exists f. split; [apply advances_refl|]. by exists p, c, g. }
  assert (exists f1, advances k 3 f f1 /\ waits f1 k cp conn wire) as (f1 & Ha1 & H1).
  { eapply (mgr_step_then f k p (LMessage pb) _ wire 2); [done|done| | |].
    { unfold pr_pc in Hp. unfold mstep, stream_step. rewrite Hp. reflexivity. }
    { simpl. rewrite Hw. by rewrite decide_True. }
    intros p' f' Hcp' Hk' Hu'. rewrite <-Hcp, <-Hcp', <-Hc. by eapply (table_settles f' k p'). }
  destruct (IH f1 H1) as (f2 & Ha2 & H2). exists f2. split; [|done].
  replace (3 * length (pb :: wire)) with (3 + 3 * length wire) by (simpl; lia).
  by eapply advances_trans.
Qed.

(** The data plane [k] has installed the snapshot the reconciler holds. *)
Definition up_to_date (f : Fleet) (k : nat) : Prop :=
  exists p pb, fl_peers f !! k = Some p /\
    toPbSnapshot (currentSnapshot (cp_rec (fl_cp f))) = Some pb /\
    let a := cs_app (sy_ctl (pr_sys p)) in
    ap_ready a = true /\ ap_snapshot a = pb /\
    table_of (Some pb) (ap_route_table a) /\ sni_of (Some pb) (ap_sni a).

Lemma sys_ready ls s :
  srun addr iter ls sys_start = Some s ->
  streaming (mg_pc (cs_mgr (sy_ctl s))) = true -> ap_ready (cs_app (sy_ctl s)) = true.
Proof.
  revert ls s. apply (srun_invariant addr iter (fun _ s =>
    streaming (mg_pc (cs_mgr (sy_ctl s))) = true -> ap_ready (cs_app (sy_ctl s)) = true)); [done|].
  intros _ l s s' IH Hstep. destruct l as [l|req|i view|i|i net|i]; simpl in Hstep.
  - destruct (_ && _); [done|]. destruct (cstep addr l (sy_ctl s)) as [c|] eqn:E; [|done].
    injection Hstep as <-. simpl. step_cases E; auto.
  - injection Hstep as <-. auto.
  - unfold select_step in Hstep. repeat case_match; simplify_eq/=; auto.
  - repeat case_match; simplify_eq/=; auto.
  - repeat case_match; simplify_eq/=; auto.
  - repeat case_match; simplify_eq/=; auto.
Qed.

(** A data plane that waits on an empty stream holds what its watcher sent last. *)
Lemma waits_up_to_date ls f k id w :
  frun ls fleet_start = Some f -> waits f k (fl_cp f) (Some id) [] ->
  h_watchers (cp_hub (fl_cp f)) !! id = Some w ->
  last (w_sent w) = Some (currentSnapshot (cp_rec (fl_cp f))) -> up_to_date f k.
Proof.
  intros Hrun (p & c & g & _ & Hk & _ & Hp & Hc & Hw) Hwa Hl.
  pose proof (fleet_links ls f k Hrun) as Hok. pose proof (fleet_peer ls f k Hrun) as Hs.
  assert (peer f k = p) as Ep by (unfold peer; by rewrite Hk). rewrite Ep in *. clear Ep.
  unfold link_ok in Hok. rewrite Hc, Hw in Hok.
  destruct Hok as (_ & w' & earlier & now & Hw' & Hgot & Hm). rewrite app_nil_r in Hm. simplify_eq.
  destruct (last_mapM _ _ _ _ Hm Hl) as (pb & Hpb & Hlast).
  destruct (sys_cells addr iter _ _ Hs) as (_ & Hsnap & Htab & Hsni).
  pose proof (sys_ready _ _ Hs) as Hready.
  unfold pr_pc in Hp. fold (delivered k ls) in *. rewrite Hp, Hgot in *. unfold settled in *. simpl in *.
  rewrite last_app, Hlast in *. exists p, pb. by split_and!; auto.
Qed.

(** ** Delivery *)

Context {GL : GoSortLaws GS}.

(** What is on its way to a watcher can be sent. *)
Lemma pipeline_sendable cls cp id w :
  cprun class cls cp_start = Some cp -> Forall input_ok (inputs cls) -> h_watchers (cp_hub cp) !! id = Some w ->
  Forall (fun s => is_Some (toPbSnapshot s)) (pipeline (cp_hub cp) id w).
Proof using GL.
  intros Hcp Hins Hw. destruct (cp_simulation class cls cp Hcp) as (hls & Hh & _ & Hb).
  rewrite Forall_forall in Hb. rewrite Forall_forall in Hins. apply Forall_forall. intros s Hs.
  destruct (Hb s) as (i & ings & Hi & _ & Ht).
  { eapply elem_of_sublist; [done|]. by eapply pipeline_sublist. }
  eapply toPb_total; [|done]. by destruct (Hins i Hi).
Qed.

Lemma flush_sends h id w : length (List.filter is_send (flush h id w)) <= 3.
Proof.
  unfold flush, drain. rewrite !List.filter_app, !length_app.
  assert (forall n, List.filter is_send (replicate n HOffer) = []) as ->
    by (intros n; induction n as [|n IH]; [done|exact IH]).
  destruct (w_pc w), (w_ch w), (decide _); simpl; lia.
Qed.

(** A call to whose watcher the current snapshot is on its way. *)
Lemma call_catches_up ls f k p id w :
  frun ls fleet_start = Some f -> Forall input_ok (inputs (control_labels ls)) ->
  fl_peers f !! k = Some p -> unlocked p -> in_call (pr_pc p) = true -> pr_conn p = Some id ->
  h_watchers (cp_hub (fl_cp f)) !! id = Some w -> watching w = true ->
  last (pipeline (cp_hub (fl_cp f)) id w) = Some (currentSnapshot (cp_rec (fl_cp f))) ->
  exists f', advances k (16 + length (h_sending (cp_hub (fl_cp f))).2 + 3 * length (pr_wire p)) f f' /\
    cp_rec (fl_cp f') = cp_rec (fl_cp f) /\ up_to_date f' k.
Proof using GL.
  intros Hrun Hins Hk Hu Hc Hconn Hw Hwa Hlast. pose proof (fleet_control _ _ Hrun) as Hcp.
  destruct (cp_simulation class _ _ Hcp) as (hls & Hh & _).
  destruct (flush_run _ id w (hub_ok_run _ _ Hh) Hw Hwa) as (h' & w' & Hr & Hw' & Hs).
  { by eapply pipeline_sendable. }
  destruct (hub_advances _ f h' k p Hr (flush_quiet _ _ _) Hk) as (f1 & p1 & Ha1 & Hc1 & Hk1 & Hs1 & Hn1 & Hl1).
  destruct (call_settles f1 k p1) as (f2 & Ha2 & H2); [done|unfold unlocked; by rewrite Hs1|
    unfold pr_pc; by rewrite Hs1|].
  destruct (wire_drains f2 k _ _ _ H2) as (f3 & Ha3 & H3).
  pose proof (advances_trans k _ _ _ _ _ (advances_trans k _ _ _ _ _ Ha1 Ha2) Ha3) as (ls' & Hlen & Hfe & Hr').
  pose proof (flush_length (cp_hub (fl_cp f)) id w). pose proof (flush_sends (cp_hub (fl_cp f)) id w).
  assert (fl_cp f3 = fl_cp f1) as Hcp3 by (by destruct H3 as (? & ? & ? & ? & _)).
  exists f3. split_and!; [exists ls'; split_and!; [lia|done|done]|by rewrite Hcp3, Hc1|].
  apply (waits_up_to_date (ls ++ ls') f3 k id w').
  - by rewrite frun_app, Hrun.
  - by rewrite Hcp3, <-Hconn, <-Hn1.
  - by rewrite Hcp3, Hc1.
  - by rewrite Hcp3, Hc1, Hs.
Qed.

(** ** Reconnecting *)

(** The peer [k] is at [pc], with the call [conn] and nothing under way to it. *)
Definition stands (f : Fleet) (k : nat) (pc : mpc) (conn : option nat) : Prop :=
  exists p, fl_peers f !! k = Some p /\ unlocked p /\ pr_pc p = pc /\ pr_conn p = conn /\ pr_wire p = [].

(** The certificates are loaded, the address is valid, and nothing shuts down. *)
Definition can_dial (p : Peer) (conn : ClientTls) : Prop :=
  let c := sy_ctl (pr_sys p) in
  is_cancelled (cs_cancel c) = false /\
  connect_prepare addr (pm_ca (cs_pems c)) (pm_client (cs_pems c)) (pm_client_key (cs_pems c)) = inl conn.

(** From the sleep after a failure to the next call. *)
Lemma dial_advances f k p conn :
  fl_peers f !! k = Some p -> unlocked p -> pr_pc p = MBackoff -> pr_wire p = [] -> can_dial p conn ->
  exists f2, advances k 6 f f2 /\ fl_cp f2 = fl_cp f /\ stands f2 k (MWatch conn) (pr_conn p).
Proof.
  intros Hk Hu Hp Hw [Hcan Hprep]. unfold pr_pc in Hp.
  eapply (mgr_step_then f k p LSlept _ (pr_wire p) 5); [done|done| |done|].
  { unfold mstep, watch_step. rewrite Hp. reflexivity. }
  intros p1 f1 Hcp1 Hk1 Hu1. eapply (mgr_step_then f1 k p1 LTau _ (pr_wire p) 4); [done|done| |done|].
  { unfold mstep, connect_step. simpl. rewrite Hcan. reflexivity. }
  intros p2 f2 Hcp2 Hk2 Hu2.
  eapply (mgr_step_then f2 k p2 LTau _ (pr_wire p) 3); [done|done|reflexivity|done|].
  intros p3 f3 Hcp3 Hk3 Hu3.
  eapply (mgr_step_then f3 k p3 LTau _ (pr_wire p) 2); [done|done|reflexivity|done|].
  intros p4 f4 Hcp4 Hk4 Hu4.
  eapply (mgr_step_then f4 k p4 LTau _ (pr_wire p) 1); [done|done|reflexivity|done|].
  intros p5 f5 Hcp5 Hk5 Hu5.
  eapply (mgr_step_then f5 k p5 LDialOk _ (pr_wire p) 0); [done|done| |done|].
  { unfold mstep, connect_step. simpl. rewrite Hprep. reflexivity. }
  intros p6 f6 Hcp6 Hk6 Hu6. exists f6. split; [apply advances_refl|]. split; [congruence|].
  exists p6. by split_and!.
Qed.

(** The call arrives and is answered. *)
Lemma open_advances f k conn :
  stands f k (MWatch conn) None ->
  exists f2, advances k 2 f f2 /\
    fl_cp f2 = mk_cp (cp_rec (fl_cp f)) (StreamHub.Add (cp_hub (fl_cp f))) /\
    stands f2 k (MSetReady conn) (Some (length (h_watchers (cp_hub (fl_cp f))))).
Proof.
  intros (p & Hk & Hu & Hp & Hc & Hw).
  set (id := length (h_watchers (cp_hub (fl_cp f)))).
  set (f1 := mk_fleet (mk_cp (cp_rec (fl_cp f)) (StreamHub.Add (cp_hub (fl_cp f))))
    (<[k := mk_peer (pr_sys p) (Some id) []]> (fl_peers f))).
  assert (advances k 1 f f1) as Ha.
  { apply (advances_step k (FOpen k)); [done|]. cbn [fstep]. rewrite Hk, cpstep_add.
    unfold calling. rewrite Hp, Hc. done. }
  set (p1 := mk_peer (pr_sys p) (Some id) []).
  assert (fl_peers f1 !! k = Some p1) as Hk1.
  { simpl. rewrite list_lookup_insert_eq; [done|]. by eapply lookup_lt_Some. }
  destruct (mgr_step_then f1 k p1 LWatchOk (set_mgr (sy_ctl (pr_sys p)) (MSetReady conn)) [] 0
    (fun f2 => fl_cp f2 = fl_cp f1 /\ stands f2 k (MSetReady conn) (Some id)))
    as (f2 & Ha2 & Hcp & Hst); [done|done| |done| |].
  { unfold pr_pc in Hp. unfold mstep, watch_step. simpl. by rewrite Hp. }
  { intros p' f' Hcp Hk' Hu'. exists f'. split; [apply advances_refl|]. split; [done|].
    exists p'. by split_and!. }
  exists f2. split; [by eapply (advances_trans k 1 1)|]. by rewrite Hcp.
Qed.

(** These steps reconcile nothing. *)
Lemma feeds_inputs k ls ls' :
  Forall (feeds k) ls' -> inputs (control_labels (ls ++ ls')) = inputs (control_labels ls).
Proof.
  intros Hf. unfold inputs, control_labels. rewrite !omap_app.
  etrans; [|apply app_nil_r]. f_equal.
  induction Hf as [|l ls' Hl _ IH]; [done|]. destruct l as [[]| | |]; [done|exact IH|done|exact IH|exact IH].
Qed.

(** A new watcher starts with the current snapshot on its way. *)
Lemma new_watcher cls cp :
  cprun class cls cp_start = Some cp -> lastVersion (cp_rec cp) <> [] ->
  exists w, h_watchers (StreamHub.Add (cp_hub cp)) !! length (h_watchers (cp_hub cp)) = Some w /\
    watching w = true /\
    pipeline (StreamHub.Add (cp_hub cp)) (length (h_watchers (cp_hub cp))) w = [currentSnapshot (cp_rec cp)].
Proof.
  intros Hcp Hv. destruct (current_built class _ _ Hcp) as [Hlast Hb]. destruct (Hb Hv) as [Hver _].
  destruct (cp_simulation class _ _ Hcp) as (hls & Hh & _). pose proof (hub_ok_run _ _ Hh) as Hok.
  assert (is_Some (h_watchers (StreamHub.Add (cp_hub cp)) !! length (h_watchers (cp_hub cp)))) as [w Hw].
  { apply lookup_lt_is_Some. rewrite Add_length. lia. }
  destruct (Add_pipeline _ _ w Hok (lookup_ge_None_2 _ _ (le_n _)) Hw) as [Hp Hwa].
  exists w. split_and!; [done|done|]. by rewrite Hp, Hlast, decide_False.
Qed.

(** A call that ended leaves nothing behind. *)
Lemma no_call ls f k p :
  frun ls fleet_start = Some f -> fl_peers f !! k = Some p -> has_call (pr_pc p) = false ->
  pr_conn p = None /\ pr_wire p = [].
Proof.
  intros Hrun Hk Hc. pose proof (fleet_links ls f k Hrun) as Hl.
  assert (peer f k = p) as Ep by (unfold peer; by rewrite Hk). rewrite Ep in Hl. unfold link_ok in Hl.
  destruct (pr_conn p); [destruct Hl; congruence|]. by destruct Hl.
Qed.

End fleet.

(** ** Properties *)

Section properties.
Context {HT : Http} {RT : Rustls} {TK : Tokio} {GS : GoSort} {GL : GoSortLaws GS} {LB : Libs}
  (class addr : rstr) (iter : gmap EndpointKey loc -> list (EndpointKey * loc)).

(** C1. From the cluster to the request, with nothing assumed of the network: in
    every run of the control plane with any number of data planes that come, go,
    lose their streams and reconnect, and any number of concurrent requests,
    whenever a request is given an endpoint, that endpoint was, for some
    reconciliation of the run, a ready address of an EndpointSlice of the service
    behind an Ingress path with the route's cluster name. *)
Theorem requests_reach_ready_backends (ls : list flabel) (f f' : Fleet) (k j : nat) (view : heap) (p : Peer)
    (req : Request Incoming) (host : rstr) (rule : RouteRule) (cr : ClusterRule) (sel : SelectedEndpoint) :
  frun class addr iter ls fleet_start = Some f -> Forall input_ok (inputs (control_labels ls)) ->
  fstep class addr iter (FData k (SSelect j view)) f = Some f' ->
  fl_peers f' !! k = Some p ->
  sy_threads (pr_sys p) !! j = Some (TSelected req host rule cr sel) ->
  exists i, i ∈ inputs (control_labels ls) /\ ready_backend class i (rr_cluster rule) (se_endpoint sel).
Proof using GL.
  intros Hrun Hins Hstep Hk Hth.
  pose proof (fstep_peer class addr iter _ _ _ k Hstep) as Hp. simpl in Hp. rewrite decide_True in Hp by done.
  destruct Hp as (conn & wire & s & _ & Hs & Ep). unfold peer in Ep. rewrite Hk in Ep. simpl in Ep. subst p.
  eapply (selection_backed HT RT TK addr iter class _ _ _ (pr_sys (peer f k)) s j view); [|done| | | |done].
  - by eapply fleet_control.
  - by eapply fleet_peer.
  - intros pb. by eapply fleet_delivered.
  - done.
Qed.

(** C9. Certificates come from the Ingresses: in every run, whatever a data plane
    presents for a name is its default certificate or that of a Secret which an
    Ingress of the class names in a TLS section that lists the name or its
    wildcard, the Secret being in the Ingress's own namespace, as some
    reconciliation read them. *)
Theorem certificates_from_ingresses (ls : list flabel) (f : Fleet) (k : nat) (p : Peer)
    (dflt : CertifiedKey) (n : rstr) (ck : CertifiedKey) :
  frun class addr iter ls fleet_start = Some f -> Forall input_ok (inputs (control_labels ls)) ->
  fl_peers f !! k = Some p ->
  resolve_cert {| dr_map := ap_sni (cs_app (sy_ctl (pr_sys p))); dr_default := dflt |} (Some n) = Some ck ->
  ck = dflt \/
  exists i b name, i ∈ inputs (control_labels ls) /\ ingress_bundle class i b /\
    covers_name n name /\ name ∈ tls_sni b /\ bundle_key b = Some ck.
Proof using GL.
  intros Hrun Hins Hk Hck. pose proof (fleet_peer class addr iter ls f k Hrun) as Hs.
  unfold peer in Hs. rewrite Hk in Hs.
  destruct (sys_cells addr iter _ _ Hs) as (_ & _ & _ & Hsni).
  eapply certificates_backed; [by eapply fleet_control|done| |exact Hsni|done].
  intros pb. by eapply fleet_delivered.
Qed.


(** C2. Reconnecting heals, also a data plane to which snapshots were lost: from every
    reachable state, a data plane that sleeps after any failure of its call, with
    its certificates loaded, is at most 24 steps and the remaining offers of the
    broadcast under way from serving the current snapshot, if there is one. *)
Theorem reconnection_heals (ls : list flabel) (f : Fleet) (k : nat) (p : Peer) (conn : ClientTls) :
  frun class addr iter ls fleet_start = Some f -> Forall input_ok (inputs (control_labels ls)) ->
  lastVersion (cp_rec (fl_cp f)) <> [] ->
  fl_peers f !! k = Some p -> unlocked p -> pr_pc p = MBackoff -> can_dial addr p conn ->
  exists ls' f', Forall (feeds k) ls' /\
    length ls' <= 24 + length (h_sending (cp_hub (fl_cp f))).2 /\
    frun class addr iter ls' f = Some f' /\ cp_rec (fl_cp f') = cp_rec (fl_cp f) /\ up_to_date f' k.
Proof using GL.
  intros Hrun Hins Hv Hk Hu Hp Hcan.
  destruct (no_call class addr iter ls f k p Hrun Hk) as [Hn Hw]; [by rewrite Hp|].
  destruct (dial_advances class addr iter f k p conn) as (f1 & Ha1 & Hc1 & H1); try done. rewrite Hn in H1.
  destruct (open_advances class addr iter f1 k conn H1) as (f2 & Ha2 & Hc2 & p2 & Hk2 & Hu2 & Hp2 & Hn2 & Hw2).
  destruct (advances_trans class addr iter k 6 2 f f1 f2 Ha1 Ha2) as (ls2 & Hlen2 & Hf2 & Hr2).
  destruct (new_watcher class _ _ (fleet_control class addr iter ls f Hrun) Hv) as (w & Hwl & Hwa & Hpi).
  rewrite Hc1 in *.
  destruct (call_catches_up class addr iter (ls ++ ls2) f2 k p2 (length (h_watchers (cp_hub (fl_cp f)))) w)
    as (f3 & (ls3 & Hlen3 & Hf3 & Hr3) & Hrec & Hup); rewrite ?Hc2; try done.
  { by rewrite frun_app, Hrun. }
  { by rewrite (feeds_inputs k). }
  { by rewrite Hp2. }
  { cbn [cp_hub cp_rec]. by rewrite Hpi. }
  exists (ls2 ++ ls3), f3. rewrite Hc2 in *. rewrite Hw2 in Hlen3. simpl in Hlen3.
  split_and!; [by apply Forall_app|rewrite length_app; lia|by rewrite frun_app, Hr2|by rewrite Hrec|done].
Qed.


End properties.

(** ** Witnesses *)

#[local] Existing Instance simple_http.
#[local] Existing Instance CertDemo.tls.
#[local] Existing Instance WatchDemo.tokio.
#[local] Existing Instance KubeDemo.libs.

Module FleetDemo.

Abbreviation class := KubeDemo.class (only parsing).
Abbreviation frun_demo := (frun KubeDemo.class WatchDemo.addr HandlerDemo.iter) (only parsing).
Definition step_all (ls : list flabel) (f : Fleet) : Fleet := default f (frun_demo ls f).

Lemma fleet_step_all_runs ls f :
  (if frun_demo ls f is Some _ then true else false) = true -> frun_demo ls f = Some (step_all ls f).
Proof. unfold step_all. by destruct (frun_demo ls f). Qed.

Lemma demo_app ls1 ls2 f f1 : frun_demo ls1 f = Some f1 -> frun_demo (ls1 ++ ls2) f = frun_demo ls2 f1.
Proof. rewrite frun_app. intros ->. reflexivity. Qed.

Definition mgr (l : mlabel) : flabel := FData 0 (SCtl (Mgr l)).

(** Two data planes start, and one of them connects; the demo cluster is
    reconciled. *)
Definition boot : list flabel :=
  [FJoin; FJoin] ++ (FData 0 ∘ SCtl <$> schedule_load) ++ (mgr <$> [LTau; LTau; LTau; LTau; LDialOk])
  ++ [FOpen 0; mgr LWatchOk; mgr LReady].
Definition reconcile : flabel := FControl (CReconcile (CpDemo.input KubeDemo.cluster0) [0]).
Definition booted : Fleet := step_all boot fleet_start.
Definition waiting : Fleet := mk_fleet
  (mk_cp KubeDemo.reconciled (mk_hub {[0]} KubeDemo.snapshot [mk_watcher WSelect None []] (KubeDemo.snapshot, [0])))
  (fl_peers booted).

Lemma boot_runs : frun_demo boot fleet_start = Some booted.
Proof. apply fleet_step_all_runs. vm_compute. reflexivity. Qed.

Lemma booted_cp : fl_cp booted
  = mk_cp reconciler_start (mk_hub {[0]} model.Snapshot_zero [mk_watcher WSelect None []] (model.Snapshot_zero, [])).
Proof. vm_compute. reflexivity. Qed.

Lemma reconcile_runs : fstep class WatchDemo.addr HandlerDemo.iter reconcile booted = Some waiting.
Proof.
  unfold fstep, reconcile. rewrite booted_cp.
  rewrite (CpDemo.reconcile_step _ _ _ KubeDemo.reconciled_broadcast) by reflexivity.
  unfold hstep. rewrite decide_True by (split; reflexivity). cbn [fmap option_fmap option_map].
  unfold waiting. generalize (fl_peers booted). intros ps. cbn [sent_message].
  change (carry None) with (@id Peer). rewrite list_fmap_id. reflexivity.
Qed.

Definition wait : list flabel := boot ++ [reconcile].
Lemma wait_runs : frun_demo wait fleet_start = Some waiting.
Proof.
  unfold wait. rewrite (demo_app _ _ _ _ boot_runs). cbn [frun].
  rewrite reconcile_runs. reflexivity.
Qed.

(** The snapshot is delivered and installed, and a request arrives and selects. *)
Definition deliver : list flabel :=
  [FControl (CHub HOffer); FControl (CHub (HReceive 0)); FControl (CHub (HSent 0 true));
   mgr (LMessage EndDemo.message); mgr LTau; mgr LTau; FData 0 (SArrive (RequestDemo.request "/api"))].
Definition delivered_fleet : Fleet := step_all deliver waiting.
Definition view : heap := sy_heap (pr_sys (peer delivered_fleet 0)).
Definition select : flabel := FData 0 (SSelect 0 view).
Definition selected_fleet : Fleet := step_all [select] delivered_fleet.

(** Or the stream breaks first. *)
Definition broken : Fleet := step_all [mgr LStreamErr] waiting.

Lemma extend_runs ls :
  (if frun_demo ls waiting is Some _ then true else false) = true ->
  frun_demo (wait ++ ls) fleet_start = Some (step_all ls waiting).
Proof.
  intros Ht. rewrite (demo_app _ _ _ _ wait_runs). exact (fleet_step_all_runs ls waiting Ht).
Qed.

Lemma deliver_runs : frun_demo (wait ++ deliver) fleet_start = Some delivered_fleet.
Proof. apply extend_runs. vm_compute. reflexivity. Qed.

Lemma broken_runs : frun_demo (wait ++ [mgr LStreamErr]) fleet_start = Some broken.
Proof. apply extend_runs. vm_compute. reflexivity. Qed.

Lemma wait_inputs ls :
  inputs (control_labels ls) = [] -> Forall input_ok (inputs (control_labels (wait ++ ls))).
Proof.
  unfold control_labels, inputs. rewrite !omap_app. intros ->. rewrite app_nil_r.
  constructor; [exact EndDemo.input_is_ok|constructor].
Qed.

Lemma peer_exists f k (P : Peer -> Prop) :
  (if fl_peers f !! k is Some _ then true else false) = true -> P (peer f k) ->
  exists p, fl_peers f !! k = Some p /\ P p.
Proof. unfold peer. destruct (fl_peers f !! k) as [p|]; [|done]. by exists p. Qed.

Lemma select_runs_fleet :
  fstep class WatchDemo.addr HandlerDemo.iter select delivered_fleet = Some selected_fleet.
Proof.
  assert (frun_demo [select] delivered_fleet = Some selected_fleet) as H
    by (apply fleet_step_all_runs; vm_compute; reflexivity).
  revert H. cbn [frun]. by destruct (fstep _ _ _ select delivered_fleet).
Qed.

Definition selects (o : option thread) : bool :=
  match o with Some (TSelected _ _ _ _ _) => true | _ => false end.

Lemma fleet_selected_thread :
  exists p req host rule cr sel, fl_peers selected_fleet !! 0 = Some p /\
    sy_threads (pr_sys p) !! 0 = Some (TSelected req host rule cr sel).
Proof.
  destruct (peer_exists selected_fleet 0 (fun p => selects (sy_threads (pr_sys p) !! 0) = true))
    as (p & Hp & Hs); [vm_compute; reflexivity..|].
  destruct (sy_threads (pr_sys p) !! 0) as [[|req host rule cr sel| | |]|] eqn:E; try discriminate Hs.
  exists p, req, host, rule, cr, sel. split; [exact Hp|exact E].
Qed.

Lemma waiting_peer :
  exists p, fl_peers waiting !! 0 = Some p /\ unlocked p /\ in_call (pr_pc p) = true /\
    pr_conn p = Some 0 /\ pr_wire p = [].
Proof. apply peer_exists; [vm_compute; reflexivity|]. repeat split; vm_compute; reflexivity. Qed.

Lemma broken_peer :
  exists p conn, fl_peers broken !! 0 = Some p /\ unlocked p /\ pr_pc p = MBackoff /\
    can_dial WatchDemo.addr p conn /\ (h_sending (cp_hub (fl_cp broken))).2 = [0] /\
    lastVersion (cp_rec (fl_cp broken)) <> [].
Proof.
  destruct (peer_exists broken 0 (fun p => unlocked p /\ pr_pc p = MBackoff /\
    can_dial WatchDemo.addr p (mk_tls [1%N] [2%N] [3%N] (str "127.0.0.1"))))
    as (p & Hp & Hu & Hc & Hd); [vm_compute; reflexivity|repeat split; vm_compute; reflexivity|].
  exists p, (mk_tls [1%N] [2%N] [3%N] (str "127.0.0.1")). split_and!; try assumption; vm_compute; [reflexivity|].
  discriminate.
Qed.

Lemma delivered_version : lastVersion (cp_rec (fl_cp delivered_fleet)) <> [].
Proof. vm_compute. discriminate. Qed.

Definition streams (pc : mpc) : bool := match pc with MStream _ _ => true | _ => false end.

Lemma delivered_up_to_date : up_to_date delivered_fleet 0.
Proof.
  destruct (peer_exists delivered_fleet 0 (fun p => unlocked p /\ streams (pr_pc p) = true /\
    pr_conn p = Some 0 /\ pr_wire p = []))
    as (p & Hp & Hu & Hs & Hc & Hw); [vm_compute; reflexivity|repeat split; vm_compute; reflexivity|].
  destruct (pr_pc p) as [| | | | | | |c g| | | |] eqn:E; try discriminate Hs.
  apply (waits_up_to_date class WatchDemo.addr HandlerDemo.iter _ _ 0 0 CpDemo.watcher deliver_runs).
  - exists p, c, g. by split_and!.
  - vm_compute. reflexivity.
  - vm_compute. reflexivity.
Qed.

End FleetDemo.

Lemma requests_reach_ready_backends_witness :
  exists p req host rule cr sel,
    fl_peers FleetDemo.selected_fleet !! 0 = Some p /\
    sy_threads (pr_sys p) !! 0 = Some (TSelected req host rule cr sel) /\
    exists i, i ∈ inputs (control_labels (FleetDemo.wait ++ FleetDemo.deliver)) /\
      ready_backend KubeDemo.class i (rr_cluster rule) (se_endpoint sel).
Proof.
  destruct FleetDemo.fleet_selected_thread as (p & req & host & rule & cr & sel & Hp & Hth).
  exists p, req, host, rule, cr, sel. split; [exact Hp|]. split; [exact Hth|].
  refine (requests_reach_ready_backends KubeDemo.class WatchDemo.addr HandlerDemo.iter _
    FleetDemo.delivered_fleet FleetDemo.selected_fleet 0 0 _ p req host rule cr sel
    FleetDemo.deliver_runs _ FleetDemo.select_runs_fleet Hp Hth).
  apply FleetDemo.wait_inputs. reflexivity.
Defined.

Lemma certificates_from_ingresses_witness :
  exists i b name, i ∈ inputs (control_labels (FleetDemo.wait ++ FleetDemo.deliver)) /\
    ingress_bundle KubeDemo.class i b /\
    covers_name (str "Demo.Local") name /\ name ∈ tls_sni b /\ bundle_key b = Some TlsDemo.key.
Proof.
  assert (exists p, fl_peers FleetDemo.delivered_fleet !! 0 = Some p /\
    resolve_cert {| dr_map := ap_sni (cs_app (sy_ctl (pr_sys p))); dr_default := CertDemo.key 7 |}
      (Some (str "Demo.Local")) = Some TlsDemo.key) as (p & Hp & Hr).
  { apply FleetDemo.peer_exists. vm_compute. reflexivity. vm_compute. reflexivity. }
  destruct (certificates_from_ingresses KubeDemo.class WatchDemo.addr HandlerDemo.iter _
    FleetDemo.delivered_fleet 0 p (CertDemo.key 7) (str "Demo.Local") TlsDemo.key
    FleetDemo.deliver_runs (FleetDemo.wait_inputs FleetDemo.deliver eq_refl) Hp Hr)
    as [E|H]; [discriminate E|exact H].
Defined.


Lemma reconnection_heals_witness :
  exists ls' f', Forall (feeds 0) ls' /\ length ls' <= 25 /\
    frun KubeDemo.class WatchDemo.addr HandlerDemo.iter ls' FleetDemo.broken = Some f' /\ up_to_date f' 0.
Proof.
  destruct FleetDemo.broken_peer as (p & conn & Hp & Hu & Hc & Hd & Hs & Hv).
  destruct (reconnection_heals KubeDemo.class WatchDemo.addr HandlerDemo.iter _
    FleetDemo.broken 0 p conn FleetDemo.broken_runs
    (FleetDemo.wait_inputs [FleetDemo.mgr LStreamErr] eq_refl) Hv Hp Hu Hc Hd)
    as (ls' & f' & Hf & Hl & Hr & _ & Hup).
  exists ls', f'. split; [exact Hf|]. split; [rewrite Hs in Hl; exact Hl|]. split; [exact Hr|exact Hup].
Defined.

