(* ===== verification/Gateway.v ===== *)
(** The controller for the Gateway API
    (src/images/controlplane/internal/controller/gateway_controller.go, with the
    snapshot types of internal/model/gw_snapshot.go and the resolver of
    resolver.go): work in progress that [main] does not set up. What it reads
    becomes snapshots of gateways, listeners and certificates; routes are listed
    but not used yet. The unused local [listHTTPRoutes] and the unused loop
    variable [hostname] of the source, which the Go compiler rejects, are left
    out. *)

From stdpp Require Import base gmap list strings sorting.
From Stdlib Require Import NArith ZArith Lia.
From S2P Require Import Prelude RustStr GoLib Sha256 Model Reconciling.

(** ** Objects of the Gateway API *)

Module gwapi.

Record SecretObjectReference := {
  SOR_Group : option rstr; SOR_Kind : option rstr; SOR_Name : rstr; SOR_Namespace : option rstr }.
Record ListenerTLSConfig := { LT_Mode : option rstr; LT_CertificateRefs : list SecretObjectReference }.
Record Listener := {
  L_Name : rstr; L_Port : Z; L_Protocol : rstr; L_Hostname : option rstr; L_TLS : option ListenerTLSConfig }.
Record GatewayStatusAddress := { GA_Type : option rstr; GA_Value : rstr }.
Record Gateway := {
  Gw_Name : rstr; Gw_Namespace : rstr; Gw_GatewayClassName : rstr;
  Gw_Listeners : list Listener; Gw_Addresses : list GatewayStatusAddress }.
Record ParentReference := {
  PR_Group : option rstr; PR_Kind : option rstr; PR_Namespace : option rstr; PR_Name : rstr }.
Record HTTPRoute := {
  HR_Name : rstr; HR_Namespace : rstr; HR_ParentRefs : list ParentReference; HR_Hostnames : list rstr }.

Definition IPAddressType : rstr := str "IPAddress".
Definition HostnameAddressType : rstr := str "Hostname".
Definition NamedAddressType : rstr := str "NamedAddress".
Definition TLSModeTerminate : rstr := str "Terminate".
Definition GroupName : rstr := str "gateway.networking.k8s.io".

End gwapi.

(** ** Outcomes *)

Inductive gw_error :=
  | NilGateway | NoListeners | NoAddresses | InvalidIP | Unresolved | UnsupportedAddressType
  | UnsupportedKind | UnsupportedGroup | SecretError | MissingData | BadPem | BadCertificate
  | ListError | NoGateways.

(** A function of the controller returns, returns an error, or panics. *)
Inductive outcome (A : Type) :=
  | Ok (a : A)
  | Error (e : gw_error)
  | Panic.
Arguments Ok {A} a.
Arguments Error {A} e.
Arguments Panic {A}.

Definition and_then {A B} (o : outcome A) (k : A -> outcome B) : outcome B :=
  match o with Ok a => k a | Error e => Error e | Panic => Panic end.
Notation "'let?' x := o 'in' k" := (and_then o (fun x => k))
  (at level 10, x binder, k at level 200).

Definition or_error {A} (e : gw_error) (o : option A) : outcome A :=
  match o with Some a => Ok a | None => Error e end.

(** [for _, x := range l { y, err := f(x); if err != nil { return err }; ys = append(ys, y) }] *)
Fixpoint collect {A B} (f : A -> outcome B) (l : list A) : outcome (list B) :=
  match l with
  | [] => Ok []
  | x :: l' => let? y := f x in let? ys := collect f l' in Ok (y :: ys)
  end.

Lemma collect_Ok {A B} (f : A -> outcome B) l ys :
  collect f l = Ok ys <-> Forall2 (fun x y => f x = Ok y) l ys.
Proof.
  revert ys. induction l as [|x l IH]; intros ys; simpl.
  { split; [intros [= <-]; constructor|by intros ->%Forall2_nil_inv_l]. }
  destruct (f x) as [y|e|] eqn:E; simpl; [|split; [done|intros H; inversion H; congruence]..].
  destruct (collect f l) as [zs|e|]; simpl; split; try done.
  - intros [= <-]. constructor; [done|by apply IH].
  - intros H. inversion_clear H as [|?? ? ? H1 H2]. apply IH in H2. congruence.
  - intros H. inversion_clear H as [|?? ? ? H1 H2]. by apply IH in H2.
  - intros H. inversion_clear H as [|?? ? ? H1 H2]. by apply IH in H2.
Qed.

(** ** Environment *)

(** How a call ends that was given a nil pointer for its result. *)
Inductive nil_call := Returned | Failed | Panicked.

(** [netip.ParseAddr], the DNS resolver, and the client's lists for this controller;
    Secrets are read with the client of the Ingress controller. *)
Class GatewayLibs := {
  netip_Addr : Type;
  netip_ParseAddr : rstr -> option netip_Addr;
  LookupNetIP : rstr -> option (list netip_Addr);
  List_Gateway : rstr -> option (list gwapi.Gateway);
  List_HTTPRoute_into_nil : rstr -> nil_call;
}.

Section gateway.
Context {LB : Libs} {GB : GatewayLibs} (c : Client).

(** ** Snapshots *)

(** [AllowedRoutes] keeps its zero value and has no field here. *)
Record ListenerSnapshot := {
  LS_Name : rstr; LS_Port : Z; LS_Protocol : rstr; LS_Hostname : option rstr;
  LS_TLSMode : option rstr; LS_Certificates : list gwapi.SecretObjectReference }.
Record GatewaySnapshot := {
  GS_Name : rstr; GS_Namespace : rstr; GS_Addresses : list netip_Addr;
  GS_Listeners : list ListenerSnapshot; GS_TLS : list model.TLSSecret }.

(** ** Addresses *)

Definition ResolveNamed (name : rstr) : option (list netip_Addr) := LookupNetIP name.

Definition address_ips (addr : gwapi.GatewayStatusAddress) : outcome (list netip_Addr) :=
  let addrType := default gwapi.IPAddressType (gwapi.GA_Type addr) in
  if decide (addrType = gwapi.IPAddressType) then
    let? ip := or_error InvalidIP (netip_ParseAddr (gwapi.GA_Value addr)) in Ok [ip]
  else if decide (addrType = gwapi.HostnameAddressType \/ addrType = gwapi.NamedAddressType) then
    or_error Unresolved (ResolveNamed (gwapi.GA_Value addr))
  else Error UnsupportedAddressType.

Definition getAddressesFromGateway (gw : option gwapi.Gateway) : outcome (list netip_Addr) :=
  match gw with
  | None => Error NilGateway
  | Some gw =>
      if bool_decide (gwapi.Gw_Addresses gw = []) then Error NoAddresses
      else let? ips := collect address_ips (gwapi.Gw_Addresses gw) in Ok (concat ips)
  end.

(** ** Listeners *)

Definition buildTLSSecretFromRef (gatewayNamespace : rstr) (ref : gwapi.SecretObjectReference)
    (sni : list rstr) : outcome model.TLSSecret :=
  if bool_decide (default (str "Secret") (gwapi.SOR_Kind ref) <> str "Secret") then Error UnsupportedKind else
  if bool_decide (default [] (gwapi.SOR_Group ref) <> []) then Error UnsupportedGroup else
  let namespace :=
    match gwapi.SOR_Namespace ref with
    | Some ns => if Str.is_empty ns then gatewayNamespace else ns
    | None => gatewayNamespace
    end in
  let? secret := or_error SecretError (Get_Secret c namespace (gwapi.SOR_Name ref)) in
  let crt := default [] (kube.Sec_Data secret !! str "tls.crt") in
  let key := default [] (kube.Sec_Data secret !! str "tls.key") in
  if bool_decide (crt = []) || bool_decide (key = []) then Error MissingData else
  let? block := or_error BadPem (pem_Decode crt) in
  match x509_ParseCertificates block with
  | Some (notAfter :: _) => Ok {|
      model.TLS_Name := namespace ++ str "/" ++ gwapi.SOR_Name ref;
      model.TLS_Sni := sni;
      model.TLS_CertPem := crt;
      model.TLS_KeyPem := key;
      model.TLS_NotAfterUnix := notAfter;
      model.TLS_Version := hex_sha256 (crt ++ key) |}
  | _ => Error BadCertificate
  end.

Definition parseListener (gw : gwapi.Gateway) (listener : gwapi.Listener)
    : outcome (ListenerSnapshot * list model.TLSSecret) :=
  let snapshot mode refs := {|
    LS_Name := gwapi.L_Name listener;
    LS_Port := Go.int32 (gwapi.L_Port listener);
    LS_Protocol := gwapi.L_Protocol listener;
    LS_Hostname := gwapi.L_Hostname listener;
    LS_TLSMode := mode;
    LS_Certificates := refs |} in
  match gwapi.L_TLS listener with
  | None => Ok (snapshot None [], [])
  | Some tls =>
      let snap := snapshot (gwapi.LT_Mode tls) (gwapi.LT_CertificateRefs tls) in
      if decide (default gwapi.TLSModeTerminate (gwapi.LT_Mode tls) = gwapi.TLSModeTerminate) then
        let sni := option_list (gwapi.L_Hostname listener) in
        let? bundles := collect (fun ref => buildTLSSecretFromRef (gwapi.Gw_Namespace gw) ref sni)
                          (gwapi.LT_CertificateRefs tls) in
        Ok (snap, bundles)
      else Ok (snap, [])
  end.

(** ** Routes *)

(** [client.ObjectKey.String]. *)
Definition ObjectKey_String (namespace name : rstr) : rstr := namespace ++ str "/" ++ name.

(** The list the client is to fill is a nil pointer, and stays one. *)
Definition getHTTPRoutesForGateway (gatewayName : rstr) : outcome (list gwapi.HTTPRoute) :=
  match List_HTTPRoute_into_nil gatewayName with
  | Failed => Error ListError
  | Panicked => Panic
  | Returned => Panic
  end.

(** One iteration of the loop of the index function of [setupHTTPRouteCache]. *)
Definition parent_key (routeNamespace : rstr) (ref : gwapi.ParentReference) : option rstr :=
  if negb (bool_decide (default gwapi.GroupName (gwapi.PR_Group ref) = gwapi.GroupName)
           && bool_decide (default (str "Gateway") (gwapi.PR_Kind ref) = str "Gateway")) then None
  else if Str.is_empty (gwapi.PR_Name ref) then None
  else
    let namespace :=
      match gwapi.PR_Namespace ref with
      | Some ns => if Str.is_empty ns then routeNamespace else ns
      | None => routeNamespace
      end in
    Some (namespace ++ gwapi.PR_Name ref).
Definition httpRouteParentRefIndex (route : gwapi.HTTPRoute) : list rstr :=
  omap (parent_key (gwapi.HR_Namespace route)) (gwapi.HR_ParentRefs route).

(** [buildRoutes] goes over the routes and their host names without using them. *)
Definition buildRoutes (parentGWSnapshot : GatewaySnapshot) (httpRoutes : option (list gwapi.HTTPRoute))
    : outcome (list model.Route) :=
  match httpRoutes with
  | None => Panic
  | Some items => Ok (fold_left (fun routes hr => fold_left (fun routes _ => routes)
                                                    (gwapi.HR_Hostnames hr) routes) items [])
  end.

Definition gatewayClassIndex (gw : gwapi.Gateway) : list rstr :=
  if Str.is_empty (gwapi.Gw_GatewayClassName gw) then [] else [gwapi.Gw_GatewayClassName gw].

(** ** The controller *)

Definition gateway_snap (gw : gwapi.Gateway) : outcome GatewaySnapshot :=
  if bool_decide (gwapi.Gw_Listeners gw = []) then Error NoListeners else
  let? addresses := getAddressesFromGateway (Some gw) in
  let? listeners := collect (parseListener gw) (gwapi.Gw_Listeners gw) in
  let? _ := getHTTPRoutesForGateway (ObjectKey_String (gwapi.Gw_Namespace gw) (gwapi.Gw_Name gw)) in
  Ok {| GS_Name := gwapi.Gw_Name gw; GS_Namespace := gwapi.Gw_Namespace gw;
        GS_Addresses := addresses; GS_Listeners := fst <$> listeners;
        GS_TLS := concat (snd <$> listeners) |}.

Definition gatewayListToSnap (gws : list gwapi.Gateway) : outcome (list GatewaySnapshot) :=
  let? snapshots := collect gateway_snap gws in
  if bool_decide (snapshots = []) then Error NoGateways else Ok snapshots.

Definition gateway_Reconcile (gatewayClass : rstr) : outcome unit :=
  let? gws := or_error ListError (List_Gateway gatewayClass) in
  let? _ := gatewayListToSnap gws in Ok tt.

(** The predicates of [SetupGatewayController]: which changes of Gateways and of
    GatewayClasses (by name) start a reconciliation. *)
Definition gatewayPredicate (gatewayClassName : rstr) (obj : option gwapi.Gateway) : bool :=
  Str.is_empty gatewayClassName ||
  match obj with
  | None => true
  | Some gw => bool_decide (gwapi.Gw_GatewayClassName gw = gatewayClassName)
  end.
Definition gatewayClassPredicate (gatewayClassName name : rstr) : bool :=
  Str.is_empty gatewayClassName || bool_decide (name = gatewayClassName).

(** ** Facts *)

Lemma collect_cons_not_Ok {A B} (f : A -> outcome B) x l :
  (forall y, f x <> Ok y) -> collect f (x :: l) = match f x with Panic => Panic | Error e => Error e | Ok _ => Panic end.
Proof. intros Hn. simpl. destruct (f x) as [y|e|]; [by destruct (Hn y)|done|done]. Qed.

Lemma getHTTPRoutes_not_Ok key routes : getHTTPRoutesForGateway key <> Ok routes.
Proof. unfold getHTTPRoutesForGateway. by destruct (List_HTTPRoute_into_nil key). Qed.

Lemma gateway_snap_not_Ok gw snap : gateway_snap gw <> Ok snap.
Proof.
  unfold gateway_snap. case_bool_decide; [done|].
  destruct (getAddressesFromGateway _) as [a|e|]; simpl; [|done..].
  destruct (collect _ _) as [ls|e|]; simpl; [|done..].
  pose proof (getHTTPRoutes_not_Ok (ObjectKey_String (gwapi.Gw_Namespace gw) (gwapi.Gw_Name gw))) as Hn.
  destruct (getHTTPRoutesForGateway _) as [r|e|]; simpl; [by destruct (Hn r)|done..].
Qed.

Lemma gatewayListToSnap_first gw gws :
  gatewayListToSnap (gw :: gws)
  = match gateway_snap gw with Error e => Error e | _ => Panic end.
Proof.
  unfold gatewayListToSnap. rewrite collect_cons_not_Ok by apply gateway_snap_not_Ok.
  pose proof (gateway_snap_not_Ok gw) as Hn. by destruct (gateway_snap gw).
Qed.

(** The gateway has listeners whose certificates can be read, and addresses. *)
Definition complete (gw : gwapi.Gateway) : Prop :=
  gwapi.Gw_Listeners gw <> [] /\ (exists ips, getAddressesFromGateway (Some gw) = Ok ips) /\
  exists ls, collect (parseListener gw) (gwapi.Gw_Listeners gw) = Ok ls.

Lemma address_ips_no_panic addr : address_ips addr <> Panic.
Proof. unfold address_ips. repeat case_decide; try done; by destruct (netip_ParseAddr _) || destruct (ResolveNamed _). Qed.

Lemma buildTLSSecretFromRef_no_panic ns ref sni : buildTLSSecretFromRef ns ref sni <> Panic.
Proof.
  unfold buildTLSSecretFromRef. repeat case_bool_decide; try done;
    destruct (Get_Secret c _ _); simpl; try done; case_match; try done;
    destruct (pem_Decode _); simpl; try done; by repeat case_match.
Qed.

Lemma collect_no_panic {A B} (f : A -> outcome B) l : (forall x, f x <> Panic) -> collect f l <> Panic.
Proof.
  intros Hf. induction l as [|x l IH]; simpl; [done|]. specialize (Hf x).
  destruct (f x); simpl; [|done..]. by destruct (collect f l).
Qed.

Lemma parseListener_no_panic gw listener : parseListener gw listener <> Panic.
Proof.
  unfold parseListener. destruct (gwapi.L_TLS listener) as [tls|]; [|done]. case_decide; [|done].
  pose proof (collect_no_panic (fun ref => buildTLSSecretFromRef (gwapi.Gw_Namespace gw) ref
    (option_list (gwapi.L_Hostname listener))) (gwapi.LT_CertificateRefs tls)) as Hn.
  destruct (collect _ _); simpl; try done. exfalso. apply Hn; [|done].
  intros ref. apply buildTLSSecretFromRef_no_panic.
Qed.

Lemma gateway_snap_panics gw :
  gateway_snap gw = Panic <->
  complete gw /\
  List_HTTPRoute_into_nil (ObjectKey_String (gwapi.Gw_Namespace gw) (gwapi.Gw_Name gw)) <> Failed.
Proof.
  unfold gateway_snap, complete. case_bool_decide as Hl; [split; [done|by intros [[] _]]|].
  assert (getAddressesFromGateway (Some gw) <> Panic) as Ha.
  { unfold getAddressesFromGateway. case_bool_decide; [done|].
    pose proof (collect_no_panic address_ips (gwapi.Gw_Addresses gw) address_ips_no_panic).
    by destruct (collect _ _). }
  pose proof (collect_no_panic (parseListener gw) (gwapi.Gw_Listeners gw) (parseListener_no_panic gw)) as Hp.
  destruct (getAddressesFromGateway (Some gw)) as [ips|e|]; simpl; [|split; [done|naive_solver]|done].
  destruct (collect (parseListener gw) _) as [ls|e|]; simpl; [|split; [done|naive_solver]|done].
  unfold getHTTPRoutesForGateway.
  destruct (List_HTTPRoute_into_nil _); simpl; split; try done; naive_solver.
Qed.

(** A reference with a namespace is followed whatever the namespace of the gateway
    is: no grant of the other namespace is looked at. *)
Lemma secret_of_any_namespace gwns gwns' ref ns sni :
  gwapi.SOR_Namespace ref = Some ns -> ns <> [] ->
  buildTLSSecretFromRef gwns ref sni = buildTLSSecretFromRef gwns' ref sni.
Proof.
  intros Hr Hne. unfold buildTLSSecretFromRef. rewrite Hr.
  by destruct ns.
Qed.

(** The certificates of a listener, on success: one bundle per reference, in order,
    with the data of the Secret it names, for the host name of the listener. *)
Definition bundle_of (gw : gwapi.Gateway) (listener : gwapi.Listener) (ref : gwapi.SecretObjectReference)
    (b : model.TLSSecret) : Prop :=
  exists ns secret, Get_Secret c ns (gwapi.SOR_Name ref) = Some secret /\
    (ns = gwapi.Gw_Namespace gw \/ gwapi.SOR_Namespace ref = Some ns) /\
    model.TLS_Name b = ObjectKey_String ns (gwapi.SOR_Name ref) /\
    model.TLS_Sni b = option_list (gwapi.L_Hostname listener) /\
    kube.Sec_Data secret !! str "tls.crt" = Some (model.TLS_CertPem b) /\ model.TLS_CertPem b <> [] /\
    kube.Sec_Data secret !! str "tls.key" = Some (model.TLS_KeyPem b) /\ model.TLS_KeyPem b <> [].

Lemma default_nonempty {A} (o : option (list A)) : default [] o <> [] -> o = Some (default [] o).
Proof. by destruct o. Qed.

Lemma buildTLSSecretFromRef_Ok gw listener ref b :
  buildTLSSecretFromRef (gwapi.Gw_Namespace gw) ref (option_list (gwapi.L_Hostname listener)) = Ok b ->
  bundle_of gw listener ref b.
Proof.
  unfold buildTLSSecretFromRef. do 2 (case_bool_decide; [done|]).
  set (ns := match gwapi.SOR_Namespace ref with Some _ => _ | None => _ end).
  assert (ns = gwapi.Gw_Namespace gw \/ gwapi.SOR_Namespace ref = Some ns) as Hns.
  { unfold ns. destruct (gwapi.SOR_Namespace ref) as [[|x l]|]; simpl; auto. }
  destruct (Get_Secret c ns _) as [secret|] eqn:Es; simpl; [|done].
  case_bool_decide as Hc; [done|]. case_bool_decide as Hk; [done|]. simpl.
  destruct (pem_Decode _) as [block|]; simpl; [|done].
  destruct (x509_ParseCertificates block) as [[|notAfter certs]|]; [done| |done]. intros [= <-].
  exists ns, secret. by split_and!; auto using default_nonempty.
Qed.

Lemma listener_certificates gw listener snap bundles :
  parseListener gw listener = Ok (snap, bundles) ->
  bundles = [] \/
  exists tls, gwapi.L_TLS listener = Some tls /\
    Forall2 (bundle_of gw listener) (gwapi.LT_CertificateRefs tls) bundles.
Proof.
  unfold parseListener. destruct (gwapi.L_TLS listener) as [tls|]; [|intros [= <- <-]; by left].
  case_decide; [|intros [= <- <-]; by left]. destruct (collect _ _) as [bs| |] eqn:E; simpl; [|done..].
  intros [= <- <-]. right. exists tls. split; [done|]. apply collect_Ok in E.
  eapply Forall2_impl; [exact E|]. intros ref b. apply buildTLSSecretFromRef_Ok.
Qed.

(** The changes that start a reconciliation are those of the gateways it lists,
    when a class is given; without one all of them do, and none is listed. *)
Lemma gateway_predicate_index class gw :
  (class <> [] -> gatewayPredicate class (Some gw) = true <-> class ∈ gatewayClassIndex gw) /\
  gatewayPredicate [] (Some gw) = true /\ ([] ∉ gatewayClassIndex gw).
Proof.
  unfold gatewayPredicate, gatewayClassIndex. split_and!; [|done|].
  - intros Hc. destruct class as [|x class]; [done|]. simpl. rewrite bool_decide_eq_true.
    destruct (gwapi.Gw_GatewayClassName gw); simpl; [split; [done|set_solver]|].
    rewrite list_elem_of_singleton. split; congruence.
  - destruct (gwapi.Gw_GatewayClassName gw); simpl; [set_solver|]. by rewrite list_elem_of_singleton.
Qed.

(** Gateways of different namespaces can share a key of the index. *)
Lemma index_keys_collide routeNamespace (x y z : rstr) :
  x <> [] -> z <> [] ->
  let ref ns name := {| gwapi.PR_Group := None; gwapi.PR_Kind := None;
                        gwapi.PR_Namespace := Some ns; gwapi.PR_Name := name |} in
  parent_key routeNamespace (ref (x ++ y) z) = parent_key routeNamespace (ref x (y ++ z)).
Proof.
  intros Hx Hz ref. unfold parent_key, ref. simpl.
  destruct x as [|a x]; [done|]. destruct z as [|b z]; [done|]. simpl.
  destruct y as [|d y]; simpl; [by rewrite app_nil_r|]. by rewrite <-app_assoc.
Qed.

End gateway.

(** ** Properties *)

(** C35. The Gateway controller never gets a snapshot: whatever the cluster holds and
    the libraries answer, the conversion of the gateways fails or panics, and it
    panics exactly if the first gateway is complete and the list of its routes,
    which is read into a nil pointer, does not fail; no later gateway is looked
    at, and no reconciliation succeeds. *)
Theorem gateway_controller_never_succeeds {LB : Libs} {GB : GatewayLibs} (c : Client)
    (gws : list gwapi.Gateway) (gatewayClass : rstr) :
  (forall snaps, gatewayListToSnap c gws <> Ok snaps) /\
  (gatewayListToSnap c gws = Panic <->
   exists gw, head gws = Some gw /\ complete c gw /\
     List_HTTPRoute_into_nil (ObjectKey_String (gwapi.Gw_Namespace gw) (gwapi.Gw_Name gw)) <> Failed) /\
  (forall gw gws', gws = gw :: gws' -> gatewayListToSnap c gws = gatewayListToSnap c [gw]) /\
  gateway_Reconcile c gatewayClass <> Ok tt.
Proof.
  assert (forall l snaps, gatewayListToSnap c l <> Ok snaps) as Hn.
  { intros [|gw l] snaps; [done|]. rewrite gatewayListToSnap_first. by destruct (gateway_snap c gw). }
  split_and!; [done| | |].
  - destruct gws as [|gw gws]; [split; [done|by intros (? & [=] & _)]|].
    rewrite gatewayListToSnap_first. pose proof (gateway_snap_not_Ok c gw) as Hs. split.
    + intros Hp. exists gw. split; [done|]. apply gateway_snap_panics.
      destruct (gateway_snap c gw) as [s| |]; [by destruct (Hs s)|done|done].
    + intros (gw' & [= ->] & Hc). apply gateway_snap_panics in Hc. by rewrite Hc.
  - intros gw gws' ->. by rewrite !gatewayListToSnap_first.
  - unfold gateway_Reconcile. destruct (List_Gateway gatewayClass) as [l|]; simpl; [|done].
    specialize (Hn l). destruct (gatewayListToSnap c l) as [s| |]; simpl; [by destruct (Hn s)|done|done].
Qed.

(** Routes are indexed under keys their gateways are not looked up by: the index
    joins namespace and name without the slash the lookup key has, so that no
    route whose names contain no slash, as Kubernetes names do not, is ever found
    for a gateway. *)
Theorem routes_not_indexed_by_gateway (route : gwapi.HTTPRoute) (ns name : rstr) :
  (47%N ∉ gwapi.HR_Namespace route) ->
  Forall (fun ref => (47%N ∉ gwapi.PR_Name ref) /\ (47%N ∉ default [] (gwapi.PR_Namespace ref)))
    (gwapi.HR_ParentRefs route) ->
  ObjectKey_String ns name ∉ httpRouteParentRefIndex route.
Proof.
  intros Hr Hrefs Hin. apply list_elem_of_omap in Hin as (ref & Href & Hkey).
  rewrite Forall_forall in Hrefs. destruct (Hrefs ref Href) as [Hn Hns].
  unfold parent_key in Hkey. destruct (negb _); [done|]. destruct (Str.is_empty _); [done|].
  injection Hkey as Hk. assert (47%N ∈ ObjectKey_String ns name) as Hs.
  { unfold ObjectKey_String. apply elem_of_app. right. apply elem_of_app. left. by left. }
  rewrite <-Hk in Hs. apply elem_of_app in Hs as [Hs|Hs]; [|done].
  destruct (gwapi.PR_Namespace ref) as [rns|]; [|done]. destruct (Str.is_empty rns); done.
Qed.

(** ** Witnesses *)

Module GatewayDemo.

Definition parent (name : string) : gwapi.ParentReference := {|
  gwapi.PR_Group := None; gwapi.PR_Kind := None; gwapi.PR_Namespace := None; gwapi.PR_Name := str name |}.
Definition route : gwapi.HTTPRoute := {|
  gwapi.HR_Name := str "web"; gwapi.HR_Namespace := str "shop";
  gwapi.HR_ParentRefs := [parent "edge"]; gwapi.HR_Hostnames := [str "demo.local"] |}.

End GatewayDemo.

Lemma routes_not_indexed_by_gateway_witness :
  httpRouteParentRefIndex GatewayDemo.route = [str "shopedge"] /\
  ObjectKey_String (str "shop") (str "edge") ∉ httpRouteParentRefIndex GatewayDemo.route.
Proof.
  split; [vm_compute; reflexivity|].
  apply (routes_not_indexed_by_gateway GatewayDemo.route (str "shop") (str "edge")); decide_compute.
Defined.
