(* ===== verification/Identity.v ===== *)
(** The identities on the configuration stream: the certificates the control plane
    creates at its start (src/images/controlplane/internal/grpc/certs.go), the
    TLS settings and names of its server ([NewServer] and [buildDNSSANs] of
    server.go), and the Secret through which the data planes get them
    (internal/controller/secrets_controller.go). *)

From stdpp Require Import base gmap list strings sorting.
From Stdlib Require Import NArith ZArith Lia.
From S2P Require Import Prelude RustStr GoLib Model Grpc.

(** ** Names of the server *)

Definition add_name (name : rstr) (seen : gset rstr) : gset rstr :=
  if Str.is_empty name then seen else if decide (name ∈ seen) then seen else {[name]} ∪ seen.

(** [order] is the order in which the set is visited before sorting. *)
Definition buildDNSSANs (order : gset rstr -> list rstr) (commonName : rstr) : list rstr :=
  let seen := add_name commonName ∅ in
  let seen :=
    if Str.contains commonName (str ".") then
      match Go.Split commonName 46 with
      | svc :: ns :: _ =>
          add_name (svc ++ str "." ++ ns ++ str ".svc.cluster.local")
            (add_name (svc ++ str "." ++ ns ++ str ".svc") (add_name svc seen))
      | _ => seen
      end
    else seen in
  Go.sort_Strings (order seen).

(** ** Certificates *)

Inductive KeyUsage := CertSign | CRLSign | DigitalSignature | KeyEncipherment.
Inductive ExtKeyUsage := ServerAuth | ClientAuth.

#[global] Instance ExtKeyUsage_eq_dec : EqDecision ExtKeyUsage.
Proof. solve_decision. Defined.

(** The template of a certificate; times are Unix times. *)
Record Certificate := {
  ct_SerialNumber : Z;
  ct_Organization : list rstr;
  ct_CommonName : rstr;
  ct_NotBefore : Z;
  ct_NotAfter : Z;
  ct_IsCA : bool;
  ct_KeyUsage : list KeyUsage;
  ct_ExtKeyUsage : list ExtKeyUsage;
  ct_BasicConstraintsValid : bool;
  ct_DNSNames : list rstr;
  ct_IPAddresses : list rstr;
}.

(** RSA keys, X.509 certificates and PEM. [CreateCertificate c pub signer] is the
    DER of the certificate [c] for the key [pub] signed with [signer], or an
    error; [pem kind der] is a PEM block; [parse_certificate] and [parse_key]
    read PEM. A parsed certificate is its template, its key and its signer's key.
    [AddDate t y] is [y] years after [t]. *)
Class Pki := {
  Key : Type;
  CreateCertificate : Certificate -> Key -> Key -> option (list N);
  MarshalPKCS1PrivateKey : Key -> list N;
  pem : rstr -> list N -> list N;
  parse_certificate : list N -> option (Certificate * Key * Key);
  parse_key : list N -> option Key;
  key_eqb : Key -> Key -> bool;
  AddDate : Z -> Z -> Z;
}.

(** A name of a certificate is written as an IA5String, that is, in ASCII. *)
Definition ia5 (s : rstr) : bool := forallb (fun c => (c <? 128)%N) s.

(** What a certificate needs for [CreateCertificate] to encode it. *)
Definition encodable (c : Certificate) : bool :=
  forallb ia5 (ct_DNSNames c) && (0 <=? ct_SerialNumber c)%Z.

Class PkiLaws (PK : Pki) : Prop := {
  CreateCertificate_Some c pub signer : encodable c = true ->
    exists der, CreateCertificate c pub signer = Some der /\
      parse_certificate (pem (str "CERTIFICATE") der) = Some (c, pub, signer);
  CreateCertificate_None c pub signer : encodable c = false -> CreateCertificate c pub signer = None;
  parse_no_certificate : parse_certificate (pem (str "CERTIFICATE") []) = None;
  parse_marshalled k : parse_key (pem (str "RSA PRIVATE KEY") (MarshalPKCS1PrivateKey k)) = Some k;
  pem_nonempty kind der : pem kind der <> [];
  key_eqb_refl k : key_eqb k k = true;
}.

Section identity.
Context {PK : Pki}.

Record Bundle := {
  CACertPEM : list N;
  CAKeyPEM : list N;
  ServerCertPEM : list N;
  ServerKeyPEM : list N;
}.

(** What the creation of the certificates draws from its environment: two keys,
    two serial numbers, and the four readings of the clock. *)
Record Draw := {
  dr_caKey : Key; dr_srvKey : Key;
  dr_caSerial : Z; dr_srvSerial : Z;
  dr_caBefore : Z; dr_caAfter : Z;
  dr_srvBefore : Z; dr_srvAfter : Z;
}.

(** [randSerial] draws below 2^128. *)
Definition draw_ok (d : Draw) : Prop :=
  (0 <= dr_caSerial d < 2 ^ 128)%Z /\ (0 <= dr_srvSerial d < 2 ^ 128)%Z.

Definition caTmpl (d : Draw) : Certificate := {|
  ct_SerialNumber := dr_caSerial d;
  ct_Organization := [str "Company, INC."];
  ct_CommonName := str "Local Dev CA";
  ct_NotBefore := dr_caBefore d - 300;
  ct_NotAfter := AddDate (dr_caAfter d) 3;
  ct_IsCA := true;
  ct_KeyUsage := [CertSign; CRLSign];
  ct_ExtKeyUsage := [];
  ct_BasicConstraintsValid := true;
  ct_DNSNames := []; ct_IPAddresses := [] |}.

Definition srvTmpl (d : Draw) (commonName : rstr) (dnsSANs ipSANs : list rstr) : Certificate := {|
  ct_SerialNumber := dr_srvSerial d;
  ct_Organization := [str "Company, INC."];
  ct_CommonName := commonName;
  ct_NotBefore := dr_srvBefore d - 300;
  ct_NotAfter := AddDate (dr_srvAfter d) 1;
  ct_IsCA := false;
  ct_KeyUsage := [DigitalSignature; KeyEncipherment];
  ct_ExtKeyUsage := [ServerAuth; ClientAuth];
  ct_BasicConstraintsValid := true;
  ct_DNSNames := dnsSANs; ct_IPAddresses := ipSANs |}.

(** The errors of [CreateCertificate] are dropped, which leaves a nil slice. *)
Definition NewGRPCServerCerts (d : Draw) (commonName : rstr) (dnsSANs ipSANs : list rstr) : Bundle :=
  let caDER := default [] (CreateCertificate (caTmpl d) (dr_caKey d) (dr_caKey d)) in
  let srvDER := default []
    (CreateCertificate (srvTmpl d commonName dnsSANs ipSANs) (dr_srvKey d) (dr_caKey d)) in
  {| CACertPEM := pem (str "CERTIFICATE") caDER;
     CAKeyPEM := pem (str "RSA PRIVATE KEY") (MarshalPKCS1PrivateKey (dr_caKey d));
     ServerCertPEM := pem (str "CERTIFICATE") srvDER;
     ServerKeyPEM := pem (str "RSA PRIVATE KEY") (MarshalPKCS1PrivateKey (dr_srvKey d)) |}.

(** ** The server *)

Inductive ClientAuthType := NoClientCert | RequireAndVerifyClientCert.

Record TlsConfig := {
  tc_Certificate : list N; tc_Key : list N;
  tc_ClientCAs : list (list N);
  tc_ClientAuth : ClientAuthType;
}.

Record Server_ := { sv_addr : rstr; sv_Bundle : Bundle; sv_tlsConfig : TlsConfig }.

(** [tls.X509KeyPair]: both parse, and the key is the certificate's. *)
Definition X509KeyPair (certPEM keyPEM : list N) : bool :=
  match parse_certificate certPEM, parse_key keyPEM with
  | Some (_, pub, _), Some key => key_eqb pub key
  | _, _ => false
  end.

(** [None] is an error; [AppendCertsFromPEM] skips what does not parse. *)
Definition NewServer (order : gset rstr -> list rstr) (d : Draw) (addr commonName : rstr)
    : option Server_ :=
  let dnsSANs := buildDNSSANs order commonName in
  let bundle := NewGRPCServerCerts d commonName dnsSANs [str "127.0.0.1"] in
  if X509KeyPair (ServerCertPEM bundle) (ServerKeyPEM bundle) then
    Some {| sv_addr := addr; sv_Bundle := bundle;
            sv_tlsConfig :=
              {| tc_Certificate := ServerCertPEM bundle; tc_Key := ServerKeyPEM bundle;
                 tc_ClientCAs := if parse_certificate (CACertPEM bundle) is Some _ then [CACertPEM bundle] else [];
                 tc_ClientAuth := RequireAndVerifyClientCert |} |}
  else None.

(** ** The Secret of the data planes *)

Definition nameGRPCSecret : rstr := str "grpc-tls".

(** The function [createCertsSecret] passes to [CreateOrUpdate]. *)
Definition mutate (bundle : Bundle) (secret : kube.Secret) : kube.Secret := {|
  kube.Sec_Data :=
    <[str "ca.crt" := CACertPEM bundle]>
      (<[str "tls.key" := ServerKeyPEM bundle]>
        (<[str "tls.crt" := ServerCertPEM bundle]> (kube.Sec_Data secret))) |}.

(** The Secrets of the cluster, by namespace and name. [CreateOrUpdate] reads the
    object (or starts with an empty one), applies the function and writes it
    back; [None] is an error of the API. *)
Definition createCertsSecret (bundle : Bundle) (namespace : rstr) (api_ok : bool)
    (secrets : gmap (rstr * rstr) kube.Secret) : option (gmap (rstr * rstr) kube.Secret) :=
  if api_ok then
    Some (<[(namespace, nameGRPCSecret) :=
      mutate bundle (default {| kube.Sec_Data := ∅ |} (secrets !! (namespace, nameGRPCSecret)))]> secrets)
  else None.

Definition certs_Reconcile (bundle : Bundle) (targetNamespace : rstr) (req : rstr * rstr)
    (api_ok : bool) (secrets : gmap (rstr * rstr) kube.Secret)
    : option (gmap (rstr * rstr) kube.Secret) :=
  if decide (req = (targetNamespace, nameGRPCSecret))
  then createCertsSecret bundle targetNamespace api_ok secrets
  else Some secrets.

(** ** Handshakes *)

Definition within (c : Certificate) (now : Z) : Prop := (ct_NotBefore c <= now <= ct_NotAfter c)%Z.

(** A certificate verifies against a root: issued by the root's key, the root is a
    CA, both are within their validity, and the usage is allowed. *)
Definition verifies_with (root cert : list N) (usage : ExtKeyUsage) (now : Z) : Prop :=
  exists rc rk rs c k, parse_certificate root = Some (rc, rk, rs) /\
    parse_certificate cert = Some (c, k, rk) /\ ct_IsCA rc = true /\ usage ∈ ct_ExtKeyUsage c /\
    within rc now /\ within c now.

(** The server's side: a client certificate is required, must verify against the
    pool, and the client must have its key. *)
Definition server_accepts (cfg : TlsConfig) (cert key : list N) (now : Z) : Prop :=
  tc_ClientAuth cfg = RequireAndVerifyClientCert /\
  (exists root, root ∈ tc_ClientCAs cfg /\ verifies_with root cert ClientAuth now) /\
  exists c k s, parse_certificate cert = Some (c, k, s) /\ parse_key key = Some k.

(** The data plane's side: the server certificate verifies against its CA file and
    is for the host it dialled. *)
Definition client_accepts (ca : list N) (domain : rstr) (cfg : TlsConfig) (now : Z) : Prop :=
  verifies_with ca (tc_Certificate cfg) ServerAuth now /\
  exists c k s, parse_certificate (tc_Certificate cfg) = Some (c, k, s) /\ domain ∈ ct_DNSNames c.

End identity.

(** ** Facts *)

Lemma elem_of_add_name name seen x : x ∈ add_name name seen <-> x ∈ seen \/ (x = name /\ x <> []).
Proof.
  unfold add_name. destruct name as [|c name]; simpl; [naive_solver|].
  case_decide; [|set_solver]. split; [by left|]. intros [?|[-> _]]; done.
Qed.

(** The names a dotted name gives rise to, besides itself. *)
Definition derived_names (commonName : rstr) : list rstr :=
  match Go.Split commonName 46 with
  | svc :: ns :: _ =>
      [svc; svc ++ str "." ++ ns ++ str ".svc"; svc ++ str "." ++ ns ++ str ".svc.cluster.local"]
  | _ => []
  end.

Lemma Split_no_sep s : Str.contains s (str ".") = false -> Go.Split s 46 = [s].
Proof.
  intros Hc. apply Split_single. intros Hin. apply not_true_iff_false in Hc. apply Hc.
  apply contains_spec. apply list_elem_of_split in Hin as (a & b & ->). by exists a, b.
Qed.

Lemma elem_of_buildDNSSANs order cn x :
  (forall s, order s ≡ₚ elements s) ->
  x ∈ buildDNSSANs order cn <-> x <> [] /\ (x = cn \/ x ∈ derived_names cn).
Proof.
  intros Ho. unfold buildDNSSANs, Go.sort_Strings. rewrite Sort.sort_by_perm, Ho, elem_of_elements.
  unfold derived_names. destruct (Str.contains cn (str ".")) eqn:Ec.
  - destruct (Go.Split cn 46) as [|svc [|ns rest]]; rewrite ?elem_of_add_name; set_solver.
  - rewrite (Split_no_sep _ Ec), elem_of_add_name. set_solver.
Qed.

Lemma ia5_app s t : ia5 (s ++ t) = ia5 s && ia5 t.
Proof. apply forallb_app. Qed.

(** Every derived name is in ASCII when the name is. *)
Lemma buildDNSSANs_ia5 order cn :
  (forall s, order s ≡ₚ elements s) -> forallb ia5 (buildDNSSANs order cn) = ia5 cn.
Proof.
  intros Ho. apply Bool.eq_iff_eq_true. rewrite forallb_forall. split.
  - intros H. destruct cn as [|c cn]; [done|]. apply H, list_elem_of_In, elem_of_buildDNSSANs; [done|].
    by split; [|left].
  - intros Hcn x Hx. apply list_elem_of_In, elem_of_buildDNSSANs in Hx as [_ [->|Hx]]; [done| |done].
    assert (forall p, p ∈ Go.Split cn 46 -> ia5 p = true) as Hp.
    { intros p Hp. apply forallb_forall. intros c Hc. unfold ia5 in Hcn. rewrite forallb_forall in Hcn.
      apply Hcn, list_elem_of_In, (Split_chars 46 cn p); [done|]. by apply list_elem_of_In. }
    unfold derived_names in Hx. destruct (Go.Split cn 46) as [|svc [|ns rest]]; [set_solver..|].
    assert (ia5 svc = true) as H1 by (apply Hp; set_solver).
    assert (ia5 ns = true) as H2 by (apply Hp; set_solver).
    rewrite !elem_of_cons in Hx. destruct Hx as [->|[->|[->|Hx]]]; [done|..|by apply not_elem_of_nil in Hx];
      by rewrite !ia5_app, H1, H2.
Qed.

Section handshake.
Context {PK : Pki} {PL : PkiLaws PK}.
Context (order : gset rstr -> list rstr) (Horder : forall s, order s ≡ₚ elements s).
Context (d : Draw) (Hd : draw_ok d) (cn : rstr).
#[local] Abbreviation sans := (buildDNSSANs order cn).
#[local] Abbreviation ips := [str "127.0.0.1"].
#[local] Abbreviation bundle := (NewGRPCServerCerts d cn sans ips).

Lemma parse_ca : parse_certificate (CACertPEM bundle) = Some (caTmpl d, dr_caKey d, dr_caKey d).
Proof using PL Hd.
  destruct (CreateCertificate_Some (caTmpl d) (dr_caKey d) (dr_caKey d)) as (der & E & Hp).
  - apply Z.leb_le, Hd.
  - unfold NewGRPCServerCerts. cbn [CACertPEM]. by rewrite E.
Qed.

Lemma parse_leaf : ia5 cn = true ->
  parse_certificate (ServerCertPEM bundle) = Some (srvTmpl d cn sans ips, dr_srvKey d, dr_caKey d).
Proof using PL Hd Horder.
  intros Hcn. destruct (CreateCertificate_Some (srvTmpl d cn sans ips) (dr_srvKey d) (dr_caKey d))
    as (der & E & Hp).
  - unfold encodable. cbn [ct_DNSNames srvTmpl]. rewrite (buildDNSSANs_ia5 order cn Horder), Hcn.
    apply Z.leb_le, Hd.
  - unfold NewGRPCServerCerts. cbn [ServerCertPEM]. by rewrite E.
Qed.

Lemma NewServer_spec addr :
  NewServer order d addr cn =
  if ia5 cn then
    Some {| sv_addr := addr; sv_Bundle := bundle;
            sv_tlsConfig := {| tc_Certificate := ServerCertPEM bundle; tc_Key := ServerKeyPEM bundle;
                               tc_ClientCAs := [CACertPEM bundle];
                               tc_ClientAuth := RequireAndVerifyClientCert |} |}
  else None.
Proof using PL Hd Horder.
  unfold NewServer, X509KeyPair. cbn zeta. rewrite parse_ca. destruct (ia5 cn) eqn:Hcn.
  - rewrite parse_leaf by done. cbn [ServerKeyPEM NewGRPCServerCerts].
    by rewrite parse_marshalled, key_eqb_refl.
  - unfold NewGRPCServerCerts. cbn [ServerCertPEM].
    rewrite (CreateCertificate_None (srvTmpl d cn sans ips)); [by simpl; rewrite parse_no_certificate|].
    unfold encodable. cbn [ct_DNSNames srvTmpl]. by rewrite (buildDNSSANs_ia5 order cn Horder), Hcn.
Qed.

Lemma verifies_leaf usage now : ia5 cn = true ->
  verifies_with (CACertPEM bundle) (ServerCertPEM bundle) usage now <->
  usage ∈ [ServerAuth; ClientAuth] /\ within (caTmpl d) now /\ within (srvTmpl d cn sans ips) now.
Proof using PL Hd Horder.
  intros Hcn. unfold verifies_with. rewrite parse_ca, parse_leaf by done. split.
  - intros (rc & rk & rs & c & k & [= <- <- <-] & [= <- <-] & _ & Hu & Hr & Hc). done.
  - intros (Hu & Hr & Hc). do 5 eexists. by split_and!.
Qed.

Lemma handshake_window domain now : ia5 cn = true -> domain ∈ sans ->
  let cfg := {| tc_Certificate := ServerCertPEM bundle; tc_Key := ServerKeyPEM bundle;
                tc_ClientCAs := [CACertPEM bundle]; tc_ClientAuth := RequireAndVerifyClientCert |} in
  server_accepts cfg (ServerCertPEM bundle) (ServerKeyPEM bundle) now /\
    client_accepts (CACertPEM bundle) domain cfg now <->
  within (caTmpl d) now /\ within (srvTmpl d cn sans ips) now.
Proof using PL Hd Horder.
  intros Hcn Hdom cfg. unfold server_accepts, client_accepts, cfg.
  cbn [tc_ClientAuth tc_ClientCAs tc_Certificate]. rewrite verifies_leaf, parse_leaf by done. split.
  - by intros [_ [(_ & Hca & Hc) _]].
  - intros [Hca Hc]. split_and!; [done|..|set_solver|done|done|by do 3 eexists].
    + exists (CACertPEM bundle). split; [set_solver|]. apply verifies_leaf; [done|]. by split_and!; [set_solver|..].
    + do 3 eexists. split; [done|]. apply parse_marshalled.
Qed.

End handshake.

(** The name of the service is one of the names of [svc.ns]. *)
Lemma short_name order svc ns :
  (forall s, order s ≡ₚ elements s) -> svc <> [] -> 46%N ∉ svc ->
  svc ∈ buildDNSSANs order (svc ++ str "." ++ ns).
Proof.
  intros Ho Hsvc Hdot. apply elem_of_buildDNSSANs; [done|]. split; [done|]. right. unfold derived_names.
  change (str "." ++ ns) with (46%N :: ns). rewrite Split_app_sep by done.
  destruct (Go.Split ns 46) as [|p ps] eqn:E; [by apply Split_nonempty in E|]. set_solver.
Qed.

(** The function passed to [CreateOrUpdate] sets the three files the data plane
    reads, and nothing else. *)
Lemma mutate_lookup {PK : Pki} b secret :
  kube.Sec_Data (mutate b secret) !! CERT_CA_NAME = Some (CACertPEM b) /\
  kube.Sec_Data (mutate b secret) !! CERT_NAME = Some (ServerCertPEM b) /\
  kube.Sec_Data (mutate b secret) !! CERT_KEY_NAME = Some (ServerKeyPEM b) /\
  forall k, k ∉ [CERT_CA_NAME; CERT_NAME; CERT_KEY_NAME] ->
    kube.Sec_Data (mutate b secret) !! k = kube.Sec_Data secret !! k.
Proof.
  unfold mutate. cbn [kube.Sec_Data]. split_and!.
  - apply lookup_insert_eq.
  - do 2 (rewrite lookup_insert_ne by (vm_compute; discriminate)). apply lookup_insert_eq.
  - rewrite lookup_insert_ne by (vm_compute; discriminate). apply lookup_insert_eq.
  - intros k Hk. rewrite !not_elem_of_cons in Hk. destruct Hk as (H1 & H2 & H3 & _).
    rewrite lookup_insert_ne by (apply not_eq_sym, H1).
    rewrite lookup_insert_ne by (apply not_eq_sym, H3).
    by rewrite lookup_insert_ne by (apply not_eq_sym, H2).
Qed.

(** ** Properties *)

(** The server's names: the certificate is for the configured name, for the
    service part of a dotted name, and for the two forms of the in-cluster name
    made of its first two parts, for nothing else, each once and in order,
    whatever order Go's map yields them in. *)
Theorem dns_names_spec (order : gset rstr -> list rstr) (commonName : rstr) :
  (forall s, order s ≡ₚ elements s) ->
  (forall x, x ∈ buildDNSSANs order commonName <->
     x <> [] /\ (x = commonName \/ x ∈ derived_names commonName)) /\
  NoDup (buildDNSSANs order commonName) /\
  StronglySorted (Sort.le Go.string_cmp) (buildDNSSANs order commonName).
Proof.
  intros Ho. split_and!.
  - intros x. by apply elem_of_buildDNSSANs.
  - unfold buildDNSSANs, Go.sort_Strings. rewrite Sort.sort_by_perm, Ho. apply NoDup_elements.
  - apply Sort.sort_by_sorted, _.
Qed.

(** C21. The two planes accept each other: the server is created for every ASCII
    name, and a data plane that reads the three files of the Secret the control
    plane maintains, and dials the service by its short name, passes the mutual
    TLS handshake exactly while both certificates are valid, so until a year
    after the control plane was started; the other Secrets, and the other
    entries of this one, are left alone. *)
Theorem mutual_tls (PK : Pki) (PL : PkiLaws PK) (order : gset rstr -> list rstr) (d : Draw)
    (addr svc ns targetNamespace : rstr) (secrets : gmap (rstr * rstr) kube.Secret) (now : Z) :
  (forall s, order s ≡ₚ elements s) -> draw_ok d ->
  svc <> [] -> 46%N ∉ svc -> ia5 svc = true -> ia5 ns = true ->
  exists srv secrets' secret ca crt key,
    NewServer order d addr (svc ++ str "." ++ ns) = Some srv /\
    certs_Reconcile (sv_Bundle srv) targetNamespace (targetNamespace, nameGRPCSecret) true secrets
      = Some secrets' /\
    secrets' !! (targetNamespace, nameGRPCSecret) = Some secret /\
    kube.Sec_Data secret !! CERT_CA_NAME = Some ca /\
    kube.Sec_Data secret !! CERT_NAME = Some crt /\
    kube.Sec_Data secret !! CERT_KEY_NAME = Some key /\
    ca <> [] /\ crt <> [] /\ key <> [] /\
    (server_accepts (sv_tlsConfig srv) crt key now /\ client_accepts ca svc (sv_tlsConfig srv) now <->
     (dr_caBefore d - 300 <= now <= AddDate (dr_caAfter d) 3)%Z /\
     (dr_srvBefore d - 300 <= now <= AddDate (dr_srvAfter d) 1)%Z) /\
    (forall other, other <> (targetNamespace, nameGRPCSecret) -> secrets' !! other = secrets !! other) /\
    (forall old k, secrets !! (targetNamespace, nameGRPCSecret) = Some old ->
       k ∉ [CERT_CA_NAME; CERT_NAME; CERT_KEY_NAME] -> kube.Sec_Data secret !! k = kube.Sec_Data old !! k).
Proof.
  intros Ho Hd Hsvc Hdot Ha1 Ha2. set (cn := svc ++ str "." ++ ns).
  assert (ia5 cn = true) as Hcn by (unfold cn; by rewrite !ia5_app, Ha1, Ha2).
  rewrite NewServer_spec, Hcn by done. set (b := NewGRPCServerCerts d cn _ _). do 6 eexists.
  split; [reflexivity|]. cbn [sv_Bundle sv_tlsConfig]. unfold certs_Reconcile.
  rewrite decide_True by done. split; [reflexivity|]. split; [apply lookup_insert_eq|].
  destruct (mutate_lookup b (default {| kube.Sec_Data := ∅ |} (secrets !! (targetNamespace, nameGRPCSecret))))
    as (E1 & E2 & E3 & E4).
  split; [exact E1|]. split; [exact E2|]. split; [exact E3|]. do 3 (split; [apply pem_nonempty|]). split_and!.
  - by apply (handshake_window order Ho d Hd cn), short_name.
  - intros other Hne. by apply lookup_insert_ne.
  - intros old k E Hk. by rewrite E4, E.
Qed.

(** A server name that is not in ASCII: no certificate is created for it, and the
    server is not either. *)
Theorem unencodable_name_fails (PK : Pki) (PL : PkiLaws PK) (order : gset rstr -> list rstr) (d : Draw)
    (addr commonName : rstr) :
  (forall s, order s ≡ₚ elements s) -> draw_ok d -> ia5 commonName = false ->
  NewServer order d addr commonName = None.
Proof. intros Ho Hd Hcn. by rewrite NewServer_spec, Hcn. Qed.

(** ** Witnesses *)

#[global] Instance KeyUsage_eq_dec : EqDecision KeyUsage.
Proof. solve_decision. Defined.

#[global] Instance KeyUsage_countable : Countable KeyUsage.
Proof.
  refine (inj_countable' (fun u => match u with CertSign => 0 | CRLSign => 1 | DigitalSignature => 2
                                              | KeyEncipherment => 3 end)
            (fun n => match n with 0 => CertSign | 1 => CRLSign | 2 => DigitalSignature
                                 | _ => KeyEncipherment end) _).
  by intros [].
Defined.

#[global] Instance ExtKeyUsage_countable : Countable ExtKeyUsage.
Proof.
  refine (inj_countable' (fun u => if u is ServerAuth then true else false)
            (fun b : bool => if b then ServerAuth else ClientAuth) _).
  by intros [].
Defined.

#[global] Instance Certificate_eq_dec : EqDecision Certificate.
Proof. solve_decision. Defined.

#[global] Instance Certificate_countable : Countable Certificate.
Proof.
  refine (inj_countable'
    (fun c => (ct_SerialNumber c, ct_Organization c, ct_CommonName c, ct_NotBefore c, ct_NotAfter c,
               ct_IsCA c, ct_KeyUsage c, ct_ExtKeyUsage c, ct_BasicConstraintsValid c, ct_DNSNames c,
               ct_IPAddresses c))
    (fun '(n, o, cn, nb, na, ca, ku, eku, bc, dns, ips) =>
       {| ct_SerialNumber := n; ct_Organization := o; ct_CommonName := cn; ct_NotBefore := nb;
          ct_NotAfter := na; ct_IsCA := ca; ct_KeyUsage := ku; ct_ExtKeyUsage := eku;
          ct_BasicConstraintsValid := bc; ct_DNSNames := dns; ct_IPAddresses := ips |}) _).
  by intros [].
Defined.

(** Keys are numbers, DER is the number of the value, and a PEM block is its
    content after a mark for its kind; a year has 365 days. *)
Module IdentityDemo.

Definition addr := str ":18000".
Definition svc := str "argon-controller".
Definition ns := str "argon".
Definition order (s : gset rstr) : list rstr := elements s.

#[export] Instance pki : Pki := {
  Key := N;
  CreateCertificate c pub signer :=
    if encodable c then Some [N.pos (encode (c, pub, signer))] else None;
  MarshalPKCS1PrivateKey k := [k];
  pem kind der := (if decide (kind = str "CERTIFICATE") then 1%N else 2%N) :: der;
  parse_certificate b := if b is [1%N; N.pos p] then decode p else None;
  parse_key b := if b is [2%N; k] then Some k else None;
  key_eqb := N.eqb;
  AddDate t y := (t + y * 31536000)%Z;
}.

#[export] Instance pki_laws : PkiLaws pki.
Proof.
  split.
  - intros c pub signer Hc. exists [N.pos (encode (c, pub, signer))]. simpl. rewrite Hc.
    split; [done|]. apply decode_encode.
  - intros c pub signer Hc. simpl. by rewrite Hc.
  - done.
  - done.
  - done.
  - apply N.eqb_refl.
Qed.

Definition draw : Draw := {|
  dr_caKey := 11%N; dr_srvKey := 12%N; dr_caSerial := 1; dr_srvSerial := 2;
  dr_caBefore := 1700000000; dr_caAfter := 1700000000;
  dr_srvBefore := 1700000001; dr_srvAfter := 1700000001 |}.

(** The Secret as the chart creates it. *)
Definition secrets : gmap (rstr * rstr) kube.Secret :=
  {[ (ns, nameGRPCSecret) := {| kube.Sec_Data :=
       {[ CERT_NAME := []; CERT_KEY_NAME := []; CERT_CA_NAME := [] ]} |} ]}.

End IdentityDemo.

#[local] Existing Instance IdentityDemo.pki.

(** The names of the server of the chart. *)
Lemma dns_names_spec_witness :
  buildDNSSANs IdentityDemo.order (IdentityDemo.svc ++ str "." ++ IdentityDemo.ns) =
    [str "argon-controller"; str "argon-controller.argon"; str "argon-controller.argon.svc";
     str "argon-controller.argon.svc.cluster.local"] /\
  NoDup (buildDNSSANs IdentityDemo.order (IdentityDemo.svc ++ str "." ++ IdentityDemo.ns)).
Proof.
  split; [by vm_compute|].
  destruct (dns_names_spec IdentityDemo.order (IdentityDemo.svc ++ str "." ++ IdentityDemo.ns))
    as (_ & Hn & _); [done|exact Hn].
Defined.

(** A data plane started a day after the control plane is accepted, and one
    started two years later is not. *)
Lemma mutual_tls_witness : exists srv,
  NewServer IdentityDemo.order IdentityDemo.draw IdentityDemo.addr
    (IdentityDemo.svc ++ str "." ++ IdentityDemo.ns) = Some srv /\
  client_accepts (CACertPEM (sv_Bundle srv)) IdentityDemo.svc (sv_tlsConfig srv) 1700086400 /\
  exists ca crt key, ~ (server_accepts (sv_tlsConfig srv) crt key 1763072000 /\
                        client_accepts ca IdentityDemo.svc (sv_tlsConfig srv) 1763072000).
Proof.
  assert (draw_ok IdentityDemo.draw) as Hd by (vm_compute; by split_and!).
  assert (46%N ∉ IdentityDemo.svc) as Hdot.
  { apply (bool_decide_unpack (46%N ∉ IdentityDemo.svc)). by vm_compute. }
  destruct (mutual_tls _ IdentityDemo.pki_laws IdentityDemo.order IdentityDemo.draw IdentityDemo.addr
    IdentityDemo.svc IdentityDemo.ns IdentityDemo.ns IdentityDemo.secrets 1700086400)
    as (srv & s' & sec & ca & crt & key & E & Er & Hs & Hca & Hcrt & Hkey & _ & _ & _ & Hw & _);
    [done|done|done|done|by vm_compute..|].
  destruct (mutual_tls _ IdentityDemo.pki_laws IdentityDemo.order IdentityDemo.draw IdentityDemo.addr
    IdentityDemo.svc IdentityDemo.ns IdentityDemo.ns IdentityDemo.secrets 1763072000)
    as (srv2 & s2 & sec2 & ca2 & crt2 & key2 & E2 & _ & _ & _ & _ & _ & _ & _ & _ & Hw2 & _);
    [done|done|done|done|by vm_compute..|].
  rewrite E in E2. injection E2 as <-. exists srv. split; [done|]. split.
  - destruct (proj2 Hw) as [_ H]; [cbn; lia|].
    assert (ca = CACertPEM (sv_Bundle srv)) as <-; [|exact H].
    unfold certs_Reconcile in Er. rewrite decide_True in Er by done.
    injection Er as <-. rewrite lookup_insert_eq in Hs. injection Hs as <-.
    rewrite (proj1 (mutate_lookup _ _)) in Hca. by injection Hca.
  - exists ca2, crt2, key2. intros H. apply Hw2 in H. cbn in H. lia.
Defined.

Lemma unencodable_name_fails_witness :
  NewServer IdentityDemo.order IdentityDemo.draw IdentityDemo.addr [233%N] = None.
Proof.
  apply (unencodable_name_fails _ IdentityDemo.pki_laws); [done|vm_compute; by split_and!|done].
Defined.
