(* ===== verification/Startup.v ===== *)
(** The start of the control plane: [main] of src/images/controlplane/cmd/main.go,
    from the parsed flags to the running manager. What [main] asks of
    controller-runtime is an event; whether it succeeds is up to the environment.
    Logging is left out. A pair of a directory and a file name stands for
    [filepath.Join] of the two. [EManager] stands for [GetConfigOrDie] and
    [NewManager], which both exit with 1 on an error. The slice [tlsOpts] is nil
    or full, so that the two appends to it do not share memory. *)

From stdpp Require Import base gmap list strings sorting.
From Stdlib Require Import NArith ZArith Lia.
From S2P Require Import Prelude RustStr GoLib Model Grpc Identity.

(** ** Flags *)

Record Flags := {
  metricsAddr : rstr; metricsCertPath : rstr; metricsCertName : rstr; metricsCertKey : rstr;
  webhookCertPath : rstr; webhookCertName : rstr; webhookCertKey : rstr;
  enableLeaderElection : bool; probeAddr : rstr; secureMetrics : bool; enableHTTP2 : bool;
  ingressClass : rstr; gatewayClass : rstr; configMapName : rstr; grpcServerName : rstr;
  namespaceName : rstr }.

Definition Flags_default : Flags := {|
  metricsAddr := str "0"; metricsCertPath := []; metricsCertName := str "tls.crt";
  metricsCertKey := str "tls.key"; webhookCertPath := []; webhookCertName := str "tls.crt";
  webhookCertKey := str "tls.key"; enableLeaderElection := false; probeAddr := str ":8081";
  secureMetrics := true; enableHTTP2 := false; ingressClass := str "argon";
  gatewayClass := str "argon-gateway"; configMapName := []; grpcServerName := str "argon";
  namespaceName := str "argon" |}.

(** ** TLS options *)

(** A certificate watcher, by the files it watches. *)
Record CertWatcher := { cw_cert : rstr * rstr; cw_key : rstr * rstr }.

Record tls_Config := { NextProtos : list rstr; GetCertificate : option CertWatcher }.

(** The functions of [tlsOpts]. *)
Inductive tls_opt := disableHTTP2 | useCertWatcher (w : CertWatcher).

Definition apply_opt (c : tls_Config) (o : tls_opt) : tls_Config :=
  match o with
  | disableHTTP2 => {| NextProtos := [str "http/1.1"]; GetCertificate := GetCertificate c |}
  | useCertWatcher w => {| NextProtos := NextProtos c; GetCertificate := Some w |}
  end.
Definition configure (opts : list tls_opt) (c : tls_Config) : tls_Config := fold_left apply_opt opts c.

Record MetricsOptions := {
  BindAddress : rstr; SecureServing : bool; TLSOpts : list tls_opt;
  (** [filters.WithAuthenticationAndAuthorization] is set *)
  FilterProvider : bool }.

Record ManagerOptions := {
  mo_Metrics : MetricsOptions; mo_Webhook : list tls_opt; mo_Probe : rstr; mo_LeaderElection : bool }.

(** ** Effects *)

Section startup.
Context {PK : Pki}.

Inductive Runnable := RunGRPC (s : Server_) | RunCertWatcher (w : CertWatcher).

Inductive event :=
  | ECertWatcher (w : CertWatcher)
  | EManager (o : ManagerOptions)
  | EReconciler (class : rstr)
  | EServer (s : option Server_)
  | ECertController (b : Bundle) (namespace : rstr)
  | EAdd (r : Runnable)
  | EHealthz | EReadyz
  | EStart.

(** What the environment answers: [true] is success. *)
Record Env := {
  env_ok : event -> bool;
  env_order : gset rstr -> list rstr;
  env_draw : Draw }.

(** A program exits, or dereferences a nil pointer, with the events so far. *)
Inductive stop := Exit (code : Z) | NilDereference.
Definition prog (A : Type) : Type := list event -> (A + stop) * list event.

Definition ret {A} (a : A) : prog A := fun log => (inl a, log).
Definition halt {A} (s : stop) : prog A := fun log => (inr s, log).
Definition and_then {A B} (p : prog A) (k : A -> prog B) : prog B := fun log =>
  match p log with
  | (inl a, log') => k a log'
  | (inr s, log') => (inr s, log')
  end.
#[local] Notation "'do!' x := p 'in' k" := (and_then p (fun x => k))
  (at level 10, x binder, k at level 200).

Context (env : Env) (f : Flags).

(** The call is made, and answered. *)
Definition call (e : event) : prog bool := fun log => (inl (env_ok env e), log ++ [e]).

(** [if err := ...; err != nil { os.Exit(1) }] *)
Definition must (e : event) : prog unit :=
  do! ok := call e in if ok : bool then ret tt else halt (Exit 1).

(** ** The steps of [main] *)

Definition new_cert_watcher (path name key : rstr) : prog (option CertWatcher) :=
  if Str.is_empty path then ret None else
  let w := {| cw_cert := (path, name); cw_key := (path, key) |} in
  do! _ := must (ECertWatcher w) in ret (Some w).

Definition tlsOpts : list tls_opt := if enableHTTP2 f then [] else [disableHTTP2].
Definition with_watcher (w : option CertWatcher) : list tls_opt := tlsOpts ++ (useCertWatcher <$> option_list w).

Definition metricsServerOptions (w : option CertWatcher) : MetricsOptions := {|
  BindAddress := metricsAddr f; SecureServing := secureMetrics f; TLSOpts := with_watcher w;
  FilterProvider := secureMetrics f |}.

Definition managerOptions (webhook metrics : option CertWatcher) : ManagerOptions := {|
  mo_Metrics := metricsServerOptions metrics; mo_Webhook := with_watcher webhook;
  mo_Probe := probeAddr f; mo_LeaderElection := enableLeaderElection f |}.

(** An error of [NewServer] is logged only; the server is then nil. *)
Definition new_server : prog (option Server_) :=
  let s := NewServer (env_order env) (env_draw env) (str ":18000") (grpcServerName f) in
  do! _ := call (EServer s) in ret s.

(** [grpcServer.Bundle] is read to pass it on; an error of the setup is logged
    only. *)
Definition setup_certs (server : option Server_) : prog Server_ :=
  match server with
  | None => halt NilDereference
  | Some s => do! _ := call (ECertController (sv_Bundle s) (namespaceName f)) in ret s
  end.

Definition add_watcher (w : option CertWatcher) : prog unit :=
  match w with None => ret tt | Some w => must (EAdd (RunCertWatcher w)) end.

Definition main : prog unit :=
  do! webhook := new_cert_watcher (webhookCertPath f) (webhookCertName f) (webhookCertKey f) in
  do! metrics := new_cert_watcher (metricsCertPath f) (metricsCertName f) (metricsCertKey f) in
  do! _ := must (EManager (managerOptions webhook metrics)) in
  do! _ := must (EReconciler (ingressClass f)) in
  do! server := new_server in
  do! s := setup_certs server in
  do! _ := must (EAdd (RunGRPC s)) in
  do! _ := add_watcher metrics in
  do! _ := add_watcher webhook in
  do! _ := must EHealthz in
  do! _ := must EReadyz in
  must EStart.

(** ** Facts *)

(** The events of a run that gets as far as the manager. *)
Definition watcher_of (path name key : rstr) : option CertWatcher :=
  if Str.is_empty path then None else Some {| cw_cert := (path, name); cw_key := (path, key) |}.
Definition webhook_watcher : option CertWatcher :=
  watcher_of (webhookCertPath f) (webhookCertName f) (webhookCertKey f).
Definition metrics_watcher : option CertWatcher :=
  watcher_of (metricsCertPath f) (metricsCertName f) (metricsCertKey f).
Definition server : option Server_ :=
  NewServer (env_order env) (env_draw env) (str ":18000") (grpcServerName f).

Definition prepare_events : list event :=
  (ECertWatcher <$> option_list webhook_watcher) ++ (ECertWatcher <$> option_list metrics_watcher)
  ++ [EManager (managerOptions webhook_watcher metrics_watcher); EReconciler (ingressClass f)].
Definition register_events (s : Server_) : list event :=
  [EAdd (RunGRPC s)] ++ (EAdd ∘ RunCertWatcher <$> option_list metrics_watcher)
  ++ (EAdd ∘ RunCertWatcher <$> option_list webhook_watcher) ++ [EHealthz; EReadyz; EStart].
Definition all_ok (l : list event) : bool := forallb (env_ok env) l.

(** The events up to and including the first one that fails. *)
Fixpoint until_failure (l : list event) : list event :=
  match l with
  | [] => []
  | e :: l' => e :: if env_ok env e then until_failure l' else []
  end.

(** What [main] does, as the sequence of its calls: the first call that has to
    succeed and does not ends it, and so does a server that could not be made. *)
Lemma main_spec :
  main [] =
  if all_ok prepare_events then
    match server with
    | None => (inr NilDereference, prepare_events ++ [EServer None])
    | Some s =>
        (if all_ok (register_events s) then inl tt else inr (Exit 1),
         prepare_events ++ [EServer (Some s); ECertController (sv_Bundle s) (namespaceName f)]
           ++ until_failure (register_events s))
    end
  else (inr (Exit 1), until_failure prepare_events).
Proof.
  unfold main, prepare_events, register_events, new_cert_watcher, new_server, setup_certs, add_watcher, must,
    call, ret, halt, and_then, webhook_watcher, metrics_watcher, watcher_of, all_ok.
  fold server.
  destruct (Str.is_empty (webhookCertPath f)), (Str.is_empty (metricsCertPath f)); simpl;
    destruct server as [s|]; simpl;
    repeat (match goal with |- context [env_ok env ?e] => destruct (env_ok env e) eqn:? end; simpl; try done).
Qed.

(** A list whose last event is seen ran all the way. *)
Lemma until_failure_last l e :
  (e ∉ l) -> e ∈ until_failure (l ++ [e]) ->
  until_failure (l ++ [e]) = l ++ [e] /\ Forall (fun e => env_ok env e = true) l.
Proof.
  induction l as [|x l IH]; intros He Hin; simpl in *; [by destruct (env_ok env e)|].
  apply not_elem_of_cons in He as [Hne He]. apply elem_of_cons in Hin as [->|Hin]; [done|].
  destruct (env_ok env x) eqn:Ex; [|by apply not_elem_of_nil in Hin].
  destruct (IH He Hin) as [-> Hl]. by split; [|constructor].
Qed.

Lemma until_failure_sub l e : e ∈ until_failure l -> e ∈ l.
Proof.
  induction l as [|x l IH]; simpl; [done|]. rewrite !elem_of_cons. intros [->|Hin]; [by left|].
  right. destruct (env_ok env x); [by apply IH|by apply not_elem_of_nil in Hin].
Qed.

(** The events of the preparation and of the registration, apart from the last
    one. *)
Lemma prepare_no_start : EStart ∉ prepare_events.
Proof.
  unfold prepare_events. destruct webhook_watcher, metrics_watcher; simpl; set_solver.
Qed.

Definition register_calls (s : Server_) : list event :=
  [EAdd (RunGRPC s)] ++ (EAdd ∘ RunCertWatcher <$> option_list metrics_watcher)
  ++ (EAdd ∘ RunCertWatcher <$> option_list webhook_watcher) ++ [EHealthz; EReadyz].

Lemma register_snoc s : register_events s = register_calls s ++ [EStart].
Proof. unfold register_events, register_calls. by rewrite <-!app_assoc. Qed.

Lemma register_no_start s : EStart ∉ register_calls s.
Proof.
  unfold register_calls. destruct webhook_watcher, metrics_watcher; simpl; set_solver.
Qed.

(** The options the manager is made with, whatever happens afterwards. *)
Lemma manager_event o :
  EManager o ∈ (main []).2 -> o = managerOptions webhook_watcher metrics_watcher.
Proof.
  intros Hin. assert (EManager o ∈ prepare_events) as Hp.
  { rewrite main_spec in Hin. destruct (all_ok prepare_events); [|by apply until_failure_sub].
    destruct server as [s|]; cbn [snd] in Hin; [|set_solver].
    apply elem_of_app in Hin as [?|Hin]; [done|]. apply elem_of_app in Hin as [?|Hin]; [set_solver|].
    apply until_failure_sub in Hin. unfold register_events in Hin.
    destruct webhook_watcher, metrics_watcher; simpl in Hin; set_solver. }
  unfold prepare_events in Hp. destruct webhook_watcher, metrics_watcher; simpl in Hp; set_solver.
Qed.

Lemma manager_made :
  all_ok prepare_events = true -> EManager (managerOptions webhook_watcher metrics_watcher) ∈ (main []).2.
Proof.
  intros Hok. rewrite main_spec, Hok. assert (EManager (managerOptions webhook_watcher metrics_watcher)
    ∈ prepare_events) as Hin by (unfold prepare_events; rewrite !elem_of_app; right; right; by left).
  destruct server; apply elem_of_app; by left.
Qed.

End startup.

(** ** Properties *)

(** C29. Nothing is served before everything is in place: if the start-up gets as far
    as starting the manager, then the certificate watchers that were asked for,
    the manager, the reconciler, the server and the controller of its
    certificates were set up in this order, the server and the watchers were
    registered and the probes were added, all of it successfully except possibly
    the certificate controller; the server that was registered is the one
    [NewServer] made, and the certificates handed to the data planes are its
    own. *)
Theorem started_complete {PK : Pki} (env : Env) (f : Flags) :
  EStart ∈ (main env f []).2 ->
  exists s, NewServer (env_order env) (env_draw env) (str ":18000") (grpcServerName f) = Some s /\
    (main env f []).2 =
      prepare_events f ++ [EServer (Some s); ECertController (sv_Bundle s) (namespaceName f)]
        ++ register_events f s /\
    Forall (fun e => env_ok env e = true) (prepare_events f) /\
    Forall (fun e => e = EStart \/ env_ok env e = true) (register_events f s).
Proof.
  rewrite main_spec. fold (server env f). destruct (all_ok env (prepare_events f)) eqn:Eok; cycle 1.
  { intros Hin%until_failure_sub. by apply prepare_no_start in Hin. }
  destruct (server env f) as [s|] eqn:Es; cbn [snd]; intros Hin; cycle 1.
  { apply elem_of_app in Hin as [Hin|Hin]; [by apply prepare_no_start in Hin|set_solver]. }
  apply elem_of_app in Hin as [Hin|Hin]; [by apply prepare_no_start in Hin|].
  cbn [app] in Hin. do 2 (apply elem_of_cons in Hin as [Hin|Hin]; [done|]).
  exists s. rewrite register_snoc in *. apply until_failure_last in Hin as [-> Hl]; [|apply register_no_start].
  split_and!; [done|done| |].
  - apply Forall_forall. intros e He. unfold all_ok in Eok. rewrite forallb_forall in Eok.
    apply Eok. by apply list_elem_of_In.
  - apply Forall_app. split; [|constructor; [by left|constructor]].
    eapply Forall_impl; [exact Hl|]. by right.
Qed.

(** The servers of the manager are as hardened as the flags say: whatever else
    happens, the metrics and the webhook server offer HTTP/1.1 only unless HTTP/2
    was asked for, then they keep what they had; each presents the certificate of
    its own watcher if a path was given; and the metrics are behind
    authentication and authorization exactly if they are served securely. *)
Theorem servers_as_flagged {PK : Pki} (env : Env) (f : Flags) (o : ManagerOptions) (c : tls_Config) :
  EManager o ∈ (main env f []).2 ->
  let metrics := configure (TLSOpts (mo_Metrics o)) c in
  let webhook := configure (mo_Webhook o) c in
  let protos := if enableHTTP2 f then NextProtos c else [str "http/1.1"] in
  NextProtos metrics = protos /\ NextProtos webhook = protos /\
  GetCertificate metrics
    = (if Str.is_empty (metricsCertPath f) then GetCertificate c
       else Some {| cw_cert := (metricsCertPath f, metricsCertName f);
                    cw_key := (metricsCertPath f, metricsCertKey f) |}) /\
  GetCertificate webhook
    = (if Str.is_empty (webhookCertPath f) then GetCertificate c
       else Some {| cw_cert := (webhookCertPath f, webhookCertName f);
                    cw_key := (webhookCertPath f, webhookCertKey f) |}) /\
  FilterProvider (mo_Metrics o) = SecureServing (mo_Metrics o) /\
  SecureServing (mo_Metrics o) = secureMetrics f.
Proof.
  intros ->%manager_event. cbn zeta. unfold managerOptions, metricsServerOptions, with_watcher, tlsOpts,
    webhook_watcher, metrics_watcher, watcher_of, configure. simpl.
  destruct (enableHTTP2 f), (Str.is_empty (metricsCertPath f)), (Str.is_empty (webhookCertPath f)); done.
Qed.

(** A server name that is not in ASCII takes the control plane down: when nothing
    else fails first, no certificate can be made for the name, the error is only
    logged, and the nil server is dereferenced before the manager is started; with
    a name in ASCII that never happens. *)
Theorem unencodable_name_crashes {PK : Pki} {PL : PkiLaws PK} (env : Env) (f : Flags) :
  (forall s, env_order env s ≡ₚ elements s) -> draw_ok (env_draw env) ->
  (main env f []).1 = inr NilDereference <->
  all_ok env (prepare_events f) = true /\ ia5 (grpcServerName f) = false.
Proof.
  intros Ho Hd. rewrite main_spec. unfold server. rewrite NewServer_spec by done.
  destruct (all_ok env (prepare_events f)); [|split; [done|by intros [[=] _]]].
  destruct (ia5 (grpcServerName f)); cbn [fst]; [|done].
  split; [by destruct (all_ok env _)|by intros [_ [=]]].
Qed.

(** ** Witnesses *)

Module StartupDemo.
#[local] Existing Instance IdentityDemo.pki.

Definition env : Env := {|
  env_ok _ := true; env_order := IdentityDemo.order; env_draw := IdentityDemo.draw |}.

(** The flags of a deployment with certificates for both servers. *)
Definition flags (name : rstr) : Flags := {|
  metricsAddr := str ":8443"; metricsCertPath := str "/metrics"; metricsCertName := str "tls.crt";
  metricsCertKey := str "tls.key"; webhookCertPath := str "/webhook"; webhookCertName := str "tls.crt";
  webhookCertKey := str "tls.key"; enableLeaderElection := true; probeAddr := str ":8081";
  secureMetrics := true; enableHTTP2 := false; ingressClass := str "argon";
  gatewayClass := str "argon-gateway"; configMapName := []; grpcServerName := name;
  namespaceName := str "argon" |}.

End StartupDemo.

#[local] Existing Instance IdentityDemo.pki.

Definition starts (l : list event) : bool := existsb (fun e => if e is EStart then true else false) l.

Lemma starts_elem l : starts l = true -> EStart ∈ l.
Proof.
  unfold starts. rewrite existsb_exists. intros (e & He & Hs). apply list_elem_of_In in He.
  by destruct e.
Qed.

Lemma started_complete_witness :
  exists s, NewServer IdentityDemo.order IdentityDemo.draw (str ":18000") (str "argon") = Some s /\
    length (main StartupDemo.env (StartupDemo.flags (str "argon")) []).2 = 12.
Proof.
  destruct (started_complete StartupDemo.env (StartupDemo.flags (str "argon"))) as (s & Hs & _).
  - apply starts_elem. vm_compute. reflexivity.
  - exists s. split; [exact Hs|]. vm_compute. reflexivity.
Defined.

Lemma servers_as_flagged_witness :
  NextProtos (configure (TLSOpts (metricsServerOptions Flags_default None))
    {| NextProtos := [str "h2"; str "http/1.1"]; GetCertificate := None |}) = [str "http/1.1"].
Proof.
  destruct (servers_as_flagged StartupDemo.env Flags_default (managerOptions Flags_default None None)
    {| NextProtos := [str "h2"; str "http/1.1"]; GetCertificate := None |}) as (Hm & _).
  - apply (manager_made StartupDemo.env Flags_default). reflexivity.
  - exact Hm.
Defined.

Lemma unencodable_name_crashes_witness :
  (main StartupDemo.env (StartupDemo.flags [233%N]) []).1 = inr NilDereference.
Proof.
  apply (unencodable_name_crashes (PL := IdentityDemo.pki_laws)); [|vm_compute; by split_and!|].
  - reflexivity.
  - split; vm_compute; reflexivity.
Defined.
